(** * Multi-tier cache of open-canvas: a shallow embedding

    Sources embedded here:
    - [apps/web/src/lib/cache/enhanced-cache-manager.ts]
      (class [EnhancedCacheManager], the cache facade with its memory
      tier),
    - [apps/web/src/lib/cache/redis-cache-manager.ts]
      (class [RedisCacheManager], the remote tier client),
    - [apps/web/src/lib/cache/cache-manager.ts]
      (class [CacheManager]: the reads, the deletions and the eviction
      pass of its memory tier),
    - [apps/web/src/hooks/use-model-cache.ts]
      (the hook [useModelCache], a caller of the facade),
    - [packages/shared/src/errors/error-types.ts] and the class
      [ErrorHandler] (the error codes, [AppError], and the handler that
      the callers of the cache report their failures to).
    The facade calls [get], [set], [delete], [exists], [clear] and
    [destroy] of the client; [mget], [mset] and [getInfo] of the client
    have no caller in the facade and are embedded for their own sake.
    [isConnectedAndReady], which reads the status of the ioredis object,
    the connection parameters of the configuration and the lines written
    to the console are left out.

    Conventions.
    - JavaScript numbers that hold counters, timestamps (milliseconds) and
      TTLs (seconds) are integers, modelled as [Z].  Ratios ([hitRate],
      [avgResponseTime]) are modelled as exact rationals [Q]; IEEE division
      is correctly rounded and monotone, and 0 and 1 are representable, so
      the bounds proved on the exact quotient carry over to the double.
    - [Date.now()] reads the clock of the runtime, which is part of the
      state.  The clock moves when the environment lets time pass: while a
      promise of the remote client is awaited, and between operations.
    - A method may throw.  Every method is a computation in the monad
      [JS.M], whose result is a [JS.completion]: [Normal v] or [Throw e].
      State changes made before a throw persist, as in JavaScript.
    - An [await] on a call of the ioredis client is settled by a [JS.reply]
      supplied by the environment: how long the call takes, and the answer
      of the server or a rejection (network error, timeout).
    - Operations run one after the other: an operation is complete before
      the next one starts.  Within [mset] the calls of [set] overlap as
      [Promise.all] lets them.
    - A [Map] keeps insertion order; it is an association list. *)

From Stdlib Require Import ZArith List String Bool Lia QArith DecimalString.
From Stdlib Require Import Sorting.Sorted Sorting.Permutation.
Import ListNotations.
Local Open Scope Z_scope.

Set Implicit Arguments.

(* ------------------------------------------------------------------ *)
(** ** The JavaScript runtime: completions, promises, timers, Map      *)
(* ------------------------------------------------------------------ *)

Module JS.

(** The outcome of running a piece of code. *)
Inductive completion (A : Type) : Type :=
  | Normal (a : A)
  | Throw (reason : string).
Arguments Throw {A} reason.

(** What a promise of the ioredis client settles to, and after how many
    milliseconds. *)
Inductive settled (A : Type) : Type :=
  | Resolved (a : A)
  | Rejected (reason : string).
Arguments Rejected {A} reason.

Record reply (A : Type) : Type := mkReply {
  latency : N;
  result : settled A
}.

(** Stateful code that may throw; the state survives a throw. *)
Definition M (S A : Type) : Type := S -> completion A * S.

Definition ret {S A} (a : A) : M S A := fun s => (Normal a, s).

Definition bind {S A B} (m : M S A) (k : A -> M S B) : M S B :=
  fun s =>
    match m s with
    | (Normal a, s') => k a s'
    | (Throw e, s') => (Throw e, s')
    end.

Definition throw {S A} (e : string) : M S A := fun s => (Throw e, s).

(** [try { body } catch (error) { handler(error) }] *)
Definition try_catch {S A} (body : M S A) (handler : string -> M S A) : M S A :=
  fun s =>
    match body s with
    | (Normal a, s') => (Normal a, s')
    | (Throw e, s') => handler e s'
    end.

Definition gets {S A} (f : S -> A) : M S A := fun s => (Normal (f s), s).

Definition modify {S} (f : S -> S) : M S unit := fun s => (Normal tt, f s).

(** [when c m]: [if (c) { m }]. *)
Definition when {S} (c : bool) (m : M S unit) : M S unit :=
  if c then m else ret tt.

(** Run a computation inside a part of the state, given how to read the
    part and how to write it back (a method call on another object). *)
Definition zoom {S T A} (rd : S -> T) (wr : T -> S -> S) (m : M T A) : M S A :=
  fun s => let (r, t') := m (rd s) in (r, wr t' s).

(** *** Timers: [setTimeout], [setInterval], [clearTimeout], [clearInterval] *)

Inductive callback : Type :=
  | ReconnectCallback      (* the arrow function of [scheduleReconnect] *)
  | CleanupCallback.       (* the arrow function of [startCleanupTimer] *)

Record timer : Type := mkTimer {
  handle : nat;
  repeating : bool;       (* [setInterval] or [setTimeout] *)
  delay : Z;
  action : callback
}.

(** The runtime of the process: the clock behind [Date.now()] and the
    table of timers that are still to fire. *)
Record Runtime : Type := mkRuntime {
  clock : Z;
  nextHandle : nat;
  pending : list timer
}.

Definition boot (now : Z) : Runtime := mkRuntime now 1 [].

(** Time passes. *)
Definition advance (d : N) (rt : Runtime) : Runtime :=
  mkRuntime (clock rt + Z.of_N d) (nextHandle rt) (pending rt).

(** A timer is entered with the delay that the call gives; a runtime waits
    that long when the number lies between 1 and 2^31 - 1 milliseconds. *)
Definition setTimeout (cb : callback) (d : Z) (rt : Runtime) : nat * Runtime :=
  (nextHandle rt,
   mkRuntime (clock rt) (S (nextHandle rt))
             (pending rt ++ [mkTimer (nextHandle rt) false d cb])).

Definition setInterval (cb : callback) (d : Z) (rt : Runtime) : nat * Runtime :=
  (nextHandle rt,
   mkRuntime (clock rt) (S (nextHandle rt))
             (pending rt ++ [mkTimer (nextHandle rt) true d cb])).

(** [clearTimeout] and [clearInterval] share one table of handles. *)
Definition clearTimer (h : nat) (rt : Runtime) : Runtime :=
  mkRuntime (clock rt) (nextHandle rt)
            (filter (fun t => negb (Nat.eqb (handle t) h)) (pending rt)).

Definition findTimer (h : nat) (rt : Runtime) : option timer :=
  find (fun t => Nat.eqb (handle t) h) (pending rt).

(** A timeout that fires leaves the table; an interval stays. *)
Definition fired (t : timer) (rt : Runtime) : Runtime :=
  if repeating t then rt else clearTimer (handle t) rt.

(** *** [Map<string, V>]: insertion-ordered *)

Section MapOps.
Variable V : Type.

Definition Map : Type := list (string * V).

Fixpoint map_get (k : string) (m : Map) : option V :=
  match m with
  | [] => None
  | (k', v) :: rest => if String.eqb k' k then Some v else map_get k rest
  end.

(** [m.set(k, v)]: an existing key keeps its position, a new key goes
    last. *)
Fixpoint map_set (k : string) (v : V) (m : Map) : Map :=
  match m with
  | [] => [(k, v)]
  | (k', v') :: rest =>
      if String.eqb k' k then (k, v) :: rest
      else (k', v') :: map_set k v rest
  end.

Definition map_delete (k : string) (m : Map) : Map :=
  filter (fun e => negb (String.eqb (fst e) k)) m.

(** [keys.forEach(key => m.delete(key))] *)
Definition delete_all (ks : list string) (m : Map) : Map :=
  fold_left (fun m' k' => map_delete k' m') ks m.

Definition map_size (m : Map) : Z := Z.of_nat (List.length m).

Definition map_keys (m : Map) : list string := List.map fst m.
End MapOps.

(** *** [Array.prototype.sort] with a comparator [(a, b) => f a - f b]

The sort is stable (ECMAScript 2019), so its result is the one of a
stable insertion sort. *)
Section Sort.
Variable A : Type.
Variable f : A -> Z.

(** The order of the comparator. *)
Definition le_by (a b : A) : Prop := f a <= f b.

Fixpoint insert_sorted (x : A) (l : list A) : list A :=
  match l with
  | [] => [x]
  | y :: ys => if f x <=? f y then x :: y :: ys else y :: insert_sorted x ys
  end.

Fixpoint sort_by (l : list A) : list A :=
  match l with
  | [] => []
  | x :: xs => insert_sorted x (sort_by xs)
  end.
End Sort.

End JS.

Declare Scope js_scope.
Delimit Scope js_scope with js.
Notation "x <- m ;; k" := (JS.bind m (fun x => k))
  (at level 61, m at next level, right associativity) : js_scope.
Notation "m ;;; k" := (JS.bind m (fun _ => k))
  (at level 61, right associativity) : js_scope.

Local Open Scope js_scope.

(** [JSON.stringify] and [JSON.parse] over the cached payloads.  Either may
  throw (a cyclic object, a malformed text); [JSON.parse] of the text
  [null] is [null], here [None]. *)
Class Json (value : Type) : Type := {
  JSON_stringify : value -> JS.completion string;
  JSON_parse : string -> JS.completion (option value)
}.

(** Running a pure call that may throw. *)
Definition eval {S A} (c : JS.completion A) : JS.M S A := fun s => (c, s).

(** *** Strings: [split], [includes]

A string is its sequence of bytes (UTF-8).  The separators and the
needles of the code are ASCII texts, whose bytes occur in a UTF-8 text
only where the characters do, so that splitting and searching the bytes
is splitting and searching the characters. *)

Module JSString.

(** Carriage return, line feed and colon. *)
Definition CR : Ascii.ascii := Ascii.ascii_of_nat 13.
Definition LF : Ascii.ascii := Ascii.ascii_of_nat 10.
Definition COLON : Ascii.ascii := Ascii.ascii_of_nat 58.

Definition CRLF : string := String CR (String LF EmptyString).

Definition colon : string := String COLON EmptyString.

(** [s.split(sep)] for a separator that is not empty: the text is cut at
    each occurrence of [sep], found from left to right.  [skip] counts the
    characters of an occurrence that are still to be passed over, [cur] is
    the piece under way. *)
Fixpoint split_from (sep s : string) (skip : nat) (cur : string) : list string :=
  match s with
  | EmptyString => [cur]
  | String c rest =>
      match skip with
      | S n => split_from sep rest n cur
      | O =>
          if String.prefix sep s
          then cur :: split_from sep rest (Nat.pred (String.length sep)) EmptyString
          else split_from sep rest O (cur ++ String c EmptyString)
      end
  end.

Definition split (sep s : string) : list string := split_from sep s O EmptyString.

(** [s.includes(needle)] *)
Fixpoint includes (needle s : string) : bool :=
  String.prefix needle s ||
  match s with
  | EmptyString => false
  | String _ rest => includes needle rest
  end.

(** [parts.join(sep)] *)
Fixpoint join (sep : string) (parts : list string) : string :=
  match parts with
  | [] => EmptyString
  | [p] => p
  | p :: rest => p ++ sep ++ join sep rest
  end.

(** An array index, the kind of property key that an object enumerates
    first and in numeric order: the decimal text, without a leading zero,
    of an integer from 0 to 2^32 - 2. *)
Definition ZERO : Ascii.ascii := Ascii.ascii_of_nat 48.

Definition digit (c : Ascii.ascii) : option N :=
  let n := Ascii.N_of_ascii c in
  if ((48 <=? n) && (n <=? 57))%N then Some (n - 48)%N else None.

Fixpoint digits (s : string) (acc : N) : option N :=
  match s with
  | EmptyString => Some acc
  | String c rest =>
      match digit c with
      | Some d => digits rest (10 * acc + d)%N
      | None => None
      end
  end.

Definition array_index (s : string) : option N :=
  match s with
  | EmptyString => None
  | String c rest =>
      if Ascii.eqb c ZERO && negb (String.eqb rest EmptyString) then None
      else
        match digits s 0%N with
        | Some n => if (n <=? 4294967294)%N then Some n else None
        | None => None
        end
  end.

End JSString.

(* ------------------------------------------------------------------ *)
(** ** redis-cache-manager.ts: class RedisCacheManager                  *)
(* ------------------------------------------------------------------ *)

Module RedisCacheManager.

(** [interface CacheStats].  [avgResponseTime] is [None] once it is not a
    finite number (a division by [requests = 0]). *)
Record CacheStats : Type := mkStats {
  requests : Z;
  hits : Z;
  misses : Z;
  errors : Z;
  hitRate : Q;
  avgResponseTime : option Q
}.

(** The ioredis client object behind [this.redis]. *)
Inductive Redis : Type := ioredis.

(** The fields of an instance. *)
Record t : Type := mk {
  redis : option Redis;
  isConnected : bool;
  stats : CacheStats;
  reconnectAttempts : Z;
  maxReconnectAttempts : Z;
  reconnectTimer : option nat
}.

(** An instance together with the runtime of the process. *)
Record env : Type := mkEnv {
  rt : JS.Runtime;
  this : t
}.

Definition M := JS.M env.

Definition set_stats (f : CacheStats -> CacheStats) (e : env) : env :=
  let s := this e in
  mkEnv (rt e)
        (mk (redis s) (isConnected s) (f (stats s)) (reconnectAttempts s)
            (maxReconnectAttempts s) (reconnectTimer s)).

Definition set_isConnected (b : bool) (e : env) : env :=
  let s := this e in
  mkEnv (rt e)
        (mk (redis s) b (stats s) (reconnectAttempts s)
            (maxReconnectAttempts s) (reconnectTimer s)).

Definition set_reconnectAttempts (n : Z) (e : env) : env :=
  let s := this e in
  mkEnv (rt e)
        (mk (redis s) (isConnected s) (stats s) n
            (maxReconnectAttempts s) (reconnectTimer s)).

Definition set_reconnectTimer (h : option nat) (e : env) : env :=
  let s := this e in
  mkEnv (rt e)
        (mk (redis s) (isConnected s) (stats s) (reconnectAttempts s)
            (maxReconnectAttempts s) h).

Definition set_redis (r : option Redis) (e : env) : env :=
  let s := this e in
  mkEnv (rt e)
        (mk r (isConnected s) (stats s) (reconnectAttempts s)
            (maxReconnectAttempts s) (reconnectTimer s)).

Definition set_rt (f : JS.Runtime -> JS.Runtime) (e : env) : env :=
  mkEnv (f (rt e)) (this e).

Definition incr_requests (st : CacheStats) : CacheStats :=
  mkStats (requests st + 1) (hits st) (misses st) (errors st)
          (hitRate st) (avgResponseTime st).
Definition incr_hits (st : CacheStats) : CacheStats :=
  mkStats (requests st) (hits st + 1) (misses st) (errors st)
          (hitRate st) (avgResponseTime st).
Definition incr_misses (st : CacheStats) : CacheStats :=
  mkStats (requests st) (hits st) (misses st + 1) (errors st)
          (hitRate st) (avgResponseTime st).
Definition incr_errors (st : CacheStats) : CacheStats :=
  mkStats (requests st) (hits st) (misses st) (errors st + 1)
          (hitRate st) (avgResponseTime st).

(** [Date.now()] *)
Definition Date_now : M Z := JS.gets (fun e => JS.clock (rt e)).

(** [await p] for a promise [p] of the client that settles as [r] says. *)
Definition await {A} (r : JS.reply A) : M A :=
  JS.modify (set_rt (JS.advance (JS.latency r))) ;;;
  match JS.result r with
  | JS.Resolved a => JS.ret a
  | JS.Rejected e => JS.throw e
  end.

(** [constructor]: the statistics start at zero and [initializeRedis]
    returns at its first statement, so no client is created. *)
Definition initialStats : CacheStats := mkStats 0 0 0 0 0%Q (Some 0%Q).

Definition constructor : t :=
  mk None false initialStats 0 5 None.

(** [!this.redis || !this.isConnected] *)
Definition unavailable (s : t) : bool :=
  match redis s with
  | None => true
  | Some _ => negb (isConnected s)
  end.

(** [updateAvgResponseTime] *)
Definition updateAvgResponseTime (responseTime : Z) : M unit :=
  JS.modify (set_stats (fun st =>
    let totalRequests := requests st in
    mkStats (requests st) (hits st) (misses st) (errors st) (hitRate st)
      (match avgResponseTime st with
       | Some avg =>
           if totalRequests =? 0 then None
           else Some ((avg * inject_Z (totalRequests - 1) + inject_Z responseTime)
                      / inject_Z totalRequests)%Q
       | None => None
       end))).

(** [updateHitRate] *)
Definition updateHitRate : M unit :=
  JS.modify (set_stats (fun st =>
    mkStats (requests st) (hits st) (misses st) (errors st)
      (if 0 <? requests st
       then (inject_Z (hits st) / inject_Z (requests st))%Q
       else 0%Q)
      (avgResponseTime st))).

(** [scheduleReconnect] *)
Definition scheduleReconnect : M unit :=
  s <- JS.gets this ;;
  if maxReconnectAttempts s <=? reconnectAttempts s then JS.ret tt
  else
    (match reconnectTimer s with
     | Some h => JS.modify (set_rt (JS.clearTimer h))
     | None => JS.ret tt
     end) ;;;
    let delay := 2 ^ reconnectAttempts s * 1000 in
    JS.modify (fun e =>
      let (h, rt') := JS.setTimeout JS.ReconnectCallback delay (rt e) in
      set_reconnectTimer (Some h) (set_rt (fun _ => rt') e)).

(** The callback given to [setTimeout] by [scheduleReconnect].
    [this.redis.connect()] changes no field; its outcome comes back as a
    later ['connect'] or ['error'] event. *)
Definition reconnectCallback : M unit :=
  JS.modify (fun e => set_reconnectAttempts (reconnectAttempts (this e) + 1) e).

(** The handlers installed by [setupEventHandlers], and the firing of a
    timer of the table. *)
Inductive event : Type :=
  | Connect
  | Ready
  | Error
  | Close
  | Reconnecting
  | TimerFires (h : nat).

Definition on_connect : M unit :=
  JS.modify (set_isConnected true) ;;;
  JS.modify (set_reconnectAttempts 0).

Definition on_ready : M unit := JS.modify (set_isConnected true).

Definition on_error : M unit :=
  JS.modify (set_isConnected false) ;;;
  JS.modify (set_stats incr_errors) ;;;
  scheduleReconnect.

Definition on_close : M unit := JS.modify (set_isConnected false).

Definition on_reconnecting : M unit := JS.ret tt.

Definition fire (h : nat) : M unit :=
  r <- JS.gets rt ;;
  match JS.findTimer h r with
  | Some tm =>
      JS.modify (set_rt (JS.fired tm)) ;;;
      match JS.action tm with
      | JS.ReconnectCallback => reconnectCallback
      | JS.CleanupCallback => JS.ret tt   (* not a timer of this class *)
      end
  | None => JS.ret tt
  end.

Definition dispatch (ev : event) : M unit :=
  match ev with
  | Connect => on_connect
  | Ready => on_ready
  | Error => on_error
  | Close => on_close
  | Reconnecting => on_reconnecting
  | TimerFires h => fire h
  end.

Fixpoint run (evs : list event) (e : env) : env :=
  match evs with
  | [] => e
  | ev :: rest => run rest (snd (dispatch ev e))
  end.

(** A call of [set] that has reached its [await]. *)
Inductive inflight : Type :=
  | Finished
  | Awaiting (startTime : Z).

Section Operations.
Context {value : Type} `{Json value}.

(** [get]; [r] settles [this.redis.get(key)]. *)
Definition get (key : string) (r : JS.reply (option string)) : M (option value) :=
  s <- JS.gets this ;;
  if unavailable s then JS.ret None
  else
    startTime <- Date_now ;;
    JS.modify (set_stats incr_requests) ;;;
    JS.try_catch
      (data <- await r ;;
       now <- Date_now ;;
       updateAvgResponseTime (now - startTime) ;;;
       match data with
       | None =>
           JS.modify (set_stats incr_misses) ;;;
           updateHitRate ;;;
           JS.ret None
       | Some text =>
           JS.modify (set_stats incr_hits) ;;;
           updateHitRate ;;;
           eval (JSON_parse text)
       end)
      (fun _ =>
         JS.modify (set_stats incr_errors) ;;;
         JS.ret None).

(** [set], up to its [await]: the guard, [JSON.stringify], and the
    command sent. *)
Definition set_begin (key : string) (data : value) (ttlSeconds : Z) : M inflight :=
  s <- JS.gets this ;;
  if unavailable s then JS.ret Finished
  else
    startTime <- Date_now ;;
    JS.try_catch
      (serializedData <- eval (JSON_stringify data) ;;
       JS.ret (Awaiting startTime))
      (fun _ =>
         JS.modify (set_stats incr_errors) ;;;
         JS.ret Finished).

(** [set], from its [await] on; [r] settles
    [this.redis.setex(key, ttlSeconds, serializedData)]. *)
Definition set_resume (p : inflight) (r : JS.reply unit) : M unit :=
  match p with
  | Finished => JS.ret tt
  | Awaiting startTime =>
      JS.try_catch
        (await r ;;;
         now <- Date_now ;;
         updateAvgResponseTime (now - startTime))
        (fun _ => JS.modify (set_stats incr_errors))
  end.

(** [set] *)
Definition set (key : string) (data : value) (ttlSeconds : Z)
           (r : JS.reply unit) : M unit :=
  p <- set_begin key data ttlSeconds ;;
  set_resume p r.

(** [results.map(result => result ? JSON.parse(result) : null)]: [null]
    and the empty text are falsy and give [null]; the first text that
    does not parse ends the [map]. *)
Fixpoint parse_results (results : list (option string))
  : JS.completion (list (option value)) :=
  match results with
  | [] => JS.Normal []
  | result :: rest =>
      match (match result with
             | Some EmptyString => JS.Normal None
             | Some text => JSON_parse text
             | None => JS.Normal None
             end) with
      | JS.Normal v =>
          match parse_results rest with
          | JS.Normal vs => JS.Normal (v :: vs)
          | JS.Throw e => JS.Throw e
          end
      | JS.Throw e => JS.Throw e
      end
  end.

(** [keys.map(() => null)] *)
Definition nulls (keys : list string) : list (option value) :=
  List.map (fun _ => None) keys.

(** [mget]; [r] settles [this.redis.mget(...keys)]. *)
Definition mget (keys : list string) (r : JS.reply (list (option string)))
  : M (list (option value)) :=
  s <- JS.gets this ;;
  if unavailable s then JS.ret (nulls keys)
  else
    JS.try_catch
      (results <- await r ;;
       eval (parse_results results))
      (fun _ =>
         JS.modify (set_stats incr_errors) ;;;
         JS.ret (nulls keys)).

(** A command queued on the pipeline of [mset]. *)
Inductive command : Type :=
  | SETEX (key : string) (seconds : Z) (text : string)
  | SET (key : string) (text : string).

(** The [forEach] of [mset]: an item whose [ttl] is missing or 0 (falsy)
    is queued without an expiry.  A payload that does not serialize ends
    the loop. *)
Fixpoint queue (items : list (string * value * option Z))
  : JS.completion (list command) :=
  match items with
  | [] => JS.Normal []
  | (key, data, ttl) :: rest =>
      match JSON_stringify data with
      | JS.Normal serializedData =>
          let cmd :=
            match ttl with
            | Some t => if t =? 0 then SET key serializedData
                        else SETEX key t serializedData
            | None => SET key serializedData
            end in
          match queue rest with
          | JS.Normal cmds => JS.Normal (cmd :: cmds)
          | JS.Throw e => JS.Throw e
          end
      | JS.Throw e => JS.Throw e
      end
  end.

(** [mset]; [r] settles [pipeline.exec()]. *)
Definition mset (items : list (string * value * option Z)) (r : JS.reply unit)
  : M unit :=
  s <- JS.gets this ;;
  if unavailable s then JS.ret tt
  else
    JS.try_catch
      (pipeline <- eval (queue items) ;;
       await r)
      (fun _ => JS.modify (set_stats incr_errors)).
End Operations.

(** [delete]; [r] settles [this.redis.del(key)]. *)
Definition delete (key : string) (r : JS.reply unit) : M unit :=
  s <- JS.gets this ;;
  if unavailable s then JS.ret tt
  else
    JS.try_catch (await r)
                 (fun _ => JS.modify (set_stats incr_errors)).

(** [exists]; [r] settles [this.redis.exists(key)]. *)
Definition exists_ (key : string) (r : JS.reply Z) : M bool :=
  s <- JS.gets this ;;
  if unavailable s then JS.ret false
  else
    JS.try_catch (result <- await r ;; JS.ret (result =? 1))
                 (fun _ => JS.modify (set_stats incr_errors) ;;; JS.ret false).

(** [clear]; [r] settles [this.redis.flushdb()]. *)
Definition clear (r : JS.reply unit) : M unit :=
  s <- JS.gets this ;;
  if unavailable s then JS.ret tt
  else
    JS.try_catch (await r)
                 (fun _ => JS.modify (set_stats incr_errors)).

(** [getStats] *)
Definition getStats : M CacheStats := JS.gets (fun e => stats (this e)).

(** A plain object, given by its own properties in the order in which
    the object enumerates them ([Object.keys], [for ... in],
    [JSON.stringify]): the array indices in ascending numeric order, then
    the other keys in the order in which they were created.
    [insert_index] creates a property whose key is the array index [n]. *)
Fixpoint insert_index (n : N) (en : string * string) (obj : JS.Map string)
  : JS.Map string :=
  match obj with
  | [] => [en]
  | en' :: rest =>
      match JSString.array_index (fst en') with
      | Some m => if (n <? m)%N then en :: obj else en' :: insert_index n en rest
      | None => en :: obj
      end
  end.

(** [infoObj[key] = value]: the value of a property that exists is
    replaced where it stands; a new property is created, an array index
    among the array indices, any other key at the end.  The key
    [__proto__] names the accessor of [Object.prototype], which ignores a
    string, so that no property is made. *)
Definition assign (key value : string) (infoObj : JS.Map string) : JS.Map string :=
  if String.eqb key "__proto__" then infoObj
  else
    match JSString.array_index key, JS.map_get key infoObj with
    | Some n, None => insert_index n (key, value) infoObj
    | _, _ => JS.map_set key value infoObj
    end.

(** The body of the [forEach] of [getInfo]: a line with a colon is cut at
    its colons, and the first two pieces are the key and the value. *)
Definition info_line (infoObj : JS.Map string) (line : string) : JS.Map string :=
  if JSString.includes JSString.colon line then
    match JSString.split JSString.colon line with
    | key :: value :: _ => assign key value infoObj
    | _ => infoObj
    end
  else infoObj.

(** [getInfo]; [r] settles [this.redis.info()].  The object returned is
    given by its properties, in the order in which it enumerates them.  A
    failure is logged and not counted. *)
Definition getInfo (r : JS.reply string) : M (option (JS.Map string)) :=
  s <- JS.gets this ;;
  if unavailable s then JS.ret None
  else
    JS.try_catch
      (info <- await r ;;
       JS.ret (Some (fold_left info_line (JSString.split JSString.CRLF info) [])))
      (fun _ => JS.ret None).

(** [destroy] *)
Definition destroy : M unit :=
  s <- JS.gets this ;;
  (match reconnectTimer s with
   | Some h =>
       JS.modify (set_rt (JS.clearTimer h)) ;;;
       JS.modify (set_reconnectTimer None)
   | None => JS.ret tt
   end) ;;;
  s <- JS.gets this ;;
  (match redis s with
   | Some _ => JS.modify (set_redis None)     (* after [this.redis.disconnect()] *)
   | None => JS.ret tt
   end) ;;;
  JS.modify (set_isConnected false).

End RedisCacheManager.

(* ------------------------------------------------------------------ *)
(** ** enhanced-cache-manager.ts: class EnhancedCacheManager            *)
(* ------------------------------------------------------------------ *)

Module EnhancedCacheManager.

Module Redis := RedisCacheManager.

Inductive BackendType : Type := redis | memory.
Inductive BackendStatus : Type := connected | error | disabled.
Inductive PreferredBackend : Type := prefer_redis | prefer_memory | auto.

(** [interface CacheStats] *)
Record TotalStats : Type := mkTotal {
  requests : Z;
  hits : Z;
  misses : Z;
  hitRate : Q
}.

Record BackendStats : Type := mkBackend {
  type : BackendType;
  status : BackendStatus;
  backendHitRate : Q
}.

Record MemoryStats : Type := mkMemory {
  size : Z;
  memoryHitRate : Q
}.

Record CacheStats : Type := mkStats {
  total : TotalStats;
  backend : BackendStats;
  memoryCacheStats : MemoryStats
}.

(** [interface EnhancedCacheConfig] *)
Record EnhancedCacheConfig : Type := mkConfig {
  defaultTtl : Z;
  maxMemorySize : Z;
  cleanupInterval : Z;
  preferredBackend : PreferredBackend;
  enableMemoryCache : bool
}.

Definition defaultConfig : EnhancedCacheConfig :=
  mkConfig 300 (50 * 1024 * 1024) 60000 auto true.

Definition zeroStats (ty : BackendType) (st : BackendStatus) : CacheStats :=
  mkStats (mkTotal 0 0 0 0%Q) (mkBackend ty st 0%Q) (mkMemory 0 0%Q).

Section WithValue.
Context {value : Type} `{Json value}.

(** [interface CacheItem] *)
Record CacheItem : Type := mkItem {
  data : value;
  timestamp : Z;
  ttl : Z;
  accessCount : Z;
  lastAccessed : Z
}.

(** The fields of an instance.  [redisCache] is [null] ([false]) or the
    instance given by [RedisCacheManager.getInstance()] ([true]). *)
Record t : Type := mk {
  redisCache : bool;
  memoryCache : JS.Map CacheItem;
  config : EnhancedCacheConfig;
  stats : CacheStats;
  cleanupTimer : option nat;
  backendType : BackendType
}.

(** The instance, the [RedisCacheManager] instance of the process, and
    the runtime. *)
Record env : Type := mkEnv {
  rt : JS.Runtime;
  redisInstance : Redis.t;
  this : t
}.

Definition M := JS.M env.

Definition upd (f : t -> t) (e : env) : env :=
  mkEnv (rt e) (redisInstance e) (f (this e)).

Definition set_rt (f : JS.Runtime -> JS.Runtime) (e : env) : env :=
  mkEnv (f (rt e)) (redisInstance e) (this e).

Definition set_redisCache (b : bool) : env -> env :=
  upd (fun s => mk b (memoryCache s) (config s) (stats s)
                   (cleanupTimer s) (backendType s)).

Definition set_memoryCache (f : JS.Map CacheItem -> JS.Map CacheItem) : env -> env :=
  upd (fun s => mk (redisCache s) (f (memoryCache s)) (config s) (stats s)
                   (cleanupTimer s) (backendType s)).

Definition set_stats (f : CacheStats -> CacheStats) : env -> env :=
  upd (fun s => mk (redisCache s) (memoryCache s) (config s) (f (stats s))
                   (cleanupTimer s) (backendType s)).

Definition set_cleanupTimer (h : option nat) : env -> env :=
  upd (fun s => mk (redisCache s) (memoryCache s) (config s) (stats s)
                   h (backendType s)).

Definition set_backendType (b : BackendType) : env -> env :=
  upd (fun s => mk (redisCache s) (memoryCache s) (config s) (stats s)
                   (cleanupTimer s) b).

Definition set_total (f : TotalStats -> TotalStats) : env -> env :=
  set_stats (fun st => mkStats (f (total st)) (backend st) (memoryCacheStats st)).

Definition set_backend (f : BackendStats -> BackendStats) : env -> env :=
  set_stats (fun st => mkStats (total st) (f (backend st)) (memoryCacheStats st)).

Definition set_memoryCacheStats (f : MemoryStats -> MemoryStats) : env -> env :=
  set_stats (fun st => mkStats (total st) (backend st) (f (memoryCacheStats st))).

Definition incr_requests : env -> env :=
  set_total (fun tt => mkTotal (requests tt + 1) (hits tt) (misses tt) (hitRate tt)).
Definition incr_hits : env -> env :=
  set_total (fun tt => mkTotal (requests tt) (hits tt + 1) (misses tt) (hitRate tt)).
Definition incr_misses : env -> env :=
  set_total (fun tt => mkTotal (requests tt) (hits tt) (misses tt + 1) (hitRate tt)).
Definition set_status (st : BackendStatus) : env -> env :=
  set_backend (fun b => mkBackend (type b) st (backendHitRate b)).

(** [Date.now()] *)
Definition Date_now : M Z := JS.gets (fun e => JS.clock (rt e)).

(** A method call on [this.redisCache]. *)
Definition on_redis {A} (m : Redis.M A) : M A :=
  JS.zoom (fun e => Redis.mkEnv (rt e) (redisInstance e))
          (fun r e => mkEnv (Redis.rt r) (Redis.this r) (this e))
          m.

(** Calling an [async] method gives a promise: the call itself does not
    throw, the promise carries the completion. *)
Definition promise {A} (m : M A) : M (JS.completion A) :=
  fun e => let (c, e') := m e in (JS.Normal c, e').

(** [this.backendType === 'redis' && this.redisCache] *)
Definition remoteActive (s : t) : bool :=
  match backendType s with
  | redis => redisCache s
  | memory => false
  end.

(** [isExpired] *)
Definition isExpired (item : CacheItem) : M bool :=
  now <- Date_now ;;
  JS.ret (ttl item * 1000 <? now - timestamp item).

(** [updateAccessStats]: the item is the object stored under [key], so
    the change is seen through the map. *)
Definition updateAccessStats (key : string) (item : CacheItem) : M unit :=
  now <- Date_now ;;
  JS.modify (set_memoryCache
    (JS.map_set key (mkItem (data item) (timestamp item) (ttl item)
                            (accessCount item + 1) now))).

Inductive HitRateOf : Type := of_memory | of_backend.

(** [calculateHitRate] *)
Definition calculateHitRate (which : HitRateOf) : M Q :=
  st <- JS.gets (fun e => stats (this e)) ;;
  if requests (total st) =? 0 then JS.ret 0%Q
  else match which with
       | of_memory => JS.ret (memoryHitRate (memoryCacheStats st))
       | of_backend => JS.ret (backendHitRate (backend st))
       end.

(** [checkMemoryLimit].  [Math.floor(entries.length * 0.1)] is
    [entries.length / 10] rounded down: the double nearest to 0.1 is
    above 1/10 by less than one part in 2^55, products are rounded to
    the nearest double, and every integer below 2^53 is a double. *)
Definition checkMemoryLimit : M unit :=
  s <- JS.gets this ;;
  if 1000 <? JS.map_size (memoryCache s) then
    let entries := memoryCache s in
    let sorted := JS.sort_by (fun en => lastAccessed (snd en)) entries in
    let toDelete := firstn (Nat.div (List.length sorted) 10) sorted in
    JS.modify (set_memoryCache (fun m =>
      fold_left (fun m' en => JS.map_delete (fst en) m') toDelete m))
  else JS.ret tt.

(** [get], part 2: the backend cache.  [r] settles the read of the
    remote client. *)
Definition get_backend (key : string) (r : JS.reply (option string))
  : M (option value) :=
  s <- JS.gets this ;;
  returned <-
    (if remoteActive s then
       JS.try_catch
         (result <- on_redis (Redis.get key r) ;;
          match result with
          | Some res =>
              (if enableMemoryCache (config s) then
                 now <- Date_now ;;
                 JS.modify (set_memoryCache
                   (JS.map_set key (mkItem res now (defaultTtl (config s)) 1 now)))
               else JS.ret tt) ;;;
              rate <- calculateHitRate of_backend ;;
              JS.modify (set_backend (fun b => mkBackend (type b) (status b) rate)) ;;;
              JS.modify incr_hits ;;;
              JS.ret (Some res)
          | None => JS.ret None
          end)
         (fun _ =>
            JS.modify (set_status error) ;;;
            JS.ret None)
     else JS.ret None) ;;
  match returned with
  | Some res => JS.ret (Some res)
  | None =>
      JS.modify incr_misses ;;;
      JS.ret None
  end.

(** [get] *)
Definition get (key : string) (r : JS.reply (option string)) : M (option value) :=
  JS.modify incr_requests ;;;
  s <- JS.gets this ;;
  match (if enableMemoryCache (config s)
         then JS.map_get key (memoryCache s) else None) with
  | Some memoryItem =>
      expired <- isExpired memoryItem ;;
      if negb expired then
        updateAccessStats key memoryItem ;;;
        rate <- calculateHitRate of_memory ;;
        JS.modify (set_memoryCacheStats (fun ms => mkMemory (size ms) rate)) ;;;
        JS.modify incr_hits ;;;
        JS.ret (Some (data memoryItem))
      else get_backend key r
  | None => get_backend key r
  end.

(** A call of [set] that is suspended at its [await], with the promise
    it waits for. *)
Inductive suspended : Type :=
  | Completed
  | Suspended (p : JS.completion Redis.inflight).

(** [set], up to its [await].  Without a remote tier there is no
    [await] and the call runs to its end. *)
Definition set_begin (key : string) (data : value) (ttl : option Z) : M suspended :=
  s <- JS.gets this ;;
  let ttl := match ttl with Some x => x | None => defaultTtl (config s) end in
  now <- Date_now ;;
  let item := mkItem data now ttl 0 now in
  (if enableMemoryCache (config s)
   then JS.modify (set_memoryCache (JS.map_set key item))
   else JS.ret tt) ;;;
  if remoteActive s then
    p <- promise (on_redis (Redis.set_begin key data ttl)) ;;
    JS.ret (Suspended p)
  else
    checkMemoryLimit ;;;
    JS.ret Completed.

(** [set], from its [await] on. *)
Definition set_resume (sp : suspended) (r : JS.reply unit) : M unit :=
  match sp with
  | Completed => JS.ret tt
  | Suspended p =>
      JS.try_catch
        (i <- eval p ;;
         on_redis (Redis.set_resume i r))
        (fun _ => JS.modify (set_status error)) ;;;
      checkMemoryLimit
  end.

(** [set]; [r] settles the write of the remote client. *)
Definition set (key : string) (data : value) (ttl : option Z)
           (r : JS.reply unit) : M unit :=
  sp <- set_begin key data ttl ;;
  set_resume sp r.

(** [delete] *)
Definition delete (key : string) (r : JS.reply unit) : M unit :=
  s <- JS.gets this ;;
  (if enableMemoryCache (config s)
   then JS.modify (set_memoryCache (JS.map_delete key))
   else JS.ret tt) ;;;
  if remoteActive s then
    JS.try_catch (on_redis (Redis.delete key r))
                 (fun _ => JS.modify (set_status error))
  else JS.ret tt.

(** [exists], the backend part. *)
Definition exists_backend (key : string) (r : JS.reply Z) : M bool :=
  s <- JS.gets this ;;
  if remoteActive s then
    JS.try_catch (on_redis (Redis.exists_ key r))
                 (fun _ => JS.modify (set_status error) ;;; JS.ret false)
  else JS.ret false.

(** [exists] *)
Definition exists_ (key : string) (r : JS.reply Z) : M bool :=
  s <- JS.gets this ;;
  match (if enableMemoryCache (config s)
         then JS.map_get key (memoryCache s) else None) with
  | Some memoryItem =>
      expired <- isExpired memoryItem ;;
      if negb expired then JS.ret true else exists_backend key r
  | None => exists_backend key r
  end.

(** [mget]: one [get] after the other. *)
Fixpoint mget (keys : list (string * JS.reply (option string)))
  : M (list (option value)) :=
  match keys with
  | [] => JS.ret []
  | (key, r) :: rest =>
      result <- get key r ;;
      results <- mget rest ;;
      JS.ret (result :: results)
  end.

(** [mset]: [items.map(item => this.set(...))] runs every call up to its
    [await]; [Promise.all] then lets the calls resume, here in the
    order in which the commands were sent. *)
Fixpoint mset_begin (items : list (string * value * option Z * JS.reply unit))
  : M (list (suspended * JS.reply unit)) :=
  match items with
  | [] => JS.ret []
  | (key, data, ttl, r) :: rest =>
      sp <- set_begin key data ttl ;;
      sps <- mset_begin rest ;;
      JS.ret ((sp, r) :: sps)
  end.

Fixpoint mset_resume (sps : list (suspended * JS.reply unit)) : M unit :=
  match sps with
  | [] => JS.ret tt
  | (sp, r) :: rest => set_resume sp r ;;; mset_resume rest
  end.

Definition mset (items : list (string * value * option Z * JS.reply unit)) : M unit :=
  sps <- mset_begin items ;;
  mset_resume sps.

(** [clear] *)
Definition clear (r : JS.reply unit) : M unit :=
  s <- JS.gets this ;;
  (if enableMemoryCache (config s)
   then JS.modify (set_memoryCache (fun _ => []))
   else JS.ret tt) ;;;
  (if remoteActive s then
     JS.try_catch (on_redis (Redis.clear r))
                  (fun _ => JS.modify (set_status error))
   else JS.ret tt) ;;;
  JS.modify (set_stats (fun _ => zeroStats (backendType s) connected)).

(** [getStats] *)
Definition getStats : M CacheStats :=
  s <- JS.gets this ;;
  JS.modify (set_memoryCacheStats (fun ms =>
    mkMemory (JS.map_size (memoryCache s)) (memoryHitRate ms))) ;;;
  JS.modify (set_total (fun tt =>
    mkTotal (requests tt) (hits tt) (misses tt)
            (if 0 <? requests tt
             then (inject_Z (hits tt) / inject_Z (requests tt))%Q
             else 0%Q))) ;;;
  JS.gets (fun e => stats (this e)).

(** [getBackendType] *)
Definition getBackendType : M BackendType :=
  JS.gets (fun e => backendType (this e)).

(** [cleanupExpiredItems] *)
Definition cleanupExpiredItems : M unit :=
  now <- Date_now ;;
  s <- JS.gets this ;;
  let expiredKeys :=
    List.map fst
      (filter (fun en => ttl (snd en) * 1000 <? now - timestamp (snd en))
              (memoryCache s)) in
  JS.modify (set_memoryCache (fun m =>
    fold_left (fun m' key => JS.map_delete key m') expiredKeys m)).

(** [startCleanupTimer] *)
Definition startCleanupTimer : M unit :=
  s <- JS.gets this ;;
  JS.modify (fun e =>
    let (h, rt') := JS.setInterval JS.CleanupCallback
                                   (cleanupInterval (config s)) (rt e) in
    set_cleanupTimer (Some h) (set_rt (fun _ => rt') e)).

(** [initializeMemoryOnly] *)
Definition initializeMemoryOnly : M unit :=
  JS.modify (set_backendType memory) ;;;
  JS.modify (set_backend (fun b => mkBackend memory connected (backendHitRate b))).

(** [determineBackend]: a preference other than ['auto'] is returned as
    it is, ['auto'] gives ['memory']. *)
Definition determineBackend : M BackendType :=
  s <- JS.gets this ;;
  match preferredBackend (config s) with
  | prefer_redis => JS.ret redis
  | prefer_memory => JS.ret memory
  | auto => JS.ret memory
  end.

(** [initializeBackend]: both branches of the [switch] call
    [initializeMemoryOnly]. *)
Definition initializeBackend : M unit :=
  b <- determineBackend ;;
  match b with
  | redis => initializeMemoryOnly
  | memory => initializeMemoryOnly
  end.

(** [constructor]: the field initialisers, then [initializeBackend] and
    [startCleanupTimer].  [initializeRedis] and [fallbackToMemory] are
    never called and are left out. *)
Definition constructor (cfg : EnhancedCacheConfig) : M unit :=
  JS.modify (upd (fun _ => mk false [] cfg (zeroStats memory disabled) None memory)) ;;;
  initializeBackend ;;;
  startCleanupTimer.

(** The process at time [now]: the module [redis-cache-manager] has made
  its instance, and the facade is constructed with [cfg]. *)
Definition blank : t := mk false [] defaultConfig (zeroStats memory disabled) None memory.

Definition create (now : Z) (cfg : EnhancedCacheConfig) : env :=
  snd (constructor cfg (mkEnv (JS.boot now) Redis.constructor blank)).

(** [destroy] *)
Definition destroy : M unit :=
  s <- JS.gets this ;;
  (match cleanupTimer s with
   | Some h =>
       JS.modify (set_rt (JS.clearTimer h)) ;;;
       JS.modify (set_cleanupTimer None)
   | None => JS.ret tt
   end) ;;;
  JS.modify (set_memoryCache (fun _ => [])) ;;;
  if redisCache s then
    on_redis Redis.destroy ;;;
    JS.modify (set_redisCache false)
  else JS.ret tt.

(** A timer of the table fires. *)
Definition fire (h : nat) : M unit :=
  r <- JS.gets rt ;;
  match JS.findTimer h r with
  | Some tm =>
      JS.modify (set_rt (JS.fired tm)) ;;;
      match JS.action tm with
      | JS.ReconnectCallback => on_redis Redis.reconnectCallback
      | JS.CleanupCallback => cleanupExpiredItems
      end
  | None => JS.ret tt
  end.

(** What a client of the facade, or the environment, does next. *)
Inductive op : Type :=
  | OpGet (key : string) (r : JS.reply (option string))
  | OpSet (key : string) (data : value) (ttl : option Z) (r : JS.reply unit)
  | OpDelete (key : string) (r : JS.reply unit)
  | OpExists (key : string) (r : JS.reply Z)
  | OpMget (keys : list (string * JS.reply (option string)))
  | OpMset (items : list (string * value * option Z * JS.reply unit))
  | OpClear (r : JS.reply unit)
  | OpGetStats
  | OpDestroy
  | OpElapse (d : N)
  | OpTimerFires (h : nat).

Definition ignore {A} (m : M A) : M unit := m ;;; JS.ret tt.

Definition perform (o : op) : M unit :=
  match o with
  | OpGet key r => ignore (get key r)
  | OpSet key data ttl r => set key data ttl r
  | OpDelete key r => delete key r
  | OpExists key r => ignore (exists_ key r)
  | OpMget keys => ignore (mget keys)
  | OpMset items => mset items
  | OpClear r => clear r
  | OpGetStats => ignore getStats
  | OpDestroy => destroy
  | OpElapse d => JS.modify (set_rt (JS.advance d))
  | OpTimerFires h => fire h
  end.

(** A run of operations; it stops at the first one that throws. *)
Fixpoint run (ops : list op) : M unit :=
  match ops with
  | [] => JS.ret tt
  | o :: rest => perform o ;;; run rest
  end.

End WithValue.
End EnhancedCacheManager.

(* ------------------------------------------------------------------ *)
(** ** cache-manager.ts: class CacheManager, its memory tier            *)
(* ------------------------------------------------------------------ *)

(** The class declares [redisClient] and never assigns it, and
    [initializeRedis] sets [enableRedis] to false: the test
    [this.redisClient && this.config.enableRedis] is false in every
    method, and the branches behind it are left out.  Embedded are the
    methods of the memory tier that the properties below speak of; the
    size estimate of [checkMemoryUsage], which decides when the eviction
    pass runs, is left to the caller of [evictLeastRecentlyUsed]. *)
Module CacheManager.

Inductive ConnectionStatus : Type := connected | disconnected | error.

(** [interface CacheStats] *)
Record MemoryStats : Type := mkMemory {
  size : Z;
  memoryHitRate : Q;
  memoryMissRate : Q;
  evictionCount : Z
}.

Record RedisStats : Type := mkRedis {
  enabled : bool;
  redisHitRate : Q;
  redisMissRate : Q;
  connectionStatus : ConnectionStatus
}.

Record TotalStats : Type := mkTotal {
  requests : Z;
  hits : Z;
  misses : Z;
  hitRate : Q
}.

Record CacheStats : Type := mkStats {
  memoryCacheStats : MemoryStats;
  redisCacheStats : RedisStats;
  total : TotalStats
}.

(** [interface CacheConfig], without the connection parameters. *)
Record CacheConfig : Type := mkConfig {
  defaultTtl : Z;
  maxMemorySize : Z;
  cleanupInterval : Z;
  enableRedis : bool
}.

Section WithValue.
Context {value : Type}.

(** [interface CacheItem]; here [ttl] is in milliseconds. *)
Record CacheItem : Type := mkItem {
  data : value;
  timestamp : Z;
  ttl : Z;
  accessCount : Z;
  lastAccessed : Z
}.

Record t : Type := mk {
  memoryCache : JS.Map CacheItem;
  config : CacheConfig;
  stats : CacheStats;
  cleanupTimer : option nat
}.

Record env : Type := mkEnv {
  rt : JS.Runtime;
  this : t
}.

Definition M := JS.M env.

Definition upd (f : t -> t) (e : env) : env := mkEnv (rt e) (f (this e)).

Definition set_memoryCache (f : JS.Map CacheItem -> JS.Map CacheItem) : env -> env :=
  upd (fun s => mk (f (memoryCache s)) (config s) (stats s) (cleanupTimer s)).

Definition set_stats (f : CacheStats -> CacheStats) : env -> env :=
  upd (fun s => mk (memoryCache s) (config s) (f (stats s)) (cleanupTimer s)).

Definition set_total (f : TotalStats -> TotalStats) : env -> env :=
  set_stats (fun st => mkStats (memoryCacheStats st) (redisCacheStats st) (f (total st))).

Definition set_memoryCacheStats (f : MemoryStats -> MemoryStats) : env -> env :=
  set_stats (fun st => mkStats (f (memoryCacheStats st)) (redisCacheStats st) (total st)).

Definition incr_requests : env -> env :=
  set_total (fun tt => mkTotal (requests tt + 1) (hits tt) (misses tt) (hitRate tt)).
Definition incr_hits : env -> env :=
  set_total (fun tt => mkTotal (requests tt) (hits tt + 1) (misses tt) (hitRate tt)).
Definition incr_misses : env -> env :=
  set_total (fun tt => mkTotal (requests tt) (hits tt) (misses tt + 1) (hitRate tt)).
Definition incr_evictionCount : env -> env :=
  set_memoryCacheStats (fun ms =>
    mkMemory (size ms) (memoryHitRate ms) (memoryMissRate ms) (evictionCount ms + 1)).

(** [Date.now()] *)
Definition Date_now : M Z := JS.gets (fun e => JS.clock (rt e)).

(** [initializeStats] *)
Definition initializeStats : M CacheStats :=
  s <- JS.gets this ;;
  JS.ret (mkStats (mkMemory 0 0%Q 0%Q 0)
                  (mkRedis (enableRedis (config s)) 0%Q 0%Q disconnected)
                  (mkTotal 0 0 0 0%Q)).

(** [isExpired] *)
Definition isExpired (item : CacheItem) : M bool :=
  now <- Date_now ;;
  JS.ret (ttl item <? now - timestamp item).

(** [updateAccessStats] *)
Definition updateAccessStats (key : string) (item : CacheItem) : M unit :=
  now <- Date_now ;;
  JS.modify (set_memoryCache
    (JS.map_set key (mkItem (data item) (timestamp item) (ttl item)
                            (accessCount item + 1) now))).

Inductive HitRateOf : Type := of_memory | of_redis | of_total.

(** [calculateHitRate] *)
Definition calculateHitRate (which : HitRateOf) : M Q :=
  st <- JS.gets (fun e => stats (this e)) ;;
  if requests (total st) =? 0 then JS.ret 0%Q
  else match which with
       | of_memory => JS.ret (memoryHitRate (memoryCacheStats st))
       | of_redis => JS.ret (redisHitRate (redisCacheStats st))
       | of_total =>
           JS.ret (inject_Z (hits (total st)) / inject_Z (requests (total st)))%Q
       end.

(** [get] *)
Definition get (key : string) : M (option value) :=
  JS.modify incr_requests ;;;
  s <- JS.gets this ;;
  hit <-
    (match JS.map_get key (memoryCache s) with
     | Some memoryItem =>
         expired <- isExpired memoryItem ;;
         if negb expired then
           updateAccessStats key memoryItem ;;;
           rate <- calculateHitRate of_memory ;;
           JS.modify (set_memoryCacheStats (fun ms =>
             mkMemory (size ms) rate (memoryMissRate ms) (evictionCount ms))) ;;;
           JS.modify incr_hits ;;;
           JS.ret (Some (data memoryItem))
         else JS.ret None
     | None => JS.ret None
     end) ;;
  match hit with
  | Some v => JS.ret (Some v)
  | None =>
      JS.modify incr_misses ;;;
      JS.ret None
  end.

(** [delete] *)
Definition delete (key : string) : M unit :=
  JS.modify (set_memoryCache (JS.map_delete key)).

(** [clear] *)
Definition clear : M unit :=
  JS.modify (set_memoryCache (fun _ => [])) ;;;
  st <- initializeStats ;;
  JS.modify (set_stats (fun _ => st)).

(** [evictLeastRecentlyUsed].  [Math.ceil(items.length * 0.2)] is
    [items.length / 5] rounded up: the double nearest to 0.2 is above 1/5 by
    one part in 2^54, less than half a unit in the last place of any
    integer quotient. *)
Fixpoint evict_each (keys : list string) : M unit :=
  match keys with
  | [] => JS.ret tt
  | key :: rest =>
      delete key ;;;
      JS.modify incr_evictionCount ;;;
      evict_each rest
  end.

Definition evictLeastRecentlyUsed : M unit :=
  s <- JS.gets this ;;
  let items := JS.sort_by (fun en => lastAccessed (snd en)) (memoryCache s) in
  let evictCount := Nat.div (List.length items + 4) 5 in
  evict_each (List.map fst (firstn evictCount items)).

(** [cleanupExpiredItems] *)
Definition cleanupExpiredItems : M unit :=
  now <- Date_now ;;
  s <- JS.gets this ;;
  let expiredKeys :=
    List.map fst
      (filter (fun en => ttl (snd en) <? now - timestamp (snd en))
              (memoryCache s)) in
  JS.modify (set_memoryCache (JS.delete_all expiredKeys)).

End WithValue.
End CacheManager.

(* ------------------------------------------------------------------ *)
(** ** use-model-cache.ts: the hook useModelCache                       *)
(* ------------------------------------------------------------------ *)

(** The callbacks that a component gets from [useModelCache]:
    [getCachedModels], [invalidateModelCache], [refreshModelCache] and
    [getCacheStats], and the function [fetchModels] behind them.  The
    state of the hook, [cacheStatus], is updated through functional
    updates, which React applies in the order of the calls.  The requests
    made with [fetch] are recorded, so that one can say when none is
    made. *)

Module UseModelCache.

Section WithModel.
Context {model : Type} `{Json (list model)}.

(** The body of the answer of [/api/models], as far as [fetchModels]
    reads it: [data.success], [data.error?.message] and [data.data]. *)
Record Body : Type := mkBody {
  success : bool;
  errorMessage : option string;
  data : option (list model)
}.

(** A [Response]: [ok], [status], and what [response.json()] settles
    to. *)
Record Response : Type := mkResponse {
  ok : bool;
  status : Z;
  json : JS.reply Body
}.

Record CacheStatus : Type := mkStatus {
  loading : bool;
  error : option string;
  lastUpdated : option Z
}.

(** The hook: the cache manager of the module [enhanced-cache-manager]
    (with the runtime of the process), the state [cacheStatus], and the
    URLs requested so far. *)
Record env : Type := mkEnv {
  cacheManager : EnhancedCacheManager.env (value := list model);
  cacheStatus : CacheStatus;
  network : list string
}.

Definition M := JS.M env.

Definition initialStatus : CacheStatus := mkStatus false None None.

(** A method call on [cacheManager]. *)
Definition on_cache {A} (m : EnhancedCacheManager.M (value := list model) A) : M A :=
  JS.zoom cacheManager
          (fun c e => mkEnv c (cacheStatus e) (network e))
          m.

(** [setCacheStatus(prev => ...)] *)
Definition setCacheStatus (f : CacheStatus -> CacheStatus) : M unit :=
  JS.modify (fun e => mkEnv (cacheManager e) (f (cacheStatus e)) (network e)).

(** [new Date()], as its time value. *)
Definition new_Date : M Z := on_cache EnhancedCacheManager.Date_now.

(** [await p] for a promise of the platform that settles as [r] says. *)
Definition await {A} (r : JS.reply A) : M A :=
  on_cache (JS.modify (EnhancedCacheManager.set_rt (JS.advance (JS.latency r)))) ;;;
  match JS.result r with
  | JS.Resolved a => JS.ret a
  | JS.Rejected e => JS.throw e
  end.

(** [await fetch(url)]; [r] settles the request. *)
Definition fetch (url : string) (r : JS.reply Response) : M Response :=
  JS.modify (fun e => mkEnv (cacheManager e) (cacheStatus e) (network e ++ [url])) ;;;
  await r.

Definition cacheKey : string := "models:all"%string.

(** The message used when the answer carries none. *)
Definition defaultMessage : string := "获取模型列表失败"%string.

(** A number in a template literal. *)
Definition decimal (n : Z) : string :=
  DecimalString.NilZero.string_of_int (Z.to_int n).

(** [fetchModels]; an error is logged and thrown again.  An error
    message that is missing or empty is falsy and gives the default
    message, a list of models that is missing gives the empty list. *)
Definition fetchModels (r : JS.reply Response) : M (list model) :=
  JS.try_catch
    (response <- fetch "/api/models"%string r ;;
     if negb (ok response) then
       JS.throw ("HTTP error! status: " ++ decimal (status response))%string
     else
       data <- await (json response) ;;
       match data with
       | mkBody false (Some EmptyString) _ => JS.throw defaultMessage
       | mkBody false (Some message) _ => JS.throw message
       | mkBody false None _ => JS.throw defaultMessage
       | mkBody true _ (Some models) => JS.ret models
       | mkBody true _ None => JS.ret []
       end)
    (fun error => JS.throw error).

(** [getCachedModels]; [rg] and [rs] settle the calls that the cache
    manager makes to its remote tier, [rf] settles the request of
    [fetchModels].  A list of models is an array, which is truthy also
    when it is empty. *)
Definition getCachedModels (rg : JS.reply (option string))
           (rf : JS.reply Response) (rs : JS.reply unit) : M (list model) :=
  JS.try_catch
    (setCacheStatus (fun prev => mkStatus true None (lastUpdated prev)) ;;;
     cached <- on_cache (EnhancedCacheManager.get cacheKey rg) ;;
     match cached with
     | Some models =>
         now <- new_Date ;;
         setCacheStatus (fun prev => mkStatus false (error prev) (Some now)) ;;;
         JS.ret models
     | None =>
         models <- fetchModels rf ;;
         on_cache (EnhancedCacheManager.set cacheKey models (Some 300) rs) ;;;
         now <- new_Date ;;
         setCacheStatus (fun prev => mkStatus false (error prev) (Some now)) ;;;
         JS.ret models
     end)
    (fun errorMessage =>
       setCacheStatus (fun prev => mkStatus false (Some errorMessage) (lastUpdated prev)) ;;;
       JS.throw errorMessage).

(** [invalidateModelCache] *)
Definition invalidateModelCache (rd : JS.reply unit) : M unit :=
  on_cache (EnhancedCacheManager.delete cacheKey rd) ;;;
  setCacheStatus (fun prev => mkStatus (loading prev) (error prev) None).

(** [refreshModelCache] *)
Definition refreshModelCache (rd : JS.reply unit) (rg : JS.reply (option string))
           (rf : JS.reply Response) (rs : JS.reply unit) : M (list model) :=
  invalidateModelCache rd ;;;
  getCachedModels rg rf rs.

(** [getCacheStats] *)
Definition getCacheStats : M EnhancedCacheManager.CacheStats :=
  on_cache EnhancedCacheManager.getStats.

(** Time passes between two calls. *)
Definition later (d : N) (e : env) : env :=
  mkEnv (EnhancedCacheManager.set_rt (JS.advance d) (cacheManager e))
        (cacheStatus e) (network e).

End WithModel.
End UseModelCache.

(* ------------------------------------------------------------------ *)
(** ** error-types.ts: the error codes and class AppError               *)
(* ------------------------------------------------------------------ *)

Module ErrorTypes.

Inductive ErrorSeverity : Type := LOW | MEDIUM | HIGH | CRITICAL.

Inductive ErrorCategory : Type :=
  | AUTHENTICATION | AUTHORIZATION | VALIDATION | NETWORK | DATABASE
  | FILE_SYSTEM | MODEL | ASSISTANT | SYSTEM | USER_INPUT.

Inductive ErrorCode : Type :=
  | UNAUTHORIZED | FORBIDDEN | TOKEN_EXPIRED | INVALID_CREDENTIALS
  | MODEL_NOT_FOUND | MODEL_INVOCATION_FAILED | PROVIDER_NOT_FOUND
  | UNSUPPORTED_PROVIDER | MODEL_RATE_LIMITED | MODEL_TIMEOUT
  | ASSISTANT_NOT_FOUND | ASSISTANT_CREATION_FAILED
  | ASSISTANT_UPDATE_FAILED | ASSISTANT_DELETION_FAILED
  | INVALID_ASSISTANT_CONFIG | DUPLICATE_ASSISTANT_NAME
  | NETWORK_ERROR | TIMEOUT_ERROR | CONNECTION_REFUSED | DNS_RESOLUTION_FAILED
  | VALIDATION_ERROR | INVALID_INPUT | MISSING_REQUIRED_FIELD | INVALID_FORMAT
  | DATABASE_CONNECTION_ERROR | DATABASE_QUERY_FAILED | RECORD_NOT_FOUND
  | DUPLICATE_RECORD
  | FILE_NOT_FOUND | FILE_READ_ERROR | FILE_WRITE_ERROR | FILE_SIZE_EXCEEDED
  | UNSUPPORTED_FILE_TYPE
  | INTERNAL_ERROR | SERVICE_UNAVAILABLE | CONFIGURATION_ERROR
  | INVALID_CONFIG | RESOURCE_EXHAUSTED.

(** The value of a member of the enum, a string: its name. *)
Definition code_name (code : ErrorCode) : string :=
  match code with
  | UNAUTHORIZED => "UNAUTHORIZED"%string
  | FORBIDDEN => "FORBIDDEN"%string
  | TOKEN_EXPIRED => "TOKEN_EXPIRED"%string
  | INVALID_CREDENTIALS => "INVALID_CREDENTIALS"%string
  | MODEL_NOT_FOUND => "MODEL_NOT_FOUND"%string
  | MODEL_INVOCATION_FAILED => "MODEL_INVOCATION_FAILED"%string
  | PROVIDER_NOT_FOUND => "PROVIDER_NOT_FOUND"%string
  | UNSUPPORTED_PROVIDER => "UNSUPPORTED_PROVIDER"%string
  | MODEL_RATE_LIMITED => "MODEL_RATE_LIMITED"%string
  | MODEL_TIMEOUT => "MODEL_TIMEOUT"%string
  | ASSISTANT_NOT_FOUND => "ASSISTANT_NOT_FOUND"%string
  | ASSISTANT_CREATION_FAILED => "ASSISTANT_CREATION_FAILED"%string
  | ASSISTANT_UPDATE_FAILED => "ASSISTANT_UPDATE_FAILED"%string
  | ASSISTANT_DELETION_FAILED => "ASSISTANT_DELETION_FAILED"%string
  | INVALID_ASSISTANT_CONFIG => "INVALID_ASSISTANT_CONFIG"%string
  | DUPLICATE_ASSISTANT_NAME => "DUPLICATE_ASSISTANT_NAME"%string
  | NETWORK_ERROR => "NETWORK_ERROR"%string
  | TIMEOUT_ERROR => "TIMEOUT_ERROR"%string
  | CONNECTION_REFUSED => "CONNECTION_REFUSED"%string
  | DNS_RESOLUTION_FAILED => "DNS_RESOLUTION_FAILED"%string
  | VALIDATION_ERROR => "VALIDATION_ERROR"%string
  | INVALID_INPUT => "INVALID_INPUT"%string
  | MISSING_REQUIRED_FIELD => "MISSING_REQUIRED_FIELD"%string
  | INVALID_FORMAT => "INVALID_FORMAT"%string
  | DATABASE_CONNECTION_ERROR => "DATABASE_CONNECTION_ERROR"%string
  | DATABASE_QUERY_FAILED => "DATABASE_QUERY_FAILED"%string
  | RECORD_NOT_FOUND => "RECORD_NOT_FOUND"%string
  | DUPLICATE_RECORD => "DUPLICATE_RECORD"%string
  | FILE_NOT_FOUND => "FILE_NOT_FOUND"%string
  | FILE_READ_ERROR => "FILE_READ_ERROR"%string
  | FILE_WRITE_ERROR => "FILE_WRITE_ERROR"%string
  | FILE_SIZE_EXCEEDED => "FILE_SIZE_EXCEEDED"%string
  | UNSUPPORTED_FILE_TYPE => "UNSUPPORTED_FILE_TYPE"%string
  | INTERNAL_ERROR => "INTERNAL_ERROR"%string
  | SERVICE_UNAVAILABLE => "SERVICE_UNAVAILABLE"%string
  | CONFIGURATION_ERROR => "CONFIGURATION_ERROR"%string
  | INVALID_CONFIG => "INVALID_CONFIG"%string
  | RESOURCE_EXHAUSTED => "RESOURCE_EXHAUSTED"%string
  end.

(** [getDefaultSeverity]: the table has an entry for every code, so the
    fallback after [||] is never taken. *)
Definition getDefaultSeverity (code : ErrorCode) : ErrorSeverity :=
  match code with
  | UNAUTHORIZED => MEDIUM
  | FORBIDDEN => MEDIUM
  | TOKEN_EXPIRED => MEDIUM
  | INVALID_CREDENTIALS => MEDIUM
  | MODEL_NOT_FOUND => HIGH
  | MODEL_INVOCATION_FAILED => HIGH
  | PROVIDER_NOT_FOUND => HIGH
  | UNSUPPORTED_PROVIDER => HIGH
  | MODEL_RATE_LIMITED => MEDIUM
  | MODEL_TIMEOUT => MEDIUM
  | ASSISTANT_NOT_FOUND => MEDIUM
  | ASSISTANT_CREATION_FAILED => HIGH
  | ASSISTANT_UPDATE_FAILED => HIGH
  | ASSISTANT_DELETION_FAILED => MEDIUM
  | INVALID_ASSISTANT_CONFIG => MEDIUM
  | DUPLICATE_ASSISTANT_NAME => LOW
  | NETWORK_ERROR => HIGH
  | TIMEOUT_ERROR => MEDIUM
  | CONNECTION_REFUSED => HIGH
  | DNS_RESOLUTION_FAILED => HIGH
  | VALIDATION_ERROR => LOW
  | INVALID_INPUT => LOW
  | MISSING_REQUIRED_FIELD => LOW
  | INVALID_FORMAT => LOW
  | DATABASE_CONNECTION_ERROR => CRITICAL
  | DATABASE_QUERY_FAILED => HIGH
  | RECORD_NOT_FOUND => MEDIUM
  | DUPLICATE_RECORD => MEDIUM
  | FILE_NOT_FOUND => MEDIUM
  | FILE_READ_ERROR => MEDIUM
  | FILE_WRITE_ERROR => MEDIUM
  | FILE_SIZE_EXCEEDED => LOW
  | UNSUPPORTED_FILE_TYPE => LOW
  | INTERNAL_ERROR => CRITICAL
  | SERVICE_UNAVAILABLE => CRITICAL
  | CONFIGURATION_ERROR => CRITICAL
  | INVALID_CONFIG => HIGH
  | RESOURCE_EXHAUSTED => HIGH
  end.

(** [getDefaultCategory] *)
Definition getDefaultCategory (code : ErrorCode) : ErrorCategory :=
  match code with
  | UNAUTHORIZED => AUTHENTICATION
  | FORBIDDEN => AUTHORIZATION
  | TOKEN_EXPIRED => AUTHENTICATION
  | INVALID_CREDENTIALS => AUTHENTICATION
  | MODEL_NOT_FOUND => MODEL
  | MODEL_INVOCATION_FAILED => MODEL
  | PROVIDER_NOT_FOUND => MODEL
  | UNSUPPORTED_PROVIDER => MODEL
  | MODEL_RATE_LIMITED => MODEL
  | MODEL_TIMEOUT => MODEL
  | ASSISTANT_NOT_FOUND => ASSISTANT
  | ASSISTANT_CREATION_FAILED => ASSISTANT
  | ASSISTANT_UPDATE_FAILED => ASSISTANT
  | ASSISTANT_DELETION_FAILED => ASSISTANT
  | INVALID_ASSISTANT_CONFIG => ASSISTANT
  | DUPLICATE_ASSISTANT_NAME => ASSISTANT
  | NETWORK_ERROR => NETWORK
  | TIMEOUT_ERROR => NETWORK
  | CONNECTION_REFUSED => NETWORK
  | DNS_RESOLUTION_FAILED => NETWORK
  | VALIDATION_ERROR => VALIDATION
  | INVALID_INPUT => VALIDATION
  | MISSING_REQUIRED_FIELD => VALIDATION
  | INVALID_FORMAT => VALIDATION
  | DATABASE_CONNECTION_ERROR => DATABASE
  | DATABASE_QUERY_FAILED => DATABASE
  | RECORD_NOT_FOUND => DATABASE
  | DUPLICATE_RECORD => DATABASE
  | FILE_NOT_FOUND => FILE_SYSTEM
  | FILE_READ_ERROR => FILE_SYSTEM
  | FILE_WRITE_ERROR => FILE_SYSTEM
  | FILE_SIZE_EXCEEDED => FILE_SYSTEM
  | UNSUPPORTED_FILE_TYPE => FILE_SYSTEM
  | INTERNAL_ERROR => SYSTEM
  | SERVICE_UNAVAILABLE => SYSTEM
  | CONFIGURATION_ERROR => SYSTEM
  | INVALID_CONFIG => SYSTEM
  | RESOURCE_EXHAUSTED => SYSTEM
  end.

(** The table of [getUserFriendlyMessage]. *)
Definition userMessages (code : ErrorCode) : string :=
  match code with
  | UNAUTHORIZED => "请先登录后再进行操作"%string
  | FORBIDDEN => "您没有权限执行此操作"%string
  | TOKEN_EXPIRED => "登录已过期，请重新登录"%string
  | INVALID_CREDENTIALS => "用户名或密码错误"%string
  | MODEL_NOT_FOUND => "选择的模型不存在，请重新选择"%string
  | MODEL_INVOCATION_FAILED => "模型调用失败，请稍后重试"%string
  | PROVIDER_NOT_FOUND => "模型提供商不存在"%string
  | UNSUPPORTED_PROVIDER => "不支持的模型提供商"%string
  | MODEL_RATE_LIMITED => "模型调用频率过高，请稍后重试"%string
  | MODEL_TIMEOUT => "模型响应超时，请稍后重试"%string
  | ASSISTANT_NOT_FOUND => "智能体不存在"%string
  | ASSISTANT_CREATION_FAILED => "创建智能体失败，请检查配置后重试"%string
  | ASSISTANT_UPDATE_FAILED => "更新智能体失败，请稍后重试"%string
  | ASSISTANT_DELETION_FAILED => "删除智能体失败，请稍后重试"%string
  | INVALID_ASSISTANT_CONFIG => "智能体配置无效，请检查配置"%string
  | DUPLICATE_ASSISTANT_NAME => "智能体名称已存在，请使用其他名称"%string
  | NETWORK_ERROR => "网络连接异常，请检查网络后重试"%string
  | TIMEOUT_ERROR => "请求超时，请稍后重试"%string
  | CONNECTION_REFUSED => "连接被拒绝，请稍后重试"%string
  | DNS_RESOLUTION_FAILED => "域名解析失败，请检查网络设置"%string
  | VALIDATION_ERROR => "输入信息有误，请检查后重试"%string
  | INVALID_INPUT => "输入格式不正确，请检查输入内容"%string
  | MISSING_REQUIRED_FIELD => "缺少必填字段，请完善信息"%string
  | INVALID_FORMAT => "格式不正确，请检查输入格式"%string
  | DATABASE_CONNECTION_ERROR => "数据库连接失败，请稍后重试"%string
  | DATABASE_QUERY_FAILED => "数据库查询失败，请稍后重试"%string
  | RECORD_NOT_FOUND => "记录不存在"%string
  | DUPLICATE_RECORD => "记录已存在"%string
  | FILE_NOT_FOUND => "文件不存在"%string
  | FILE_READ_ERROR => "文件读取失败"%string
  | FILE_WRITE_ERROR => "文件写入失败"%string
  | FILE_SIZE_EXCEEDED => "文件大小超出限制"%string
  | UNSUPPORTED_FILE_TYPE => "不支持的文件类型"%string
  | INTERNAL_ERROR => "系统内部错误，请稍后重试"%string
  | SERVICE_UNAVAILABLE => "服务暂时不可用，请稍后重试"%string
  | CONFIGURATION_ERROR => "系统配置错误，请联系管理员"%string
  | INVALID_CONFIG => "配置格式无效，请检查配置"%string
  | RESOURCE_EXHAUSTED => "系统资源不足，请稍后重试"%string
  end.

(** [retryableCodes] *)
Definition retryableCodes : list ErrorCode :=
  [NETWORK_ERROR; TIMEOUT_ERROR; CONNECTION_REFUSED; DATABASE_CONNECTION_ERROR; MODEL_INVOCATION_FAILED; MODEL_TIMEOUT; SERVICE_UNAVAILABLE; RESOURCE_EXHAUSTED].

Definition code_eqb (a b : ErrorCode) : bool :=
  String.eqb (code_name a) (code_name b).

Definition category_eqb (a b : ErrorCategory) : bool :=
  match a, b with
  | AUTHENTICATION, AUTHENTICATION | AUTHORIZATION, AUTHORIZATION
  | VALIDATION, VALIDATION | NETWORK, NETWORK | DATABASE, DATABASE
  | FILE_SYSTEM, FILE_SYSTEM | MODEL, MODEL | ASSISTANT, ASSISTANT
  | SYSTEM, SYSTEM | USER_INPUT, USER_INPUT => true
  | _, _ => false
  end.

Section WithContext.
(** [ErrorContext] and the type of [details] are left open. *)
Variables ErrorContext Details : Type.

(** An instance of [AppError]; [name] is always ['AppError'], and the
    stack trace is left out. *)
Record AppError : Type := mkAppError {
  code : ErrorCode;
  message : string;
  severity : ErrorSeverity;
  category : ErrorCategory;
  timestamp : Z;
  context : option ErrorContext;
  details : option Details
}.

(** The [options] of the constructor; [cause] only sets the stack. *)
Record Options : Type := mkOptions {
  o_severity : option ErrorSeverity;
  o_category : option ErrorCategory;
  o_context : option ErrorContext;
  o_details : option Details
}.

(** [new AppError(code, message, options)] at time [now]. *)
Definition new_AppError (now : Z) (code : ErrorCode) (message : string)
           (options : Options) : AppError :=
  mkAppError code message
    (match o_severity options with
     | Some s => s
     | None => getDefaultSeverity code
     end)
    (match o_category options with
     | Some c => c
     | None => getDefaultCategory code
     end)
    now (o_context options) (o_details options).

(** [getUserFriendlyMessage] *)
Definition getUserFriendlyMessage (e : AppError) : string := userMessages (code e).

(** [isRetryable] *)
Definition isRetryable (e : AppError) : bool :=
  existsb (code_eqb (code e)) retryableCodes.

(** [isUserInputError] *)
Definition isUserInputError (e : AppError) : bool :=
  category_eqb (category e) VALIDATION || category_eqb (category e) USER_INPUT.

(** [isSystemError] *)
Definition isSystemError (e : AppError) : bool :=
  category_eqb (category e) SYSTEM || category_eqb (category e) DATABASE
  || category_eqb (category e) NETWORK.

End WithContext.
End ErrorTypes.

(* ------------------------------------------------------------------ *)
(** ** error-handler.ts: class ErrorHandler                             *)
(* ------------------------------------------------------------------ *)

(** The text of this module follows the class [RedisCacheManager] in the
    source file.  [toLowerCase] is left open: what is proved holds for
    every function from strings to strings, the one of JavaScript
    included. *)

Module ErrorHandler.
Import ErrorTypes.

Section WithLowerCase.
Variable toLowerCase : string -> string.
Variables ErrorContext Details : Type.

Abbreviation AppError := (ErrorTypes.AppError ErrorContext Details).

(** What is thrown and caught: an instance of [AppError], or another
    [Error] with its [name] and [message]. *)
Inductive Error : Type :=
  | AnAppError (e : AppError)
  | AnError (name message : string).

(** [interface ErrorResponse] *)
Record ErrorResponse : Type := mkResponse {
  r_code : ErrorCode;
  r_message : string;
  userMessage : string;
  r_severity : ErrorSeverity;
  r_timestamp : Z;
  r_context : option ErrorContext;
  r_details : option Details;
  retryable : bool
}.

(** [interface ErrorLogger]: how [log(error, context)] settles.
    [ConsoleErrorLogger] writes to the console and returns. *)
Definition ErrorLogger : Type := AppError -> option ErrorContext -> JS.reply unit.

Definition ConsoleErrorLogger : ErrorLogger :=
  fun _ _ => JS.mkReply 0 (JS.Resolved tt).

(** What [this.toast] is called with. *)
Record Toast : Type := mkToast {
  title : string;
  description : string;
  variant : string;
  duration : Z
}.

(** [interface ErrorNotifier]: the [ToastErrorNotifier], with its toast
    function injected or not, or another implementation, given by how
    [notify] ends. *)
Inductive ErrorNotifier : Type :=
  | ToastErrorNotifier (toast : bool)
  | OtherNotifier (notify : string -> ErrorCode -> ErrorSeverity -> JS.completion unit).

(** The fields of the instance. *)
Record t : Type := mk {
  errorLogger : ErrorLogger;
  errorNotifier : ErrorNotifier;
  errorCounts : JS.Map Z;
  lastErrorTime : JS.Map Z
}.

(** The instance, the clock, and the toasts shown so far. *)
Record env : Type := mkEnv {
  now : Z;
  this : t;
  shown : list Toast
}.

Definition M := JS.M env.

(** [constructor] *)
Definition constructor : t := mk ConsoleErrorLogger (ToastErrorNotifier false) [] [].

(** [setErrorLogger], [setErrorNotifier], and [setToast] of the
    notifier. *)
Definition setErrorLogger (logger : ErrorLogger) : M unit :=
  JS.modify (fun e =>
    mkEnv (now e) (mk logger (errorNotifier (this e)) (errorCounts (this e))
                      (lastErrorTime (this e))) (shown e)).

Definition setErrorNotifier (notifier : ErrorNotifier) : M unit :=
  JS.modify (fun e =>
    mkEnv (now e) (mk (errorLogger (this e)) notifier (errorCounts (this e))
                      (lastErrorTime (this e))) (shown e)).

(** [getNotificationTitle]; the [default] of the [switch] stands for no
    member of the enum, here and in [getNotificationDuration]. *)
Definition getNotificationTitle (severity : ErrorSeverity) : string :=
  match severity with
  | CRITICAL => "系统错误"%string
  | HIGH => "操作失败"%string
  | MEDIUM => "警告"%string
  | LOW => "提示"%string
  end.

(** [getNotificationDuration] *)
Definition getNotificationDuration (severity : ErrorSeverity) : Z :=
  match severity with
  | CRITICAL | HIGH => 8000
  | MEDIUM => 5000
  | LOW => 3000
  end.

(** [notify] of the notifier in place. *)
Definition notify (message : string) (code : ErrorCode) (severity : ErrorSeverity)
  : M unit :=
  s <- JS.gets this ;;
  match errorNotifier s with
  | ToastErrorNotifier false => JS.ret tt
  | ToastErrorNotifier true =>
      let variant :=
        match severity with
        | CRITICAL | HIGH => "destructive"%string
        | MEDIUM | LOW => "default"%string
        end in
      JS.modify (fun e =>
        mkEnv (now e) (this e)
              (shown e ++ [mkToast (getNotificationTitle severity) message variant
                                   (getNotificationDuration severity)]))
  | OtherNotifier f => eval (f message code severity)
  end.

(** [mapErrorToCode] *)
Definition mapErrorToCode (name message : string) : ErrorCode :=
  let errorName := toLowerCase name in
  let errorMessage := toLowerCase message in
  if JSString.includes "network"%string errorName || JSString.includes "network"%string errorMessage then NETWORK_ERROR
  else if JSString.includes "timeout"%string errorMessage then TIMEOUT_ERROR
  else if JSString.includes "connection refused"%string errorMessage then CONNECTION_REFUSED
  else if JSString.includes "dns"%string errorMessage then DNS_RESOLUTION_FAILED
  else if JSString.includes "database"%string errorName || JSString.includes "database"%string errorMessage then DATABASE_CONNECTION_ERROR
  else if JSString.includes "query failed"%string errorMessage then DATABASE_QUERY_FAILED
  else if JSString.includes "record not found"%string errorMessage then RECORD_NOT_FOUND
  else if JSString.includes "duplicate"%string errorMessage then DUPLICATE_RECORD
  else if JSString.includes "file not found"%string errorMessage then FILE_NOT_FOUND
  else if JSString.includes "file read"%string errorMessage then FILE_READ_ERROR
  else if JSString.includes "file write"%string errorMessage then FILE_WRITE_ERROR
  else if JSString.includes "file size"%string errorMessage then FILE_SIZE_EXCEEDED
  else if JSString.includes "validation"%string errorName || JSString.includes "validation"%string errorMessage then VALIDATION_ERROR
  else if JSString.includes "invalid input"%string errorMessage then INVALID_INPUT
  else if JSString.includes "missing required"%string errorMessage then MISSING_REQUIRED_FIELD
  else if JSString.includes "invalid format"%string errorMessage then INVALID_FORMAT
  else if JSString.includes "unauthorized"%string errorMessage then UNAUTHORIZED
  else if JSString.includes "forbidden"%string errorMessage then FORBIDDEN
  else if JSString.includes "token expired"%string errorMessage then TOKEN_EXPIRED
  else if JSString.includes "invalid credentials"%string errorMessage then INVALID_CREDENTIALS
  else if JSString.includes "model not found"%string errorMessage then MODEL_NOT_FOUND
  else if JSString.includes "model invocation"%string errorMessage then MODEL_INVOCATION_FAILED
  else if JSString.includes "provider not found"%string errorMessage then PROVIDER_NOT_FOUND
  else if JSString.includes "rate limit"%string errorMessage then MODEL_RATE_LIMITED
  else if JSString.includes "assistant not found"%string errorMessage then ASSISTANT_NOT_FOUND
  else if JSString.includes "assistant creation"%string errorMessage then ASSISTANT_CREATION_FAILED
  else if JSString.includes "assistant update"%string errorMessage then ASSISTANT_UPDATE_FAILED
  else if JSString.includes "duplicate assistant"%string errorMessage then DUPLICATE_ASSISTANT_NAME
  else INTERNAL_ERROR.

(** [normalizeError] *)
Definition normalizeError (error : Error) (context : option ErrorContext) : M AppError :=
  match error with
  | AnAppError e => JS.ret e
  | AnError name message =>
      t <- JS.gets now ;;
      JS.ret (new_AppError t (mapErrorToCode name message) message
                           (mkOptions None None context None))
  end.

(** [updateErrorStats]; [get(code) || 0] is the count stored, or 0. *)
Definition updateErrorStats (error : AppError) : M unit :=
  s <- JS.gets this ;;
  let count := match JS.map_get (code_name (code error)) (errorCounts s) with
               | Some n => n
               | None => 0
               end in
  JS.modify (fun e =>
    mkEnv (now e)
          (mk (errorLogger (this e)) (errorNotifier (this e))
              (JS.map_set (code_name (code error)) (count + 1) (errorCounts (this e)))
              (JS.map_set (code_name (code error)) (timestamp error)
                          (lastErrorTime (this e))))
          (shown e)).

(** The response built by [handleError] and [createErrorResponse]. *)
Definition response_of (appError : AppError) : ErrorResponse :=
  mkResponse (code appError) (message appError) (getUserFriendlyMessage appError)
             (severity appError) (timestamp appError) (context appError)
             (details appError) (isRetryable appError).

(** [handleError]; the logger in place says how its [log] settles. *)
Definition handleError (error : Error) (context : option ErrorContext)
  : M ErrorResponse :=
  appError <- normalizeError error context ;;
  s <- JS.gets this ;;
  (let r := errorLogger s appError context in
   JS.modify (fun e => mkEnv (now e + Z.of_N (JS.latency r)) (this e) (shown e)) ;;;
   match JS.result r with
   | JS.Resolved _ => JS.ret tt
   | JS.Rejected reason => JS.throw reason
   end) ;;;
  updateErrorStats appError ;;;
  (if negb (isUserInputError appError) then
     notify (getUserFriendlyMessage appError) (code appError) (severity appError)
   else JS.ret tt) ;;;
  JS.ret (response_of appError).

(** [getErrorStats] *)
Record ErrorStats : Type := mkErrorStats {
  totalErrors : Z;
  errorsByCode : JS.Map Z;
  lastErrorTimes : JS.Map Z
}.

Definition getErrorStats : M ErrorStats :=
  s <- JS.gets this ;;
  JS.ret (mkErrorStats
            (fold_left (fun sum count => sum + count)
                       (List.map snd (errorCounts s)) 0)
            (fold_left (fun obj en => JS.map_set (fst en) (snd en) obj)
                       (errorCounts s) [])
            (fold_left (fun obj en => JS.map_set (fst en) (snd en) obj)
                       (lastErrorTime s) [])).

(** [clearErrorStats] *)
Definition clearErrorStats : M unit :=
  JS.modify (fun e =>
    mkEnv (now e) (mk (errorLogger (this e)) (errorNotifier (this e)) [] [])
          (shown e)).

(** [isErrorRateHigh] *)
Definition isErrorRateHigh (code : ErrorCode) (threshold timeWindowMs : Z) : M bool :=
  s <- JS.gets this ;;
  let count := match JS.map_get (code_name code) (errorCounts s) with
               | Some n => n
               | None => 0
               end in
  match JS.map_get (code_name code) (lastErrorTime s) with
  | None => JS.ret false
  | Some lastTime =>
      t <- JS.gets now ;;
      let timeSinceLastError := t - lastTime in
      JS.ret ((threshold <=? count) && (timeSinceLastError <? timeWindowMs))
  end.

(** [createErrorResponse] *)
Definition createErrorResponse (code : ErrorCode) (message : string)
           (context : option ErrorContext) (details : option Details)
  : M ErrorResponse :=
  t <- JS.gets now ;;
  JS.ret (response_of (new_AppError t code message
                                    (mkOptions None None context details))).

(** What happens to a handler, one step after the other. *)
Inductive step : Type :=
  | Handle (error : Error) (context : option ErrorContext)
  | ClearStats
  | SetLogger (logger : ErrorLogger)
  | SetNotifier (notifier : ErrorNotifier)
  | Elapse (d : N).

Definition perform (s : step) : M unit :=
  match s with
  | Handle error context => handleError error context ;;; JS.ret tt
  | ClearStats => clearErrorStats
  | SetLogger logger => setErrorLogger logger
  | SetNotifier notifier => setErrorNotifier notifier
  | Elapse d => JS.modify (fun e => mkEnv (now e + Z.of_N d) (this e) (shown e))
  end.

(** A call of [handleError] that throws rejects its promise; the handler
    goes on. *)
Fixpoint run (steps : list step) (e : env) : env :=
  match steps with
  | [] => e
  | s :: rest => run rest (snd (perform s e))
  end.

End WithLowerCase.

Arguments AnAppError {ErrorContext Details} e.
Arguments AnError {ErrorContext Details} name message.
Arguments Handle {ErrorContext Details} error context.
Arguments ClearStats {ErrorContext Details}.
Arguments SetLogger {ErrorContext Details} logger.
Arguments SetNotifier {ErrorContext Details} notifier.
Arguments Elapse {ErrorContext Details} d.

End ErrorHandler.

(* ------------------------------------------------------------------ *)
(** ** A codec and replies for concrete runs                            *)
(* ------------------------------------------------------------------ *)

Module Fixture.

(** Payloads are strings.  The text [null] parses to [null], an opening
    brace alone does not parse, and the payload [cyclic] stands for an
    object that [JSON.stringify] rejects. *)
Definition parse (text : string) : JS.completion (option string) :=
  if String.eqb text "null"%string then JS.Normal None
  else if String.eqb text "{"%string then JS.Throw "SyntaxError"%string
  else JS.Normal (Some text).

Definition stringify (v : string) : JS.completion string :=
  if String.eqb v "cyclic"%string then JS.Throw "TypeError"%string
  else JS.Normal v.

#[global] Instance stringJson : Json string :=
  {| JSON_stringify := stringify; JSON_parse := parse |}.

Definition done : JS.reply unit := JS.mkReply 0 (JS.Resolved tt).
Definition absent : JS.reply (option string) := JS.mkReply 0 (JS.Resolved None).
Definition timeout {A} : JS.reply A :=
  JS.mkReply 5000 (JS.Rejected "Command timed out"%string).

(** The facade as the module [enhanced-cache-manager] exports it, in a
    process started at time 0. *)
Definition fresh : EnhancedCacheManager.env (value := string) :=
  EnhancedCacheManager.create 0 EnhancedCacheManager.defaultConfig.

(** A facade whose remote tier is attached and connected. *)
Definition hybrid : EnhancedCacheManager.env (value := string) :=
  EnhancedCacheManager.mkEnv
    (JS.boot 0)
    (RedisCacheManager.mk (Some RedisCacheManager.ioredis) true
                          RedisCacheManager.initialStats 0 5 None)
    (EnhancedCacheManager.mk true [] EnhancedCacheManager.defaultConfig
       (EnhancedCacheManager.zeroStats EnhancedCacheManager.redis
                                       EnhancedCacheManager.connected)
       None EnhancedCacheManager.redis).

(** A thousand keys, and the facade after a [set] of each of them. *)
Definition key_of (n : nat) : string :=
  String (Ascii.ascii_of_nat (Nat.div n 256))
         (String (Ascii.ascii_of_nat (Nat.modulo n 256)) EmptyString).

Definition thousand_sets : list (EnhancedCacheManager.op (value := string)) :=
  List.map (fun n => EnhancedCacheManager.OpSet (key_of n) "v"%string None done)
           (seq 0 1000).

Definition full : EnhancedCacheManager.env (value := string) :=
  Eval vm_compute in snd (EnhancedCacheManager.run thousand_sets fresh).

(** Distinct keys, decided. *)
Fixpoint distinct (l : list string) : bool :=
  match l with
  | [] => true
  | k :: ks => negb (existsb (String.eqb k) ks) && distinct ks
  end.

(** A [CacheManager] at time 100000 that holds six entries, written at
    different times with a TTL of 60 seconds and read at different times
    since. *)
Definition older : CacheManager.env (value := string) :=
  CacheManager.mkEnv
    (JS.mkRuntime 100000 2 [JS.mkTimer 1 true 60000 JS.CleanupCallback])
    (CacheManager.mk
       [("a"%string, CacheManager.mkItem "1"%string 10000 60000 2 70000);
        ("b"%string, CacheManager.mkItem "2"%string 20000 60000 0 20000);
        ("c"%string, CacheManager.mkItem "3"%string 30000 60000 1 90000);
        ("d"%string, CacheManager.mkItem "4"%string 40000 60000 0 40000);
        ("e"%string, CacheManager.mkItem "5"%string 50000 60000 3 95000);
        ("f"%string, CacheManager.mkItem "6"%string 60000 60000 0 60000)]
       (CacheManager.mkConfig 60 1024 60000 false)
       (CacheManager.mkStats
          (CacheManager.mkMemory 0 0%Q 0%Q 0)
          (CacheManager.mkRedis false 0%Q 0%Q CacheManager.disconnected)
          (CacheManager.mkTotal 6 6 0 0%Q))
       (Some 1%nat)).

(** Models are their names; a list of them is written with commas. *)
#[global] Instance modelsJson : Json (list string) :=
  {| JSON_stringify := fun models => JS.Normal (String.concat ","%string models);
     JSON_parse := fun text => JS.Normal (Some [text]) |}.

(** The hook [useModelCache] when a component first renders, in a
    process started at time 0. *)
Definition hook : UseModelCache.env (model := string) :=
  UseModelCache.mkEnv
    (EnhancedCacheManager.create 0 EnhancedCacheManager.defaultConfig)
    UseModelCache.initialStatus [].

(** [/api/models] answers after 120 ms with two models. *)
Definition two_models : JS.reply (UseModelCache.Response (model := string)) :=
  JS.mkReply 120
    (JS.Resolved
       (UseModelCache.mkResponse true 200
          (JS.mkReply 5
             (JS.Resolved
                (UseModelCache.mkBody true None
                   (Some ["gpt-4o"%string; "qwen-max"%string])))))).

(** [/api/models] answers with status 503. *)
Definition unavailable_service : JS.reply (UseModelCache.Response (model := string)) :=
  JS.mkReply 30
    (JS.Resolved
       (UseModelCache.mkResponse false 503
          (JS.mkReply 0 (JS.Rejected "Unexpected end of JSON input"%string)))).

(** Lower case, for texts in ASCII. *)
Definition lower_char (c : Ascii.ascii) : Ascii.ascii :=
  let n := Ascii.nat_of_ascii c in
  if Nat.leb 65 n && Nat.leb n 90 then Ascii.ascii_of_nat (n + 32) else c.

Fixpoint lower (s : string) : string :=
  match s with
  | EmptyString => EmptyString
  | String c rest => String (lower_char c) (lower rest)
  end.

(** An error handler as [getInstance] makes it, once the toast function
    was injected into its notifier; contexts and details are texts. *)
Definition handler : ErrorHandler.env string string :=
  ErrorHandler.mkEnv 0
    (ErrorHandler.mk (ErrorHandler.ConsoleErrorLogger (ErrorContext := string)
                                                      (Details := string))
                     (ErrorHandler.ToastErrorNotifier true) [] [])
    [].

(** A logger whose [log] rejects, and what a handler goes through: two
    errors, a clearing of the statistics, two timeouts, and an error that
    the failing logger does not take. *)
Definition failing_logger : ErrorHandler.ErrorLogger string string :=
  fun _ _ => JS.mkReply 5 (JS.Rejected "disk full"%string).

Definition handled : list (ErrorHandler.step string string) :=
  [ErrorHandler.Handle (ErrorHandler.AnError "TypeError"%string "Network down"%string) None;
   ErrorHandler.Handle (ErrorHandler.AnError "Error"%string "Validation failed"%string)
                       (Some "form"%string);
   ErrorHandler.ClearStats;
   ErrorHandler.Handle (ErrorHandler.AnError "Error"%string "Request timeout"%string) None;
   ErrorHandler.Elapse 1000;
   ErrorHandler.Handle (ErrorHandler.AnError "Error"%string "Gateway Timeout"%string) None;
   ErrorHandler.SetLogger failing_logger;
   ErrorHandler.Handle (ErrorHandler.AnError "NetworkError"%string "offline"%string) None].

(** The scenario of the specification: [set("user:42", "Ann", 5)], then
    the clock moves on. *)
Definition ann_after (ms : N) : EnhancedCacheManager.env (value := string) :=
  snd (EnhancedCacheManager.run
         [EnhancedCacheManager.OpSet "user:42"%string "Ann"%string (Some 5) done;
          EnhancedCacheManager.OpElapse ms]
         fresh).

End Fixture.

(* ------------------------------------------------------------------ *)
(** ** Properties                                                       *)
(* ------------------------------------------------------------------ *)

(** *** Vocabulary of the statements *)

Module Spec.
Import EnhancedCacheManager.

Section WithValue.
Context {value : Type} `{Json value}.

(** The entry that [get] and [exists] find in the memory tier: stored
    under [key] and not expired at the present time. *)
Definition live (e : env (value := value)) (key : string) : option CacheItem :=
  if enableMemoryCache (config (this e)) then
    match JS.map_get key (memoryCache (this e)) with
    | Some item =>
        if ttl item * 1000 <? JS.clock (rt e) - timestamp item
        then None else Some item
    | None => None
    end
  else None.

(** The facade passes its calls on to a remote client that sends them. *)
Definition remote_consulted (e : env (value := value)) : bool :=
  remoteActive (this e) && negb (Redis.unavailable (redisInstance e)).

(** The error counter of the remote tier client. *)
Definition remote_errors (e : env (value := value)) : Z :=
  Redis.errors (Redis.stats (redisInstance e)).

(** A remote read fails: the promise is rejected, or the text that comes
    back does not parse. *)
Definition read_fails (r : JS.reply (option string)) : Prop :=
  match JS.result r with
  | JS.Rejected _ => True
  | JS.Resolved (Some text) =>
      exists err, JSON_parse (value := value) text = JS.Throw err
  | JS.Resolved None => False
  end.

(** A remote write fails: the payload does not serialize, or the promise
    is rejected. *)
Definition write_fails (data : value) (r : JS.reply unit) : Prop :=
  (exists err, JSON_stringify data = JS.Throw err) \/
  (exists err, JS.result r = JS.Rejected err).

Definition rejected {A} (r : JS.reply A) : Prop :=
  exists err, JS.result r = JS.Rejected err.

(** What [checkMemoryLimit] leaves of a map. *)
Definition enforce_limit (m : JS.Map (CacheItem (value := value)))
  : JS.Map CacheItem :=
  if 1000 <? JS.map_size m then
    let sorted := JS.sort_by (fun en => lastAccessed (snd en)) m in
    fold_left (fun m' en => JS.map_delete (fst en) m')
              (firstn (Nat.div (List.length sorted) 10) sorted) m
  else m.

(** The key of the sort in [checkMemoryLimit], and the entries that the
    pass deletes: [entries.slice(0, ...)] after the sort. *)
Definition age (en : string * CacheItem (value := value)) : Z :=
  lastAccessed (snd en).

Definition victims (m : JS.Map (CacheItem (value := value)))
  : list (string * CacheItem (value := value)) :=
  firstn (Nat.div (List.length (JS.sort_by age m)) 10) (JS.sort_by age m).

(** The memory tier in order, as a property of the map, the clock and the
    switch: distinct keys, no access in the future, at most 1000 entries,
    and none when the tier is disabled. *)
Definition good (now : Z) (enabled : bool) (m : JS.Map (CacheItem (value := value)))
  : Prop :=
  NoDup (JS.map_keys m) /\
  (forall en, In en m -> lastAccessed (snd en) <= now) /\
  JS.map_size m <= 1000 /\
  (enabled = false -> m = []).

(** The TTL that [set] uses, and the item that it writes. *)
Definition effective_ttl (e : env (value := value)) (ttl : option Z) : Z :=
  match ttl with
  | Some x => x
  | None => defaultTtl (config (this e))
  end.

Definition written (e : env (value := value)) (data : value) (ttl : option Z)
  : CacheItem :=
  mkItem data (JS.clock (rt e)) (effective_ttl e ttl) 0 (JS.clock (rt e)).

(** The memory tier after [set]. *)
Definition memory_after_set (e : env (value := value)) (key : string)
           (data : value) (ttl : option Z) : JS.Map CacheItem :=
  enforce_limit
    (if enableMemoryCache (config (this e))
     then JS.map_set key (written e data ttl) (memoryCache (this e))
     else memoryCache (this e)).

(** An item is past its TTL at the present time, as [isExpired] and
    [cleanupExpiredItems] test it. *)
Definition expired (e : env (value := value)) (item : CacheItem (value := value)) : Prop :=
  ttl item * 1000 < JS.clock (rt e) - timestamp item.

(** The keys that [cleanupExpiredItems] deletes. *)
Definition expiredKeys (e : env (value := value)) : list string :=
  List.map fst
    (filter (fun en => ttl (snd en) * 1000 <? JS.clock (rt e) - timestamp (snd en))
            (memoryCache (this e))).

(** The map is a map: a key has one entry. *)
Definition distinct_keys (e : env (value := value)) : Prop :=
  NoDup (JS.map_keys (memoryCache (this e))).

(** The map is a map, and no entry was accessed in the future. *)
Definition well_formed (e : env (value := value)) : Prop :=
  distinct_keys e /\
  forall en, In en (memoryCache (this e)) ->
             lastAccessed (snd en) <= JS.clock (rt e).

(** The memory tier holds at most [maxEntries] = 1000 entries. *)
Definition within_limit (e : env (value := value)) : Prop :=
  JS.map_size (memoryCache (this e)) <= 1000.

(** A state of a facade with no remote tier in which the memory tier is in
    order: well formed, within its limit, and empty when it is disabled. *)
Definition memory_only_in_order (e : env (value := value)) : Prop :=
  remoteActive (this e) = false /\
  well_formed e /\
  within_limit e /\
  (enableMemoryCache (config (this e)) = false -> memoryCache (this e) = []).

(** Entries are stored only when the memory tier is enabled. *)
Definition stores_only_if_enabled (e : env (value := value)) : Prop :=
  enableMemoryCache (config (this e)) = false -> memoryCache (this e) = [].

(** The timer behind a handle is no longer in the table. *)
Definition cancelled (h : option nat) (r : JS.Runtime) : Prop :=
  match h with
  | Some h' => JS.findTimer h' r = None
  | None => True
  end.

(** The aggregate counters of the facade, and what one [get] makes of
    them: one request, counted as a hit or as a miss. *)
Definition totals (e : env (value := value)) : TotalStats :=
  total (stats (this e)).

Definition counted_hit (t : TotalStats) : TotalStats :=
  mkTotal (requests t + 1) (hits t + 1) (misses t) (hitRate t).

Definition counted_miss (t : TotalStats) : TotalStats :=
  mkTotal (requests t + 1) (hits t) (misses t + 1) (hitRate t).

(** Every request is a hit or a miss, and none is counted twice. *)
Definition consistent (t : TotalStats) : Prop :=
  requests t = hits t + misses t /\ 0 <= hits t /\ 0 <= misses t.

(** A computation that leaves the counters as they are, however it ends. *)
Definition keeps_totals {A} (m : M (value := value) A) : Prop :=
  forall e, totals (snd (m e)) = totals e.

End WithValue.
End Spec.

Module RedisSpec.
Import RedisCacheManager.

(** An event of a run of failures: anything but a connection that
    succeeds. *)
Definition failure (ev : event) : bool :=
  match ev with
  | Connect | Ready => false
  | Error | Close | Reconnecting | TimerFires _ => true
  end.

(** The timers of the table that will run the reconnect callback. *)
Definition reconnects (e : env) : list JS.timer :=
  filter (fun t => match JS.action t with
                   | JS.ReconnectCallback => true
                   | JS.CleanupCallback => false
                   end)
         (JS.pending (rt e)).

(** The delays of the timers that were set between [e] and [e']: the
    pending timers of [e'] whose handles [e] had not handed out. *)
Definition scheduled (e e' : env) : list Z :=
  List.map JS.delay
    (filter (fun t => Nat.leb (JS.nextHandle (rt e)) (JS.handle t))
            (JS.pending (rt e'))).

(** The delays given to [setTimeout] in the course of a run of events, in
    order. *)
Fixpoint delays (evs : list event) (e : env) : list Z :=
  match evs with
  | [] => []
  | ev :: rest =>
      let e' := snd (dispatch ev e) in
      scheduled e e' ++ delays rest e'
  end.

(** The client has given up: the attempts are used up. *)
Definition gave_up (e : env) : Prop :=
  maxReconnectAttempts (this e) <= reconnectAttempts (this e).

(** What holds of the timers in every state of a client: handles are
    fresh, and a pending reconnect timer is the timeout that
    [reconnectTimer] names, set while attempts were left. *)
Definition timers_ok (e : env) : Prop :=
  0 <= reconnectAttempts (this e) /\
  (forall t, In t (JS.pending (rt e)) -> (JS.handle t < JS.nextHandle (rt e))%nat) /\
  (forall t, In t (reconnects e) ->
     JS.repeating t = false /\
     reconnectTimer (this e) = Some (JS.handle t) /\
     reconnectAttempts (this e) < maxReconnectAttempts (this e)).

(** The counters of the client in order: hits are requests, and the stored
    [hitRate] is a ratio, 0 while nothing was requested. *)
Definition stats_in_order (st : CacheStats) : Prop :=
  0 <= hits st <= requests st /\
  (0 <= hitRate st <= 1)%Q /\
  (requests st = 0 -> hitRate st = 0%Q).

(** A client that is connected, with all its attempts left. *)
Definition connected_client : env :=
  mkEnv (JS.boot 0) (mk (Some ioredis) true initialStats 0 5 None).

(** The connection fails, and so does every attempt to reconnect: each
    timer that is set fires and is followed by an error. *)
Definition failures_in_a_row : list event :=
  [Error; TimerFires 1; Error; TimerFires 2; Error; TimerFires 3;
   Error; TimerFires 4; Error; TimerFires 5; Error; Close; Error].

(** Reconnect attempts that fail, [n] in a row: the connection reports an
    error, the timer that the handler has set fires, which makes the
    attempt, and the attempt ends in the next error. *)
Fixpoint failed_attempts (n : nat) (e : env) : list event :=
  match n with
  | O => []
  | S n' =>
      let e1 := snd (dispatch Error e) in
      match reconnectTimer (this e1) with
      | Some h =>
          Error :: TimerFires h
                :: failed_attempts n' (snd (dispatch (TimerFires h) e1))
      | None => [Error]
      end
  end.

(** Errors that come in faster than the timer fires. *)
Definition error_burst : list event := [Error; Error; Error; Error; Error; Error].

End RedisSpec.

Module FacadeSpec.
Import EnhancedCacheManager.
Import Spec.

Section WithValue.
Context {value : Type} `{Json value}.

(** What a reader finds under a key in the memory tier. *)
Definition reads (e : env (value := value)) (key : string) : option value :=
  option_map data (live e key).

(** An item after a hit at time [now]: [updateAccessStats]. *)
Definition touched (now : Z) (item : CacheItem (value := value)) : CacheItem :=
  mkItem (data item) (timestamp item) (ttl item) (accessCount item + 1) now.

(** Two states differ at most in the map and in the statistics. *)
Definition same_setup (e e' : env (value := value)) : Prop :=
  rt e' = rt e /\
  redisInstance e' = redisInstance e /\
  config (this e') = config (this e) /\
  redisCache (this e') = redisCache (this e) /\
  backendType (this e') = backendType (this e) /\
  cleanupTimer (this e') = cleanupTimer (this e).

(** One [set] after the other, each complete before the next starts. *)
Fixpoint set_each (items : list (string * value * option Z * JS.reply unit))
  : M (value := value) unit :=
  match items with
  | [] => JS.ret tt
  | (key, data, ttl, r) :: rest => set key data ttl r ;;; set_each rest
  end.

(** The test of [isExpired] and of [cleanupExpiredItems] on an entry. *)
Definition stale (e : env (value := value))
           (en : string * CacheItem (value := value)) : bool :=
  ttl (snd en) * 1000 <? JS.clock (rt e) - timestamp (snd en).

(** A facade as its constructor leaves it and as its methods keep it:
    configured with [cfg], no remote client attached or touched, the
    backend reported as the memory one, the stored hit rates at their
    first value, and the table of timers holding the cleanup interval
    while [cleanupTimer] names it, and nothing else. *)
Definition standalone (cfg : EnhancedCacheConfig) (e : env (value := value)) : Prop :=
  config (this e) = cfg /\
  redisCache (this e) = false /\
  backendType (this e) = memory /\
  redisInstance e = Redis.constructor /\
  memoryHitRate (memoryCacheStats (stats (this e))) = 0%Q /\
  backend (stats (this e)) = mkBackend memory connected 0%Q /\
  JS.pending (rt e)
    = match cleanupTimer (this e) with
      | Some h => [JS.mkTimer h true (cleanupInterval cfg) JS.CleanupCallback]
      | None => []
      end.

End WithValue.
End FacadeSpec.

Module ClientSpec.
Import RedisCacheManager.

Section WithValue.
Context {value : Type} `{Json value}.

(** What a user of the remote tier client, or its connection, does
    next. *)
Inductive call : Type :=
  | CallGet (key : string) (r : JS.reply (option string))
  | CallSet (key : string) (data : value) (ttlSeconds : Z) (r : JS.reply unit)
  | CallDelete (key : string) (r : JS.reply unit)
  | CallExists (key : string) (r : JS.reply Z)
  | CallMget (keys : list string) (r : JS.reply (list (option string)))
  | CallMset (items : list (string * value * option Z)) (r : JS.reply unit)
  | CallClear (r : JS.reply unit)
  | CallGetInfo (r : JS.reply string)
  | CallGetStats
  | CallDestroy
  | Happens (ev : event).

Definition ignore {A} (m : M A) : M unit := m ;;; JS.ret tt.

Definition perform (c : call) : M unit :=
  match c with
  | CallGet key r => ignore (get (value := value) key r)
  | CallSet key data ttlSeconds r => set key data ttlSeconds r
  | CallDelete key r => delete key r
  | CallExists key r => ignore (exists_ key r)
  | CallMget keys r => ignore (mget (value := value) keys r)
  | CallMset items r => mset items r
  | CallClear r => clear r
  | CallGetInfo r => ignore (getInfo r)
  | CallGetStats => ignore getStats
  | CallDestroy => destroy
  | Happens ev => dispatch ev
  end.

(** The state after a run of calls and events; a call that throws would
    end the run. *)
Fixpoint run_calls (cs : list call) (e : env) : env :=
  match cs with
  | [] => e
  | c :: rest =>
      match perform c e with
      | (JS.Normal _, e') => run_calls rest e'
      | (JS.Throw _, e') => e'
      end
  end.

End WithValue.

(** Every request is accounted for: it is a hit, a miss or an error, and
    no request is both a hit and a miss. *)
Definition accounted (st : CacheStats) : Prop :=
  0 <= hits st /\ 0 <= misses st /\ 0 <= errors st /\
  hits st + misses st <= requests st <= hits st + misses st + errors st.

(** A line of the text that the [INFO] command returns: a field, or
    anything else (a section title, an empty line). *)
Inductive info_entry : Type :=
  | Field (key value : string)
  | Other (text : string).

Definition entry_text (l : info_entry) : string :=
  match l with
  | Field key value => (key ++ JSString.colon ++ value)%string
  | Other text => text
  end.

Definition info_text (ls : list info_entry) : string :=
  JSString.join JSString.CRLF (List.map entry_text ls).

Fixpoint fields (ls : list info_entry) : list (string * string) :=
  match ls with
  | [] => []
  | Field key value :: rest => (key, value) :: fields rest
  | Other _ :: rest => fields rest
  end.

(** A text with no carriage return, line feed or colon in it. *)
Fixpoint plain (s : string) : bool :=
  match s with
  | EmptyString => true
  | String c rest =>
      negb (Ascii.eqb c JSString.CR) &&
      negb (Ascii.eqb c JSString.LF) &&
      negb (Ascii.eqb c JSString.COLON) &&
      plain rest
  end.

(** A property whose key is an array index, the index, and a property of
    any other key. *)
Definition is_index (en : string * string) : bool :=
  match JSString.array_index (fst en) with
  | Some _ => true
  | None => false
  end.

Definition key_index (en : string * string) : N :=
  match JSString.array_index (fst en) with
  | Some n => n
  | None => 0%N
  end.

Definition named (en : string * string) : bool := negb (is_index en).

(** The order of the array indices. *)
Definition by_index (a b : string * string) : Prop := (key_index a <= key_index b)%N.

Definition well_formed_entry (l : info_entry) : bool :=
  match l with
  | Field key value =>
      plain key && plain value && negb (String.eqb key "__proto__")
  | Other text => plain text
  end.

End ClientSpec.

Module HandlerSpec.
Import ErrorTypes.
Import ErrorHandler.

(** The codes that [mapErrorToCode] has a reachable [return] for. *)
Definition mapped_codes : list ErrorCode :=
  [NETWORK_ERROR; TIMEOUT_ERROR; CONNECTION_REFUSED; DNS_RESOLUTION_FAILED;
   DATABASE_CONNECTION_ERROR; DATABASE_QUERY_FAILED; RECORD_NOT_FOUND;
   DUPLICATE_RECORD; FILE_NOT_FOUND; FILE_READ_ERROR; FILE_WRITE_ERROR;
   FILE_SIZE_EXCEEDED; VALIDATION_ERROR; INVALID_INPUT; MISSING_REQUIRED_FIELD;
   INVALID_FORMAT; UNAUTHORIZED; FORBIDDEN; TOKEN_EXPIRED; INVALID_CREDENTIALS;
   MODEL_NOT_FOUND; MODEL_INVOCATION_FAILED; PROVIDER_NOT_FOUND;
   MODEL_RATE_LIMITED; ASSISTANT_NOT_FOUND; ASSISTANT_CREATION_FAILED;
   ASSISTANT_UPDATE_FAILED; INTERNAL_ERROR].

(** [counts.get(code) || 0] *)
Definition count_in (code : ErrorCode) (counts : JS.Map Z) : Z :=
  match JS.map_get (code_name code) counts with
  | Some n => n
  | None => 0
  end.

Section WithLowerCase.
Variable toLowerCase : string -> string.
Variables ErrorContext Details : Type.

(** The code under which [handleError] files an error. *)
Definition code_of (error : Error ErrorContext Details) : ErrorCode :=
  match error with
  | AnAppError e => code e
  | AnError name message => mapErrorToCode toLowerCase name message
  end.

(** The error as [handleError] normalizes it in the state [e]. *)
Definition normalized (error : Error ErrorContext Details)
           (context : option ErrorContext) (e : env ErrorContext Details)
  : AppError ErrorContext Details :=
  match error with
  | AnAppError a => a
  | AnError name message =>
      new_AppError (now e) (mapErrorToCode toLowerCase name message) message
                   (mkOptions None None context None)
  end.

(** The logger in place accepts the error. *)
Definition logged (error : Error ErrorContext Details)
           (context : option ErrorContext) (e : env ErrorContext Details) : bool :=
  match JS.result (errorLogger (this e) (normalized error context e) context) with
  | JS.Resolved _ => true
  | JS.Rejected _ => false
  end.

(** The codes of the errors that were logged since the statistics were
    last cleared, oldest first: [acc] holds them for the steps done, [e] is
    the state reached. *)
Fixpoint tally (steps : list (step ErrorContext Details))
         (e : env ErrorContext Details) (acc : list ErrorCode) : list ErrorCode :=
  match steps with
  | [] => acc
  | s :: rest =>
      tally rest (snd (perform toLowerCase s e))
            match s with
            | Handle error context =>
                if logged error context e then acc ++ [code_of error] else acc
            | ClearStats => []
            | SetLogger _ | SetNotifier _ | Elapse _ => acc
            end
  end.

(** How often a code occurs. *)
Definition occurrences (code : ErrorCode) (codes : list ErrorCode) : Z :=
  Z.of_nat (List.length (filter (code_eqb code) codes)).

(** The toast that the notifier shows for an error. *)
Definition toast_for (a : AppError ErrorContext Details) : Toast :=
  mkToast (getNotificationTitle (severity a)) (getUserFriendlyMessage a)
          (match severity a with
           | CRITICAL | HIGH => "destructive"%string
           | MEDIUM | LOW => "default"%string
           end)
          (getNotificationDuration (severity a)).

(** What the statistics hold after some steps: the entries of the counts
    have different keys and add up to the number of errors logged since
    they were last cleared, every count is the number of times its code
    was logged, and a code that was not logged has no last time. *)
Definition filed (e : env ErrorContext Details) (codes : list ErrorCode) : Prop :=
  NoDup (JS.map_keys (errorCounts (ErrorHandler.this e))) /\
  fold_left (fun sum count => sum + count)
            (List.map snd (errorCounts (ErrorHandler.this e))) 0
  = Z.of_nat (List.length codes) /\
  (forall c, count_in c (errorCounts (ErrorHandler.this e)) = occurrences c codes) /\
  (forall c, ~ In c codes ->
     JS.map_get (code_name c) (lastErrorTime (ErrorHandler.this e)) = None).

End WithLowerCase.
End HandlerSpec.

(** *** Computations that return *)

Definition returns {S A} (m : JS.M S A) : Prop :=
  forall s, exists a s', m s = (JS.Normal a, s').

Lemma returns_ret {S A} (a : A) : returns (JS.ret (S := S) a).
Proof. intros s. exists a, s. reflexivity. Qed.

Lemma returns_gets {S A} (f : S -> A) : returns (JS.gets f).
Proof. intros s. exists (f s), s. reflexivity. Qed.

Lemma returns_modify {S} (f : S -> S) : returns (JS.modify f).
Proof. intros s. exists tt, (f s). reflexivity. Qed.

Lemma returns_bind {S A B} (m : JS.M S A) (k : A -> JS.M S B) :
  returns m -> (forall a, returns (k a)) -> returns (JS.bind m k).
Proof.
  intros Hm Hk s. unfold JS.bind.
  destruct (Hm s) as (a & s' & ->). apply Hk.
Qed.

Lemma returns_try_catch {S A} (body : JS.M S A) (handler : string -> JS.M S A) :
  (forall e, returns (handler e)) -> returns (JS.try_catch body handler).
Proof.
  intros Hh s. unfold JS.try_catch.
  destruct (body s) as [[a | e] s'].
  - exists a, s'. reflexivity.
  - apply Hh.
Qed.

Lemma returns_zoom {S T A} (rd : S -> T) (wr : T -> S -> S) (m : JS.M T A) :
  returns m -> returns (JS.zoom rd wr m).
Proof.
  intros Hm s. unfold JS.zoom.
  destruct (Hm (rd s)) as (a & t' & ->). eauto.
Qed.

Lemma returns_if {S A} (c : bool) (m1 m2 : JS.M S A) :
  returns m1 -> returns m2 -> returns (if c then m1 else m2).
Proof. destruct c; auto. Qed.

Create HintDb returns.
#[export] Hint Resolve returns_ret returns_gets returns_modify
  returns_try_catch returns_zoom returns_if : returns.

Ltac returns_step :=
  match goal with
  | |- returns (JS.bind _ _) => apply returns_bind; [ | intros ? ]
  | |- returns (JS.try_catch _ _) => apply returns_try_catch; intros ?
  | |- returns (JS.zoom _ _ _) => apply returns_zoom
  | |- returns (if _ then _ else _) => apply returns_if
  | |- returns (match ?x with _ => _ end) => destruct x
  | |- returns (JS.ret _) => apply returns_ret
  | |- returns (JS.gets _) => apply returns_gets
  | |- returns (JS.modify _) => apply returns_modify
  end.

Ltac returns_tac := repeat returns_step; auto with returns.

(** Running the monad: its operations are unfolded and the matches on the
    completions they build are reduced. *)
Ltac js_run :=
  cbv beta iota delta [JS.bind JS.ret JS.gets JS.modify JS.throw JS.try_catch
                       JS.zoom JS.when eval].

(** Running the facade: the monad, the calls on the remote client, and the
    field reads and writes of the two objects. *)
Ltac facade_run :=
  cbv beta iota delta
    [JS.bind JS.ret JS.gets JS.modify JS.throw JS.try_catch JS.zoom JS.when eval
     EnhancedCacheManager.promise EnhancedCacheManager.on_redis
     EnhancedCacheManager.Date_now EnhancedCacheManager.upd
     EnhancedCacheManager.set_rt EnhancedCacheManager.set_redisCache
     EnhancedCacheManager.set_memoryCache EnhancedCacheManager.set_stats
     EnhancedCacheManager.set_cleanupTimer EnhancedCacheManager.set_backendType
     EnhancedCacheManager.set_total EnhancedCacheManager.set_backend
     EnhancedCacheManager.set_memoryCacheStats
     EnhancedCacheManager.incr_requests EnhancedCacheManager.incr_hits
     EnhancedCacheManager.incr_misses EnhancedCacheManager.set_status
     EnhancedCacheManager.rt EnhancedCacheManager.redisInstance
     EnhancedCacheManager.this EnhancedCacheManager.redisCache
     EnhancedCacheManager.memoryCache EnhancedCacheManager.config
     EnhancedCacheManager.stats EnhancedCacheManager.cleanupTimer
     EnhancedCacheManager.backendType EnhancedCacheManager.total
     EnhancedCacheManager.backend EnhancedCacheManager.memoryCacheStats
     RedisCacheManager.rt RedisCacheManager.this RedisCacheManager.Date_now
     RedisCacheManager.await RedisCacheManager.set_rt
     RedisCacheManager.set_stats RedisCacheManager.set_isConnected
     RedisCacheManager.set_reconnectAttempts RedisCacheManager.set_reconnectTimer
     RedisCacheManager.set_redis RedisCacheManager.updateAvgResponseTime
     RedisCacheManager.updateHitRate].

(** *** The remote tier client never throws *)

Module RedisFacts.
Import RedisCacheManager.

Lemma redis_updateAvgResponseTime_returns d : returns (updateAvgResponseTime d).
Proof. unfold updateAvgResponseTime. returns_tac. Qed.

Lemma redis_updateHitRate_returns : returns updateHitRate.
Proof. unfold updateHitRate. returns_tac. Qed.

Lemma redis_Date_now_returns : returns Date_now.
Proof. unfold Date_now. returns_tac. Qed.

#[export] Hint Resolve redis_updateAvgResponseTime_returns redis_updateHitRate_returns
  redis_Date_now_returns : returns.

Lemma redis_scheduleReconnect_returns : returns scheduleReconnect.
Proof. unfold scheduleReconnect. returns_tac. Qed.

Lemma redis_delete_returns key r : returns (delete key r).
Proof. unfold delete. returns_tac. Qed.

Lemma redis_exists_returns key r : returns (exists_ key r).
Proof. unfold exists_. returns_tac. Qed.

Lemma redis_clear_returns r : returns (clear r).
Proof. unfold clear. returns_tac. Qed.

Lemma redis_destroy_returns : returns destroy.
Proof. unfold destroy. returns_tac. Qed.

Lemma redis_reconnectCallback_returns : returns reconnectCallback.
Proof. unfold reconnectCallback. returns_tac. Qed.

Section WithValue.
Context {value : Type} `{Json value}.

Lemma redis_get_returns key r : returns (get (value := value) key r).
Proof. unfold get. returns_tac. Qed.

Lemma redis_set_begin_returns key (data : value) ttl : returns (set_begin key data ttl).
Proof. unfold set_begin. returns_tac. Qed.

Lemma redis_set_resume_returns p r : returns (set_resume p r).
Proof. unfold set_resume. returns_tac. Qed.

Lemma redis_set_returns key (data : value) ttl r : returns (set key data ttl r).
Proof.
  unfold set. apply returns_bind; [ apply redis_set_begin_returns | intros p ].
  apply redis_set_resume_returns.
Qed.

End WithValue.

#[export] Hint Resolve redis_scheduleReconnect_returns redis_delete_returns redis_exists_returns
  redis_clear_returns redis_destroy_returns redis_reconnectCallback_returns redis_get_returns
  redis_set_begin_returns redis_set_resume_returns redis_set_returns : returns.

End RedisFacts.

(** *** The facade never throws *)

Module FacadeReturns.
Import EnhancedCacheManager.
Import RedisFacts.

Section WithValue.
Context {value : Type} `{Json value}.

Lemma on_redis_returns {A} (m : Redis.M A) :
  returns m -> returns (on_redis (value := value) m).
Proof. intros Hm. unfold on_redis. returns_tac. Qed.

Lemma promise_returns {A} (m : M (value := value) A) : returns (promise m).
Proof.
  intros e. unfold promise. destruct (m e) as [c e']. eauto.
Qed.

Lemma Date_now_returns : returns (Date_now (value := value)).
Proof. unfold Date_now. returns_tac. Qed.

Lemma isExpired_returns item : returns (isExpired (value := value) item).
Proof. unfold isExpired. returns_tac. apply Date_now_returns. Qed.

Lemma updateAccessStats_returns key item :
  returns (updateAccessStats (value := value) key item).
Proof. unfold updateAccessStats. returns_tac. apply Date_now_returns. Qed.

Lemma calculateHitRate_returns which :
  returns (calculateHitRate (value := value) which).
Proof. unfold calculateHitRate. returns_tac. Qed.

Lemma checkMemoryLimit_returns : returns (checkMemoryLimit (value := value)).
Proof. unfold checkMemoryLimit. returns_tac. Qed.

#[local] Hint Resolve on_redis_returns promise_returns Date_now_returns
  isExpired_returns updateAccessStats_returns calculateHitRate_returns
  checkMemoryLimit_returns : returns.

Lemma get_backend_returns key r : returns (get_backend (value := value) key r).
Proof. unfold get_backend. returns_tac. Qed.

#[local] Hint Resolve get_backend_returns : returns.

Lemma get_returns key r : returns (get (value := value) key r).
Proof. unfold get. returns_tac. Qed.

Lemma set_begin_returns key (data : value) ttl : returns (set_begin key data ttl).
Proof. unfold set_begin. returns_tac. Qed.

Lemma set_resume_returns sp r : returns (set_resume (value := value) sp r).
Proof. unfold set_resume. returns_tac. Qed.

#[local] Hint Resolve set_begin_returns set_resume_returns : returns.

Lemma set_returns key (data : value) ttl r : returns (set key data ttl r).
Proof. unfold set. returns_tac. Qed.

Lemma delete_returns key r : returns (delete (value := value) key r).
Proof. unfold delete. returns_tac. Qed.

Lemma exists_backend_returns key r :
  returns (exists_backend (value := value) key r).
Proof. unfold exists_backend. returns_tac. Qed.

#[local] Hint Resolve exists_backend_returns : returns.

Lemma exists_returns key r : returns (exists_ (value := value) key r).
Proof. unfold exists_. returns_tac. Qed.

Lemma mget_returns keys : returns (mget (value := value) keys).
Proof.
  induction keys as [| [key r] rest IH]; simpl.
  - apply returns_ret.
  - returns_tac. apply get_returns.
Qed.

Lemma mset_begin_returns (items : list (string * value * option Z * JS.reply unit)) :
  returns (mset_begin items).
Proof.
  induction items as [| [[[key data] ttl] r] rest IH]; simpl.
  - apply returns_ret.
  - returns_tac.
Qed.

Lemma mset_resume_returns sps : returns (mset_resume (value := value) sps).
Proof.
  induction sps as [| [sp r] rest IH]; simpl.
  - apply returns_ret.
  - returns_tac.
Qed.

Lemma mset_returns (items : list (string * value * option Z * JS.reply unit)) :
  returns (mset items).
Proof.
  unfold mset. apply returns_bind.
  - apply mset_begin_returns.
  - intros sps. apply mset_resume_returns.
Qed.

Lemma clear_returns r : returns (clear (value := value) r).
Proof. unfold clear. returns_tac. Qed.

Lemma getStats_returns : returns (getStats (value := value)).
Proof. unfold getStats. returns_tac. Qed.

Lemma cleanupExpiredItems_returns : returns (cleanupExpiredItems (value := value)).
Proof. unfold cleanupExpiredItems. returns_tac. Qed.

Lemma destroy_returns : returns (destroy (value := value)).
Proof. unfold destroy. returns_tac. Qed.

Lemma fire_returns h : returns (fire (value := value) h).
Proof.
  unfold fire. returns_tac. apply cleanupExpiredItems_returns.
Qed.

Lemma perform_returns (o : op (value := value)) : returns (perform o).
Proof.
  destruct o; simpl; unfold ignore; returns_tac;
    auto using get_returns, set_returns, delete_returns, exists_returns,
      mget_returns, mset_returns, clear_returns, getStats_returns,
      destroy_returns, fire_returns.
Qed.

Lemma run_returns (ops : list (op (value := value))) : returns (run ops).
Proof.
  induction ops as [| o rest IH]; simpl.
  - apply returns_ret.
  - apply returns_bind; [ apply perform_returns | intros _; exact IH ].
Qed.

End WithValue.
End FacadeReturns.

(** *** A failed remote call is an error count and a miss *)

Module RemoteFailure.
Import EnhancedCacheManager.
Import Spec.

Section WithValue.
Context {value : Type} `{Json value}.

Lemma redis_get_fails (e : Redis.env) key (r : JS.reply (option string)) :
  Redis.unavailable (Redis.this e) = false ->
  read_fails (value := value) r ->
  exists e',
    Redis.get (value := value) key r e = (JS.Normal None, e') /\
    Redis.errors (Redis.stats (Redis.this e'))
      = Redis.errors (Redis.stats (Redis.this e)) + 1 /\
    Redis.unavailable (Redis.this e') = false.
Proof.
  intros Hav Hf. unfold Redis.get, JS.bind, JS.gets. rewrite Hav.
  unfold Redis.Date_now, JS.gets, JS.modify, JS.try_catch, JS.bind, Redis.await.
  unfold read_fails in Hf. destruct r as [lat [[text |] | err]]; simpl in *.
  - destruct Hf as [err Herr]. unfold eval. rewrite Herr.
    eexists; split; [ reflexivity | split; [ reflexivity | exact Hav ] ].
  - contradiction.
  - eexists; split; [ reflexivity | split; [ reflexivity | exact Hav ] ].
Qed.

Lemma redis_set_fails (e : Redis.env) key (data : value) ttl (r : JS.reply unit) :
  Redis.unavailable (Redis.this e) = false ->
  write_fails data r ->
  exists e',
    Redis.set key data ttl r e = (JS.Normal tt, e') /\
    Redis.errors (Redis.stats (Redis.this e'))
      = Redis.errors (Redis.stats (Redis.this e)) + 1.
Proof.
  intros Hav Hf.
  unfold Redis.set, Redis.set_begin, JS.bind, JS.gets. rewrite Hav.
  unfold Redis.Date_now, JS.gets, JS.try_catch, JS.bind, eval.
  destruct (JSON_stringify data) as [text | err] eqn:Hs.
  - destruct Hf as [[err Herr] | [err Herr]]; [ congruence | ].
    simpl. unfold JS.try_catch, JS.bind, Redis.await, JS.bind, JS.modify.
    rewrite Herr. simpl. eexists; split; reflexivity.
  - simpl. eexists; split; reflexivity.
Qed.

Lemma redis_delete_fails (e : Redis.env) key (r : JS.reply unit) :
  Redis.unavailable (Redis.this e) = false ->
  rejected r ->
  exists e',
    Redis.delete key r e = (JS.Normal tt, e') /\
    Redis.errors (Redis.stats (Redis.this e'))
      = Redis.errors (Redis.stats (Redis.this e)) + 1.
Proof.
  intros Hav [err Herr].
  unfold Redis.delete, JS.bind, JS.gets. rewrite Hav.
  unfold JS.try_catch, Redis.await, JS.bind, JS.modify. rewrite Herr. simpl.
  eexists; split; reflexivity.
Qed.

(** With no live entry in the memory tier, [get] is its backend part. *)
Lemma get_memory_miss (e : env (value := value)) key r :
  live e key = None ->
  get key r e = get_backend key r (incr_requests e).
Proof.
  intros Hl. unfold get, JS.bind, JS.modify, JS.gets. simpl.
  unfold live in Hl.
  destruct (enableMemoryCache (config (this e))); [ | reflexivity ].
  destruct (JS.map_get key (memoryCache (this e))) as [item |]; [ | reflexivity ].
  unfold isExpired, JS.bind, Date_now, JS.gets, JS.ret. simpl.
  destruct (ttl item * 1000 <? JS.clock (rt e) - timestamp item);
    [ reflexivity | discriminate ].
Qed.

Lemma get_fails (e : env (value := value)) key r :
  remote_consulted e = true ->
  live e key = None ->
  read_fails (value := value) r ->
  exists e',
    get key r e = (JS.Normal None, e') /\ remote_errors e' = remote_errors e + 1.
Proof.
  intros Hc Hl Hf. rewrite get_memory_miss by exact Hl.
  unfold remote_consulted in Hc. apply andb_true_iff in Hc as [Ha Hav].
  apply negb_true_iff in Hav.
  assert (Ha' : remoteActive (this (incr_requests e)) = true) by exact Ha.
  destruct (redis_get_fails
              (Redis.mkEnv (rt (incr_requests e)) (redisInstance (incr_requests e)))
              key r Hav Hf) as (e1 & Hget & Herr & _).
  set (e0 := incr_requests e) in *.
  unfold get_backend, JS.bind, JS.gets. rewrite Ha'.
  unfold JS.try_catch, JS.bind, on_redis, JS.zoom. rewrite Hget.
  unfold JS.ret, JS.modify. eexists; split; [ reflexivity | exact Herr ].
Qed.

Lemma checkMemoryLimit_eq (e : env (value := value)) :
  checkMemoryLimit e = (JS.Normal tt, set_memoryCache enforce_limit e).
Proof.
  destruct e as [r ri [rc m cfg st ct bt]].
  unfold checkMemoryLimit, JS.bind, JS.gets, enforce_limit, set_memoryCache, upd.
  cbv beta iota delta [this memoryCache].
  destruct (1000 <? JS.map_size m); reflexivity.
Qed.

Lemma set_fails (e : env (value := value)) key data ttl r :
  remote_consulted e = true ->
  write_fails data r ->
  exists e',
    set key data ttl r e = (JS.Normal tt, e') /\ remote_errors e' = remote_errors e + 1.
Proof.
  intros Hc Hf.
  unfold remote_consulted in Hc. apply andb_true_iff in Hc as [Ha Hav].
  apply negb_true_iff in Hav.
  unfold set, set_begin, JS.bind, JS.gets, Date_now, JS.gets. simpl. rewrite Ha.
  unfold promise, on_redis, JS.zoom, Redis.set_begin, JS.bind, JS.gets.
  destruct (enableMemoryCache (config (this e))); simpl; rewrite Hav;
    unfold Redis.Date_now, JS.gets, JS.try_catch, JS.bind, eval;
    (destruct (JSON_stringify data) as [text | err] eqn:Hs; simpl;
     [ destruct Hf as [[err Herr] | [err Herr]]; [ congruence | ] | ]);
    cbv beta iota delta [JS.bind JS.try_catch eval on_redis JS.zoom
      Redis.set_resume Redis.await JS.modify JS.ret];
    try rewrite Herr; js_run;
    rewrite checkMemoryLimit_eq; eexists; (split; reflexivity).
Qed.

Lemma delete_fails (e : env (value := value)) key r :
  remote_consulted e = true ->
  rejected r ->
  exists e',
    delete key r e = (JS.Normal tt, e') /\ remote_errors e' = remote_errors e + 1.
Proof.
  intros Hc Hf.
  unfold remote_consulted in Hc. apply andb_true_iff in Hc as [Ha Hav].
  apply negb_true_iff in Hav.
  unfold delete, JS.bind, JS.gets. simpl.
  destruct (enableMemoryCache (config (this e))); simpl; rewrite Ha;
    unfold JS.try_catch, on_redis, JS.zoom; simpl;
    destruct (redis_delete_fails (Redis.mkEnv (rt e) (redisInstance e)) key Hav Hf)
      as (e1 & -> & Herr);
    simpl; eexists; (split; [ reflexivity | exact Herr ]).
Qed.

(** C1.  After every sequence of cache operations, from every state and
    for every key: [get], [set] and [delete] of the facade return and do
    not throw, whatever the remote tier answers.  When the remote client
    sends the call and the call fails (a rejected promise, a payload that
    does not serialize, a text that does not parse), the failure is caught
    in the client: the facade's [get] returns [null], [set] and [delete]
    return normally, and the client's [errors] counter goes up by one. *)
Theorem facade_absorbs_remote_failure
  (ops : list (op (value := value))) (e0 : env) (key : string) :
  exists e,
    run ops e0 = (JS.Normal tt, e) /\
    (forall r, exists v e', get key r e = (JS.Normal v, e')) /\
    (forall data ttl r, exists e', set key data ttl r e = (JS.Normal tt, e')) /\
    (forall r, exists e', delete key r e = (JS.Normal tt, e')) /\
    (forall r,
       remote_consulted e = true -> live e key = None ->
       read_fails (value := value) r ->
       exists e',
         get key r e = (JS.Normal None, e') /\
         remote_errors e' = remote_errors e + 1) /\
    (forall data ttl r,
       remote_consulted e = true -> write_fails data r ->
       exists e',
         set key data ttl r e = (JS.Normal tt, e') /\
         remote_errors e' = remote_errors e + 1) /\
    (forall r,
       remote_consulted e = true -> rejected r ->
       exists e',
         delete key r e = (JS.Normal tt, e') /\
         remote_errors e' = remote_errors e + 1).
Proof.
  destruct (FacadeReturns.run_returns ops e0) as ([] & e & Hrun).
  exists e. split; [ exact Hrun | ].
  split; [ intros r; apply FacadeReturns.get_returns | ].
  split.
  { intros data ttl r.
    destruct (FacadeReturns.set_returns key data ttl r e) as ([] & e' & Hs).
    exists e'. exact Hs. }
  split.
  { intros r.
    destruct (FacadeReturns.delete_returns key r e) as ([] & e' & Hd).
    exists e'. exact Hd. }
  split; [ intros r; apply get_fails | ].
  split; [ intros data ttl r; apply set_fails | ].
  intros r; apply delete_fails.
Qed.

End WithValue.

Lemma facade_absorbs_remote_failure_witness :
  exists e',
    get (value := string) "user:42"%string Fixture.timeout Fixture.hybrid
      = (JS.Normal None, e') /\
    remote_errors e' = 1.
Proof.
  destruct (facade_absorbs_remote_failure [] Fixture.hybrid "user:42"%string)
    as (e & Hrun & _ & _ & _ & Hget & _).
  injection Hrun as <-.
  apply (Hget Fixture.timeout); [ reflexivity | reflexivity | exact I ].
Defined.

End RemoteFailure.

(** *** The aggregate counters *)

Module Counters.
Import EnhancedCacheManager.
Import Spec.

Section WithValue.
Context {value : Type} `{Json value}.

Lemma keeps_ret {A} (a : A) : keeps_totals (JS.ret (S := env (value := value)) a).
Proof. intros e. reflexivity. Qed.

Lemma keeps_gets {A} (f : env (value := value) -> A) : keeps_totals (JS.gets f).
Proof. intros e. reflexivity. Qed.

Lemma keeps_eval {A} (c : JS.completion A) :
  keeps_totals (eval (S := env (value := value)) c).
Proof. intros e. reflexivity. Qed.

Lemma keeps_modify (f : env (value := value) -> env) :
  (forall e, totals (f e) = totals e) -> keeps_totals (JS.modify f).
Proof. intros Hf e. apply Hf. Qed.

Lemma keeps_bind {A B} (m : M (value := value) A) (k : A -> M B) :
  keeps_totals m -> (forall a, keeps_totals (k a)) -> keeps_totals (JS.bind m k).
Proof.
  intros Hm Hk e. unfold JS.bind. specialize (Hm e).
  destruct (m e) as [[a | err] e1]; simpl in *.
  - rewrite Hk. exact Hm.
  - exact Hm.
Qed.

Lemma keeps_try_catch {A} (body : M (value := value) A) handler :
  keeps_totals body -> (forall err, keeps_totals (handler err)) ->
  keeps_totals (JS.try_catch body handler).
Proof.
  intros Hb Hh e. unfold JS.try_catch. specialize (Hb e).
  destruct (body e) as [[a | err] e1]; simpl in *.
  - exact Hb.
  - rewrite Hh. exact Hb.
Qed.

Lemma keeps_if {A} (c : bool) (m1 m2 : M (value := value) A) :
  keeps_totals m1 -> keeps_totals m2 -> keeps_totals (if c then m1 else m2).
Proof. destruct c; auto. Qed.

Lemma keeps_on_redis {A} (m : Redis.M A) : keeps_totals (on_redis (value := value) m).
Proof.
  intros e. unfold on_redis, JS.zoom.
  destruct (m _) as [c r]. reflexivity.
Qed.

Lemma keeps_promise {A} (m : M (value := value) A) :
  keeps_totals m -> keeps_totals (promise m).
Proof.
  intros Hm e. unfold promise. specialize (Hm e).
  destruct (m e) as [c e1]. exact Hm.
Qed.

Ltac keeps_step :=
  match goal with
  | |- keeps_totals (JS.bind _ _) => apply keeps_bind; [ | intros ? ]
  | |- keeps_totals (JS.try_catch _ _) => apply keeps_try_catch; [ | intros ? ]
  | |- keeps_totals (if _ then _ else _) => apply keeps_if
  | |- keeps_totals (match ?x with _ => _ end) => destruct x
  | |- keeps_totals (JS.ret _) => apply keeps_ret
  | |- keeps_totals (JS.gets _) => apply keeps_gets
  | |- keeps_totals (eval _) => apply keeps_eval
  | |- keeps_totals (on_redis _) => apply keeps_on_redis
  | |- keeps_totals (promise _) => apply keeps_promise
  | |- keeps_totals (JS.modify _) => apply keeps_modify; intros ?; reflexivity
  end.

Ltac keeps_tac := repeat keeps_step; auto.

Lemma keeps_Date_now : keeps_totals (Date_now (value := value)).
Proof. unfold Date_now. keeps_tac. Qed.

Lemma keeps_checkMemoryLimit : keeps_totals (checkMemoryLimit (value := value)).
Proof. unfold checkMemoryLimit. keeps_tac. Qed.

Lemma keeps_isExpired item : keeps_totals (isExpired (value := value) item).
Proof. unfold isExpired, Date_now. keeps_tac. Qed.

Lemma keeps_set_begin key (data : value) ttl : keeps_totals (set_begin key data ttl).
Proof.
  unfold set_begin, Date_now. keeps_tac; apply keeps_checkMemoryLimit.
Qed.

Lemma keeps_set_resume sp r : keeps_totals (set_resume (value := value) sp r).
Proof. unfold set_resume. keeps_tac. apply keeps_checkMemoryLimit. Qed.

Lemma keeps_set key (data : value) ttl r : keeps_totals (set key data ttl r).
Proof.
  unfold set. apply keeps_bind; [ apply keeps_set_begin | intros sp ].
  apply keeps_set_resume.
Qed.

Lemma keeps_delete key r : keeps_totals (delete (value := value) key r).
Proof. unfold delete. keeps_tac. Qed.

Lemma keeps_exists key r : keeps_totals (exists_ (value := value) key r).
Proof. unfold exists_, exists_backend, isExpired, Date_now. keeps_tac. Qed.

Lemma keeps_mset_begin (items : list (string * value * option Z * JS.reply unit)) :
  keeps_totals (mset_begin items).
Proof.
  induction items as [| [[[key data] ttl] r] rest IH]; simpl.
  - apply keeps_ret.
  - keeps_tac. apply keeps_set_begin.
Qed.

Lemma keeps_mset_resume sps : keeps_totals (mset_resume (value := value) sps).
Proof.
  induction sps as [| [sp r] rest IH]; simpl.
  - apply keeps_ret.
  - keeps_tac. apply keeps_set_resume.
Qed.

Lemma keeps_mset (items : list (string * value * option Z * JS.reply unit)) :
  keeps_totals (mset items).
Proof.
  unfold mset. apply keeps_bind; [ apply keeps_mset_begin | intros sps ].
  apply keeps_mset_resume.
Qed.

Lemma keeps_cleanupExpiredItems : keeps_totals (cleanupExpiredItems (value := value)).
Proof. unfold cleanupExpiredItems, Date_now. keeps_tac. Qed.

Lemma keeps_destroy : keeps_totals (destroy (value := value)).
Proof. unfold destroy. keeps_tac. Qed.

Lemma keeps_fire h : keeps_totals (fire (value := value) h).
Proof. unfold fire. keeps_tac. apply keeps_cleanupExpiredItems. Qed.

Lemma get_backend_counts (e : env (value := value)) key r :
  let t := totals e in
  totals (snd (get_backend key r e))
    = mkTotal (requests t) (hits t + 1) (misses t) (hitRate t) \/
  totals (snd (get_backend key r e))
    = mkTotal (requests t) (hits t) (misses t + 1) (hitRate t).
Proof.
  destruct e as [rt0 ri [rc m cfg st ct bt]].
  unfold get_backend. js_run.
  destruct (remoteActive _).
  - cbv beta iota delta [on_redis JS.zoom rt redisInstance this].
    destruct (Redis.get key r _) as [[[res |] | err] e2].
    + destruct (enableMemoryCache _);
        unfold Date_now, calculateHitRate; js_run;
        cbv beta iota delta [this stats total set_memoryCache upd];
        destruct (requests _ =? 0); left; reflexivity.
    + right. reflexivity.
    + right. reflexivity.
  - right. reflexivity.
Qed.

Lemma get_counts (e : env (value := value)) key r :
  totals (snd (get key r e)) = counted_hit (totals e) \/
  totals (snd (get key r e)) = counted_miss (totals e).
Proof.
  unfold get. js_run.
  set (e1 := incr_requests e).
  assert (Ht : totals e1
               = mkTotal (requests (totals e) + 1) (hits (totals e))
                         (misses (totals e)) (hitRate (totals e)))
    by reflexivity.
  assert (Hb : totals (snd (get_backend key r e1)) = counted_hit (totals e) \/
               totals (snd (get_backend key r e1)) = counted_miss (totals e)).
  { destruct (get_backend_counts e1 key r) as [Hg | Hg];
      rewrite Hg, Ht; [ left | right ]; reflexivity. }
  destruct (if enableMemoryCache (config (this e1))
            then JS.map_get key (memoryCache (this e1)) else None) as [item |];
    [ | exact Hb ].
  unfold isExpired, Date_now. js_run.
  destruct (ttl item * 1000 <? JS.clock (rt e1) - timestamp item);
    cbv beta iota delta [negb]; [ exact Hb | ].
  left. unfold updateAccessStats, Date_now, calculateHitRate. js_run.
  cbv beta iota delta [this stats total set_memoryCache upd].
  destruct (requests _ =? 0); reflexivity.
Qed.

Lemma mget_consistent keys : forall (e : env (value := value)),
  consistent (totals e) -> consistent (totals (snd (mget keys e))).
Proof.
  induction keys as [| [key r] rest IH]; intros e He; simpl.
  - exact He.
  - js_run. pose proof (get_counts e key r) as Hg.
    destruct (get key r e) as [[v | err] e1]; simpl in Hg.
    + assert (H1 : consistent (totals e1)).
      { unfold consistent, counted_hit, counted_miss in *.
        destruct Hg as [-> | ->]; simpl; lia. }
      specialize (IH e1 H1).
      destruct (mget rest e1) as [[vs | err] e2]; exact IH.
    + simpl. unfold consistent, counted_hit, counted_miss in *.
      destruct Hg as [-> | ->]; simpl; lia.
Qed.

Lemma clear_totals (e : env (value := value)) r :
  totals (snd (clear r e)) = mkTotal 0 0 0 0%Q.
Proof.
  destruct e as [rt0 ri [rc m cfg st ct bt]].
  unfold clear. js_run.
  destruct (enableMemoryCache _); js_run;
    (destruct (remoteActive _);
     [ cbv beta iota delta [on_redis JS.zoom];
       destruct (Redis.clear r _) as [[u | err] e2]; reflexivity
     | reflexivity ]).
Qed.

Lemma getStats_counters (e : env (value := value)) :
  exists st e',
    getStats e = (JS.Normal st, e') /\
    requests (total st) = requests (totals e) /\
    hits (total st) = hits (totals e) /\
    misses (total st) = misses (totals e) /\
    hitRate (total st)
      = (if 0 <? requests (totals e)
         then (inject_Z (hits (totals e)) / inject_Z (requests (totals e)))%Q
         else 0%Q) /\
    size (memoryCacheStats st) = JS.map_size (memoryCache (this e)) /\
    totals e' = total st.
Proof.
  eexists. eexists. unfold getStats. js_run.
  split; [ reflexivity | ]. repeat split; reflexivity.
Qed.

Lemma perform_consistent (o : op (value := value)) e :
  consistent (totals e) -> consistent (totals (snd (perform o e))).
Proof.
  intros He. destruct o; cbn [perform].
  - unfold ignore. js_run. pose proof (get_counts e key r) as Hg.
    destruct (get key r e) as [[v | err] e1]; simpl in *;
      unfold consistent, counted_hit, counted_miss in *;
      destruct Hg as [-> | ->]; simpl; lia.
  - rewrite keeps_set. exact He.
  - rewrite keeps_delete. exact He.
  - unfold ignore. js_run. pose proof (keeps_exists key r e) as Hk.
    destruct (exists_ key r e) as [[v | err] e1]; simpl in *; rewrite Hk; exact He.
  - unfold ignore. js_run. pose proof (mget_consistent keys e He) as Hk.
    destruct (mget keys e) as [[v | err] e1]; exact Hk.
  - rewrite keeps_mset. exact He.
  - rewrite clear_totals. unfold consistent. simpl. lia.
  - unfold ignore. js_run.
    destruct (getStats_counters e) as (st & e' & -> & Hr & Hh & Hm & _ & _ & Ht).
    simpl. rewrite Ht. unfold consistent in *. lia.
  - rewrite keeps_destroy. exact He.
  - exact He.
  - rewrite keeps_fire. exact He.
Qed.

Lemma run_consistent (ops : list (op (value := value))) : forall e,
  consistent (totals e) -> consistent (totals (snd (run ops e))).
Proof.
  induction ops as [| o rest IH]; intros e He; simpl.
  - exact He.
  - js_run. pose proof (perform_consistent o e He) as Hp.
    destruct (perform o e) as [[u | err] e1]; simpl in Hp.
    + apply IH. exact Hp.
    + exact Hp.
Qed.

Lemma create_consistent now cfg :
  consistent (totals (create (value := value) now cfg)).
Proof.
  destruct cfg as [d mm ci [ | | ] em]; unfold consistent; simpl; lia.
Qed.

(** C2.  From every state whose counters are consistent (the one made by
    the constructor is), after every sequence of completed operations of
    the facade (get, set, delete, exists, mget, mset, clear, getStats,
    destroy), with time passing and timers firing in between, the
    statistics that [getStats] returns satisfy
    [requests = hits + misses]. *)
Theorem requests_are_hits_plus_misses
  (ops : list (op (value := value))) (e0 : env) :
  consistent (totals e0) ->
  exists e st e',
    run ops e0 = (JS.Normal tt, e) /\
    getStats e = (JS.Normal st, e') /\
    requests (total st) = hits (total st) + misses (total st).
Proof.
  intros H0.
  destruct (FacadeReturns.run_returns ops e0) as ([] & e & Hrun).
  pose proof (run_consistent ops e0 H0) as Hc. rewrite Hrun in Hc. simpl in Hc.
  destruct (getStats_counters e) as (st & e' & Hst & Hr & Hh & Hm & _).
  exists e, st, e'. split; [ exact Hrun | ]. split; [ exact Hst | ].
  unfold consistent in Hc. lia.
Qed.

Lemma ratio_bounds (h r : Z) :
  0 <= h <= r -> 0 < r ->
  (0 <= inject_Z h / inject_Z r <= 1)%Q.
Proof.
  intros [Hh Hr] Hpos.
  assert (Hq : (inject_Z 0 < inject_Z r)%Q) by (rewrite <- Zlt_Qlt; exact Hpos).
  change (inject_Z 0) with 0%Q in Hq.
  split.
  - apply Qle_shift_div_l; [ exact Hq | ].
    rewrite Qmult_0_l. change 0%Q with (inject_Z 0).
    rewrite <- Zle_Qle. exact Hh.
  - apply Qle_shift_div_r; [ exact Hq | ].
    rewrite Qmult_1_l. rewrite <- Zle_Qle. exact Hr.
Qed.

(** C8.  From every state whose counters are consistent, after every
    sequence of operations, the [hitRate] that [getStats] reports lies
    between 0 and 1, and it is 0 when [requests] is 0. *)
Theorem hitRate_between_0_and_1
  (ops : list (op (value := value))) (e0 : env) :
  consistent (totals e0) ->
  exists e st e',
    run ops e0 = (JS.Normal tt, e) /\
    getStats e = (JS.Normal st, e') /\
    (0 <= hitRate (total st) <= 1)%Q /\
    (requests (total st) = 0 -> hitRate (total st) = 0%Q).
Proof.
  intros H0.
  destruct (FacadeReturns.run_returns ops e0) as ([] & e & Hrun).
  pose proof (run_consistent ops e0 H0) as Hc. rewrite Hrun in Hc. simpl in Hc.
  destruct (getStats_counters e) as (st & e' & Hst & Hr & Hh & Hm & Hrate & _).
  exists e, st, e'. split; [ exact Hrun | ]. split; [ exact Hst | ].
  rewrite Hrate, Hr. unfold consistent in Hc.
  destruct (0 <? requests (totals e)) eqn:Hpos.
  - apply Z.ltb_lt in Hpos. split.
    + apply ratio_bounds; lia.
    + intros Hz. lia.
  - split; [ split; discriminate | reflexivity ].
Qed.

End WithValue.

Lemma requests_are_hits_plus_misses_witness :
  exists e st e',
    run [OpSet "a"%string "1"%string None Fixture.done;
         OpGet "a"%string Fixture.absent;
         OpGet "b"%string Fixture.absent] Fixture.fresh = (JS.Normal tt, e) /\
    getStats e = (JS.Normal st, e') /\
    requests (total st) = hits (total st) + misses (total st).
Proof.
  apply requests_are_hits_plus_misses.
  unfold consistent. simpl. lia.
Defined.

Lemma hitRate_between_0_and_1_witness :
  exists e st e',
    run [OpSet "a"%string "1"%string None Fixture.done;
         OpGet "a"%string Fixture.absent;
         OpGet "b"%string Fixture.absent] Fixture.fresh = (JS.Normal tt, e) /\
    getStats e = (JS.Normal st, e') /\
    (0 <= hitRate (total st) <= 1)%Q /\
    (requests (total st) = 0 -> hitRate (total st) = 0%Q).
Proof.
  apply hitRate_between_0_and_1.
  unfold consistent. simpl. lia.
Defined.

End Counters.

(** *** Insertion-ordered maps *)

Module MapFacts.

Section WithV.
Variable V : Type.
Implicit Types (m : JS.Map V) (k : string) (v : V).

Lemma map_get_set_same k v m : JS.map_get k (JS.map_set k v m) = Some v.
Proof.
  induction m as [| [k' v'] rest IH]; simpl.
  - rewrite String.eqb_refl. reflexivity.
  - destruct (String.eqb k' k) eqn:E; simpl.
    + rewrite String.eqb_refl. reflexivity.
    + rewrite E. exact IH.
Qed.

Lemma map_get_set_other k k' v m :
  k <> k' -> JS.map_get k (JS.map_set k' v m) = JS.map_get k m.
Proof.
  intros Hne. induction m as [| [k0 v0] rest IH]; simpl.
  - destruct (String.eqb k' k) eqn:E; [ | reflexivity ].
    apply String.eqb_eq in E. congruence.
  - destruct (String.eqb k0 k') eqn:E; simpl.
    + apply String.eqb_eq in E. subst k0.
      destruct (String.eqb k' k) eqn:E'; [ | reflexivity ].
      apply String.eqb_eq in E'. congruence.
    + rewrite IH. reflexivity.
Qed.

Lemma map_get_notin k m : ~ In k (JS.map_keys m) -> JS.map_get k m = None.
Proof.
  induction m as [| [k' v'] rest IH]; simpl; intros Hn; [ reflexivity | ].
  destruct (String.eqb k' k) eqn:E.
  - apply String.eqb_eq in E. tauto.
  - apply IH. tauto.
Qed.

Lemma map_get_in k v m : JS.map_get k m = Some v -> In (k, v) m.
Proof.
  induction m as [| [k' v'] rest IH]; simpl; [ discriminate | ].
  destruct (String.eqb k' k) eqn:E.
  - apply String.eqb_eq in E. intros [= ->]. left. congruence.
  - intros Hg. right. auto.
Qed.

Lemma map_get_some_key k v m : JS.map_get k m = Some v -> In k (JS.map_keys m).
Proof.
  intros Hg. apply map_get_in in Hg.
  unfold JS.map_keys. apply (in_map fst) in Hg. exact Hg.
Qed.

Lemma map_set_new k v m :
  ~ In k (JS.map_keys m) -> JS.map_set k v m = m ++ [(k, v)].
Proof.
  induction m as [| [k' v'] rest IH]; simpl; intros Hn; [ reflexivity | ].
  destruct (String.eqb k' k) eqn:E.
  - apply String.eqb_eq in E. tauto.
  - rewrite IH by tauto. reflexivity.
Qed.

Lemma map_set_keys_old k v m :
  In k (JS.map_keys m) -> JS.map_keys (JS.map_set k v m) = JS.map_keys m.
Proof.
  induction m as [| [k' v'] rest IH]; simpl; intros Hin; [ contradiction | ].
  destruct (String.eqb k' k) eqn:E; simpl.
  - apply String.eqb_eq in E. congruence.
  - f_equal. apply IH. destruct Hin as [-> | Hin]; [ | exact Hin ].
    rewrite String.eqb_refl in E. discriminate.
Qed.

Lemma map_set_length_old k v m :
  In k (JS.map_keys m) -> List.length (JS.map_set k v m) = List.length m.
Proof.
  intros Hin. apply (map_set_keys_old k v) in Hin.
  unfold JS.map_keys in Hin.
  rewrite <- (length_map fst (JS.map_set k v m)), Hin. apply length_map.
Qed.

Lemma map_set_in k v m en :
  In en (JS.map_set k v m) -> en = (k, v) \/ In en m.
Proof.
  induction m as [| [k' v'] rest IH]; simpl.
  - intros [<- | []]. left. reflexivity.
  - destruct (String.eqb k' k); simpl.
    + intros [<- | Hin]; [ left; reflexivity | right; right; exact Hin ].
    + intros [<- | Hin]; [ right; left; reflexivity | ].
      destruct (IH Hin) as [-> | Hin']; [ left; reflexivity | right; right; exact Hin' ].
Qed.

Lemma map_set_NoDup k v m :
  NoDup (JS.map_keys m) -> NoDup (JS.map_keys (JS.map_set k v m)).
Proof.
  intros Hnd. destruct (in_dec string_dec k (JS.map_keys m)) as [Hin | Hn].
  - rewrite map_set_keys_old by exact Hin. exact Hnd.
  - rewrite map_set_new by exact Hn. unfold JS.map_keys in *.
    rewrite map_app. simpl. apply NoDup_app.
    + exact Hnd.
    + constructor; [ intros [] | constructor ].
    + intros x Hx [<- | []]. contradiction.
Qed.

Lemma map_delete_in k m en :
  In en (JS.map_delete k m) <-> In en m /\ fst en <> k.
Proof.
  unfold JS.map_delete. rewrite filter_In. split; intros [Hin Hk]; split; auto.
  - intros Heq. rewrite Heq, String.eqb_refl in Hk. discriminate.
  - apply negb_true_iff. apply String.eqb_neq. exact Hk.
Qed.

Lemma map_delete_keys k m :
  JS.map_keys (JS.map_delete k m)
    = filter (fun k' => negb (String.eqb k' k)) (JS.map_keys m).
Proof.
  unfold JS.map_keys, JS.map_delete.
  induction m as [| [k' v'] rest IH]; simpl; [ reflexivity | ].
  destruct (String.eqb k' k); simpl; rewrite IH; reflexivity.
Qed.

Lemma map_delete_NoDup k m :
  NoDup (JS.map_keys m) -> NoDup (JS.map_keys (JS.map_delete k m)).
Proof.
  intros Hnd. rewrite map_delete_keys. apply NoDup_filter. exact Hnd.
Qed.

Lemma map_delete_length_le k m :
  (List.length (JS.map_delete k m) <= List.length m)%nat.
Proof. unfold JS.map_delete. apply filter_length_le. Qed.

Lemma map_delete_length k m :
  NoDup (JS.map_keys m) -> In k (JS.map_keys m) ->
  S (List.length (JS.map_delete k m)) = List.length m.
Proof.
  induction m as [| [k' v'] rest IH]; simpl; intros Hnd Hin; [ contradiction | ].
  inversion Hnd as [| ? ? Hk' Hrest]; subst.
  destruct (String.eqb k' k) eqn:E; simpl.
  - apply String.eqb_eq in E. subst k'. f_equal.
    fold (JS.map_delete k rest).
    assert (Hsame : JS.map_delete k rest = rest).
    { unfold JS.map_delete. apply forallb_filter_id. apply forallb_forall.
      intros [k0 v0] H0. simpl. apply negb_true_iff. apply String.eqb_neq.
      intros ->. apply Hk'. apply (in_map fst) in H0. exact H0. }
    rewrite Hsame. reflexivity.
  - f_equal. apply IH; [ exact Hrest | ].
    destruct Hin as [-> | Hin]; [ | exact Hin ].
    rewrite String.eqb_refl in E. discriminate.
Qed.

Lemma map_get_delete_other k k' m :
  k <> k' -> JS.map_get k (JS.map_delete k' m) = JS.map_get k m.
Proof.
  intros Hne. induction m as [| [k0 v0] rest IH]; simpl; [ reflexivity | ].
  destruct (String.eqb k0 k') eqn:E; simpl.
  - apply String.eqb_eq in E. subst k0.
    destruct (String.eqb k' k) eqn:E'; [ | exact IH ].
    apply String.eqb_eq in E'. congruence.
  - rewrite IH. reflexivity.
Qed.

Lemma map_get_delete_same k m : JS.map_get k (JS.map_delete k m) = None.
Proof.
  apply map_get_notin. rewrite map_delete_keys. rewrite filter_In.
  intros [_ Hk]. rewrite String.eqb_refl in Hk. discriminate.
Qed.

Lemma fold_delete_entries (l : list (string * V)) m :
  fold_left (fun m' en => JS.map_delete (fst en) m') l m
    = JS.delete_all (List.map fst l) m.
Proof.
  revert m. induction l as [| en l IH]; intros m; simpl; [ reflexivity | ].
  apply IH.
Qed.

Lemma delete_all_in ks : forall m en,
  In en (JS.delete_all ks m) <-> In en m /\ ~ In (fst en) ks.
Proof.
  induction ks as [| k ks IH]; intros m en; simpl.
  - tauto.
  - unfold JS.delete_all in *. simpl. rewrite IH, map_delete_in.
    split; [ intros [[Hin Hk] Hn] | intros [Hin Hn] ]; repeat split; auto.
    intros [-> | Hin']; auto.
Qed.

Lemma delete_all_NoDup ks : forall m,
  NoDup (JS.map_keys m) -> NoDup (JS.map_keys (JS.delete_all ks m)).
Proof.
  induction ks as [| k ks IH]; intros m Hnd; simpl; [ exact Hnd | ].
  apply IH. apply map_delete_NoDup. exact Hnd.
Qed.

Lemma delete_all_length_le ks : forall m,
  (List.length (JS.delete_all ks m) <= List.length m)%nat.
Proof.
  induction ks as [| k ks IH]; intros m; simpl; [ lia | ].
  etransitivity; [ apply IH | apply map_delete_length_le ].
Qed.

Lemma delete_all_length ks : forall m,
  NoDup (JS.map_keys m) -> NoDup ks -> incl ks (JS.map_keys m) ->
  (List.length (JS.delete_all ks m) + List.length ks = List.length m)%nat.
Proof.
  induction ks as [| k ks IH]; intros m Hnd Hks Hincl; simpl; [ lia | ].
  inversion Hks as [| ? ? Hk Hks']; subst.
  assert (Hin : In k (JS.map_keys m)) by (apply Hincl; left; reflexivity).
  pose proof (map_delete_length k m Hnd Hin) as Hlen.
  assert (Hincl' : incl ks (JS.map_keys (JS.map_delete k m))).
  { intros k' Hk'. rewrite map_delete_keys, filter_In. split.
    - apply Hincl. right. exact Hk'.
    - apply negb_true_iff. apply String.eqb_neq. intros ->. contradiction. }
  specialize (IH (JS.map_delete k m) (map_delete_NoDup k m Hnd) Hks' Hincl').
  unfold JS.delete_all in *. simpl. lia.
Qed.

Lemma delete_all_get_other ks : forall m k,
  ~ In k ks -> JS.map_get k (JS.delete_all ks m) = JS.map_get k m.
Proof.
  induction ks as [| k' ks IH]; intros m k Hn; simpl; [ reflexivity | ].
  unfold JS.delete_all in *. simpl. rewrite IH by (simpl in Hn; tauto).
  apply map_get_delete_other. simpl in Hn. intros ->. tauto.
Qed.

Lemma delete_all_get_in ks : forall m k,
  In k ks -> JS.map_get k (JS.delete_all ks m) = None.
Proof.
  intros m k Hin. apply map_get_notin. intros Hk.
  unfold JS.map_keys in Hk. apply in_map_iff in Hk as (en & Hfst & Hen).
  apply delete_all_in in Hen as [_ Hn]. subst k. contradiction.
Qed.

(** In a map, a key has one entry. *)
Lemma NoDup_keys_entry m en en' :
  NoDup (JS.map_keys m) -> In en m -> In en' m -> fst en = fst en' -> en = en'.
Proof.
  induction m as [| [k v] rest IH]; simpl; intros Hnd Hin Hin' Heq; [ contradiction | ].
  inversion Hnd as [| ? ? Hk Hrest]; subst.
  destruct Hin as [<- | Hin], Hin' as [<- | Hin'].
  - reflexivity.
  - exfalso. apply Hk. simpl in Heq. rewrite Heq.
    apply (in_map fst) in Hin'. exact Hin'.
  - exfalso. apply Hk. simpl in Heq. rewrite <- Heq.
    apply (in_map fst) in Hin. exact Hin.
  - apply IH; assumption.
Qed.

End WithV.
End MapFacts.

(** *** The stable sort *)

Module SortFacts.

Section WithKey.
Variable A : Type.
Variable f : A -> Z.

Lemma insert_sorted_perm x l : Permutation (JS.insert_sorted f x l) (x :: l).
Proof.
  induction l as [| y ys IH]; simpl.
  - apply Permutation_refl.
  - destruct (f x <=? f y).
    + apply Permutation_refl.
    + apply perm_trans with (y :: x :: ys).
      * apply perm_skip. exact IH.
      * apply perm_swap.
Qed.

Lemma sort_by_perm l : Permutation (JS.sort_by f l) l.
Proof.
  induction l as [| x xs IH]; simpl.
  - apply perm_nil.
  - apply perm_trans with (x :: JS.sort_by f xs).
    + apply insert_sorted_perm.
    + apply perm_skip. exact IH.
Qed.

Lemma sort_by_length l : List.length (JS.sort_by f l) = List.length l.
Proof. apply Permutation_length. apply sort_by_perm. Qed.

Lemma sort_by_in l a : In a (JS.sort_by f l) <-> In a l.
Proof.
  split; apply Permutation_in;
    [ apply sort_by_perm | apply Permutation_sym; apply sort_by_perm ].
Qed.

Lemma insert_sorted_sorted x l :
  StronglySorted (JS.le_by f) l -> StronglySorted (JS.le_by f) (JS.insert_sorted f x l).
Proof.
  induction l as [| y ys IH]; simpl; intros Hs.
  - constructor; [ constructor | constructor ].
  - inversion Hs as [| ? ? Hys Hall]; subst.
    destruct (f x <=? f y) eqn:E.
    + apply Z.leb_le in E. constructor; [ exact Hs | ].
      constructor; [ exact E | ].
      rewrite Forall_forall in *. intros z Hz. unfold JS.le_by in *.
      specialize (Hall z Hz). lia.
    + apply Z.leb_gt in E. constructor; [ apply IH; exact Hys | ].
      rewrite Forall_forall in *. intros z Hz.
      apply (Permutation_in _ (insert_sorted_perm x ys)) in Hz.
      destruct Hz as [<- | Hz]; [ unfold JS.le_by; lia | apply Hall; exact Hz ].
Qed.

Lemma sort_by_sorted l : StronglySorted (JS.le_by f) (JS.sort_by f l).
Proof.
  induction l as [| x xs IH]; simpl.
  - constructor.
  - apply insert_sorted_sorted. exact IH.
Qed.

(** An element that is not below any other and comes last stays last:
    the sort is stable. *)
Lemma insert_sorted_before_last a x s :
  f a <= f x -> JS.insert_sorted f a (s ++ [x]) = JS.insert_sorted f a s ++ [x].
Proof.
  intros Hle. induction s as [| y ys IH]; simpl.
  - apply Z.leb_le in Hle. rewrite Hle. reflexivity.
  - destruct (f a <=? f y); [ reflexivity | ]. rewrite IH. reflexivity.
Qed.

Lemma sort_by_last l x :
  (forall y, In y l -> f y <= f x) ->
  JS.sort_by f (l ++ [x]) = JS.sort_by f l ++ [x].
Proof.
  induction l as [| a l IH]; simpl; intros Hall; [ reflexivity | ].
  rewrite IH by (intros y Hy; apply Hall; right; exact Hy).
  apply insert_sorted_before_last. apply Hall. left. reflexivity.
Qed.

Lemma in_skipn_list (l : list A) n b : In b (skipn n l) -> In b l.
Proof.
  intros Hb. rewrite <- (firstn_skipn n l). apply in_or_app. right. exact Hb.
Qed.

Lemma in_firstn_list (l : list A) n a : In a (firstn n l) -> In a l.
Proof.
  intros Ha. rewrite <- (firstn_skipn n l). apply in_or_app. left. exact Ha.
Qed.

(** In a sorted list, what a prefix holds is below what the rest holds. *)
Lemma sorted_prefix_below l : StronglySorted (JS.le_by f) l ->
  forall n a b, In a (firstn n l) -> In b (skipn n l) -> f a <= f b.
Proof.
  induction 1 as [| x l Hs IH Hall]; intros n a b Ha Hb.
  - rewrite firstn_nil in Ha. contradiction.
  - destruct n as [| n]; simpl in *; [ contradiction | ].
    destruct Ha as [<- | Ha].
    + rewrite Forall_forall in Hall. apply Hall.
      apply (in_skipn_list l n). exact Hb.
    + apply (IH n); assumption.
Qed.

End WithKey.
End SortFacts.

(** *** The eviction pass of [checkMemoryLimit] *)

Module Eviction.
Import EnhancedCacheManager.
Import Spec.

Section WithValue.
Context {value : Type}.

Lemma div10_le (n : nat) : (Nat.div n 10 <= n)%nat.
Proof.
  pose proof (Nat.div_mod_eq n 10). lia.
Qed.

Lemma enforce_limit_small (m : JS.Map (CacheItem (value := value))) :
  JS.map_size m <= 1000 -> enforce_limit m = m.
Proof.
  intros Hs. unfold enforce_limit.
  destruct (1000 <? JS.map_size m) eqn:E; [ | reflexivity ].
  apply Z.ltb_lt in E. lia.
Qed.

Lemma enforce_limit_large (m : JS.Map (CacheItem (value := value))) :
  1000 < JS.map_size m ->
  enforce_limit m = JS.delete_all (List.map fst (victims m)) m.
Proof.
  intros Hs. unfold enforce_limit.
  apply Z.ltb_lt in Hs. rewrite Hs.
  cbv zeta. rewrite MapFacts.fold_delete_entries. reflexivity.
Qed.

Lemma victims_length (m : JS.Map (CacheItem (value := value))) :
  List.length (victims m) = Nat.div (List.length m) 10.
Proof.
  unfold victims. rewrite length_firstn, SortFacts.sort_by_length.
  pose proof (div10_le (List.length m)). lia.
Qed.

Lemma victims_in (m : JS.Map (CacheItem (value := value))) en : In en (victims m) -> In en m.
Proof.
  intros Hin. apply SortFacts.in_firstn_list in Hin.
  apply SortFacts.sort_by_in in Hin. exact Hin.
Qed.

Lemma victims_keys_incl (m : JS.Map (CacheItem (value := value))) :
  incl (List.map fst (victims m)) (JS.map_keys m).
Proof.
  intros k Hk. apply in_map_iff in Hk as (en & <- & Hen).
  unfold JS.map_keys. apply in_map. apply victims_in. exact Hen.
Qed.

Lemma victims_keys_NoDup (m : JS.Map (CacheItem (value := value))) :
  NoDup (JS.map_keys m) -> NoDup (List.map fst (victims m)).
Proof.
  intros Hnd. unfold victims. rewrite <- firstn_map.
  assert (Hs : NoDup (List.map fst (JS.sort_by age m))).
  { apply (Permutation_NoDup (l := JS.map_keys m)); [ | exact Hnd ].
    unfold JS.map_keys. apply Permutation_map. apply Permutation_sym.
    apply SortFacts.sort_by_perm. }
  rewrite <- (firstn_skipn (Nat.div (List.length (JS.sort_by age m)) 10)
                           (List.map fst (JS.sort_by age m))) in Hs.
  apply NoDup_app_remove_r in Hs. exact Hs.
Qed.

Lemma enforce_limit_in (m : JS.Map (CacheItem (value := value))) en : In en (enforce_limit m) -> In en m.
Proof.
  unfold enforce_limit. destruct (1000 <? JS.map_size m); [ | auto ].
  cbv zeta. rewrite MapFacts.fold_delete_entries.
  intros Hin. apply MapFacts.delete_all_in in Hin. tauto.
Qed.

Lemma enforce_limit_NoDup (m : JS.Map (CacheItem (value := value))) :
  NoDup (JS.map_keys m) -> NoDup (JS.map_keys (enforce_limit m)).
Proof.
  intros Hnd. unfold enforce_limit. destruct (1000 <? JS.map_size m); [ | auto ].
  cbv zeta. rewrite MapFacts.fold_delete_entries.
  apply MapFacts.delete_all_NoDup. exact Hnd.
Qed.

Lemma enforce_limit_length_le (m : JS.Map (CacheItem (value := value))) :
  (List.length (enforce_limit m) <= List.length m)%nat.
Proof.
  unfold enforce_limit. destruct (1000 <? JS.map_size m); [ | auto ].
  cbv zeta. rewrite MapFacts.fold_delete_entries.
  apply MapFacts.delete_all_length_le.
Qed.

(** The pass deletes a tenth of the entries, rounded down. *)
Lemma enforce_limit_length (m : JS.Map (CacheItem (value := value))) :
  NoDup (JS.map_keys m) -> 1000 < JS.map_size m ->
  (List.length (enforce_limit m) + Nat.div (List.length m) 10 = List.length m)%nat.
Proof.
  intros Hnd Hs. rewrite enforce_limit_large by exact Hs.
  rewrite <- (victims_length m) at 1.
  rewrite <- (length_map fst (victims m)).
  apply MapFacts.delete_all_length.
  - exact Hnd.
  - apply victims_keys_NoDup. exact Hnd.
  - apply victims_keys_incl.
Qed.

(** What the pass deletes was accessed no later than what it keeps. *)
Lemma enforce_limit_oldest_first (m : JS.Map (CacheItem (value := value))) en en' :
  NoDup (JS.map_keys m) -> 1000 < JS.map_size m ->
  In en m -> ~ In en (enforce_limit m) -> In en' (enforce_limit m) ->
  age en <= age en'.
Proof.
  intros Hnd Hs Hen Hout Hkept.
  rewrite enforce_limit_large in Hout, Hkept by exact Hs.
  rewrite MapFacts.delete_all_in in Hout, Hkept.
  destruct Hkept as [Hen' Hkept].
  assert (Hv : In en (victims m)).
  { destruct (in_dec string_dec (fst en) (List.map fst (victims m))) as [Hk | Hk];
      [ | tauto ].
    apply in_map_iff in Hk as (v & Hfst & Hvin).
    assert (v = en); [ | subst; exact Hvin ].
    apply (@MapFacts.NoDup_keys_entry _ m); auto using victims_in. }
  assert (Hr : In en' (skipn (Nat.div (List.length (JS.sort_by age m)) 10)
                             (JS.sort_by age m))).
  { apply (SortFacts.sort_by_in age) in Hen'.
    rewrite <- (firstn_skipn (Nat.div (List.length (JS.sort_by age m)) 10)
                             (JS.sort_by age m)) in Hen'.
    apply in_app_or in Hen' as [Hf | Hr]; [ | exact Hr ].
    exfalso. apply Hkept. apply in_map. exact Hf. }
  exact (SortFacts.sorted_prefix_below (SortFacts.sort_by_sorted age m) _ _ _ Hv Hr).
Qed.

(** A map of at most 1001 entries is within the limit after the pass. *)
Lemma enforce_limit_bound (m : JS.Map (CacheItem (value := value))) :
  NoDup (JS.map_keys m) -> JS.map_size m <= 1001 ->
  JS.map_size (enforce_limit m) <= 1000.
Proof.
  intros Hnd Hs. destruct (Z_le_gt_dec (JS.map_size m) 1000) as [Hle | Hgt].
  - rewrite enforce_limit_small by exact Hle. exact Hle.
  - pose proof (enforce_limit_length m Hnd ltac:(lia)) as Hlen.
    unfold JS.map_size in *.
    assert (Hm : List.length m = 1001%nat) by lia.
    rewrite Hm in Hlen. change (Nat.div 1001 10) with 100%nat in Hlen. lia.
Qed.

Lemma map_get_app_last k (v : CacheItem (value := value)) (m : JS.Map (CacheItem (value := value))) :
  ~ In k (JS.map_keys m) -> JS.map_get k (m ++ [(k, v)]) = Some v.
Proof.
  intros Hn. rewrite <- (MapFacts.map_set_new k v m Hn).
  apply MapFacts.map_get_set_same.
Qed.

(** An entry that was just written, last in the map and accessed no
    earlier than the others, survives the pass. *)
Lemma enforce_limit_keeps_last k (v : CacheItem (value := value)) (m : JS.Map (CacheItem (value := value))) :
  ~ In k (JS.map_keys m) ->
  (forall en, In en m -> age en <= lastAccessed v) ->
  JS.map_get k (enforce_limit (m ++ [(k, v)])) = Some v.
Proof.
  intros Hn Hage. unfold enforce_limit.
  destruct (1000 <? JS.map_size (m ++ [(k, v)]));
    [ | apply map_get_app_last; exact Hn ].
  cbv zeta. rewrite MapFacts.fold_delete_entries.
  rewrite MapFacts.delete_all_get_other; [ apply map_get_app_last; exact Hn | ].
  fold (age (value := value)). rewrite (SortFacts.sort_by_last age m (k, v)) by exact Hage.
  rewrite length_app, SortFacts.sort_by_length. simpl List.length.
  rewrite firstn_app.
  assert (Hd : (Nat.div (List.length m + 1) 10 - List.length (JS.sort_by age m) = 0)%nat).
  { rewrite SortFacts.sort_by_length.
    pose proof (Nat.div_mod_eq (List.length m + 1) 10). lia. }
  rewrite Hd. simpl firstn at 2. rewrite app_nil_r.
  intros Hk. apply in_map_iff in Hk as (en & Hfst & Hen).
  apply SortFacts.in_firstn_list in Hen. apply SortFacts.sort_by_in in Hen.
  apply Hn. subst k. unfold JS.map_keys. apply in_map. exact Hen.
Qed.

End WithValue.
End Eviction.

(** *** Writing and reading the memory tier *)

Module MemoryTier.
Import EnhancedCacheManager.
Import Spec.

Section WithValue.
Context {value : Type} `{Json value}.

(** What [set] does to the facade, whatever the remote tier does. *)
Lemma set_effect (e : env (value := value)) key data ttl r :
  exists e1,
    set key data ttl r e = (JS.Normal tt, e1) /\
    memoryCache (this e1) = memory_after_set e key data ttl /\
    config (this e1) = config (this e) /\
    (JS.clock (rt e1) = JS.clock (rt e) \/
     JS.clock (rt e1) = JS.clock (rt e) + Z.of_N (JS.latency r)).
Proof.
  destruct e as [rt0 ri [rc m cfg st ct bt]].
  unfold memory_after_set, written, effective_ttl.
  unfold set, set_begin. facade_run.
  assert (Hend : forall (e : env (value := value)) (P : env -> Prop),
             P (set_memoryCache enforce_limit e) ->
             exists e1, checkMemoryLimit e = (JS.Normal tt, e1) /\ P e1).
  { intros e P HP. rewrite RemoteFailure.checkMemoryLimit_eq. eauto. }
  destruct (remoteActive _).
  - unfold Redis.set_begin. facade_run.
    destruct (enableMemoryCache cfg); facade_run;
      (destruct (Redis.unavailable ri); facade_run;
       [ | destruct (JSON_stringify data) as [text | err]; facade_run;
           [ unfold set_resume, Redis.set_resume; facade_run;
             destruct (JS.result r) as [[] | err']; facade_run | ] ]);
      unfold set_resume, Redis.set_resume; facade_run;
      apply Hend; simpl; auto.
  - destruct (enableMemoryCache cfg); facade_run;
      (destruct (checkMemoryLimit _) as [c e1] eqn:Hck;
       rewrite RemoteFailure.checkMemoryLimit_eq in Hck;
       injection Hck as <- <-); facade_run;
      eexists; (split; [ reflexivity | ]); simpl; auto.
Qed.

(** A live entry is what [get] returns; the entry is touched in place. *)
Lemma get_hit (e : env (value := value)) key r item :
  live e key = Some item ->
  exists e',
    get key r e = (JS.Normal (Some (data item)), e') /\
    memoryCache (this e')
      = JS.map_set key (mkItem (data item) (timestamp item) (ttl item)
                               (accessCount item + 1) (JS.clock (rt e)))
                   (memoryCache (this e)) /\
    rt e' = rt e /\
    totals e' = counted_hit (totals e).
Proof.
  destruct e as [rt0 ri [rc m cfg st ct bt]].
  unfold live. cbv beta iota delta [this config rt memoryCache].
  unfold get. js_run.
  cbv beta iota delta [this config rt memoryCache incr_requests set_total
                       set_stats upd].
  destruct (enableMemoryCache cfg); [ | discriminate ].
  destruct (JS.map_get key m) as [it |]; [ | discriminate ].
  unfold isExpired, Date_now. js_run. cbv beta iota delta [rt].
  destruct (ttl it * 1000 <? JS.clock rt0 - timestamp it); [ discriminate | ].
  intros [= ->]. cbv beta iota delta [negb].
  unfold updateAccessStats, Date_now, calculateHitRate. js_run.
  cbv beta iota delta [this stats total set_memoryCache upd rt].
  destruct (requests _ =? 0); eexists; repeat split; reflexivity.
Qed.

(** With no live entry and no remote tier, [get] is a miss that leaves
    the memory tier as it is. *)
Lemma get_miss_memory_only (e : env (value := value)) key r :
  live e key = None ->
  remoteActive (this e) = false ->
  exists e',
    get key r e = (JS.Normal None, e') /\
    memoryCache (this e') = memoryCache (this e) /\
    rt e' = rt e /\
    totals e' = counted_miss (totals e).
Proof.
  intros Hl Ha. rewrite RemoteFailure.get_memory_miss by exact Hl.
  assert (Ha' : remoteActive (this (incr_requests e)) = false) by exact Ha.
  unfold get_backend. js_run. rewrite Ha'. js_run.
  eexists; repeat split; reflexivity.
Qed.

Lemma map_set_length_le (m : JS.Map (CacheItem (value := value))) k v :
  (List.length (JS.map_set k v m) <= S (List.length m))%nat.
Proof.
  induction m as [| [k' v'] rest IH]; simpl; [ lia | ].
  destruct (String.eqb k' k); simpl; lia.
Qed.

(** The entry that [set] writes is in the memory tier afterwards. *)
Lemma written_survives (e : env (value := value)) key data ttl :
  enableMemoryCache (config (this e)) = true ->
  well_formed e -> within_limit e ->
  JS.map_get key (memory_after_set e key data ttl) = Some (written e data ttl).
Proof.
  intros Hen [Hnd Hage] Hlim. unfold memory_after_set. rewrite Hen.
  destruct (in_dec string_dec key (JS.map_keys (memoryCache (this e)))) as [Hin | Hn].
  - rewrite Eviction.enforce_limit_small.
    + apply MapFacts.map_get_set_same.
    + unfold JS.map_size. rewrite MapFacts.map_set_length_old by exact Hin.
      exact Hlim.
  - rewrite MapFacts.map_set_new by exact Hn.
    apply Eviction.enforce_limit_keeps_last; [ exact Hn | ].
    intros en Hin. unfold age. simpl. apply Hage. exact Hin.
Qed.

(** C4.  With the memory tier enabled, for every key, value and TTL above
    zero, and from every state of the facade in which the memory tier is
    within its limit and no entry was accessed in the future (so also
    when the [set] makes 1001 entries and runs the eviction pass): [set]
    followed by [get] with no time in between returns the value. *)
Theorem get_after_set_returns_the_value
  (e : env (value := value)) key data ttl r1 r2 :
  enableMemoryCache (config (this e)) = true ->
  0 < effective_ttl e ttl ->
  well_formed e -> within_limit e ->
  JS.latency r1 = 0%N ->
  exists e1 e2,
    set key data ttl r1 e = (JS.Normal tt, e1) /\
    get key r2 e1 = (JS.Normal (Some data), e2).
Proof.
  intros Hen Httl Hwf Hlim Hlat.
  destruct (set_effect e key data ttl r1) as (e1 & Hset & Hmem & Hcfg & Hclock).
  assert (Hnow : JS.clock (rt e1) = JS.clock (rt e)).
  { destruct Hclock as [Hc | Hc]; rewrite Hc; [ reflexivity | ].
    rewrite Hlat. simpl. lia. }
  assert (Hlive : live e1 key = Some (written e data ttl)).
  { unfold live. rewrite Hcfg, Hen, Hmem.
    rewrite (written_survives key data ttl Hen Hwf Hlim).
    rewrite Hnow. unfold written at 1 2. simpl.
    replace (JS.clock (rt e) - JS.clock (rt e)) with 0 by lia.
    destruct (effective_ttl e ttl * 1000 <? 0) eqn:E; [ | reflexivity ].
    apply Z.ltb_lt in E. lia. }
  destruct (get_hit e1 key r2 Hlive) as (e2 & Hget & _).
  exists e1, e2. split; [ exact Hset | exact Hget ].
Qed.

(** C6.  With the memory tier enabled and within its limit of 1000
    entries, a [set] leaves it within the limit.  When the [set] makes the
    count exceed 1000, the eviction pass runs: it deletes a tenth of the
    entries (rounded down), which leaves 901 and not 1000, and every
    deleted entry has a [lastAccessed] no later than every entry that is
    kept.  When the count does not exceed 1000, nothing is deleted. *)
Theorem set_evicts_least_recently_accessed
  (e : env (value := value)) key data ttl r :
  enableMemoryCache (config (this e)) = true ->
  distinct_keys e -> within_limit e ->
  exists e1,
    set key data ttl r e = (JS.Normal tt, e1) /\
    let before := JS.map_set key (written e data ttl) (memoryCache (this e)) in
    let after := memoryCache (this e1) in
    JS.map_size after <= 1000 /\
    (JS.map_size before <= 1000 -> after = before) /\
    (1000 < JS.map_size before ->
       JS.map_size after = 901 /\
       (List.length after + Nat.div (List.length before) 10
          = List.length before)%nat /\
       forall en en',
         In en before -> ~ In en after -> In en' after ->
         lastAccessed (snd en) <= lastAccessed (snd en')).
Proof.
  intros Hen Hnd Hlim.
  destruct (set_effect e key data ttl r) as (e1 & Hset & Hmem & _).
  exists e1. split; [ exact Hset | ]. cbv zeta.
  rewrite Hmem. unfold memory_after_set. rewrite Hen.
  set (before := JS.map_set key (written e data ttl) (memoryCache (this e))).
  assert (Hnd' : NoDup (JS.map_keys before))
    by (apply MapFacts.map_set_NoDup; exact Hnd).
  assert (Hsize : JS.map_size before <= 1001).
  { unfold JS.map_size, within_limit, JS.map_size in *.
    pose proof (map_set_length_le (memoryCache (this e)) key (written e data ttl)).
    fold before in H0. lia. }
  split; [ apply Eviction.enforce_limit_bound; assumption | ].
  split; [ intros Hle; apply Eviction.enforce_limit_small; exact Hle | ].
  intros Hgt.
  pose proof (Eviction.enforce_limit_length before Hnd' Hgt) as Hlen.
  split; [ | split; [ exact Hlen | ] ].
  - unfold JS.map_size in *.
    assert (Hb : List.length before = 1001%nat) by lia.
    rewrite Hb in Hlen. change (Nat.div 1001 10) with 100%nat in Hlen. lia.
  - intros en en' Hin Hout Hkept.
    exact (Eviction.enforce_limit_oldest_first before en en' Hnd' Hgt Hin Hout Hkept).
Qed.

End WithValue.

Lemma distinct_NoDup (l : list string) : Fixture.distinct l = true -> NoDup l.
Proof.
  induction l as [| k ks IH]; simpl; intros Hd; [ constructor | ].
  apply andb_true_iff in Hd as [Hk Hks]. constructor; [ | apply IH; exact Hks ].
  intros Hin. apply negb_true_iff in Hk.
  assert (Hex : existsb (String.eqb k) ks = true).
  { apply existsb_exists. exists k. split; [ exact Hin | apply String.eqb_refl ]. }
  congruence.
Qed.

Lemma full_reached :
  run Fixture.thousand_sets Fixture.fresh = (JS.Normal tt, Fixture.full).
Proof. vm_compute. reflexivity. Qed.

Lemma full_well_formed : well_formed Fixture.full.
Proof.
  split.
  - apply distinct_NoDup. vm_compute. reflexivity.
  - intros en Hen. apply Z.leb_le.
    assert (Hall : forallb (fun en' : string * CacheItem (value := string) =>
                              lastAccessed (snd en') <=? JS.clock (rt Fixture.full))
                           (memoryCache (this Fixture.full)) = true)
      by (vm_compute; reflexivity).
    rewrite forallb_forall in Hall. apply Hall. exact Hen.
Defined.

Lemma full_within_limit : within_limit Fixture.full.
Proof. unfold within_limit. vm_compute. discriminate. Defined.

Lemma get_after_set_returns_the_value_witness :
  exists e1 e2,
    set "user:42"%string "Ann"%string (Some 5) Fixture.done Fixture.full
      = (JS.Normal tt, e1) /\
    get "user:42"%string Fixture.absent e1 = (JS.Normal (Some "Ann"%string), e2).
Proof.
  apply get_after_set_returns_the_value.
  - reflexivity.
  - reflexivity.
  - exact full_well_formed.
  - exact full_within_limit.
  - reflexivity.
Defined.

Lemma set_evicts_least_recently_accessed_witness :
  exists e1,
    set "user:42"%string "Ann"%string (Some 5) Fixture.done Fixture.full
      = (JS.Normal tt, e1) /\
    JS.map_size (memoryCache (this e1)) = 901.
Proof.
  destruct (set_evicts_least_recently_accessed
              (e := Fixture.full) "user:42"%string "Ann"%string (Some 5)
              Fixture.done)
    as (e1 & Hset & _ & _ & Hpass).
  - reflexivity.
  - exact (proj1 full_well_formed).
  - exact full_within_limit.
  - exists e1. split; [ exact Hset | ].
    apply Hpass. vm_compute. reflexivity.
Defined.

End MemoryTier.

(** *** Expiry *)

Module Expiry.
Import EnhancedCacheManager.
Import Spec.

Section WithValue.
Context {value : Type} `{Json value}.

Lemma cleanupExpiredItems_eq (e : env (value := value)) :
  cleanupExpiredItems e
    = (JS.Normal tt, set_memoryCache (JS.delete_all (expiredKeys e)) e).
Proof.
  destruct e as [rt0 ri [rc m cfg st ct bt]].
  unfold cleanupExpiredItems. facade_run. reflexivity.
Qed.

(** After the sweep, an expired entry is gone. *)
Lemma swept (e : env (value := value)) key item :
  JS.map_get key (memoryCache (this e)) = Some item -> expired e item ->
  JS.map_get key (JS.delete_all (expiredKeys e) (memoryCache (this e))) = None.
Proof.
  intros Hg Hx. apply MapFacts.delete_all_get_in.
  unfold expiredKeys. apply in_map_iff. exists (key, item). split; [ reflexivity | ].
  apply filter_In. split; [ apply MapFacts.map_get_in; exact Hg | ].
  apply Z.ltb_lt. exact Hx.
Qed.

Lemma live_expired (e : env (value := value)) key item :
  JS.map_get key (memoryCache (this e)) = Some item -> expired e item ->
  live e key = None.
Proof.
  intros Hg Hx. unfold live. destruct (enableMemoryCache _); [ | reflexivity ].
  rewrite Hg. apply Z.ltb_lt in Hx. rewrite Hx. reflexivity.
Qed.

(** The sweep leaves nothing under a key that has no live entry. *)
Lemma sweep_removes_dead (e : env (value := value)) key :
  enableMemoryCache (config (this e)) = true ->
  live e key = None ->
  JS.map_get key (JS.delete_all (expiredKeys e) (memoryCache (this e))) = None.
Proof.
  intros Hen Hl. unfold live in Hl. rewrite Hen in Hl.
  destruct (JS.map_get key (memoryCache (this e))) as [item |] eqn:Hg.
  - destruct (ttl item * 1000 <? JS.clock (rt e) - timestamp item) eqn:E;
      [ | discriminate ].
    eapply swept; [ exact Hg | ]. apply Z.ltb_lt. exact E.
  - destruct (in_dec string_dec key (expiredKeys e)) as [Hin | Hn].
    + apply MapFacts.delete_all_get_in. exact Hin.
    + rewrite MapFacts.delete_all_get_other by exact Hn. exact Hg.
Qed.

(** A miss with no remote tier, followed by the sweep. *)
Lemma miss_then_sweep (e : env (value := value)) key r :
  enableMemoryCache (config (this e)) = true ->
  remoteActive (this e) = false ->
  live e key = None ->
  exists e1 e2,
    get key r e = (JS.Normal None, e1) /\
    totals e1 = counted_miss (totals e) /\
    memoryCache (this e1) = memoryCache (this e) /\
    cleanupExpiredItems e1 = (JS.Normal tt, e2) /\
    JS.map_get key (memoryCache (this e2)) = None.
Proof.
  intros Hen Hm Hl.
  destruct (MemoryTier.get_miss_memory_only e key r Hl Hm)
    as (e1 & Hget & Hmem & Hrt & Htot).
  exists e1. eexists. split; [ exact Hget | ]. split; [ exact Htot | ].
  split; [ exact Hmem | ]. split; [ apply cleanupExpiredItems_eq | ].
  pose proof (sweep_removes_dead e key Hen Hl) as Hs.
  destruct e1 as [rt1 ri1 [rc1 m1 cfg1 st1 ct1 bt1]]. simpl in *. subst.
  exact Hs.
Qed.

(** C5, as the code has it.  When the entry stored under a key is past its
    TTL, [get] treats it as absent: with no remote tier the call returns
    [null] and counts a miss.  The [get] does not delete the entry: the
    map is the same afterwards.  It is the sweep, [cleanupExpiredItems],
    that deletes it. *)
Theorem get_skips_expired_entry_and_leaves_it
  (e : env (value := value)) key r item :
  enableMemoryCache (config (this e)) = true ->
  remoteActive (this e) = false ->
  JS.map_get key (memoryCache (this e)) = Some item ->
  expired e item ->
  exists e1 e2,
    get key r e = (JS.Normal None, e1) /\
    totals e1 = counted_miss (totals e) /\
    memoryCache (this e1) = memoryCache (this e) /\
    cleanupExpiredItems e1 = (JS.Normal tt, e2) /\
    JS.map_get key (memoryCache (this e2)) = None.
Proof.
  intros Hen Hm Hg Hx.
  apply miss_then_sweep; [ exact Hen | exact Hm | ].
  eapply live_expired; [ exact Hg | exact Hx ].
Qed.

(** What is stored under [key] after [set]: the item just written, or
    nothing. *)
Lemma after_set_written_or_absent (e : env (value := value)) key data ttl item :
  distinct_keys e ->
  JS.map_get key (memory_after_set e key data ttl) = Some item ->
  enableMemoryCache (config (this e)) = true ->
  item = written e data ttl.
Proof.
  intros Hnd Hg Hen. unfold memory_after_set in Hg. rewrite Hen in Hg.
  apply MapFacts.map_get_in in Hg. apply Eviction.enforce_limit_in in Hg.
  set (m' := JS.map_set key (written e data ttl) (memoryCache (this e))) in *.
  assert (Hw : In (key, written e data ttl) m').
  { apply MapFacts.map_get_in. apply MapFacts.map_get_set_same. }
  assert (Hnd' : NoDup (JS.map_keys m')) by (apply MapFacts.map_set_NoDup; exact Hnd).
  pose proof (@MapFacts.NoDup_keys_entry _ m' _ _ Hnd' Hg Hw eq_refl) as Heq.
  congruence.
Qed.

(** C3, as the code has it.  After [set(k, v, ttl)], once more than [ttl]
    seconds have passed, [get(k)] returns [null] (memory tier enabled, no
    remote tier).  The [get] leaves the map as it is, so an expired entry
    still counts in the size that [getStats] reports, until the sweep
    deletes it. *)
Theorem get_after_ttl_returns_null
  (e : env (value := value)) key data ttl r1 d r2 :
  enableMemoryCache (config (this e)) = true ->
  remoteActive (this e) = false ->
  distinct_keys e ->
  effective_ttl e ttl * 1000 < Z.of_N d ->
  exists e1 e2 e3,
    run [OpSet key data ttl r1; OpElapse d] e = (JS.Normal tt, e1) /\
    get key r2 e1 = (JS.Normal None, e2) /\
    memoryCache (this e2) = memoryCache (this e1) /\
    cleanupExpiredItems e2 = (JS.Normal tt, e3) /\
    JS.map_get key (memoryCache (this e3)) = None.
Proof.
  intros Hen Hm Hnd Httl.
  destruct (MemoryTier.set_effect e key data ttl r1)
    as (e0 & Hset & Hmem & Hcfg & Hclock).
  assert (Hm0 : remoteActive (this e0) = false /\ JS.clock (rt e0) = JS.clock (rt e)).
  { revert Hset. destruct e as [rt0 ri [rc m cfg st ct bt]].
    unfold set, set_begin. facade_run. simpl in Hm. rewrite Hm.
    destruct (enableMemoryCache cfg); facade_run;
      rewrite RemoteFailure.checkMemoryLimit_eq; facade_run;
      intros [= <-]; (split; [ exact Hm | reflexivity ]). }
  destruct Hm0 as [Hm0 Hnow].
  set (e1 := set_rt (JS.advance d) e0).
  assert (Hrun : run [OpSet key data ttl r1; OpElapse d] e = (JS.Normal tt, e1)).
  { cbn [run perform]. js_run. rewrite Hset. reflexivity. }
  assert (Hen1 : enableMemoryCache (config (this e1)) = true)
    by (change (config (this e1)) with (config (this e0)); congruence).
  assert (Hlive : live e1 key = None).
  { unfold live. rewrite Hen1.
    change (memoryCache (this e1)) with (memoryCache (this e0)).
    destruct (JS.map_get key (memoryCache (this e0))) as [item |] eqn:Hg;
      [ | reflexivity ].
    rewrite Hmem in Hg.
    rewrite (after_set_written_or_absent key data ttl Hnd Hg Hen).
    change (JS.clock (rt e1)) with (JS.clock (rt e0) + Z.of_N d).
    rewrite Hnow. unfold written. simpl.
    destruct (effective_ttl e ttl * 1000 <? JS.clock (rt e) + Z.of_N d - JS.clock (rt e))
      eqn:E; [ reflexivity | ].
    apply Z.ltb_ge in E. lia. }
  destruct (miss_then_sweep e1 key r2 Hen1 Hm0 Hlive)
    as (e2 & e3 & Hget & _ & Hmem2 & Hsweep & Hgone).
  exists e1, e2, e3. auto.
Qed.

End WithValue.

(** C3 as stated fails.  Exactly [ttl] seconds after the [set] (5000 ms
    for a TTL of 5) the test [now - timestamp > ttl * 1000] is false and
    [get] returns the value.  One second later [get] returns [null], and
    the size that [getStats] reports still counts the entry. *)
Lemma get_at_ttl_returns_the_value_and_size_counts_expired :
  fst (get "user:42"%string Fixture.absent (Fixture.ann_after 5000))
    = JS.Normal (Some "Ann"%string) /\
  exists e st e',
    get "user:42"%string Fixture.absent (Fixture.ann_after 6000)
      = (JS.Normal None, e) /\
    getStats e = (JS.Normal st, e') /\
    size (memoryCacheStats st) = 1.
Proof.
  split; [ vm_compute; reflexivity | ].
  exists (snd (get "user:42"%string Fixture.absent (Fixture.ann_after 6000))).
  exists (mkStats (mkTotal 1 0 1 0%Q) (mkBackend memory connected 0%Q)
                  (mkMemory 1 0%Q)).
  eexists. split; [ vm_compute; reflexivity | ].
  split; [ vm_compute; reflexivity | reflexivity ].
Qed.

Lemma get_after_ttl_returns_null_witness :
  exists e1 e2 e3,
    run [OpSet "user:42"%string "Ann"%string (Some 5) Fixture.done; OpElapse 6000]
        Fixture.fresh = (JS.Normal tt, e1) /\
    get "user:42"%string Fixture.absent e1 = (JS.Normal None, e2) /\
    memoryCache (this e2) = memoryCache (this e1) /\
    cleanupExpiredItems e2 = (JS.Normal tt, e3) /\
    JS.map_get "user:42"%string (memoryCache (this e3)) = None.
Proof.
  apply get_after_ttl_returns_null.
  - reflexivity.
  - reflexivity.
  - constructor.
  - simpl. lia.
Defined.

(** C5 as stated fails.  Six seconds after [set("user:42", "Ann", 5)] the
    stored entry is past its TTL; [get] returns [null], and the entry is
    in the map after the [get] as it was before. *)
Lemma get_leaves_expired_entry_in_map :
  JS.map_get "user:42"%string (memoryCache (this (Fixture.ann_after 6000)))
    = Some (mkItem "Ann"%string 0 5 0 0) /\
  expired (Fixture.ann_after 6000) (mkItem "Ann"%string 0 5 0 0) /\
  fst (get "user:42"%string Fixture.absent (Fixture.ann_after 6000))
    = JS.Normal None /\
  JS.map_get "user:42"%string
    (memoryCache (this (snd (get "user:42"%string Fixture.absent
                                 (Fixture.ann_after 6000)))))
    = Some (mkItem "Ann"%string 0 5 0 0).
Proof.
  split; [ vm_compute; reflexivity | ].
  split; [ unfold expired; vm_compute; reflexivity | ].
  split; vm_compute; reflexivity.
Qed.

Lemma get_skips_expired_entry_and_leaves_it_witness :
  exists e1 e2,
    get "user:42"%string Fixture.absent (Fixture.ann_after 6000)
      = (JS.Normal None, e1) /\
    totals e1 = counted_miss (totals (Fixture.ann_after 6000)) /\
    memoryCache (this e1) = memoryCache (this (Fixture.ann_after 6000)) /\
    cleanupExpiredItems e1 = (JS.Normal tt, e2) /\
    JS.map_get "user:42"%string (memoryCache (this e2)) = None.
Proof.
  apply (get_skips_expired_entry_and_leaves_it
           (e := Fixture.ann_after 6000) "user:42"%string
           Fixture.absent (item := mkItem "Ann"%string 0 5 0 0)).
  - reflexivity.
  - reflexivity.
  - reflexivity.
  - unfold expired. simpl. lia.
Defined.

End Expiry.

(** *** Reconnection with backoff *)

Module Backoff.
Import RedisCacheManager.
Import RedisSpec.

Ltac redis_run :=
  cbv beta iota delta
    [JS.bind JS.ret JS.gets JS.modify JS.throw JS.try_catch
     rt this set_rt set_stats set_isConnected set_reconnectAttempts
     set_reconnectTimer set_redis].

(** [scheduleReconnect], as a function of the state. *)
Lemma scheduleReconnect_eq (e : env) :
  scheduleReconnect e =
  (JS.Normal tt,
   if maxReconnectAttempts (this e) <=? reconnectAttempts (this e) then e
   else
     let r := match reconnectTimer (this e) with
              | Some h => JS.clearTimer h (rt e)
              | None => rt e
              end in
     let s := this e in
     mkEnv (JS.mkRuntime (JS.clock r) (S (JS.nextHandle r))
              (JS.pending r ++
               [JS.mkTimer (JS.nextHandle r) false
                           (2 ^ reconnectAttempts s * 1000) JS.ReconnectCallback]))
           (mk (redis s) (isConnected s) (stats s) (reconnectAttempts s)
               (maxReconnectAttempts s) (Some (JS.nextHandle r)))).
Proof.
  destruct e as [r [rd ic st ra mx tm]].
  unfold scheduleReconnect. redis_run.
  cbv beta iota delta [reconnectAttempts maxReconnectAttempts reconnectTimer].
  destruct (mx <=? ra); [ reflexivity | ].
  destruct tm as [h |]; reflexivity.
Qed.

Lemma on_error_eq (e : env) :
  on_error e = scheduleReconnect (set_stats incr_errors (set_isConnected false e)).
Proof. reflexivity. Qed.

Lemma filter_reconnects_app (l1 l2 : list JS.timer) f :
  filter f (l1 ++ l2) = filter f l1 ++ filter f l2.
Proof. apply filter_app. Qed.

Lemma clearTimer_pending h r t :
  In t (JS.pending (JS.clearTimer h r)) <-> In t (JS.pending r) /\ JS.handle t <> h.
Proof.
  unfold JS.clearTimer. simpl. rewrite filter_In. split; intros [Hin Hh]; split; auto.
  - apply negb_true_iff in Hh. apply Nat.eqb_neq in Hh. exact Hh.
  - apply negb_true_iff. apply Nat.eqb_neq. exact Hh.
Qed.

Lemma reconnects_in e t :
  In t (reconnects e) <->
  In t (JS.pending (rt e)) /\ JS.action t = JS.ReconnectCallback.
Proof.
  unfold reconnects. rewrite filter_In. split; intros [Hin Ha]; split; auto.
  - destruct (JS.action t); [ reflexivity | discriminate ].
  - rewrite Ha. reflexivity.
Qed.

Lemma filter_none {A} (f : A -> bool) (l : list A) :
  (forall x, In x l -> f x = false) -> filter f l = [].
Proof.
  induction l as [| x xs IH]; simpl; intros Hall; [ reflexivity | ].
  rewrite (Hall x) by (left; reflexivity). apply IH.
  intros y Hy. apply Hall. right. exact Hy.
Qed.

(** Nothing was scheduled when every pending timer has an old handle. *)
Lemma scheduled_none (e e' : env) :
  (forall t, In t (JS.pending (rt e')) -> (JS.handle t < JS.nextHandle (rt e))%nat) ->
  scheduled e e' = [].
Proof.
  intros Hold. unfold scheduled. rewrite filter_none; [ reflexivity | ].
  intros t Ht. apply Nat.leb_gt. apply Hold. exact Ht.
Qed.

(** One timer was scheduled when the table is the old one, less some
    timers, plus one timer with the next handle. *)
Lemma scheduled_one (e e' : env) (old : list JS.timer) d :
  (forall t, In t old -> (JS.handle t < JS.nextHandle (rt e))%nat) ->
  JS.pending (rt e')
    = old ++ [JS.mkTimer (JS.nextHandle (rt e)) false d JS.ReconnectCallback] ->
  scheduled e e' = [d].
Proof.
  intros Hold Hp. unfold scheduled. rewrite Hp, filter_app.
  rewrite filter_none.
  - simpl. rewrite Nat.leb_refl. reflexivity.
  - intros t Ht. apply Nat.leb_gt. apply Hold. exact Ht.
Qed.

Lemma fire_eq h (e : env) :
  fire h e =
  (JS.Normal tt,
   match JS.findTimer h (rt e) with
   | Some tm =>
       let e1 := set_rt (JS.fired tm) e in
       match JS.action tm with
       | JS.ReconnectCallback =>
           set_reconnectAttempts (reconnectAttempts (this e1) + 1) e1
       | JS.CleanupCallback => e1
       end
   | None => e
   end).
Proof.
  destruct e as [r s]. unfold fire. js_run. cbn [rt].
  destruct (JS.findTimer h r) as [tm |]; [ | reflexivity ].
  unfold reconnectCallback. js_run.
  destruct (JS.action tm); reflexivity.
Qed.

Lemma fired_pending tm r t :
  In t (JS.pending (JS.fired tm r)) -> In t (JS.pending r).
Proof.
  unfold JS.fired. destruct (JS.repeating tm); [ auto | ].
  intros Ht. apply clearTimer_pending in Ht. tauto.
Qed.

Lemma fired_nextHandle tm r : JS.nextHandle (JS.fired tm r) = JS.nextHandle r.
Proof. unfold JS.fired. destruct (JS.repeating tm); reflexivity. Qed.

Lemma empty_list {A} (l : list A) : (forall x, ~ In x l) -> l = [].
Proof.
  destruct l as [| x xs]; [ reflexivity | ].
  intros Hn. exfalso. apply (Hn x). left. reflexivity.
Qed.

(** What one event of a run of failures does. *)
Lemma failure_step (ev : event) (e : env) :
  failure ev = true -> timers_ok e ->
  let e' := snd (dispatch ev e) in
  timers_ok e' /\
  reconnectAttempts (this e) <= reconnectAttempts (this e') /\
  maxReconnectAttempts (this e') = maxReconnectAttempts (this e) /\
  (scheduled e e' = [] \/
   (reconnectAttempts (this e) < maxReconnectAttempts (this e) /\
    scheduled e e' = [2 ^ reconnectAttempts (this e) * 1000])) /\
  (gave_up e ->
   scheduled e e' = [] /\ reconnects e' = [] /\
   reconnectAttempts (this e') = reconnectAttempts (this e)).
Proof.
  intros Hf (Hpos & Hfresh & Hrec). cbv zeta.
  assert (Hnone : gave_up e -> reconnects e = []).
  { intros Hg. destruct (reconnects e) as [| t l] eqn:E; [ reflexivity | ].
    destruct (Hrec t (or_introl eq_refl)) as (_ & _ & Hlt).
    unfold gave_up in Hg. lia. }
  destruct ev; try discriminate; cbn [dispatch].
  - (* 'error' *)
    rewrite on_error_eq, scheduleReconnect_eq.
    destruct e as [r [rd ic st ra mx tm]]. simpl in *.
    destruct (mx <=? ra) eqn:Hmx; simpl.
    + apply Z.leb_le in Hmx.
      assert (Hs : scheduled (mkEnv r (mk rd ic st ra mx tm))
                     (mkEnv r (mk rd false (incr_errors st) ra mx tm)) = [])
        by (apply scheduled_none; exact Hfresh).
      split; [ split; [ exact Hpos | split; [ exact Hfresh | exact Hrec ] ] | ].
      split; [ lia | ]. split; [ reflexivity | ]. split; [ left; exact Hs | ].
      intros Hg. split; [ exact Hs | ]. split; [ apply (Hnone Hg) | reflexivity ].
    + apply Z.leb_gt in Hmx.
      set (r' := match tm with Some h => JS.clearTimer h r | None => r end).
      assert (Hnh : JS.nextHandle r' = JS.nextHandle r)
        by (unfold r'; destruct tm; reflexivity).
      assert (Hsub : forall t, In t (JS.pending r') -> In t (JS.pending r)).
      { unfold r'. destruct tm as [h |]; [ | auto ].
        intros t Ht. apply clearTimer_pending in Ht. tauto. }
      assert (Hgone : forall t, In t (JS.pending r') ->
                                JS.action t <> JS.ReconnectCallback).
      { intros t Ht Ha.
        assert (Hin : In t (reconnects (mkEnv r (mk rd ic st ra mx tm)))).
        { apply reconnects_in. split; [ apply Hsub; exact Ht | exact Ha ]. }
        destruct (Hrec t Hin) as (_ & Htm & _). simpl in Htm. subst tm.
        unfold r' in Ht. apply clearTimer_pending in Ht. tauto. }
      assert (Hs : scheduled (mkEnv r (mk rd ic st ra mx tm))
                     (mkEnv (JS.mkRuntime (JS.clock r') (S (JS.nextHandle r'))
                               (JS.pending r' ++
                                [JS.mkTimer (JS.nextHandle r') false (2 ^ ra * 1000)
                                            JS.ReconnectCallback]))
                            (mk rd false (incr_errors st) ra mx
                                (Some (JS.nextHandle r')))) = [2 ^ ra * 1000]).
      { apply scheduled_one with (old := JS.pending r').
        - intros t Ht. apply Hfresh. apply Hsub. exact Ht.
        - simpl. rewrite Hnh. reflexivity. }
      split.
      { split; [ exact Hpos | ]. split.
        - intros t Ht. simpl in Ht. apply in_app_or in Ht as [Ht | [<- | []]]; simpl.
          + rewrite Hnh. apply Hsub in Ht. apply Hfresh in Ht. lia.
          + lia.
        - intros t Ht. apply reconnects_in in Ht as [Ht Ha]. simpl in Ht.
          apply in_app_or in Ht as [Ht | [<- | []]].
          + exfalso. exact (Hgone t Ht Ha).
          + simpl. auto. }
      split; [ lia | ]. split; [ reflexivity | ].
      split; [ right; split; [ exact Hmx | exact Hs ] | ].
      intros Hg. unfold gave_up in Hg. simpl in Hg. lia.
  - (* 'close' *)
    destruct e as [r [rd ic st ra mx tm]]. simpl in *.
    assert (Hs : scheduled (mkEnv r (mk rd ic st ra mx tm))
                   (mkEnv r (mk rd false st ra mx tm)) = [])
      by (apply scheduled_none; exact Hfresh).
    split; [ split; [ exact Hpos | split; [ exact Hfresh | exact Hrec ] ] | ].
    split; [ lia | ]. split; [ reflexivity | ]. split; [ left; exact Hs | ].
    intros Hg. split; [ exact Hs | ]. split; [ apply (Hnone Hg) | reflexivity ].
  - (* 'reconnecting' *)
    simpl.
    assert (Hs : scheduled e e = []) by (apply scheduled_none; exact Hfresh).
    split; [ split; [ exact Hpos | split; [ exact Hfresh | exact Hrec ] ] | ].
    split; [ lia | ]. split; [ reflexivity | ]. split; [ left; exact Hs | ].
    intros Hg. split; [ exact Hs | ]. split; [ apply (Hnone Hg) | reflexivity ].
  - (* a timer fires *)
    rewrite fire_eq. cbn [snd].
    destruct (JS.findTimer h (rt e)) as [tm |] eqn:Hfind.
    2:{ assert (Hs : scheduled e e = []) by (apply scheduled_none; exact Hfresh).
        split; [ split; [ exact Hpos | split; [ exact Hfresh | exact Hrec ] ] | ].
        split; [ lia | ]. split; [ reflexivity | ]. split; [ left; exact Hs | ].
        intros Hg. split; [ exact Hs | ]. split; [ apply (Hnone Hg) | reflexivity ]. }
    apply find_some in Hfind as [Htm Hh]. apply Nat.eqb_eq in Hh.
    cbv zeta.
    destruct e as [r [rd ic st ra mx tmr]]. simpl in *.
    assert (Hfresh' : forall t, In t (JS.pending (JS.fired tm r)) ->
                                (JS.handle t < JS.nextHandle r)%nat).
    { intros t Ht. apply Hfresh. apply (fired_pending tm r). exact Ht. }
    destruct (JS.action tm) eqn:Ha; simpl.
    + (* the reconnect callback *)
      assert (Hin : In tm (reconnects (mkEnv r (mk rd ic st ra mx tmr)))).
      { apply reconnects_in. split; [ exact Htm | exact Ha ]. }
      destruct (Hrec tm Hin) as (Hrep & Htmr & Hlt). simpl in Htmr, Hlt.
      assert (Hs : scheduled (mkEnv r (mk rd ic st ra mx tmr))
                     (mkEnv (JS.fired tm r) (mk rd ic st (ra + 1) mx tmr)) = [])
        by (apply scheduled_none; exact Hfresh').
      assert (Hempty : reconnects (mkEnv (JS.fired tm r)
                                         (mk rd ic st (ra + 1) mx tmr)) = []).
      { apply empty_list. intros t Ht. apply reconnects_in in Ht as [Ht Hat].
        simpl in Ht.
        assert (Hold : In t (reconnects (mkEnv r (mk rd ic st ra mx tmr)))).
        { apply reconnects_in. split; [ apply (fired_pending tm r); exact Ht | exact Hat ]. }
        destruct (Hrec t Hold) as (_ & Htmr' & _). simpl in Htmr'.
        unfold JS.fired in Ht. rewrite Hrep in Ht.
        apply clearTimer_pending in Ht. destruct Ht as [_ Hne]. congruence. }
      split.
      { split; [ simpl; lia | ]. split.
        - intros t Ht. simpl in *. rewrite fired_nextHandle.
          apply Hfresh'. exact Ht.
        - intros t Ht.
          assert (Hc : In t []) by (rewrite <- Hempty; exact Ht).
          contradiction. }
      split; [ lia | ]. split; [ reflexivity | ]. split; [ left; exact Hs | ].
      intros Hg. unfold gave_up in Hg. simpl in Hg. lia.
    + (* not a timer of this class *)
      assert (Hs : scheduled (mkEnv r (mk rd ic st ra mx tmr))
                     (mkEnv (JS.fired tm r) (mk rd ic st ra mx tmr)) = [])
        by (apply scheduled_none; exact Hfresh').
      assert (Hold : forall t,
                 In t (reconnects (mkEnv (JS.fired tm r) (mk rd ic st ra mx tmr))) ->
                 In t (reconnects (mkEnv r (mk rd ic st ra mx tmr)))).
      { intros t Ht. apply reconnects_in in Ht as [Ht Hat]. apply reconnects_in.
        split; [ apply (fired_pending tm r); exact Ht | exact Hat ]. }
      split.
      { split; [ exact Hpos | ]. split.
        - intros t Ht. simpl in *. rewrite fired_nextHandle.
          apply Hfresh'. exact Ht.
        - intros t Ht. apply (Hrec t (Hold t Ht)). }
      split; [ lia | ]. split; [ reflexivity | ]. split; [ left; exact Hs | ].
      intros Hg. split; [ exact Hs | ]. split; [ | reflexivity ].
      apply empty_list. intros t Ht. apply Hold in Ht.
      rewrite (Hnone Hg) in Ht. exact Ht.
Qed.

Lemma run_cons ev evs (e : env) :
  run (ev :: evs) e = run evs (snd (dispatch ev e)).
Proof. reflexivity. Qed.

(** In a run of failures (errors, closes, and reconnect timers that fire,
    with no successful connection in between), the delays given to
    [setTimeout] never decrease, and each is 1000 * 2^attempt for the
    number of attempts made so far, which is below [maxReconnectAttempts].
    Once the attempts are used up, no timer is set any more, none is
    pending, and the count of attempts stays where it is. *)
Lemma failure_run_backs_off (evs : list event) : forall (e : env),
  forallb failure evs = true -> timers_ok e ->
  timers_ok (run evs e) /\
  maxReconnectAttempts (this (run evs e)) = maxReconnectAttempts (this e) /\
  StronglySorted Z.le (delays evs e) /\
  Forall (fun d => exists a,
            reconnectAttempts (this e) <= a < maxReconnectAttempts (this e) /\
            d = 1000 * 2 ^ a)
         (delays evs e) /\
  (gave_up e ->
   delays evs e = [] /\
   reconnects (run evs e) = [] /\
   reconnectAttempts (this (run evs e)) = reconnectAttempts (this e)).
Proof.
  induction evs as [| ev rest IH]; intros e Hall Hok.
  - simpl. split; [ exact Hok | ]. split; [ reflexivity | ].
    split; [ constructor | ]. split; [ constructor | ].
    intros Hg. split; [ reflexivity | ]. split; [ | reflexivity ].
    destruct Hok as (_ & _ & Hrec). apply empty_list. intros t Ht.
    destruct (Hrec t Ht) as (_ & _ & Hlt). unfold gave_up in Hg. lia.
  - simpl in Hall. apply andb_true_iff in Hall as [Hev Hrest].
    destruct (@failure_step ev e Hev Hok) as (Hok' & Hmono & Hmax & Hsched & Hstop).
    set (e' := snd (dispatch ev e)) in *.
    destruct (IH e' Hrest Hok') as (Hok2 & Hmax2 & Hsorted & Hform & Hgave).
    assert (Hpos : 0 <= reconnectAttempts (this e)) by (destruct Hok; assumption).
    assert (Hform' : Forall (fun d => exists a,
                               reconnectAttempts (this e) <= a
                                 < maxReconnectAttempts (this e) /\
                               d = 1000 * 2 ^ a)
                            (delays rest e')).
    { eapply Forall_impl; [ | exact Hform ].
      intros d (a & Ha & Hd). exists a. split; [ lia | exact Hd ]. }
    rewrite run_cons. cbn [delays]. fold e'.
    split; [ exact Hok2 | ]. split; [ congruence | ].
    split; [ | split ].
    + destruct Hsched as [-> | [Hlt ->]]; [ exact Hsorted | ].
      cbn [app]. constructor; [ exact Hsorted | ].
      eapply Forall_impl; [ | exact Hform ].
      intros d (a & Ha & ->).
      assert (2 ^ reconnectAttempts (this e) <= 2 ^ a)
        by (apply Z.pow_le_mono_r; lia).
      lia.
    + destruct Hsched as [-> | [Hlt ->]]; [ exact Hform' | ].
      cbn [app]. constructor; [ | exact Hform' ].
      exists (reconnectAttempts (this e)). split; [ lia | lia ].
    + intros Hg. destruct (Hstop Hg) as (Hs & Hr & Ha).
      assert (Hg' : gave_up e') by (unfold gave_up in *; lia).
      destruct (Hgave Hg') as (Hd & Hr' & Ha').
      rewrite Hs, Hd. split; [ reflexivity | ]. split; [ exact Hr' | lia ].
Qed.

Lemma find_app_skip {A} (f : A -> bool) (l1 l2 : list A) :
  (forall x, In x l1 -> f x = false) -> find f (l1 ++ l2) = find f l2.
Proof.
  induction l1 as [| x xs IH]; intros Hall; [ reflexivity | ].
  cbn [app find]. rewrite (Hall x) by (left; reflexivity).
  apply IH. intros y Hy. apply Hall. right. exact Hy.
Qed.

(** An error that finds attempts left sets one timer, in place of the one
    that was pending: the state afterwards. *)
Lemma error_arms_one_timer (e : env) :
  timers_ok e ->
  reconnectAttempts (this e) < maxReconnectAttempts (this e) ->
  let e1 := snd (dispatch Error e) in
  let tm := JS.mkTimer (JS.nextHandle (rt e)) false
                       (2 ^ reconnectAttempts (this e) * 1000)
                       JS.ReconnectCallback in
  reconnectAttempts (this e1) = reconnectAttempts (this e) /\
  reconnectTimer (this e1) = Some (JS.nextHandle (rt e)) /\
  scheduled e e1 = [2 ^ reconnectAttempts (this e) * 1000] /\
  reconnects e1 = [tm] /\
  JS.findTimer (JS.nextHandle (rt e)) (rt e1) = Some tm.
Proof.
  intros (Hpos & Hfresh & Hrec) Hlt. cbv zeta. cbn [dispatch].
  rewrite on_error_eq, scheduleReconnect_eq.
  destruct e as [r [rd ic st ra mx tm]]. simpl in *.
  assert (Hmx : (mx <=? ra) = false) by (apply Z.leb_gt; exact Hlt).
  rewrite Hmx. simpl.
  set (r' := match tm with Some h => JS.clearTimer h r | None => r end).
  assert (Hnh : JS.nextHandle r' = JS.nextHandle r)
    by (unfold r'; destruct tm; reflexivity).
  assert (Hsub : forall t, In t (JS.pending r') -> In t (JS.pending r)).
  { unfold r'. destruct tm as [h |]; [ | auto ].
    intros t Ht. apply clearTimer_pending in Ht. tauto. }
  assert (Hgone : forall t, In t (JS.pending r') ->
                            JS.action t <> JS.ReconnectCallback).
  { intros t Ht Ha.
    assert (Hin : In t (reconnects (mkEnv r (mk rd ic st ra mx tm)))).
    { apply reconnects_in. split; [ apply Hsub; exact Ht | exact Ha ]. }
    destruct (Hrec t Hin) as (_ & Htm & _). simpl in Htm. subst tm.
    unfold r' in Ht. apply clearTimer_pending in Ht. tauto. }
  rewrite Hnh.
  split; [ reflexivity | ]. split; [ reflexivity | ].
  split.
  { apply scheduled_one with (old := JS.pending r').
    - intros t Ht. apply Hfresh. apply Hsub. exact Ht.
    - reflexivity. }
  split.
  - unfold reconnects. simpl. rewrite filter_app, filter_none; [ reflexivity | ].
    intros t Ht. destruct (JS.action t) eqn:Ha; [ | reflexivity ].
    exfalso. exact (Hgone t Ht Ha).
  - unfold JS.findTimer. simpl. rewrite find_app_skip.
    + simpl. rewrite Nat.eqb_refl. reflexivity.
    + intros t Ht. apply Nat.eqb_neq. apply Hsub, Hfresh in Ht. lia.
Qed.

(** The reconnect timer fires: one attempt is made, and no reconnect
    timer is left. *)
Lemma timer_makes_one_attempt (e : env) h tm :
  timers_ok e ->
  JS.findTimer h (rt e) = Some tm ->
  JS.action tm = JS.ReconnectCallback ->
  let e2 := snd (dispatch (TimerFires h) e) in
  reconnectAttempts (this e2) = reconnectAttempts (this e) + 1 /\
  scheduled e e2 = [] /\
  reconnects e2 = [].
Proof.
  intros (Hpos & Hfresh & Hrec) Hfind Ha. cbv zeta. cbn [dispatch].
  rewrite fire_eq. cbn [snd]. rewrite Hfind. cbv zeta. rewrite Ha.
  apply find_some in Hfind as [Htm Hh]. apply Nat.eqb_eq in Hh.
  destruct e as [r [rd ic st ra mx tmr]]. simpl in *.
  assert (Hfresh' : forall t, In t (JS.pending (JS.fired tm r)) ->
                              (JS.handle t < JS.nextHandle r)%nat).
  { intros t Ht. apply Hfresh. apply (fired_pending tm r). exact Ht. }
  assert (Hin : In tm (reconnects (mkEnv r (mk rd ic st ra mx tmr)))).
  { apply reconnects_in. split; [ exact Htm | exact Ha ]. }
  destruct (Hrec tm Hin) as (Hrep & Htmr & Hlt). simpl in Htmr, Hlt.
  split; [ reflexivity | ].
  split; [ apply scheduled_none; exact Hfresh' | ].
  apply empty_list. intros t Ht. apply reconnects_in in Ht as [Ht Hat].
  simpl in Ht.
  assert (Hold : In t (reconnects (mkEnv r (mk rd ic st ra mx tmr)))).
  { apply reconnects_in. split; [ apply (fired_pending tm r); exact Ht | exact Hat ]. }
  destruct (Hrec t Hold) as (_ & Htmr' & _). simpl in Htmr'.
  unfold JS.fired in Ht. rewrite Hrep in Ht.
  apply clearTimer_pending in Ht. destruct Ht as [_ Hne]. congruence.
Qed.

Lemma failure_keeps_timers_ok (ev : event) (e : env) :
  failure ev = true -> timers_ok e ->
  timers_ok (snd (dispatch ev e)) /\
  maxReconnectAttempts (this (snd (dispatch ev e))) = maxReconnectAttempts (this e).
Proof.
  intros Hf Hok.
  destruct (@failure_step ev e Hf Hok) as (Hok' & _ & Hmax & _). auto.
Qed.

(** [n] failed attempts in a row, while attempts are left. *)
Lemma failed_attempts_run (n : nat) : forall (e : env),
  timers_ok e ->
  reconnectAttempts (this e) + Z.of_nat n <= maxReconnectAttempts (this e) ->
  forallb failure (failed_attempts n e) = true /\
  delays (failed_attempts n e) e
    = List.map (fun i => 1000 * 2 ^ (reconnectAttempts (this e) + Z.of_nat i))
               (seq 0 n) /\
  reconnectAttempts (this (run (failed_attempts n e) e))
    = reconnectAttempts (this e) + Z.of_nat n /\
  (reconnects e = [] \/ n <> 0%nat -> reconnects (run (failed_attempts n e) e) = []) /\
  timers_ok (run (failed_attempts n e) e) /\
  maxReconnectAttempts (this (run (failed_attempts n e) e))
    = maxReconnectAttempts (this e).
Proof.
  induction n as [| n IH]; intros e Hok Hle.
  - cbn [failed_attempts forallb delays run seq List.map].
    split; [ reflexivity | ]. split; [ reflexivity | ].
    split; [ cbn; lia | ].
    split; [ intros [Hr | Hn]; [ exact Hr | contradiction ] | ].
    split; [ exact Hok | reflexivity ].
  - assert (Hlt : reconnectAttempts (this e) < maxReconnectAttempts (this e)) by lia.
    destruct (@error_arms_one_timer e Hok Hlt) as (Ha1 & Ht1 & Hs1 & Hr1 & Hf1).
    destruct (@failure_keeps_timers_ok Error e eq_refl Hok) as [Hok1 Hm1].
    cbn [failed_attempts]. cbv zeta.
    set (e1 := snd (dispatch Error e)) in *.
    rewrite Ht1.
    set (h := JS.nextHandle (rt e)) in *.
    destruct (@timer_makes_one_attempt e1 h _ Hok1 Hf1 eq_refl) as (Ha2 & Hs2 & Hr2).
    destruct (@failure_keeps_timers_ok (TimerFires h) e1 eq_refl Hok1) as [Hok2 Hm2].
    set (e2 := snd (dispatch (TimerFires h) e1)) in *.
    assert (Hle2 : reconnectAttempts (this e2) + Z.of_nat n
                   <= maxReconnectAttempts (this e2)) by lia.
    destruct (IH e2 Hok2 Hle2) as (Hfail & Hd & Ha & Hr & Hok' & Hm').
    cbn [forallb failure andb delays run]. fold e1. fold e2.
    split; [ exact Hfail | ].
    split.
    { rewrite Hs1, Hs2, Hd. cbn [app seq List.map].
      f_equal; [ rewrite Z.add_0_r; lia | ].
      rewrite <- seq_shift, map_map. apply map_ext. intros i.
      rewrite Ha2, Ha1. f_equal. f_equal. lia. }
    split; [ rewrite Ha; lia | ].
    split; [ intros _; apply Hr; left; exact Hr2 | ].
    split; [ exact Hok' | congruence ].
Qed.

(** Errors that come before the timer has fired: each replaces the timer
    by one of the same delay, and none counts as an attempt. *)
Lemma errors_rearm (n : nat) : forall (e : env),
  timers_ok e ->
  reconnectAttempts (this e) < maxReconnectAttempts (this e) ->
  delays (repeat Error n) e = repeat (1000 * 2 ^ reconnectAttempts (this e)) n /\
  reconnectAttempts (this (run (repeat Error n) e)) = reconnectAttempts (this e) /\
  (n <> 0%nat ->
   exists h,
     reconnectTimer (this (run (repeat Error n) e)) = Some h /\
     reconnects (run (repeat Error n) e)
       = [JS.mkTimer h false (1000 * 2 ^ reconnectAttempts (this e))
                     JS.ReconnectCallback]).
Proof.
  induction n as [| n IH]; intros e Hok Hlt.
  - cbn [repeat delays run]. split; [ reflexivity | ]. split; [ reflexivity | ].
    intros Hn. contradiction.
  - destruct (@error_arms_one_timer e Hok Hlt) as (Ha1 & Ht1 & Hs1 & Hr1 & Hf1).
    destruct (@failure_keeps_timers_ok Error e eq_refl Hok) as [Hok1 Hm1].
    cbn [repeat delays run].
    set (e1 := snd (dispatch Error e)) in *.
    assert (Hlt1 : reconnectAttempts (this e1) < maxReconnectAttempts (this e1)) by lia.
    destruct (IH e1 Hok1 Hlt1) as (Hd & Ha & Hp).
    split.
    { rewrite Hs1, Hd, Ha1. cbn [app]. f_equal. lia. }
    split; [ rewrite Ha; exact Ha1 | ].
    intros _. destruct n as [| n].
    + cbn [repeat run]. exists (JS.nextHandle (rt e)).
      split; [ exact Ht1 | ]. rewrite Hr1. f_equal. f_equal. lia.
    + destruct (Hp ltac:(discriminate)) as (h & Hh & Hrs).
      exists h. split; [ exact Hh | ]. rewrite Hrs, Ha1. reflexivity.
Qed.

(** A connection that succeeds sets the count back: the next error sets
    a timer of one second. *)
Lemma connect_gives_the_attempts_back (e : env) :
  timers_ok e -> reconnects e = [] -> 0 < maxReconnectAttempts (this e) ->
  delays [Connect; Error] e = [1000].
Proof.
  intros Hok Hnone Hmax.
  set (e1 := snd (dispatch Connect e)).
  assert (Hrt : rt e1 = rt e) by (destruct e as [r [rd ic st ra mx tm]]; reflexivity).
  assert (Ha1 : reconnectAttempts (this e1) = 0)
    by (destruct e as [r [rd ic st ra mx tm]]; reflexivity).
  assert (Hm1 : maxReconnectAttempts (this e1) = maxReconnectAttempts (this e))
    by (destruct e as [r [rd ic st ra mx tm]]; reflexivity).
  assert (Hr1 : reconnects e1 = []) by (unfold reconnects; rewrite Hrt; exact Hnone).
  assert (Hok1 : timers_ok e1).
  { destruct Hok as (_ & Hfresh & _).
    split; [ lia | ]. split.
    - rewrite Hrt. exact Hfresh.
    - intros t Ht. rewrite Hr1 in Ht. contradiction. }
  destruct (@error_arms_one_timer e1 Hok1 ltac:(lia)) as (_ & _ & Hs & _).
  cbn [delays]. fold e1. rewrite Hs, Ha1.
  rewrite scheduled_none.
  - reflexivity.
  - rewrite Hrt. destruct Hok as (_ & Hfresh & _). exact Hfresh.
Qed.

(** C7, as the code has it.  The client counts the reconnect attempts it
    makes, not the errors it is told of.  From a state with
    [maxReconnectAttempts] at most 22 (the class has 5), so that every
    delay is one that [setTimeout] takes as it is:
    - in every run of failures (errors, closes, timers that fire, no
      successful connection in between), the delays given to [setTimeout]
      never decrease, and each is 1000 * 2^attempt for a number of attempts
      below [maxReconnectAttempts];
    - [n] attempts that fail in a row (an error, then the timer that the
      error has set fires and makes the attempt) get the delays
      1000 * 2^a, ..., 1000 * 2^(a + n - 1) and raise the count from [a]
      to [a + n];
    - errors that come before the pending timer has fired replace it by a
      timer of the same delay and leave the count as it is: errors alone
      never use up the attempts;
    - once [maxReconnectAttempts] attempts have been made, the client has
      stopped: in every run of failures that follows, no timer is set,
      none is pending, and the count stays at [maxReconnectAttempts].
      Only a ['connect'] event sets it back. *)
Theorem reconnect_attempts_back_off_then_stop (e : env) :
  timers_ok e ->
  maxReconnectAttempts (this e) <= 22 ->
  (forall evs,
     forallb failure evs = true ->
     StronglySorted Z.le (delays evs e) /\
     Forall (fun d => exists a,
               reconnectAttempts (this e) <= a < maxReconnectAttempts (this e) /\
               d = 1000 * 2 ^ a /\ 1 <= d <= 2147483647)
            (delays evs e)) /\
  (forall n,
     reconnectAttempts (this e) + Z.of_nat n <= maxReconnectAttempts (this e) ->
     forallb failure (failed_attempts n e) = true /\
     delays (failed_attempts n e) e
       = List.map (fun i => 1000 * 2 ^ (reconnectAttempts (this e) + Z.of_nat i))
                  (seq 0 n) /\
     reconnectAttempts (this (run (failed_attempts n e) e))
       = reconnectAttempts (this e) + Z.of_nat n /\
     (n <> 0%nat -> reconnects (run (failed_attempts n e) e) = [])) /\
  (forall n,
     reconnectAttempts (this e) < maxReconnectAttempts (this e) ->
     delays (repeat Error n) e = repeat (1000 * 2 ^ reconnectAttempts (this e)) n /\
     reconnectAttempts (this (run (repeat Error n) e)) = reconnectAttempts (this e) /\
     (n <> 0%nat ->
      exists h,
        reconnectTimer (this (run (repeat Error n) e)) = Some h /\
        reconnects (run (repeat Error n) e)
          = [JS.mkTimer h false (1000 * 2 ^ reconnectAttempts (this e))
                        JS.ReconnectCallback])) /\
  (forall n more,
     reconnectAttempts (this e) + Z.of_nat n = maxReconnectAttempts (this e) ->
     forallb failure more = true ->
     gave_up (run (failed_attempts n e) e) /\
     delays more (run (failed_attempts n e) e) = [] /\
     reconnects (run more (run (failed_attempts n e) e)) = [] /\
     reconnectAttempts (this (run more (run (failed_attempts n e) e)))
       = maxReconnectAttempts (this e) /\
     (0 < maxReconnectAttempts (this e) ->
      delays [Connect; Error] (run more (run (failed_attempts n e) e)) = [1000])).
Proof.
  intros Hok Hmax.
  assert (Hpos : 0 <= reconnectAttempts (this e)) by (destruct Hok; assumption).
  split; [ | split; [ | split ] ].
  - intros evs Hall.
    destruct (@failure_run_backs_off evs e Hall Hok) as (_ & _ & Hsorted & Hform & _).
    split; [ exact Hsorted | ].
    eapply Forall_impl; [ | exact Hform ].
    intros d (a & Ha & ->). exists a. split; [ exact Ha | ]. split; [ reflexivity | ].
    assert (H1 : 1 <= 2 ^ a) by (apply (Z.pow_le_mono_r 2 0 a); lia).
    assert (H2 : 2 ^ a <= 2 ^ 21) by (apply Z.pow_le_mono_r; lia).
    change (2 ^ 21) with 2097152 in H2. lia.
  - intros n Hle.
    destruct (@failed_attempts_run n e Hok Hle) as (Hf & Hd & Ha & Hr & _).
    split; [ exact Hf | ]. split; [ exact Hd | ]. split; [ exact Ha | ].
    intros Hn. apply Hr. right. exact Hn.
  - intros n Hlt. exact (@errors_rearm n e Hok Hlt).
  - intros n more Hn Hall.
    destruct (@failed_attempts_run n e Hok ltac:(lia)) as (_ & _ & Ha & _ & Hok' & Hm').
    set (e' := run (failed_attempts n e) e) in *.
    assert (Hg : gave_up e') by (unfold gave_up; lia).
    destruct (@failure_run_backs_off more e' Hall Hok') as (_ & _ & _ & _ & Hstop).
    destruct (Hstop Hg) as (Hd & Hr & Hat).
    split; [ exact Hg | ]. split; [ exact Hd | ]. split; [ exact Hr | ].
    split; [ lia | ].
    intros Hmpos.
    destruct (@failure_run_backs_off more e' Hall Hok') as (Hok2 & Hm2 & _).
    exact (@connect_gives_the_attempts_back (run more e') Hok2 Hr ltac:(lia)).
Qed.

Lemma connected_client_timers_ok : timers_ok connected_client.
Proof.
  split; [ simpl; lia | ]. split; intros t [].
Defined.

Lemma reconnect_attempts_back_off_then_stop_witness :
  delays (failed_attempts 5 connected_client) connected_client
    = [1000; 2000; 4000; 8000; 16000] /\
  reconnectAttempts (this (run (failed_attempts 5 connected_client) connected_client))
    = 5 /\
  gave_up (run (failed_attempts 5 connected_client) connected_client) /\
  delays [Error; Close; Error]
         (run (failed_attempts 5 connected_client) connected_client) = [] /\
  delays error_burst connected_client = [1000; 1000; 1000; 1000; 1000; 1000].
Proof.
  destruct (@reconnect_attempts_back_off_then_stop connected_client
              connected_client_timers_ok ltac:(simpl; lia))
    as (_ & Hrounds & Hburst & Hstop).
  destruct (Hrounds 5%nat ltac:(simpl; lia)) as (_ & Hd & Ha & _).
  destruct (Hstop 5%nat [Error; Close; Error] eq_refl eq_refl) as (Hg & Hnone & _).
  destruct (Hburst 6%nat ltac:(simpl; lia)) as (Hb & _).
  split; [ exact Hd | ]. split; [ exact Ha | ]. split; [ exact Hg | ].
  split; [ exact Hnone | exact Hb ].
Defined.

(** C7 as stated fails.  Six connection errors in a row, each before the
    timer of the one before has fired: every one of them sets a timer of
    one second in place of the pending one, no attempt is counted, and
    after more failures than [maxReconnectAttempts] = 5 the client has not
    stopped: a reconnect is pending, and the next error sets another. *)
Lemma errors_alone_do_not_stop_the_client :
  forallb failure error_burst = true /\
  delays error_burst connected_client = [1000; 1000; 1000; 1000; 1000; 1000] /\
  reconnectAttempts (this (run error_burst connected_client)) = 0 /\
  ~ gave_up (run error_burst connected_client) /\
  reconnects (run error_burst connected_client)
    = [JS.mkTimer 6 false 1000 JS.ReconnectCallback] /\
  delays [Error] (run error_burst connected_client) = [1000].
Proof.
  split; [ reflexivity | ]. split; [ vm_compute; reflexivity | ].
  split; [ vm_compute; reflexivity | ].
  split; [ unfold gave_up; vm_compute; intros Hle; apply Hle; reflexivity | ].
  split; vm_compute; reflexivity.
Qed.

(** Five attempts, with delays of 1, 2, 4, 8 and 16 seconds; the sixth
    error finds the attempts used up and sets no timer. *)
Example five_attempts_then_none :
  delays failures_in_a_row connected_client = [1000; 2000; 4000; 8000; 16000] /\
  reconnectAttempts (this (run failures_in_a_row connected_client)) = 5 /\
  JS.pending (rt (run failures_in_a_row connected_client)) = [] /\
  delays [Error; Error; TimerFires 5; Error]
         (run failures_in_a_row connected_client) = [].
Proof. repeat split. Qed.

(** A connection that succeeds gives the client its attempts back. *)
Example connect_resets_the_attempts :
  reconnectAttempts
    (this (run (failures_in_a_row ++ [Connect]) connected_client)) = 0.
Proof. reflexivity. Qed.

End Backoff.

(** *** Shutdown and reset *)

Module Shutdown.
Import EnhancedCacheManager.
Import Spec.

Lemma findTimer_clearTimer h r : JS.findTimer h (JS.clearTimer h r) = None.
Proof.
  unfold JS.findTimer, JS.clearTimer. simpl.
  induction (JS.pending r) as [| t ts IH]; simpl; [ reflexivity | ].
  destruct (Nat.eqb (JS.handle t) h) eqn:E; simpl; [ exact IH | ].
  rewrite E. exact IH.
Qed.

Lemma findTimer_clearTimer_other h h' r :
  JS.findTimer h r = None -> JS.findTimer h (JS.clearTimer h' r) = None.
Proof.
  unfold JS.findTimer, JS.clearTimer. simpl.
  induction (JS.pending r) as [| t ts IH]; simpl; [ reflexivity | ].
  destruct (Nat.eqb (JS.handle t) h) eqn:E; [ discriminate | ].
  intros Hn. destruct (negb (Nat.eqb (JS.handle t) h')); simpl.
  - rewrite E. apply IH. exact Hn.
  - apply IH. exact Hn.
Qed.

Lemma cancelled_clearTimer h r : cancelled (Some h) (JS.clearTimer h r).
Proof. apply findTimer_clearTimer. Qed.

Lemma cancelled_clearTimer_other h h' r :
  cancelled h r -> cancelled h (JS.clearTimer h' r).
Proof.
  destruct h as [h0 |]; simpl; [ apply findTimer_clearTimer_other | auto ].
Qed.

(** [RedisCacheManager.destroy]: the reconnect timer is cancelled, the
    client is released, and a second call changes nothing. *)
Lemma redis_destroy_releases (r : Redis.env) :
  exists r1,
    Redis.destroy r = (JS.Normal tt, r1) /\
    cancelled (Redis.reconnectTimer (Redis.this r)) (Redis.rt r1) /\
    Redis.reconnectTimer (Redis.this r1) = None /\
    Redis.redis (Redis.this r1) = None /\
    Redis.isConnected (Redis.this r1) = false /\
    (forall h, cancelled h (Redis.rt r) -> cancelled h (Redis.rt r1)) /\
    Redis.destroy r1 = (JS.Normal tt, r1).
Proof.
  destruct r as [r0 [rd ic st ra mx tm]].
  unfold Redis.destroy. facade_run.
  cbv beta iota delta [Redis.reconnectTimer Redis.redis].
  destruct tm as [h |]; facade_run;
    cbv beta iota delta [Redis.reconnectTimer Redis.redis];
    destruct rd as [c |]; facade_run;
    eexists; (split; [ reflexivity | ]); simpl;
    repeat split; auto using findTimer_clearTimer, cancelled_clearTimer_other.
Qed.

Section WithValue.
Context {value : Type} `{Json value}.

(** [destroy] of the facade, from any state. *)
Lemma facade_destroy_releases (e : env (value := value)) :
  exists e1,
    destroy e = (JS.Normal tt, e1) /\
    cancelled (cleanupTimer (this e)) (rt e1) /\
    cleanupTimer (this e1) = None /\
    memoryCache (this e1) = [] /\
    redisCache (this e1) = false /\
    (if redisCache (this e)
     then cancelled (Redis.reconnectTimer (redisInstance e)) (rt e1) /\
          Redis.reconnectTimer (redisInstance e1) = None /\
          Redis.redis (redisInstance e1) = None /\
          Redis.isConnected (redisInstance e1) = false
     else redisInstance e1 = redisInstance e) /\
    destroy e1 = (JS.Normal tt, e1).
Proof.
  destruct e as [rt0 ri [rc m cfg st ct bt]].
  unfold destroy. facade_run.
  set (rt1 := match ct with Some h => JS.clearTimer h rt0 | None => rt0 end).
  assert (Hct : cancelled ct rt1)
    by (unfold rt1; destruct ct; [ apply findTimer_clearTimer | exact I ]).
  destruct rc.
  + destruct (redis_destroy_releases (Redis.mkEnv rt1 ri))
      as ([rt2 ri2] & Hd & Hc & Htm & Hrd & Hic & Hkeep & Hagain).
    simpl in *.
    exists (mkEnv rt2 ri2 (mk false [] cfg st None bt)).
    split.
    { destruct ct as [h |]; facade_run; fold rt1; rewrite Hd; reflexivity. }
    split; [ apply Hkeep; exact Hct | ].
    repeat (split; [ reflexivity | ]).
    split.
    { split; [ | auto ].
      destruct (Redis.reconnectTimer ri) as [h |]; [ | exact I ].
      exact Hc. }
    reflexivity.
  + exists (mkEnv rt1 ri (mk false [] cfg st None bt)).
    split; [ destruct ct as [h |]; reflexivity | ].
    split; [ exact Hct | ]. repeat (split; [ reflexivity | ]). reflexivity.
Qed.

(** C9, as the code has it.  From every state, so also from one reached
    by operations that follow an earlier [destroy], [destroy] returns
    normally, cancels the sweep timer and empties the map; when the facade
    holds the remote client it destroys it, which cancels the pending
    reconnect timer and releases the connection, and it drops its
    reference.  A [destroy] that follows a [destroy] directly leaves the
    state as it is.  [destroy] sets no flag: it leaves a state as it is
    exactly when there is no sweep timer, no entry and no remote client to
    release, and otherwise releases again what was acquired since.
    [RedisCacheManager.destroy] alone behaves in the same way. *)
Theorem destroy_releases_everything_and_is_idempotent :
  (forall e : env (value := value),
     exists e1,
       destroy e = (JS.Normal tt, e1) /\
       cancelled (cleanupTimer (this e)) (rt e1) /\
       cleanupTimer (this e1) = None /\
       memoryCache (this e1) = [] /\
       redisCache (this e1) = false /\
       (if redisCache (this e)
        then cancelled (Redis.reconnectTimer (redisInstance e)) (rt e1) /\
             Redis.reconnectTimer (redisInstance e1) = None /\
             Redis.redis (redisInstance e1) = None /\
             Redis.isConnected (redisInstance e1) = false
        else redisInstance e1 = redisInstance e) /\
       destroy e1 = (JS.Normal tt, e1)) /\
  (forall e : env (value := value),
     destroy e = (JS.Normal tt, e) <->
     cleanupTimer (this e) = None /\ memoryCache (this e) = [] /\
     redisCache (this e) = false) /\
  (forall r : Redis.env,
     exists r1,
       Redis.destroy r = (JS.Normal tt, r1) /\
       cancelled (Redis.reconnectTimer (Redis.this r)) (Redis.rt r1) /\
       Redis.reconnectTimer (Redis.this r1) = None /\
       Redis.redis (Redis.this r1) = None /\
       Redis.isConnected (Redis.this r1) = false /\
       Redis.destroy r1 = (JS.Normal tt, r1)).
Proof.
  split; [ exact facade_destroy_releases | ]. split.
  - intros e. split.
    + intros Hsame.
      destruct (facade_destroy_releases e) as (e1 & Hd & _ & Hct & Hm & Hrc & _).
      rewrite Hsame in Hd. injection Hd as <-. auto.
    + destruct e as [rt0 ri [rc m cfg st ct bt]]. cbn [this cleanupTimer memoryCache redisCache].
      intros (-> & -> & ->). reflexivity.
  - intros r. destruct (redis_destroy_releases r)
      as (r1 & Hd & Hc & Htm & Hrd & Hic & _ & Hagain).
    exists r1. auto 10.
Qed.

(** C10.  [clear] empties the stored entries and sets the aggregate
    counters back to zero: the statistics that [getStats] returns next
    have [requests], [hits], [misses] and [hitRate] at 0, and a size of 0,
    whatever was counted before. *)
Theorem clear_resets_the_statistics (e : env (value := value)) r :
  stores_only_if_enabled e ->
  exists e1 st e2,
    clear r e = (JS.Normal tt, e1) /\
    memoryCache (this e1) = [] /\
    getStats e1 = (JS.Normal st, e2) /\
    total st = mkTotal 0 0 0 0%Q /\
    size (memoryCacheStats st) = 0.
Proof.
  intros Hs. destruct e as [rt0 ri [rc m cfg st ct bt]].
  unfold stores_only_if_enabled in Hs. simpl in Hs.
  unfold clear. facade_run.
  assert (Hm : (if enableMemoryCache cfg then [] else m) = []).
  { destruct (enableMemoryCache cfg); [ reflexivity | auto ]. }
  destruct (remoteActive _).
  - destruct (Redis.clear r (Redis.mkEnv rt0 ri)) as [[[] | err] [rt1 ri1]] eqn:Hc;
      destruct (enableMemoryCache cfg); facade_run; rewrite Hc; facade_run;
      simpl in Hm; try rewrite Hm;
      eexists; eexists; eexists; (split; [ reflexivity | ]);
      (split; [ reflexivity | ]); unfold getStats; facade_run;
      (split; [ reflexivity | ]); split; reflexivity.
  - destruct (enableMemoryCache cfg); facade_run;
      simpl in Hm; try rewrite Hm;
      eexists; eexists; eexists; (split; [ reflexivity | ]);
      (split; [ reflexivity | ]); unfold getStats; facade_run;
      (split; [ reflexivity | ]); split; reflexivity.
Qed.

End WithValue.

(** C9 as stated fails.  A state reached after a first [destroy] need not
    be one that a second [destroy] leaves alone: the facade goes on
    working, a [set] that follows the first [destroy] stores its entry,
    and the second [destroy] deletes it. *)
Lemma second_destroy_empties_a_refilled_map :
  exists e2 e3,
    run [OpDestroy; OpSet "user:42"%string "Ann"%string (Some 5) Fixture.done]
        Fixture.fresh = (JS.Normal tt, e2) /\
    JS.map_keys (memoryCache (this e2)) = ["user:42"%string] /\
    destroy e2 = (JS.Normal tt, e3) /\
    memoryCache (this e3) = [] /\
    e3 <> e2.
Proof.
  exists (snd (run [OpDestroy; OpSet "user:42"%string "Ann"%string (Some 5) Fixture.done]
                   Fixture.fresh)).
  exists (snd (destroy
                 (snd (run [OpDestroy;
                            OpSet "user:42"%string "Ann"%string (Some 5) Fixture.done]
                           Fixture.fresh)))).
  split; [ vm_compute; reflexivity | ].
  split; [ vm_compute; reflexivity | ].
  split; [ vm_compute; reflexivity | ].
  split; [ vm_compute; reflexivity | ].
  intros Heq. apply (f_equal (fun e => memoryCache (this e))) in Heq.
  vm_compute in Heq. discriminate Heq.
Qed.

Lemma clear_resets_the_statistics_witness :
  exists e1 st e2,
    clear Fixture.done
          (snd (get "user:42"%string Fixture.absent (Fixture.ann_after 1000)))
      = (JS.Normal tt, e1) /\
    memoryCache (this e1) = [] /\
    getStats e1 = (JS.Normal st, e2) /\
    total st = mkTotal 0 0 0 0%Q /\
    size (memoryCacheStats st) = 0.
Proof.
  apply clear_resets_the_statistics.
  intros Hoff. discriminate Hoff.
Defined.

End Shutdown.

(** *** The states that a facade reaches *)

Module Reachable.
Import EnhancedCacheManager.
Import Spec.

Unset Implicit Arguments.

Section WithValue.
Context {value : Type} `{Json value}.

Lemma in_order_iff (e : env (value := value)) :
  memory_only_in_order e <->
  remoteActive (this e) = false /\
  good (JS.clock (rt e)) (enableMemoryCache (config (this e))) (memoryCache (this e)).
Proof.
  unfold memory_only_in_order, well_formed, distinct_keys, within_limit, good.
  tauto.
Qed.

Lemma good_empty now enabled : good (value := value) now enabled [].
Proof.
  repeat split; simpl; try constructor; try tauto; try lia; discriminate.
Qed.

Lemma good_later now now' enabled (m : JS.Map (CacheItem (value := value))) :
  now <= now' -> good now enabled m -> good now' enabled m.
Proof.
  intros Hle (Hnd & Hage & Hsize & Hoff). repeat split; auto.
  intros en Hen. specialize (Hage en Hen). lia.
Qed.

Lemma good_sub now enabled (m m' : JS.Map (CacheItem (value := value))) :
  good now enabled m ->
  NoDup (JS.map_keys m') -> (forall en, In en m' -> In en m) ->
  (List.length m' <= List.length m)%nat ->
  good now enabled m'.
Proof.
  intros (Hnd & Hage & Hsize & Hoff) Hnd' Hsub Hlen. repeat split; auto.
  - unfold JS.map_size in *. lia.
  - intros Hf. specialize (Hoff Hf). subst m.
    destruct m' as [| en l]; [ reflexivity | ].
    exfalso. apply (Hsub en). left. reflexivity.
Qed.

Lemma good_delete now enabled (m : JS.Map (CacheItem (value := value))) k :
  good now enabled m -> good now enabled (JS.map_delete k m).
Proof.
  intros Hg. apply good_sub with (m := m); [ exact Hg | | | ].
  - apply MapFacts.map_delete_NoDup. destruct Hg; assumption.
  - intros en Hen. apply MapFacts.map_delete_in in Hen. tauto.
  - apply MapFacts.map_delete_length_le.
Qed.

Lemma good_delete_all now enabled (m : JS.Map (CacheItem (value := value))) ks :
  good now enabled m -> good now enabled (JS.delete_all ks m).
Proof.
  intros Hg. apply good_sub with (m := m); [ exact Hg | | | ].
  - apply MapFacts.delete_all_NoDup. destruct Hg; assumption.
  - intros en Hen. apply MapFacts.delete_all_in in Hen. tauto.
  - apply MapFacts.delete_all_length_le.
Qed.

Lemma good_enforce_limit now enabled (m : JS.Map (CacheItem (value := value))) :
  good now enabled m -> good now enabled (enforce_limit m).
Proof.
  intros Hg. apply good_sub with (m := m); [ exact Hg | | | ].
  - apply Eviction.enforce_limit_NoDup. destruct Hg; assumption.
  - apply Eviction.enforce_limit_in.
  - apply Eviction.enforce_limit_length_le.
Qed.

(** Touching the entry of a key that is there. *)
Lemma good_touch now (m : JS.Map (CacheItem (value := value))) k old item :
  good now true m -> JS.map_get k m = Some old -> lastAccessed item <= now ->
  good now true (JS.map_set k item m).
Proof.
  intros (Hnd & Hage & Hsize & _) Hget Hitem.
  assert (Hin : In k (JS.map_keys m)) by (eapply MapFacts.map_get_some_key; eauto).
  repeat split.
  - apply MapFacts.map_set_NoDup. exact Hnd.
  - intros en Hen. apply MapFacts.map_set_in in Hen as [-> | Hen]; auto.
  - unfold JS.map_size in *. rewrite MapFacts.map_set_length_old by exact Hin.
    exact Hsize.
  - discriminate.
Qed.

(** Writing an entry and running the eviction pass. *)
Lemma good_write now (m : JS.Map (CacheItem (value := value))) k item :
  good now true m -> lastAccessed item <= now ->
  good now true (enforce_limit (JS.map_set k item m)).
Proof.
  intros (Hnd & Hage & Hsize & _) Hitem.
  assert (Hnd' : NoDup (JS.map_keys (JS.map_set k item m)))
    by (apply MapFacts.map_set_NoDup; exact Hnd).
  repeat split.
  - apply Eviction.enforce_limit_NoDup. exact Hnd'.
  - intros en Hen. apply Eviction.enforce_limit_in in Hen.
    apply MapFacts.map_set_in in Hen as [-> | Hen]; auto.
  - apply Eviction.enforce_limit_bound; [ exact Hnd' | ].
    pose proof (@MemoryTier.map_set_length_le value m k item).
    unfold JS.map_size in *. lia.
  - discriminate.
Qed.

Ltac memory_only Hm :=
  cbv beta iota delta [remoteActive backendType redisCache] in Hm |- *;
  try rewrite Hm.

Ltac in_order_start e Hio Hm Hg :=
  apply in_order_iff in Hio; destruct Hio as [Hm Hg]; apply in_order_iff;
  destruct e as [rt0 ri [rc m cfg st ct bt]];
  cbv beta iota delta [this rt config memoryCache] in Hm, Hg.

Lemma get_in_order (e : env (value := value)) key r :
  memory_only_in_order e -> memory_only_in_order (snd (get key r e)).
Proof.
  intros Hio. in_order_start e Hio Hm Hg.
  unfold get. facade_run.
  destruct (enableMemoryCache cfg) eqn:Hen.
  - destruct (JS.map_get key m) as [item |] eqn:Hget.
    + unfold isExpired. facade_run.
      destruct (ttl item * 1000 <? JS.clock rt0 - timestamp item);
        cbv beta iota delta [negb].
      * unfold get_backend. facade_run. memory_only Hm. facade_run.
        simpl. rewrite Hen. split; [ exact Hm | exact Hg ].
      * unfold updateAccessStats, calculateHitRate. facade_run.
        destruct (requests _ =? 0); simpl; rewrite Hen;
          (split; [ exact Hm | ]);
          (apply good_touch with (old := item);
           [ exact Hg | exact Hget | simpl; lia ]).
    + unfold get_backend. facade_run. memory_only Hm. facade_run.
      simpl. rewrite Hen. split; [ exact Hm | exact Hg ].
  - unfold get_backend. facade_run. memory_only Hm. facade_run.
    simpl. rewrite Hen. split; [ exact Hm | exact Hg ].
Qed.

(** With no remote tier, [set] has no [await]: [set_begin] is the whole
    call. *)
Lemma set_begin_in_order (e : env (value := value)) key data ttl :
  memory_only_in_order e ->
  exists e',
    set_begin key data ttl e = (JS.Normal Completed, e') /\
    memory_only_in_order e'.
Proof.
  intros Hio. apply in_order_iff in Hio. destruct Hio as [Hm Hg].
  destruct e as [rt0 ri [rc m cfg st ct bt]].
  cbv beta iota delta [this rt config memoryCache] in Hm, Hg.
  unfold set_begin. facade_run. memory_only Hm.
  destruct (enableMemoryCache cfg) eqn:Hen; facade_run;
    rewrite RemoteFailure.checkMemoryLimit_eq; facade_run;
    eexists; (split; [ reflexivity | ]); apply in_order_iff; simpl;
    rewrite Hen; (split; [ exact Hm | ]).
  - apply good_write; [ exact Hg | simpl; lia ].
  - apply good_enforce_limit. exact Hg.
Qed.

Lemma set_in_order (e : env (value := value)) key data ttl r :
  memory_only_in_order e -> memory_only_in_order (snd (set key data ttl r e)).
Proof.
  intros Hio. destruct (set_begin_in_order e key data ttl Hio) as (e' & Hb & Hio').
  unfold set. js_run. rewrite Hb. exact Hio'.
Qed.

Lemma mset_begin_in_order items : forall (e : env (value := value)),
  memory_only_in_order e ->
  exists sps e',
    mset_begin items e = (JS.Normal sps, e') /\
    Forall (fun sp => fst sp = Completed) sps /\
    memory_only_in_order e'.
Proof.
  induction items as [| [[[key data] ttl] r] rest IH]; intros e Hio.
  - exists [], e. split; [ reflexivity | split; [ constructor | exact Hio ] ].
  - destruct (set_begin_in_order e key data ttl Hio) as (e1 & Hb & Hio1).
    destruct (IH e1 Hio1) as (sps & e2 & Hrest & Hall & Hio2).
    exists ((Completed, r) :: sps), e2. cbn [mset_begin]. js_run.
    rewrite Hb, Hrest. split; [ reflexivity | split; [ | exact Hio2 ] ].
    constructor; [ reflexivity | exact Hall ].
Qed.

Lemma mset_resume_completed sps : forall (e : env (value := value)),
  Forall (fun sp => fst sp = Completed) sps ->
  mset_resume sps e = (JS.Normal tt, e).
Proof.
  induction sps as [| [sp r] rest IH]; intros e Hall; [ reflexivity | ].
  inversion Hall as [| ? ? Hsp Hrest]; subst. simpl in Hsp. subst sp.
  cbn [mset_resume set_resume]. js_run. apply IH. exact Hrest.
Qed.

Lemma mset_in_order items (e : env (value := value)) :
  memory_only_in_order e -> memory_only_in_order (snd (mset items e)).
Proof.
  intros Hio. destruct (mset_begin_in_order items e Hio) as (sps & e' & Hb & Hall & Hio').
  unfold mset. js_run. rewrite Hb, (mset_resume_completed sps e' Hall). exact Hio'.
Qed.

Lemma mget_in_order keys : forall (e : env (value := value)),
  memory_only_in_order e -> memory_only_in_order (snd (mget keys e)).
Proof.
  induction keys as [| [key r] rest IH]; intros e Hio; [ exact Hio | ].
  cbn [mget]. js_run. pose proof (get_in_order e key r Hio) as H1.
  destruct (get key r e) as [[v | err] e1]; [ | exact H1 ].
  specialize (IH e1 H1). destruct (mget rest e1) as [[vs | err] e2]; exact IH.
Qed.

Lemma delete_in_order (e : env (value := value)) key r :
  memory_only_in_order e -> memory_only_in_order (snd (delete key r e)).
Proof.
  intros Hio. in_order_start e Hio Hm Hg.
  unfold delete. facade_run. memory_only Hm.
  destruct (enableMemoryCache cfg) eqn:Hen; facade_run; simpl; rewrite Hen;
    (split; [ exact Hm | ]); [ apply good_delete | ]; exact Hg.
Qed.

Lemma exists_in_order (e : env (value := value)) key r :
  memory_only_in_order e -> memory_only_in_order (snd (exists_ key r e)).
Proof.
  intros Hio. in_order_start e Hio Hm Hg.
  unfold exists_, isExpired. facade_run.
  destruct (if enableMemoryCache cfg then JS.map_get key m else None) as [item |];
    facade_run;
    [ destruct (ttl item * 1000 <? JS.clock rt0 - timestamp item);
      cbv beta iota delta [negb] | ];
    unfold exists_backend; facade_run; memory_only Hm; facade_run;
    simpl; (split; [ exact Hm | exact Hg ]).
Qed.

Lemma clear_in_order (e : env (value := value)) r :
  memory_only_in_order e -> memory_only_in_order (snd (clear r e)).
Proof.
  intros Hio. in_order_start e Hio Hm Hg.
  unfold clear. facade_run. memory_only Hm.
  destruct (enableMemoryCache cfg) eqn:Hen; facade_run; simpl; rewrite Hen;
    (split; [ exact Hm | ]); [ apply good_empty | exact Hg ].
Qed.

Lemma getStats_in_order (e : env (value := value)) :
  memory_only_in_order e -> memory_only_in_order (snd (getStats e)).
Proof.
  intros Hio. in_order_start e Hio Hm Hg.
  unfold getStats. facade_run. simpl. split; [ exact Hm | exact Hg ].
Qed.

Lemma cleanupExpiredItems_in_order (e : env (value := value)) :
  memory_only_in_order e -> memory_only_in_order (snd (cleanupExpiredItems e)).
Proof.
  intros Hio. rewrite Expiry.cleanupExpiredItems_eq.
  in_order_start e Hio Hm Hg. simpl. split; [ exact Hm | ].
  apply good_delete_all. exact Hg.
Qed.

Lemma destroy_in_order (e : env (value := value)) :
  memory_only_in_order e -> memory_only_in_order (snd (destroy e)).
Proof.
  intros Hio. in_order_start e Hio Hm Hg.
  unfold destroy. facade_run.
  destruct ct as [h |]; facade_run;
    (destruct rc; facade_run;
     [ destruct (Redis.destroy _) as [[u | err] [rt1 ri1]] | ]);
    simpl;
    (split; [ destruct bt; simpl in Hm; first [ reflexivity | exact Hm ]
            | apply good_empty ]).
Qed.

Lemma fired_clock tm r : JS.clock (JS.fired tm r) = JS.clock r.
Proof. unfold JS.fired. destruct (JS.repeating tm); reflexivity. Qed.

Lemma fire_in_order (e : env (value := value)) h :
  memory_only_in_order e -> memory_only_in_order (snd (fire h e)).
Proof.
  intros Hio. unfold fire. js_run.
  destruct (JS.findTimer h (rt e)) as [tm |]; [ | exact Hio ].
  assert (Hio1 : memory_only_in_order (set_rt (JS.fired tm) e)).
  { in_order_start e Hio Hm Hg. simpl. rewrite fired_clock.
    split; [ exact Hm | exact Hg ]. }
  destruct (JS.action tm).
  - clear Hio. set (e1 := set_rt (JS.fired tm) e) in *.
    in_order_start e1 Hio1 Hm Hg.
    unfold on_redis, Redis.reconnectCallback. js_run. simpl.
    split; [ exact Hm | exact Hg ].
  - apply cleanupExpiredItems_in_order. exact Hio1.
Qed.

Lemma elapse_in_order (e : env (value := value)) d :
  memory_only_in_order e -> memory_only_in_order (set_rt (JS.advance d) e).
Proof.
  intros Hio. in_order_start e Hio Hm Hg. simpl. split; [ exact Hm | ].
  apply good_later with (now := JS.clock rt0); [ lia | exact Hg ].
Qed.

Lemma perform_in_order (o : op (value := value)) e :
  memory_only_in_order e -> memory_only_in_order (snd (perform o e)).
Proof.
  intros Hio. destruct o; cbn [perform]; unfold ignore; js_run.
  - pose proof (get_in_order e key r Hio) as H1.
    destruct (get key r e) as [[v | err] e1]; exact H1.
  - apply set_in_order. exact Hio.
  - apply delete_in_order. exact Hio.
  - pose proof (exists_in_order e key r Hio) as H1.
    destruct (exists_ key r e) as [[v | err] e1]; exact H1.
  - pose proof (mget_in_order keys e Hio) as H1.
    destruct (mget keys e) as [[v | err] e1]; exact H1.
  - apply mset_in_order. exact Hio.
  - apply clear_in_order. exact Hio.
  - pose proof (getStats_in_order e Hio) as H1.
    destruct (getStats e) as [[v | err] e1]; exact H1.
  - apply destroy_in_order. exact Hio.
  - apply elapse_in_order. exact Hio.
  - apply fire_in_order. exact Hio.
Qed.

Lemma create_in_order now cfg :
  memory_only_in_order (create (value := value) now cfg).
Proof.
  apply in_order_iff.
  destruct cfg as [d mm ci [ | | ] em]; (split; [ reflexivity | apply good_empty ]).
Qed.

(** Every state that a facade reaches from its construction has no remote
    tier, a well-formed memory tier within its limit, and no entries when
    the memory tier is disabled: what the theorems on the memory tier ask
    of a state holds of all the states there are. *)
Theorem reached_states_are_in_order (ops : list (op (value := value))) :
  forall e, memory_only_in_order e -> memory_only_in_order (snd (run ops e)).
Proof.
  induction ops as [| o rest IH]; intros e Hio; [ exact Hio | ].
  cbn [run]. js_run. pose proof (perform_in_order o e Hio) as H1.
  destruct (perform o e) as [[u | err] e1]; [ apply IH | ]; exact H1.
Qed.

(** X1.  Whatever is done to a facade after [new EnhancedCacheManager]
    ([get], [set], [delete], [exists], [mget], [mset], [clear],
    [getStats], [destroy], time passing, the cleanup timer firing), the
    state reached has no remote tier in use, memory entries with different
    keys and no access time in the future, at most 1000 of them, and none
    when the memory tier is disabled. *)
Corollary states_of_a_constructed_facade_are_in_order
  (ops : list (op (value := value))) now cfg :
  memory_only_in_order (snd (run ops (create now cfg))).
Proof.
  apply reached_states_are_in_order. apply create_in_order.
Qed.

End WithValue.
End Reachable.

(** *** The hit rate of the remote tier client *)

Module RedisHitRate.
Import RedisCacheManager.
Import RedisSpec.

Lemma initialStats_in_order : stats_in_order initialStats.
Proof.
  unfold stats_in_order. simpl. repeat split; try lia; discriminate.
Qed.

Section WithValue.
Context {value : Type} `{Json value}.

(** [get] of the client, which alone counts requests and hits, keeps the
    counters in order, also when the call fails after the request was
    counted. *)
Lemma redis_get_keeps_stats_in_order (e : env) key r :
  stats_in_order (stats (this e)) ->
  stats_in_order (stats (this (snd (get (value := value) key r e)))).
Proof.
  intros (Hh & Hrate & Hzero).
  destruct e as [r0 [rd ic [rq hi mi er hr av] ra mx tm]]. simpl in *.
  unfold get. facade_run.
  destruct (unavailable _); facade_run;
    [ unfold stats_in_order; simpl; repeat split; tauto | ].
  assert (Hnew : forall h, 0 <= h <= rq + 1 ->
            (0 <= (if 0 <? rq + 1
                   then inject_Z h / inject_Z (rq + 1) else 0) <= 1)%Q).
  { intros h Hb. destruct (0 <? rq + 1) eqn:E.
    - apply Z.ltb_lt in E. apply Counters.ratio_bounds; lia.
    - split; discriminate. }
  unfold stats_in_order.
  destruct r as [lat [[text |] | err]]; facade_run; simpl.
  - unfold eval. destruct (JSON_parse text) as [v | err]; simpl;
      (split; [ lia | split; [ apply Hnew; lia | intros; lia ] ]).
  - split; [ lia | split; [ apply Hnew; lia | intros; lia ] ].
  - split; [ lia | split; [ exact Hrate | intros; lia ] ].
Qed.

End WithValue.
End RedisHitRate.

(** *** The scenarios of the specification *)

Module Scenarios.
Import EnhancedCacheManager.

(** A key that was never set reads as [null]. *)
Example never_set_reads_null :
  fst (get (value := string) "nobody"%string Fixture.absent Fixture.fresh)
    = JS.Normal None.
Proof. reflexivity. Qed.

(** [set("user:42", "Ann", 5)], then [get]: the value; six seconds later:
    [null]. *)
Example ann_is_cached_for_five_seconds :
  fst (get "user:42"%string Fixture.absent (Fixture.ann_after 0))
    = JS.Normal (Some "Ann"%string) /\
  fst (get "user:42"%string Fixture.absent (Fixture.ann_after 6000))
    = JS.Normal None.
Proof. split; reflexivity. Qed.

(** Whatever backend is preferred, the constructor sets up the memory
    one. *)
Example backend_is_memory (now : Z) d mm ci pref em :
  fst (getBackendType (create (value := string) now (mkConfig d mm ci pref em)))
    = JS.Normal memory.
Proof. destruct pref; reflexivity. Qed.

(** [mset] of two entries, then [mget] of three keys. *)
Example mset_then_mget :
  fst (mget [("a"%string, Fixture.absent); ("b"%string, Fixture.absent);
             ("c"%string, Fixture.absent)]
            (snd (mset [("a"%string, "1"%string, None, Fixture.done);
                        ("b"%string, "2"%string, None, Fixture.done)]
                       Fixture.fresh)))
    = JS.Normal [Some "1"%string; Some "2"%string; None].
Proof. reflexivity. Qed.

(** A remote tier that times out: [get] is a miss and the client counts an
    error; the backend type still reads. *)
Example remote_timeout_is_a_miss :
  fst (get "user:42"%string Fixture.timeout Fixture.hybrid) = JS.Normal None /\
  RedisCacheManager.errors
    (RedisCacheManager.stats
       (redisInstance (snd (get "user:42"%string Fixture.timeout Fixture.hybrid))))
    = 1 /\
  fst (getBackendType (snd (get "user:42"%string Fixture.timeout Fixture.hybrid)))
    = JS.Normal redis.
Proof. repeat split. Qed.

End Scenarios.

(** *** The memory tier of [CacheManager] behaves alike *)

Module OlderManager.
Import CacheManager.

Section WithValue.
Context {value : Type}.

Ltac manager_run :=
  cbv beta iota delta
    [JS.bind JS.ret JS.gets JS.modify Date_now upd set_memoryCache set_stats
     set_total set_memoryCacheStats incr_requests incr_hits incr_misses
     incr_evictionCount rt this memoryCache config stats cleanupTimer].

(** [get] skips an entry that is past its TTL and leaves it in the map. *)
Lemma manager_get_leaves_expired_entry (e : env (value := value)) key item :
  JS.map_get key (memoryCache (this e)) = Some item ->
  ttl item < JS.clock (rt e) - timestamp item ->
  fst (get key e) = JS.Normal None /\
  memoryCache (this (snd (get key e))) = memoryCache (this e).
Proof.
  intros Hg Hx. destruct e as [r [m cfg st ct]]. simpl in *.
  unfold get, isExpired. manager_run. rewrite Hg. manager_run.
  apply Z.ltb_lt in Hx. rewrite Hx. split; reflexivity.
Qed.

(** [clear] empties the map and sets every counter back to zero. *)
Lemma manager_clear_resets (e : env (value := value)) :
  fst (clear e) = JS.Normal tt /\
  memoryCache (this (snd (clear e))) = [] /\
  total (stats (this (snd (clear e)))) = mkTotal 0 0 0 0%Q /\
  evictionCount (memoryCacheStats (stats (this (snd (clear e))))) = 0.
Proof.
  destruct e as [r [m cfg st ct]]. repeat split.
Qed.

Lemma evict_each_eq keys : forall (e : env (value := value)),
  fst (evict_each keys e) = JS.Normal tt /\
  memoryCache (this (snd (evict_each keys e)))
    = JS.delete_all keys (memoryCache (this e)).
Proof.
  induction keys as [| key rest IH]; intros e; [ split; reflexivity | ].
  cbn [evict_each]. unfold delete. js_run.
  destruct (IH (incr_evictionCount (set_memoryCache (JS.map_delete key) e)))
    as [H1 H2].
  split; [ exact H1 | ]. rewrite H2. reflexivity.
Qed.

(** The pass of [evictLeastRecentlyUsed] deletes a fifth of the entries,
    rounded up, and what it deletes was accessed no later than what it
    keeps. *)
Lemma manager_evicts_oldest_fifth (e : env (value := value)) :
  NoDup (JS.map_keys (memoryCache (this e))) ->
  let before := memoryCache (this e) in
  let after := memoryCache (this (snd (evictLeastRecentlyUsed e))) in
  (List.length after + Nat.div (List.length before + 4) 5 = List.length before)%nat /\
  forall en en',
    In en before -> ~ In en after -> In en' after ->
    lastAccessed (snd en) <= lastAccessed (snd en').
Proof.
  intros Hnd. cbv zeta.
  set (f := fun en : string * CacheItem (value := value) => lastAccessed (snd en)).
  set (m := memoryCache (this e)) in *.
  set (n := Nat.div (List.length (JS.sort_by f m) + 4) 5).
  assert (Hafter : memoryCache (this (snd (evictLeastRecentlyUsed e)))
                   = JS.delete_all (List.map fst (firstn n (JS.sort_by f m))) m).
  { unfold evictLeastRecentlyUsed. manager_run. fold m. fold f. fold n.
    apply evict_each_eq. }
  rewrite Hafter.
  assert (Hn : (n <= List.length (JS.sort_by f m))%nat).
  { unfold n. pose proof (Nat.div_mod_eq (List.length (JS.sort_by f m) + 4) 5).
    pose proof (Nat.mod_upper_bound (List.length (JS.sort_by f m) + 4) 5).
    destruct (List.length (JS.sort_by f m)); [ reflexivity | lia ]. }
  assert (Hperm : NoDup (List.map fst (JS.sort_by f m))).
  { apply (Permutation_NoDup (l := JS.map_keys m)); [ | exact Hnd ].
    unfold JS.map_keys. apply Permutation_map. apply Permutation_sym.
    apply SortFacts.sort_by_perm. }
  assert (Hvn : NoDup (List.map fst (firstn n (JS.sort_by f m)))).
  { rewrite <- firstn_map.
    rewrite <- (firstn_skipn n (List.map fst (JS.sort_by f m))) in Hperm.
    apply NoDup_app_remove_r in Hperm. exact Hperm. }
  assert (Hvin : forall en, In en (firstn n (JS.sort_by f m)) -> In en m).
  { intros en Hen. apply SortFacts.in_firstn_list in Hen.
    apply SortFacts.sort_by_in in Hen. exact Hen. }
  split.
  - assert (Hlen : List.length (List.map fst (firstn n (JS.sort_by f m)))
                   = Nat.div (List.length m + 4) 5).
    { rewrite length_map, length_firstn, Nat.min_l by exact Hn.
      unfold n. rewrite SortFacts.sort_by_length. reflexivity. }
    rewrite <- Hlen.
    apply MapFacts.delete_all_length; [ exact Hnd | exact Hvn | ].
    intros k Hk. apply in_map_iff in Hk as (en & <- & Hen).
    unfold JS.map_keys. apply in_map. apply Hvin. exact Hen.
  - intros en en' Hen Hout Hkept.
    rewrite MapFacts.delete_all_in in Hout, Hkept. destruct Hkept as [Hen' Hkept].
    assert (Hv : In en (firstn n (JS.sort_by f m))).
    { destruct (in_dec string_dec (fst en)
                       (List.map fst (firstn n (JS.sort_by f m)))) as [Hk | Hk];
        [ | tauto ].
      apply in_map_iff in Hk as (v & Hfst & Hvin').
      assert (v = en); [ | subst; exact Hvin' ].
      apply (@MapFacts.NoDup_keys_entry _ m); auto. }
    assert (Hr : In en' (skipn n (JS.sort_by f m))).
    { apply (SortFacts.sort_by_in f) in Hen'.
      rewrite <- (firstn_skipn n (JS.sort_by f m)) in Hen'.
      apply in_app_or in Hen' as [Hf | Hr]; [ | exact Hr ].
      exfalso. apply Hkept. apply in_map. exact Hf. }
    exact (SortFacts.sorted_prefix_below (SortFacts.sort_by_sorted f m) _ _ _ Hv Hr).
Qed.

End WithValue.
End OlderManager.

(** *** Reading the memory tier: [get], [exists], [mget] *)

Module Reads.
Import EnhancedCacheManager.
Import Spec.
Import FacadeSpec.

Unset Implicit Arguments.

Section WithValue.
Context {value : Type} `{Json value}.

(** A hit, in full. *)
Lemma hit (e : env (value := value)) key r item :
  live e key = Some item ->
  exists e',
    get key r e = (JS.Normal (Some (data item)), e') /\
    memoryCache (this e')
      = JS.map_set key (touched (JS.clock (rt e)) item) (memoryCache (this e)) /\
    same_setup e e' /\
    totals e' = counted_hit (totals e).
Proof.
  destruct e as [rt0 ri [rc m cfg st ct bt]].
  unfold live. cbv beta iota delta [this config rt memoryCache].
  unfold get. js_run.
  cbv beta iota delta [this config rt memoryCache incr_requests set_total
                       set_stats upd].
  destruct (enableMemoryCache cfg); [ | discriminate ].
  destruct (JS.map_get key m) as [it |]; [ | discriminate ].
  unfold isExpired, Date_now. js_run. cbv beta iota delta [rt].
  destruct (ttl it * 1000 <? JS.clock rt0 - timestamp it); [ discriminate | ].
  intros [= ->]. cbv beta iota delta [negb].
  unfold updateAccessStats, Date_now, calculateHitRate. js_run.
  cbv beta iota delta [this stats total set_memoryCache upd rt].
  destruct (requests _ =? 0); eexists; unfold same_setup; repeat split; reflexivity.
Qed.

(** A miss with no remote tier, in full. *)
Lemma miss (e : env (value := value)) key r :
  live e key = None ->
  remoteActive (this e) = false ->
  exists e',
    get key r e = (JS.Normal None, e') /\
    memoryCache (this e') = memoryCache (this e) /\
    same_setup e e' /\
    totals e' = counted_miss (totals e).
Proof.
  intros Hl Ha. rewrite RemoteFailure.get_memory_miss by exact Hl.
  assert (Ha' : remoteActive (this (incr_requests e)) = false) by exact Ha.
  unfold get_backend. js_run. rewrite Ha'. js_run.
  eexists; unfold same_setup; repeat split; reflexivity.
Qed.

(** The entry found under a key after another key, or the same one, was
    touched. *)
Lemma live_after_touch (e e' : env (value := value)) key item k :
  live e key = Some item ->
  memoryCache (this e')
    = JS.map_set key (touched (JS.clock (rt e)) item) (memoryCache (this e)) ->
  same_setup e e' ->
  live e' k
    = if String.eqb key k then Some (touched (JS.clock (rt e)) item) else live e k.
Proof.
  intros Hl Hm (Hrt & _ & Hcfg & _).
  unfold live in *. rewrite Hcfg, Hrt, Hm.
  destruct (enableMemoryCache (config (this e))); [ | discriminate ].
  destruct (String.eqb key k) eqn:E.
  - apply String.eqb_eq in E. subst k. rewrite MapFacts.map_get_set_same.
    destruct (JS.map_get key (memoryCache (this e))) as [it |]; [ | discriminate ].
    cbn [touched ttl timestamp].
    destruct (ttl it * 1000 <? JS.clock (rt e) - timestamp it) eqn:Ex;
      [ discriminate | ].
    injection Hl as <-. rewrite Ex. reflexivity.
  - apply String.eqb_neq in E.
    rewrite MapFacts.map_get_set_other by congruence. reflexivity.
Qed.

(** With no remote tier, [get] returns what the memory tier reads, and
    leaves every key reading as before. *)
Lemma get_memory_only (e : env (value := value)) key r :
  remoteActive (this e) = false ->
  exists e',
    get key r e = (JS.Normal (reads e key), e') /\
    same_setup e e' /\
    (forall k, reads e' k = reads e k) /\
    requests (totals e') = requests (totals e) + 1 /\
    hits (totals e')
      = hits (totals e) + match reads e key with Some _ => 1 | None => 0 end.
Proof.
  intros Ha. unfold reads. destruct (live e key) as [item |] eqn:Hl.
  - destruct (hit e key r item Hl) as (e' & Hget & Hm & Hs & Ht).
    exists e'. split; [ exact Hget | ]. split; [ exact Hs | ].
    split; [ | rewrite Ht; split; reflexivity ].
    intros k. rewrite (live_after_touch e e' key item k Hl Hm Hs).
    destruct (String.eqb key k) eqn:E; [ | reflexivity ].
    apply String.eqb_eq in E. subst k. rewrite Hl. reflexivity.
  - destruct (miss e key r Hl Ha) as (e' & Hget & Hm & Hs & Ht).
    exists e'. split; [ exact Hget | ]. split; [ exact Hs | ].
    split; [ | rewrite Ht; simpl; split; [ reflexivity | lia ] ].
    intros k. destruct Hs as (Hrt & _ & Hcfg & _).
    unfold live. rewrite Hcfg, Hrt, Hm. reflexivity.
Qed.

(** X2.  A hit changes one entry and nothing else.  When [get] finds a
    live entry it returns its data, adds one to the entry's [accessCount]
    and sets its [lastAccessed] to the present time; the data, the
    timestamp and the TTL of the entry, the entries of all other keys and
    the order of the keys stay as they are, and neither the clock nor the
    remote client is touched: the remote tier is not consulted on a hit,
    also when one is attached. *)
Theorem hit_touches_only_its_entry (e : env (value := value)) key r item :
  live e key = Some item ->
  exists e',
    get key r e = (JS.Normal (Some (data item)), e') /\
    JS.map_get key (memoryCache (this e'))
      = Some (mkItem (data item) (timestamp item) (ttl item)
                     (accessCount item + 1) (JS.clock (rt e))) /\
    (forall k, k <> key ->
       JS.map_get k (memoryCache (this e')) = JS.map_get k (memoryCache (this e))) /\
    JS.map_keys (memoryCache (this e')) = JS.map_keys (memoryCache (this e)) /\
    rt e' = rt e /\
    redisInstance e' = redisInstance e.
Proof.
  intros Hl. destruct (hit e key r item Hl) as (e' & Hget & Hm & Hs & _).
  exists e'. split; [ exact Hget | ]. rewrite Hm.
  split; [ apply MapFacts.map_get_set_same | ].
  split; [ intros k Hk; apply MapFacts.map_get_set_other; exact Hk | ].
  split; [ | destruct Hs as (? & ? & _); auto ].
  apply MapFacts.map_set_keys_old.
  unfold live in Hl. destruct (enableMemoryCache _); [ | discriminate ].
  destruct (JS.map_get key (memoryCache (this e))) as [it |] eqn:Hg; [ | discriminate ].
  eapply MapFacts.map_get_some_key. exact Hg.
Qed.

(** [exists] on a live entry. *)
Lemma exists_live (e : env (value := value)) key rx item :
  live e key = Some item -> exists_ key rx e = (JS.Normal true, e).
Proof.
  destruct e as [rt0 ri [rc m cfg st ct bt]].
  unfold live, exists_, isExpired, Date_now. js_run.
  cbv beta iota delta [this config rt memoryCache].
  destruct (enableMemoryCache cfg); [ | discriminate ].
  destruct (JS.map_get key m) as [it |]; [ | discriminate ].
  destruct (ttl it * 1000 <? JS.clock rt0 - timestamp it); [ discriminate | ].
  reflexivity.
Qed.

Lemma exists_dead (e : env (value := value)) key rx :
  live e key = None -> remoteActive (this e) = false ->
  exists_ key rx e = (JS.Normal false, e).
Proof.
  destruct e as [rt0 ri [rc m cfg st ct bt]].
  unfold live, exists_, isExpired, Date_now, exists_backend. js_run.
  cbv beta iota delta [this config rt memoryCache].
  intros Hl Ha.
  destruct (enableMemoryCache cfg);
    [ destruct (JS.map_get key m) as [it |];
      [ destruct (ttl it * 1000 <? JS.clock rt0 - timestamp it); [ | discriminate ] | ] | ];
    cbv beta iota delta [negb]; rewrite Ha; reflexivity.
Qed.

(** X3.  [exists] tells whether a live entry is stored, and changes
    nothing.  With no remote tier, [exists(key)] is true exactly when the
    memory tier holds an entry under the key that is not past its TTL,
    whatever the payload of the entry; when it is false, [get(key)] returns
    [null].  (The converse is not claimed: the payload that [get] returns
    for a live entry may itself be [null].)  [exists] leaves the state as
    it is, where [get] counts a request. *)
Theorem exists_tells_whether_a_live_entry_is_stored
  (e : env (value := value)) key rx r :
  remoteActive (this e) = false ->
  exists_ key rx e
    = (JS.Normal (match live e key with Some _ => true | None => false end), e) /\
  (fst (exists_ key rx e) = JS.Normal true <-> exists item, live e key = Some item) /\
  (fst (exists_ key rx e) = JS.Normal false -> fst (get key r e) = JS.Normal None) /\
  requests (totals (snd (get key r e))) = requests (totals e) + 1.
Proof.
  intros Ha. destruct (get_memory_only e key r Ha) as (e' & Hget & _ & _ & Hreq & _).
  rewrite Hget. cbn [fst snd]. unfold reads. destruct (live e key) as [item |] eqn:Hl.
  - rewrite (exists_live e key rx item Hl). cbn [fst].
    split; [ reflexivity | ]. split; [ split; eauto | ].
    split; [ discriminate | exact Hreq ].
  - rewrite (exists_dead e key rx Hl Ha). cbn [fst option_map].
    split; [ reflexivity | ].
    split; [ split; [ discriminate | intros [item Hi]; discriminate Hi ] | ].
    split; [ reflexivity | exact Hreq ].
Qed.

(** X4.  [mget] reads the keys one by one.  With no remote tier it
    returns, in the order of the keys, what the memory tier holds live
    under each ([null] for the others), and counts one request per key
    and one hit per value returned, duplicates included; the clock and the
    configuration stay as they are. *)
Theorem mget_reads_each_key_in_order
  (keys : list (string * JS.reply (option string))) :
  forall (e : env (value := value)),
  remoteActive (this e) = false ->
  exists e',
    mget keys e = (JS.Normal (List.map (fun kr => reads e (fst kr)) keys), e') /\
    List.length (List.map (fun kr => reads e (fst kr)) keys) = List.length keys /\
    requests (totals e') = requests (totals e) + Z.of_nat (List.length keys) /\
    hits (totals e')
      = hits (totals e)
        + Z.of_nat (List.length
                      (filter (fun kr => match reads e (fst kr) with
                                         | Some _ => true
                                         | None => false
                                         end) keys)) /\
    same_setup e e'.
Proof.
  induction keys as [| [key r] rest IH]; intros e Ha.
  - exists e. cbn [mget List.map List.length filter]. unfold same_setup.
    repeat split; try reflexivity; lia.
  - destruct (get_memory_only e key r Ha) as (e1 & Hget & Hs & Hreads & Hreq & Hhit).
    assert (Ha1 : remoteActive (this e1) = false).
    { destruct Hs as (_ & _ & _ & Hrc & Hbt & _).
      unfold remoteActive in *. rewrite Hrc, Hbt. exact Ha. }
    destruct (IH e1 Ha1) as (e2 & Hrest & _ & Hreq2 & Hhit2 & Hs2).
    exists e2. cbn [mget]. js_run. rewrite Hget, Hrest.
    assert (Hmap : List.map (fun kr => reads e1 (fst kr)) rest
                   = List.map (fun kr => reads e (fst kr)) rest).
    { apply map_ext. intros kr. apply Hreads. }
    assert (Hfil : filter (fun kr => match reads e1 (fst kr) with
                                     | Some _ => true | None => false end) rest
                   = filter (fun kr => match reads e (fst kr) with
                                       | Some _ => true | None => false end) rest).
    { apply filter_ext. intros kr. rewrite Hreads. reflexivity. }
    rewrite Hmap. split; [ reflexivity | ].
    split; [ rewrite length_map; reflexivity | ].
    split; [ rewrite Hreq2, Hreq; cbn [List.length]; lia | ].
    split.
    + rewrite Hhit2, Hhit, Hfil. cbn [filter fst].
      destruct (reads e key); cbn [List.length]; lia.
    + unfold same_setup in *. intuition congruence.
Qed.

End WithValue.

Lemma hit_touches_only_its_entry_witness :
  exists e',
    get "user:42"%string Fixture.absent (Fixture.ann_after 1000)
      = (JS.Normal (Some "Ann"%string), e') /\
    JS.map_get "user:42"%string (memoryCache (this e'))
      = Some (mkItem "Ann"%string 0 5 1 1000).
Proof.
  destruct (hit_touches_only_its_entry (Fixture.ann_after 1000)
              "user:42"%string Fixture.absent
              (mkItem "Ann"%string 0 5 0 0))
    as (e' & Hget & Hentry & _).
  - reflexivity.
  - exists e'. split; [ exact Hget | exact Hentry ].
Defined.

Lemma exists_tells_whether_a_live_entry_is_stored_witness :
  exists_ "user:42"%string (JS.mkReply 0 (JS.Resolved 0)) (Fixture.ann_after 1000)
    = (JS.Normal true, Fixture.ann_after 1000) /\
  exists_ "user:42"%string (JS.mkReply 0 (JS.Resolved 0)) (Fixture.ann_after 6000)
    = (JS.Normal false, Fixture.ann_after 6000).
Proof.
  split.
  - apply (exists_tells_whether_a_live_entry_is_stored
             (Fixture.ann_after 1000) "user:42"%string
             (JS.mkReply 0 (JS.Resolved 0)) Fixture.absent).
    reflexivity.
  - apply (exists_tells_whether_a_live_entry_is_stored
             (Fixture.ann_after 6000) "user:42"%string
             (JS.mkReply 0 (JS.Resolved 0)) Fixture.absent).
    reflexivity.
Defined.

Lemma mget_reads_each_key_in_order_witness :
  exists e',
    mget [("user:42"%string, Fixture.absent); ("nobody"%string, Fixture.absent)]
         (Fixture.ann_after 1000)
      = (JS.Normal [Some "Ann"%string; None], e') /\
    requests (totals e') = 2.
Proof.
  destruct (mget_reads_each_key_in_order
              [("user:42"%string, Fixture.absent); ("nobody"%string, Fixture.absent)]
              (Fixture.ann_after 1000))
    as (e' & Hget & _ & Hreq & _).
  - reflexivity.
  - exists e'. split; [ exact Hget | exact Hreq ].
Defined.

End Reads.

(** *** Writing the memory tier: [set], [delete], [mset] *)

Module Writes.
Import EnhancedCacheManager.
Import Spec.
Import FacadeSpec.

Unset Implicit Arguments.

Section WithValue.
Context {value : Type} `{Json value}.

(** With no remote tier [set] has no [await]: it is over when
    [set_begin] returns, and the reply is not looked at. *)
Lemma set_memory_only (e : env (value := value)) key data ttl :
  remoteActive (this e) = false ->
  set_begin key data ttl e
    = (JS.Normal Completed,
       set_memoryCache (fun _ => memory_after_set e key data ttl) e) /\
  forall r,
    set key data ttl r e
      = (JS.Normal tt, set_memoryCache (fun _ => memory_after_set e key data ttl) e).
Proof.
  intros Ha. destruct e as [rt0 ri [rc m cfg st ct bt]].
  unfold memory_after_set, written, effective_ttl.
  assert (Hb : set_begin key data ttl (mkEnv rt0 ri (mk rc m cfg st ct bt))
               = (JS.Normal Completed,
                  set_memoryCache
                    (fun _ =>
                       enforce_limit
                         (if enableMemoryCache cfg
                          then JS.map_set key
                                 (mkItem data (JS.clock rt0)
                                    match ttl with
                                    | Some x => x
                                    | None => defaultTtl cfg
                                    end 0 (JS.clock rt0)) m
                          else m))
                    (mkEnv rt0 ri (mk rc m cfg st ct bt)))).
  { unfold set_begin. facade_run.
    cbv beta iota delta [this] in Ha. rewrite Ha.
    destruct (enableMemoryCache cfg); facade_run;
      rewrite RemoteFailure.checkMemoryLimit_eq; reflexivity. }
  split; [ exact Hb | ].
  intros r. unfold set. js_run.
  cbv beta iota delta [this config rt memoryCache] in Hb |- *.
  rewrite Hb. reflexivity.
Qed.

Lemma delete_memory_only (e : env (value := value)) key r :
  remoteActive (this e) = false ->
  delete key r e
    = (JS.Normal tt,
       if enableMemoryCache (config (this e))
       then set_memoryCache (JS.map_delete key) e else e).
Proof.
  intros Ha. destruct e as [rt0 ri [rc m cfg st ct bt]].
  unfold delete. facade_run. cbv beta iota delta [this] in Ha. rewrite Ha.
  destruct (enableMemoryCache cfg); reflexivity.
Qed.

(** The state after [delete], with no remote tier: nothing is live under
    the key. *)
Lemma delete_then_get_is_a_miss_state (e : env (value := value)) key r :
  remoteActive (this e) = false ->
  exists e1,
    delete key r e = (JS.Normal tt, e1) /\
    remoteActive (this e1) = false /\
    live e1 key = None.
Proof.
  intros Ha. rewrite (delete_memory_only e key r Ha).
  eexists. split; [ reflexivity | ].
  split; [ destruct (enableMemoryCache (config (this e))); exact Ha | ].
  unfold live. destruct (enableMemoryCache (config (this e))) eqn:Hen.
  - change (config (this (set_memoryCache (JS.map_delete key) e)))
      with (config (this e)).
    rewrite Hen.
    change (memoryCache (this (set_memoryCache (JS.map_delete key) e)))
      with (JS.map_delete key (memoryCache (this e))).
    rewrite MapFacts.map_get_delete_same. reflexivity.
  - rewrite Hen. reflexivity.
Qed.

(** X5.  After [delete(key)], with no remote tier, the key is gone:
    [get(key)] returns [null] and [exists(key)] is false, whether or not
    an entry was stored; every other key reads as it did before. *)
Theorem delete_then_get_is_a_miss (e : env (value := value)) key r rg rx :
  remoteActive (this e) = false ->
  exists e1,
    delete key r e = (JS.Normal tt, e1) /\
    fst (get key rg e1) = JS.Normal None /\
    fst (exists_ key rx e1) = JS.Normal false /\
    forall k, k <> key -> reads e1 k = reads e k.
Proof.
  intros Ha. rewrite (delete_memory_only e key r Ha).
  eexists. split; [ reflexivity | ].
  set (e1 := if enableMemoryCache (config (this e))
             then set_memoryCache (JS.map_delete key) e else e).
  assert (Ha1 : remoteActive (this e1) = false).
  { unfold e1. destruct (enableMemoryCache (config (this e))); exact Ha. }
  assert (Hl : live e1 key = None).
  { unfold e1, live. destruct (enableMemoryCache (config (this e))) eqn:Hen.
    - change (config (this (set_memoryCache (JS.map_delete key) e)))
        with (config (this e)).
      rewrite Hen.
      change (memoryCache (this (set_memoryCache (JS.map_delete key) e)))
        with (JS.map_delete key (memoryCache (this e))).
      rewrite MapFacts.map_get_delete_same. reflexivity.
    - rewrite Hen. reflexivity. }
  split.
  { destruct (Reads.miss e1 key rg Hl Ha1) as (e2 & Hget & _). rewrite Hget.
    reflexivity. }
  split.
  { rewrite (Reads.exists_dead e1 key rx Hl Ha1). reflexivity. }
  intros k Hk. unfold e1, reads, live.
  destruct (enableMemoryCache (config (this e))) eqn:Hen;
    [ | rewrite ?Hen; reflexivity ].
  change (config (this (set_memoryCache (JS.map_delete key) e)))
    with (config (this e)).
  change (memoryCache (this (set_memoryCache (JS.map_delete key) e)))
    with (JS.map_delete key (memoryCache (this e))).
  change (rt (set_memoryCache (JS.map_delete key) e)) with (rt e).
  rewrite Hen, MapFacts.map_get_delete_other by exact Hk. reflexivity.
Qed.

(** What the pass of [checkMemoryLimit] leaves under a key is what was
    there, or nothing. *)
Lemma enforce_limit_get (m : JS.Map (CacheItem (value := value))) k :
  JS.map_get k (enforce_limit m) = JS.map_get k m \/
  JS.map_get k (enforce_limit m) = None.
Proof.
  unfold enforce_limit. destruct (1000 <? JS.map_size m); [ | left; reflexivity ].
  cbv zeta. rewrite MapFacts.fold_delete_entries.
  match goal with
  | |- context [ JS.delete_all ?ks m ] =>
      destruct (in_dec string_dec k ks) as [Hin | Hn];
      [ right; apply MapFacts.delete_all_get_in; exact Hin
      | left; apply MapFacts.delete_all_get_other; exact Hn ]
  end.
Qed.

(** X6.  [set] writes one key.  Whatever the state and the remote tier,
    the entry stored under another key is, after [set(key, ...)], the
    entry that was stored before, unless the eviction pass deleted it;
    and no entry is deleted when fewer than 1000 entries were stored, or
    when [key] had an entry already and the map was within its limit: a
    [set] that overwrites evicts nothing and keeps the order of the
    keys. *)
Theorem set_leaves_the_other_keys_alone
  (e : env (value := value)) key data ttl r k :
  k <> key ->
  exists e1,
    set key data ttl r e = (JS.Normal tt, e1) /\
    (JS.map_get k (memoryCache (this e1)) = JS.map_get k (memoryCache (this e)) \/
     JS.map_get k (memoryCache (this e1)) = None) /\
    (JS.map_size (memoryCache (this e)) < 1000 ->
     JS.map_get k (memoryCache (this e1)) = JS.map_get k (memoryCache (this e))) /\
    (enableMemoryCache (config (this e)) = true ->
     In key (JS.map_keys (memoryCache (this e))) -> within_limit e ->
     JS.map_get k (memoryCache (this e1)) = JS.map_get k (memoryCache (this e)) /\
     JS.map_keys (memoryCache (this e1)) = JS.map_keys (memoryCache (this e))).
Proof.
  intros Hk.
  destruct (MemoryTier.set_effect e key data ttl r) as (e1 & Hset & Hmem & _).
  exists e1. split; [ exact Hset | ]. rewrite Hmem. unfold memory_after_set.
  set (w := written e data ttl).
  assert (Hother : JS.map_get k
                     (if enableMemoryCache (config (this e))
                      then JS.map_set key w (memoryCache (this e))
                      else memoryCache (this e))
                   = JS.map_get k (memoryCache (this e))).
  { destruct (enableMemoryCache _); [ | reflexivity ].
    apply MapFacts.map_get_set_other. exact Hk. }
  split.
  { rewrite <- Hother. apply enforce_limit_get. }
  split.
  { intros Hsize. rewrite Eviction.enforce_limit_small; [ exact Hother | ].
    destruct (enableMemoryCache _); [ | lia ].
    pose proof (MemoryTier.map_set_length_le (memoryCache (this e)) key w).
    unfold JS.map_size in *. lia. }
  intros Hen Hin Hlim. rewrite Hen in *.
  rewrite Eviction.enforce_limit_small.
  - split; [ exact Hother | apply MapFacts.map_set_keys_old; exact Hin ].
  - unfold JS.map_size. rewrite MapFacts.map_set_length_old by exact Hin.
    exact Hlim.
Qed.

Lemma mset_begin_memory_only
  (items : list (string * value * option Z * JS.reply unit)) :
  forall (e : env (value := value)),
  remoteActive (this e) = false ->
  exists sps e',
    mset_begin items e = (JS.Normal sps, e') /\
    Forall (fun sp => fst sp = Completed) sps /\
    set_each items e = (JS.Normal tt, e') /\
    remoteActive (this e') = false.
Proof.
  induction items as [| [[[key data] ttl] r] rest IH]; intros e Ha.
  - exists [], e. repeat split; [ constructor | exact Ha ].
  - destruct (set_memory_only e key data ttl Ha) as [Hb Hs].
    set (e1 := set_memoryCache (fun _ => memory_after_set e key data ttl) e) in *.
    assert (Ha1 : remoteActive (this e1) = false) by exact Ha.
    destruct (IH e1 Ha1) as (sps & e2 & Hrest & Hall & Heach & Ha2).
    exists ((Completed, r) :: sps), e2.
    cbn [mset_begin set_each]. js_run. rewrite Hb, Hrest, (Hs r), Heach.
    repeat split; [ | exact Ha2 ].
    constructor; [ reflexivity | exact Hall ].
Qed.

(** X7.  With no remote tier, [mset] is one [set] after the other.  The
    calls that [Promise.all] collects have no [await] to overlap at: the
    final state and the outcome are those of calling [set] for each item
    in turn, so a later item for the same key wins and the eviction pass
    runs after each item. *)
Theorem mset_is_one_set_after_the_other
  (items : list (string * value * option Z * JS.reply unit))
  (e : env (value := value)) :
  remoteActive (this e) = false ->
  mset items e = set_each items e /\
  fst (mset items e) = JS.Normal tt.
Proof.
  intros Ha.
  destruct (mset_begin_memory_only items e Ha) as (sps & e' & Hb & Hall & Heach & _).
  unfold mset. js_run. rewrite Hb, Heach.
  rewrite (Reachable.mset_resume_completed sps e' Hall).
  split; reflexivity.
Qed.

(** X8.  An entry is readable exactly until its TTL has passed.  From a
    state with no remote tier whose memory tier is enabled and in order,
    [set(key, data, ttl)] followed by [d] milliseconds makes [get(key)]
    return [data] when [d <= ttl * 1000] and [null] when
    [d > ttl * 1000]: a TTL of zero is readable within the same
    millisecond only, a negative TTL never. *)
Theorem entry_is_readable_until_its_ttl_has_passed
  (e : env (value := value)) key data ttl r1 d r2 :
  memory_only_in_order e ->
  enableMemoryCache (config (this e)) = true ->
  exists e1,
    run [OpSet key data ttl r1; OpElapse d] e = (JS.Normal tt, e1) /\
    fst (get key r2 e1)
      = JS.Normal (if Z.of_N d <=? effective_ttl e ttl * 1000
                   then Some data else None).
Proof.
  intros (Ha & Hwf & Hlim & _) Hen.
  destruct (set_memory_only e key data ttl Ha) as [_ Hs].
  set (e0 := set_memoryCache (fun _ => memory_after_set e key data ttl) e) in *.
  set (e1 := set_rt (JS.advance d) e0).
  exists e1. split.
  { cbn [run perform]. js_run. rewrite (Hs r1). reflexivity. }
  assert (Ha1 : remoteActive (this e1) = false) by exact Ha.
  assert (Hlive : live e1 key
                  = if Z.of_N d <=? effective_ttl e ttl * 1000
                    then Some (written e data ttl) else None).
  { unfold live.
    change (config (this e1)) with (config (this e)).
    change (memoryCache (this e1)) with (memory_after_set e key data ttl).
    change (JS.clock (rt e1)) with (JS.clock (rt e) + Z.of_N d).
    rewrite Hen, (MemoryTier.written_survives key data ttl Hen Hwf Hlim).
    unfold written at 1 2. simpl.
    replace (JS.clock (rt e) + Z.of_N d - JS.clock (rt e)) with (Z.of_N d) by lia.
    destruct (Z.of_N d <=? effective_ttl e ttl * 1000) eqn:E.
    - apply Z.leb_le in E.
      destruct (effective_ttl e ttl * 1000 <? Z.of_N d) eqn:E'; [ | reflexivity ].
      apply Z.ltb_lt in E'. lia.
    - apply Z.leb_gt in E. apply Z.ltb_lt in E. rewrite E. reflexivity. }
  destruct (Z.of_N d <=? effective_ttl e ttl * 1000).
  - destruct (Reads.hit e1 key r2 (written e data ttl) Hlive) as (e2 & Hget & _).
    rewrite Hget. reflexivity.
  - destruct (Reads.miss e1 key r2 Hlive Ha1) as (e2 & Hget & _).
    rewrite Hget. reflexivity.
Qed.

End WithValue.

Lemma delete_then_get_is_a_miss_witness :
  exists e1,
    delete "user:42"%string Fixture.done (Fixture.ann_after 1000)
      = (JS.Normal tt, e1) /\
    fst (get "user:42"%string Fixture.absent e1) = JS.Normal None.
Proof.
  destruct (delete_then_get_is_a_miss (Fixture.ann_after 1000) "user:42"%string
              Fixture.done Fixture.absent (JS.mkReply 0 (JS.Resolved 0)))
    as (e1 & Hdel & Hget & _).
  - reflexivity.
  - exists e1. split; [ exact Hdel | exact Hget ].
Defined.

Lemma set_leaves_the_other_keys_alone_witness :
  exists e1,
    set "user:7"%string "Bob"%string None Fixture.done (Fixture.ann_after 1000)
      = (JS.Normal tt, e1) /\
    JS.map_get "user:42"%string (memoryCache (this e1))
      = Some (mkItem "Ann"%string 0 5 0 0).
Proof.
  destruct (set_leaves_the_other_keys_alone (Fixture.ann_after 1000)
              "user:7"%string "Bob"%string None Fixture.done "user:42"%string)
    as (e1 & Hset & _ & Hsmall & _).
  - discriminate.
  - exists e1. split; [ exact Hset | ]. rewrite Hsmall; [ reflexivity | ].
    vm_compute. reflexivity.
Defined.

Lemma mset_is_one_set_after_the_other_witness :
  mset [("a"%string, "1"%string, None, Fixture.done);
        ("a"%string, "2"%string, Some 5, Fixture.done)] Fixture.fresh
    = set_each [("a"%string, "1"%string, None, Fixture.done);
                ("a"%string, "2"%string, Some 5, Fixture.done)] Fixture.fresh.
Proof.
  apply (mset_is_one_set_after_the_other
           [("a"%string, "1"%string, None, Fixture.done);
            ("a"%string, "2"%string, Some 5, Fixture.done)] Fixture.fresh).
  reflexivity.
Defined.

Lemma entry_is_readable_until_its_ttl_has_passed_witness :
  exists e1,
    run [OpSet "user:42"%string "Ann"%string (Some 0) Fixture.done; OpElapse 1]
        Fixture.fresh = (JS.Normal tt, e1) /\
    fst (get "user:42"%string Fixture.absent e1) = JS.Normal None.
Proof.
  apply (entry_is_readable_until_its_ttl_has_passed Fixture.fresh
           "user:42"%string "Ann"%string (Some 0) Fixture.done 1%N Fixture.absent).
  - apply (Reachable.create_in_order 0 defaultConfig).
  - reflexivity.
Defined.

End Writes.

(** *** The sweep of [cleanupExpiredItems] *)

Module Sweep.
Import EnhancedCacheManager.
Import Spec.
Import FacadeSpec.

Unset Implicit Arguments.

Section WithValue.
Context {value : Type} `{Json value}.

Lemma delete_all_filter (ks : list string) :
  forall (m : JS.Map (CacheItem (value := value))),
  JS.delete_all ks m
    = filter (fun en => negb (existsb (String.eqb (fst en)) ks)) m.
Proof.
  induction ks as [| k ks IH]; intros m.
  - simpl. symmetry. apply forallb_filter_id. apply forallb_forall. reflexivity.
  - unfold JS.delete_all in *. cbn [fold_left]. rewrite IH.
    unfold JS.map_delete. clear IH.
    induction m as [| en m IHm]; [ reflexivity | ].
    cbn [filter existsb].
    destruct (String.eqb (fst en) k) eqn:E; cbn [negb orb].
    + exact IHm.
    + cbn [filter]. destruct (negb (existsb (String.eqb (fst en)) ks));
        [ f_equal | ]; exact IHm.
Qed.

(** In a map, the keys of the stale entries are the keys whose entry is
    stale. *)
Lemma stale_key (e : env (value := value)) en :
  distinct_keys e -> In en (memoryCache (this e)) ->
  existsb (String.eqb (fst en)) (expiredKeys e) = stale e en.
Proof.
  intros Hnd Hin. unfold expiredKeys. fold (stale e).
  destruct (stale e en) eqn:Hs.
  - apply existsb_exists. exists (fst en). split; [ | apply String.eqb_refl ].
    apply in_map. apply filter_In. split; assumption.
  - destruct (existsb _ _) eqn:Hex; [ | reflexivity ].
    apply existsb_exists in Hex as (k & Hk & Heq).
    apply String.eqb_eq in Heq. subst k.
    apply in_map_iff in Hk as (en' & Hfst & Hin').
    apply filter_In in Hin' as [Hin' Hs'].
    assert (en' = en)
      by (apply (@MapFacts.NoDup_keys_entry _ (memoryCache (this e))); auto).
    subst en'. congruence.
Qed.

Lemma swept_map (e : env (value := value)) :
  distinct_keys e ->
  JS.delete_all (expiredKeys e) (memoryCache (this e))
    = filter (fun en => negb (stale e en)) (memoryCache (this e)).
Proof.
  intros Hnd. rewrite delete_all_filter. apply filter_ext_in.
  intros en Hin. rewrite (stale_key e en Hnd Hin). reflexivity.
Qed.

Lemma map_get_filter_fresh (e : env (value := value))
      (m : JS.Map (CacheItem (value := value))) k :
  NoDup (JS.map_keys m) ->
  JS.map_get k (filter (fun en => negb (stale e en)) m)
    = match JS.map_get k m with
      | Some item => if stale e (k, item) then None else Some item
      | None => None
      end.
Proof.
  induction m as [| [k' v'] rest IH]; intros Hnd; [ reflexivity | ].
  inversion Hnd as [| ? ? Hk' Hrest]; subst.
  cbn [filter JS.map_get]. destruct (String.eqb k' k) eqn:E.
  - apply String.eqb_eq in E. subst k'.
    change (stale e (k, v')) with (ttl v' * 1000 <? JS.clock (rt e) - timestamp v').
    unfold stale at 1. cbn [snd].
    destruct (ttl v' * 1000 <? JS.clock (rt e) - timestamp v'); cbn [negb].
    + apply MapFacts.map_get_notin. intros Hin. apply Hk'.
      unfold JS.map_keys in *. apply in_map_iff in Hin as (en & Hfst & Hen).
      apply filter_In in Hen as [Hen _]. apply in_map_iff. eauto.
    + cbn [JS.map_get]. rewrite String.eqb_refl. reflexivity.
  - destruct (negb (stale e (k', v'))); cbn [JS.map_get]; rewrite ?E;
      apply IH; exact Hrest.
Qed.

(** X9.  The sweep deletes the expired entries and nothing else.  On a
    map with distinct keys, [cleanupExpiredItems] keeps exactly the entries
    that are not past their TTL, in their order; no key reads differently
    afterwards, since [get] and [exists] skipped the expired entries
    already; and a second sweep at the same time changes nothing. *)
Theorem sweep_deletes_the_expired_and_nothing_else (e : env (value := value)) :
  distinct_keys e ->
  exists e',
    cleanupExpiredItems e = (JS.Normal tt, e') /\
    memoryCache (this e')
      = filter (fun en => negb (stale e en)) (memoryCache (this e)) /\
    (forall k, live e' k = live e k) /\
    same_setup e e' /\
    stats (this e') = stats (this e) /\
    cleanupExpiredItems e' = (JS.Normal tt, e').
Proof.
  intros Hnd. rewrite Expiry.cleanupExpiredItems_eq.
  set (e' := set_memoryCache (JS.delete_all (expiredKeys e)) e).
  exists e'. split; [ reflexivity | ].
  assert (Hmap : memoryCache (this e')
                 = filter (fun en => negb (stale e en)) (memoryCache (this e))).
  { change (memoryCache (this e'))
      with (JS.delete_all (expiredKeys e) (memoryCache (this e))).
    apply swept_map. exact Hnd. }
  split; [ exact Hmap | ].
  split.
  { intros k. unfold live.
    change (config (this e')) with (config (this e)).
    change (rt e') with (rt e). rewrite Hmap.
    destruct (enableMemoryCache (config (this e))); [ | reflexivity ].
    rewrite (map_get_filter_fresh e (memoryCache (this e)) k Hnd).
    destruct (JS.map_get k (memoryCache (this e))) as [item |]; [ | reflexivity ].
    unfold stale. cbn [snd].
    destruct (ttl item * 1000 <? JS.clock (rt e) - timestamp item) eqn:E;
      [ reflexivity | ].
    rewrite E. reflexivity. }
  split; [ unfold same_setup; repeat split | ].
  split; [ reflexivity | ].
  rewrite Expiry.cleanupExpiredItems_eq.
  assert (Hnone : expiredKeys e' = []).
  { unfold expiredKeys. change (rt e') with (rt e). rewrite Hmap.
    fold (stale e).
    assert (Hf : forall m : JS.Map (CacheItem (value := value)),
               filter (stale e) (filter (fun en => negb (stale e en)) m) = []).
    { induction m as [| en rest IH]; [ reflexivity | ].
      cbn [filter]. destruct (stale e en) eqn:E; cbn [negb filter];
        rewrite ?E; exact IH. }
    rewrite Hf. reflexivity. }
  rewrite Hnone. reflexivity.
Qed.

End WithValue.

Lemma sweep_deletes_the_expired_and_nothing_else_witness :
  exists e',
    cleanupExpiredItems (Fixture.ann_after 6000) = (JS.Normal tt, e') /\
    memoryCache (this e') = [].
Proof.
  destruct (sweep_deletes_the_expired_and_nothing_else (Fixture.ann_after 6000))
    as (e' & Hsweep & Hmap & _).
  - apply MemoryTier.distinct_NoDup. reflexivity.
  - exists e'. split; [ exact Hsweep | ]. rewrite Hmap. reflexivity.
Defined.

End Sweep.

(** *** A constructed facade stands alone *)

Module Standalone.
Import EnhancedCacheManager.
Import Spec.
Import FacadeSpec.

Unset Implicit Arguments.

Section WithValue.
Context {value : Type} `{Json value}.

Lemma standalone_memory_only cfg (e : env (value := value)) :
  standalone cfg e -> remoteActive (this e) = false.
Proof.
  intros (_ & _ & Hbt & _). unfold remoteActive. rewrite Hbt. reflexivity.
Qed.

(** A change of the map alone keeps the facade standing alone. *)
Lemma standalone_set_memoryCache cfg (e : env (value := value)) f :
  standalone cfg e -> standalone cfg (set_memoryCache f e).
Proof. intros Hs. exact Hs. Qed.

Lemma create_standalone now cfg : standalone cfg (create (value := value) now cfg).
Proof.
  destruct cfg as [d mm ci [ | | ] em]; unfold standalone; repeat split.
Qed.

Lemma get_standalone cfg (e : env (value := value)) key r :
  standalone cfg e -> standalone cfg (snd (get key r e)).
Proof.
  intros Hs. pose proof (standalone_memory_only cfg e Hs) as Ha.
  destruct e as [rt0 ri [rc m c st ct bt]].
  destruct Hs as (Hc & Hrc & Hbt & Hri & Hmh & Hb & Hp).
  cbn [this rt redisInstance config redisCache backendType stats cleanupTimer] in *.
  subst c rc bt ri.
  destruct st as [tot bk [sz mh]]. cbn [memoryCacheStats memoryHitRate backend] in *.
  subst mh bk.
  unfold get. facade_run.
  destruct (enableMemoryCache cfg);
    [ destruct (JS.map_get key m) as [item |];
      [ unfold isExpired; facade_run;
        destruct (ttl item * 1000 <? JS.clock rt0 - timestamp item);
        cbv beta iota delta [negb] | ] | ].
  2: { unfold updateAccessStats, calculateHitRate. facade_run.
       destruct (requests _ =? 0); unfold standalone; repeat split; exact Hp. }
  all: unfold get_backend; facade_run; cbv beta iota delta [remoteActive backendType];
    facade_run; unfold standalone; repeat split; exact Hp.
Qed.

Lemma set_standalone cfg (e : env (value := value)) key data ttl r :
  standalone cfg e -> standalone cfg (snd (set key data ttl r e)).
Proof.
  intros Hs.
  destruct (Writes.set_memory_only e key data ttl (standalone_memory_only cfg e Hs))
    as [_ Hset].
  rewrite (Hset r). exact Hs.
Qed.

Lemma set_each_standalone cfg items : forall (e : env (value := value)),
  standalone cfg e -> standalone cfg (snd (set_each items e)).
Proof.
  induction items as [| [[[key data] ttl] r] rest IH]; intros e Hs; [ exact Hs | ].
  cbn [set_each]. js_run.
  pose proof (set_standalone cfg e key data ttl r Hs) as H1.
  destruct (set key data ttl r e) as [[u | err] e1]; [ apply IH | ]; exact H1.
Qed.

Lemma mget_standalone cfg keys : forall (e : env (value := value)),
  standalone cfg e -> standalone cfg (snd (mget keys e)).
Proof.
  induction keys as [| [key r] rest IH]; intros e Hs; [ exact Hs | ].
  cbn [mget]. js_run. pose proof (get_standalone cfg e key r Hs) as H1.
  destruct (get key r e) as [[v | err] e1]; [ | exact H1 ].
  specialize (IH e1 H1). destruct (mget rest e1) as [[vs | err] e2]; exact IH.
Qed.

Lemma exists_standalone cfg (e : env (value := value)) key rx :
  standalone cfg e -> standalone cfg (snd (exists_ key rx e)).
Proof.
  intros Hs. pose proof (standalone_memory_only cfg e Hs) as Ha.
  destruct (live e key) as [item |] eqn:Hl.
  - rewrite (Reads.exists_live e key rx item Hl). exact Hs.
  - rewrite (Reads.exists_dead e key rx Hl Ha). exact Hs.
Qed.

Lemma clear_standalone cfg (e : env (value := value)) r :
  standalone cfg e -> standalone cfg (snd (clear r e)).
Proof.
  intros Hs. pose proof (standalone_memory_only cfg e Hs) as Ha.
  destruct e as [rt0 ri [rc m c st ct bt]].
  destruct Hs as (Hc & Hrc & Hbt & Hri & Hmh & Hb & Hp).
  cbn [this rt redisInstance config redisCache backendType stats cleanupTimer] in *.
  subst c rc bt ri.
  unfold clear. facade_run. cbv beta iota delta [remoteActive backendType].
  destruct (enableMemoryCache cfg); facade_run; unfold standalone; repeat split;
    exact Hp.
Qed.

Lemma getStats_standalone cfg (e : env (value := value)) :
  standalone cfg e -> standalone cfg (snd (getStats e)).
Proof.
  intros Hs. destruct e as [rt0 ri [rc m c st ct bt]].
  destruct Hs as (Hc & Hrc & Hbt & Hri & Hmh & Hb & Hp).
  unfold getStats. facade_run. unfold standalone. repeat split; assumption.
Qed.

Lemma clearTimer_single h d cb now next :
  JS.clearTimer h (JS.mkRuntime now next [JS.mkTimer h true d cb])
    = JS.mkRuntime now next [].
Proof.
  unfold JS.clearTimer. cbn [JS.clock JS.nextHandle JS.pending filter JS.handle].
  rewrite Nat.eqb_refl. reflexivity.
Qed.

Lemma destroy_standalone cfg (e : env (value := value)) :
  standalone cfg e ->
  standalone cfg (snd (destroy e)) /\
  cleanupTimer (this (snd (destroy e))) = None.
Proof.
  intros Hs. destruct e as [[now next pend] ri [rc m c st ct bt]].
  destruct Hs as (Hc & Hrc & Hbt & Hri & Hmh & Hb & Hp).
  cbn [this rt redisInstance config redisCache backendType stats cleanupTimer
       JS.pending] in *.
  subst c rc bt ri. unfold destroy. facade_run.
  destruct ct as [h |]; facade_run; subst pend.
  - rewrite clearTimer_single. unfold standalone. repeat split; assumption.
  - unfold standalone. repeat split; assumption.
Qed.

Lemma fire_standalone cfg (e : env (value := value)) h :
  standalone cfg e -> standalone cfg (snd (fire h e)).
Proof.
  intros Hs. destruct e as [[now next pend] ri [rc m c st ct bt]].
  pose proof Hs as (Hc & Hrc & Hbt & Hri & Hmh & Hb & Hp).
  cbn [this rt redisInstance config redisCache backendType stats cleanupTimer
       JS.pending] in *.
  unfold fire. js_run. cbv beta iota delta [rt].
  unfold JS.findTimer. cbn [JS.pending].
  destruct ct as [h0 |]; subst pend; cbn [find JS.handle]; [ | exact Hs ].
  destruct (Nat.eqb h0 h); [ | exact Hs ].
  cbn [JS.action]. unfold set_rt, JS.fired.
  cbn [JS.repeating rt redisInstance this].
  rewrite Expiry.cleanupExpiredItems_eq.
  apply standalone_set_memoryCache. exact Hs.
Qed.

Lemma perform_standalone cfg (o : op (value := value)) e :
  standalone cfg e -> standalone cfg (snd (perform o e)).
Proof.
  intros Hs. destruct o; cbn [perform]; unfold ignore; js_run.
  - pose proof (get_standalone cfg e key r Hs) as H1.
    destruct (get key r e) as [[v | err] e1]; exact H1.
  - apply set_standalone. exact Hs.
  - rewrite (Writes.delete_memory_only e key r (standalone_memory_only cfg e Hs)).
    destruct (enableMemoryCache _); exact Hs.
  - pose proof (exists_standalone cfg e key r Hs) as H1.
    destruct (exists_ key r e) as [[v | err] e1]; exact H1.
  - pose proof (mget_standalone cfg keys e Hs) as H1.
    destruct (mget keys e) as [[v | err] e1]; exact H1.
  - destruct (Writes.mset_begin_memory_only items e
                (standalone_memory_only cfg e Hs))
      as (sps & e' & Hb & Hall & Heach & _).
    unfold mset. js_run.
    rewrite Hb, (Reachable.mset_resume_completed sps e' Hall).
    pose proof (set_each_standalone cfg items e Hs) as H1.
    rewrite Heach in H1. exact H1.
  - apply clear_standalone. exact Hs.
  - pose proof (getStats_standalone cfg e Hs) as H1.
    destruct (getStats e) as [[v | err] e1]; exact H1.
  - apply destroy_standalone. exact Hs.
  - destruct e as [[now next pend] ri s]. exact Hs.
  - apply fire_standalone. exact Hs.
Qed.

Lemma run_standalone cfg (ops : list (op (value := value))) :
  forall e, standalone cfg e -> standalone cfg (snd (run ops e)).
Proof.
  induction ops as [| o rest IH]; intros e Hs; [ exact Hs | ].
  cbn [run]. js_run. pose proof (perform_standalone cfg o e Hs) as H1.
  destruct (perform o e) as [[u | err] e1]; [ apply IH | ]; exact H1.
Qed.

(** X10.  A constructed facade never uses its remote tier.  Whatever the
    configuration (a preference for Redis included) and whatever
    operations, timer firings and lapses of time follow the construction:
    no operation throws, no Redis client is attached, the backend type
    is [memory], the [RedisCacheManager] instance of the process is as its
    constructor left it (not one request sent), the configuration is the
    one given, and [get] returns what the memory tier holds, without
    looking at what the remote tier would reply. *)
Theorem constructed_facade_never_uses_the_remote_tier
  (ops : list (op (value := value))) now cfg :
  let e := snd (run ops (create now cfg)) in
  fst (run ops (create now cfg)) = JS.Normal tt /\
  redisCache (this e) = false /\
  fst (getBackendType e) = JS.Normal memory /\
  redisInstance e = Redis.constructor /\
  config (this e) = cfg /\
  forall key r, fst (get key r e) = JS.Normal (reads e key).
Proof.
  cbv zeta.
  pose proof (run_standalone cfg ops (create now cfg) (create_standalone now cfg))
    as Hs.
  destruct (FacadeReturns.run_returns ops (create now cfg)) as ([] & e & Hrun).
  rewrite Hrun in *. cbn [fst snd] in *.
  pose proof (standalone_memory_only cfg e Hs) as Ha.
  destruct Hs as (Hc & Hrc & Hbt & Hri & _).
  split; [ reflexivity | ]. split; [ exact Hrc | ].
  split; [ unfold getBackendType, JS.gets; cbn [fst]; rewrite Hbt; reflexivity | ].
  split; [ exact Hri | ]. split; [ exact Hc | ].
  intros key r. destruct (Reads.get_memory_only e key r Ha) as (e' & Hget & _).
  rewrite Hget. reflexivity.
Qed.

(** X11.  The hit rates of the tiers that [getStats] reports are always
    zero.  [calculateHitRate] returns the stored rate of the tier (or 0),
    and that is what [get] stores back on a hit, so the stored rates never
    leave their first value: after any run from the construction,
    [getStats().memoryCache.hitRate] and [getStats().backend.hitRate] are
    0, and the backend is reported as [memory], [connected].  Only
    [total.hitRate] is computed. *)
Theorem reported_tier_hit_rates_are_always_zero
  (ops : list (op (value := value))) now cfg :
  exists st e',
    getStats (snd (run ops (create now cfg))) = (JS.Normal st, e') /\
    memoryHitRate (memoryCacheStats st) = 0%Q /\
    backend st = mkBackend memory connected 0%Q.
Proof.
  pose proof (run_standalone cfg ops (create now cfg) (create_standalone now cfg))
    as Hs.
  set (e := snd (run ops (create now cfg))) in *.
  pose proof (getStats_standalone cfg e Hs) as Hs'.
  destruct (FacadeReturns.getStats_returns e) as (st & e' & Hget).
  exists st, e'. split; [ exact Hget | ].
  assert (Hst : st = stats (this e')).
  { revert Hget. destruct e as [rt0 ri [rc m c st0 ct bt]].
    unfold getStats. facade_run. intros [= <- <-]. reflexivity. }
  rewrite Hget in Hs'. cbn [snd] in Hs'.
  destruct Hs' as (_ & _ & _ & _ & Hmh & Hb & _). subst st. auto.
Qed.

(** X12.  The cleanup interval runs until [destroy].  In every state
    reached from the construction, either [cleanupTimer] names the one
    pending timer, a repeating one whose firing is a call of
    [cleanupExpiredItems] that leaves it pending; or the facade was
    destroyed, no timer is pending, and no firing changes anything.  After
    [destroy] it is the latter.  The period of the timer is the configured
    [cleanupInterval] when that lies between 1 and 2^31 - 1 milliseconds;
    nothing is said of the period that a runtime makes of a number outside
    this range. *)
Theorem cleanup_interval_runs_until_destroy
  (ops : list (op (value := value))) now cfg :
  let e := snd (run ops (create now cfg)) in
  match cleanupTimer (this e) with
  | Some h =>
      (exists period,
          JS.pending (rt e) = [JS.mkTimer h true period JS.CleanupCallback] /\
          (1 <= cleanupInterval cfg <= 2147483647 -> period = cleanupInterval cfg)) /\
      fire h e = cleanupExpiredItems e /\
      JS.pending (rt (snd (fire h e))) = JS.pending (rt e)
  | None =>
      JS.pending (rt e) = [] /\ forall h, fire h e = (JS.Normal tt, e)
  end /\
  cleanupTimer (this (snd (destroy e))) = None /\
  JS.pending (rt (snd (destroy e))) = [].
Proof.
  cbv zeta.
  pose proof (run_standalone cfg ops (create now cfg) (create_standalone now cfg))
    as Hs.
  set (e := snd (run ops (create now cfg))) in *.
  destruct (destroy_standalone cfg e Hs) as [Hd Hnone].
  split.
  - destruct Hs as (_ & _ & _ & _ & _ & _ & Hp).
    destruct e as [[clk next pend] ri s]. cbn [rt JS.pending this] in *.
    destruct (cleanupTimer s) as [h |] eqn:Hct; subst pend.
    + split; [ exists (cleanupInterval cfg); split; [ reflexivity | intros _; reflexivity ] | ].
      assert (Hfire : fire h (mkEnv (JS.mkRuntime clk next
                        [JS.mkTimer h true (cleanupInterval cfg) JS.CleanupCallback])
                        ri s)
                      = cleanupExpiredItems
                          (mkEnv (JS.mkRuntime clk next
                             [JS.mkTimer h true (cleanupInterval cfg)
                                         JS.CleanupCallback]) ri s)).
      { unfold fire. js_run. cbv beta iota delta [rt].
        unfold JS.findTimer. cbn [JS.pending find JS.handle].
        rewrite Nat.eqb_refl. reflexivity. }
      split; [ exact Hfire | ].
      rewrite Hfire, Expiry.cleanupExpiredItems_eq. reflexivity.
    + split; [ reflexivity | ]. intros h. reflexivity.
  - split; [ exact Hnone | ].
    destruct Hd as (_ & _ & _ & _ & _ & _ & Hp). rewrite Hp, Hnone. reflexivity.
Qed.

(** X13.  With [enableMemoryCache: false] nothing is cached.  A facade
    constructed with the memory tier switched off stores no entry, and
    every [get] returns [null], also right after a [set] of the same
    key. *)
Theorem disabled_memory_tier_caches_nothing
  (ops : list (op (value := value))) now cfg key r :
  enableMemoryCache cfg = false ->
  let e := snd (run ops (create now cfg)) in
  memoryCache (this e) = [] /\
  fst (get key r e) = JS.Normal None.
Proof.
  intros Hoff. cbv zeta.
  pose proof (run_standalone cfg ops (create now cfg) (create_standalone now cfg))
    as Hs.
  pose proof (Reachable.reached_states_are_in_order ops (create now cfg)
                (Reachable.create_in_order now cfg)) as Hio.
  set (e := snd (run ops (create now cfg))) in *.
  pose proof (standalone_memory_only cfg e Hs) as Ha.
  destruct Hs as (Hc & _). destruct Hio as (_ & _ & _ & Hempty).
  rewrite Hc in Hempty. split; [ exact (Hempty Hoff) | ].
  destruct (Reads.get_memory_only e key r Ha) as (e' & Hget & _).
  rewrite Hget. unfold reads, live. rewrite Hc, Hoff. reflexivity.
Qed.

End WithValue.

Lemma disabled_memory_tier_caches_nothing_witness :
  fst (get "user:42"%string Fixture.absent
         (snd (run [OpSet "user:42"%string "Ann"%string (Some 5) Fixture.done]
                   (create 0 (mkConfig 300 1024 60000 auto false)))))
    = JS.Normal None.
Proof.
  apply (disabled_memory_tier_caches_nothing
           [OpSet "user:42"%string "Ann"%string (Some 5) Fixture.done]
           0 (mkConfig 300 1024 60000 auto false) "user:42"%string Fixture.absent).
  reflexivity.
Defined.

End Standalone.

(** *** A hit of the remote tier is written back *)

Module Backfill.
Import EnhancedCacheManager.
Import Spec.
Import FacadeSpec.

Unset Implicit Arguments.

Section WithValue.
Context {value : Type} `{Json value}.

(** X14.  A value found in the remote tier is written back to the memory
    tier.  When the facade consults a connected remote client for a key
    that has no live entry in the memory tier, and the client answers
    after [lat] milliseconds with a text that parses to [v]: [get] returns
    [v] and counts a request and a hit; the client counts a request; the
    memory tier then holds [v] under the key, stamped with the time of the
    answer, with the default TTL of the configuration (not the TTL the
    value was stored with) and an [accessCount] of 1.  A second [get] is
    served from the memory tier: it returns [v] and the remote client is
    not touched. *)
Theorem remote_hit_is_written_back
  (e : env (value := value)) key text v lat r2 :
  remote_consulted e = true ->
  enableMemoryCache (config (this e)) = true ->
  live e key = None ->
  JSON_parse text = JS.Normal (Some v) ->
  0 <= defaultTtl (config (this e)) ->
  exists e1 e2,
    get key (JS.mkReply lat (JS.Resolved (Some text))) e = (JS.Normal (Some v), e1) /\
    JS.map_get key (memoryCache (this e1))
      = Some (mkItem v (JS.clock (rt e) + Z.of_N lat)
                     (defaultTtl (config (this e))) 1
                     (JS.clock (rt e) + Z.of_N lat)) /\
    totals e1 = counted_hit (totals e) /\
    Redis.requests (Redis.stats (redisInstance e1))
      = Redis.requests (Redis.stats (redisInstance e)) + 1 /\
    get key r2 e1 = (JS.Normal (Some v), e2) /\
    redisInstance e2 = redisInstance e1.
Proof.
  intros Hc Hen Hl Hparse Httl.
  unfold remote_consulted in Hc. apply andb_true_iff in Hc as [Ha Hav].
  apply negb_true_iff in Hav.
  rewrite RemoteFailure.get_memory_miss by exact Hl.
  destruct e as [rt0 ri [rc m cfg st ct bt]].
  cbn [this config rt redisInstance] in *.
  set (now' := JS.clock rt0 + Z.of_N lat).
  set (item := mkItem v now' (defaultTtl cfg) 1 now').
  assert (Hget :
    exists e1,
      get_backend key (JS.mkReply lat (JS.Resolved (Some text)))
                  (incr_requests (mkEnv rt0 ri (mk rc m cfg st ct bt)))
        = (JS.Normal (Some v), e1) /\
      memoryCache (this e1) = JS.map_set key item m /\
      config (this e1) = cfg /\
      JS.clock (rt e1) = now' /\
      totals e1 = counted_hit (total st) /\
      Redis.requests (Redis.stats (redisInstance e1))
        = Redis.requests (Redis.stats ri) + 1).
  { unfold get_backend, Redis.get. facade_run.
    cbv beta iota delta [remoteActive backendType redisCache] in Ha |- *.
    rewrite Ha. facade_run. rewrite Hav. facade_run.
    cbn [JS.latency JS.result]. rewrite Hparse. facade_run.
    rewrite Hen. unfold calculateHitRate. facade_run.
    destruct (requests _ =? 0); eexists; repeat split. }
  destruct Hget as (e1 & Hget & Hm & Hcfg & Hclock & Htot & Hreq).
  assert (Hlive : live e1 key = Some item).
  { unfold live. rewrite Hcfg, Hen, Hm, MapFacts.map_get_set_same, Hclock.
    unfold item at 1 2. cbn [ttl timestamp].
    replace (now' - now') with 0 by lia.
    destruct (defaultTtl cfg * 1000 <? 0) eqn:E; [ | reflexivity ].
    apply Z.ltb_lt in E. lia. }
  destruct (Reads.hit e1 key r2 item Hlive) as (e2 & Hget2 & _ & Hs & _).
  exists e1, e2. split; [ exact Hget | ].
  split; [ rewrite Hm; apply MapFacts.map_get_set_same | ].
  split; [ exact Htot | ]. split; [ exact Hreq | ].
  split; [ exact Hget2 | ]. destruct Hs as (_ & Hri & _). exact Hri.
Qed.

End WithValue.

Lemma remote_hit_is_written_back_witness :
  exists e1 e2,
    get "user:42"%string (JS.mkReply 20 (JS.Resolved (Some "Ann"%string)))
        Fixture.hybrid = (JS.Normal (Some "Ann"%string), e1) /\
    JS.map_get "user:42"%string (memoryCache (this e1))
      = Some (mkItem "Ann"%string 20 300 1 20) /\
    get "user:42"%string Fixture.timeout e1 = (JS.Normal (Some "Ann"%string), e2).
Proof.
  destruct (remote_hit_is_written_back Fixture.hybrid "user:42"%string
              "Ann"%string "Ann"%string 20%N Fixture.timeout)
    as (e1 & e2 & Hget & Hentry & _ & _ & Hget2 & _).
  - reflexivity.
  - reflexivity.
  - reflexivity.
  - reflexivity.
  - simpl. lia.
  - exists e1, e2. split; [ exact Hget | ]. split; [ exact Hentry | exact Hget2 ].
Defined.

End Backfill.

(** *** The remote tier client on its own *)

Module Client.
Import RedisCacheManager.
Import RedisSpec.
Import ClientSpec.

Unset Implicit Arguments.

(** Running the client: the monad, the field writes and [await]. *)
Ltac client_run :=
  cbv beta iota delta
    [JS.bind JS.ret JS.gets JS.modify JS.throw JS.try_catch eval
     rt this Date_now await set_rt set_stats set_isConnected
     set_reconnectAttempts set_reconnectTimer set_redis
     updateAvgResponseTime updateHitRate].

(** Looking at the statistics of a state. *)
Ltac view :=
  cbv beta iota zeta delta
    [fst snd this stats requests hits misses errors hitRate avgResponseTime
     redis isConnected reconnectAttempts maxReconnectAttempts reconnectTimer
     incr_requests incr_hits incr_misses incr_errors getStats on_connect
     on_ready on_close on_reconnecting set_rt set_stats set_isConnected
     set_reconnectAttempts set_reconnectTimer set_redis rt
     Date_now await updateAvgResponseTime updateHitRate eval
     JS.latency JS.result
     JS.bind JS.ret JS.gets JS.modify JS.throw JS.try_catch].

Section WithValue.
Context {value : Type} `{Json value}.

(** X15.  A client that is not connected answers nothing and counts
    nothing.  While there is no ioredis object or the connection is down
    (as for every client that the constructor makes, since
    [initializeRedis] returns at once), [get] returns [null], [exists]
    false, [mget] one [null] per key and [getInfo] [null]; [set],
    [delete], [mset] and [clear] return; and the state is left as it was:
    no request, miss or error is counted and no time passes, whatever the
    server would have replied. *)
Theorem unavailable_client_answers_nothing
  (e : env) key (data : value) ttl keys items rg rs rd rx rm rp rc ri :
  unavailable (this e) = true ->
  get (value := value) key rg e = (JS.Normal None, e) /\
  set key data ttl rs e = (JS.Normal tt, e) /\
  delete key rd e = (JS.Normal tt, e) /\
  exists_ key rx e = (JS.Normal false, e) /\
  mget (value := value) keys rm e = (JS.Normal (List.map (fun _ => None) keys), e) /\
  mset items rp e = (JS.Normal tt, e) /\
  clear rc e = (JS.Normal tt, e) /\
  getInfo ri e = (JS.Normal None, e).
Proof.
  intros Hun. destruct e as [r0 s]. cbn [this] in Hun.
  unfold get, set, set_begin, set_resume, delete, exists_, mget, mset, clear,
    getInfo, nulls.
  client_run. rewrite Hun. client_run. repeat split.
Qed.

Lemma client_mget_returns keys r : returns (mget (value := value) keys r).
Proof. unfold mget. returns_tac. Qed.

Lemma client_mset_returns (items : list (string * value * option Z)) r :
  returns (mset items r).
Proof. unfold mset. returns_tac. Qed.

Lemma client_getInfo_returns r : returns (getInfo r).
Proof. unfold getInfo. returns_tac. Qed.

(** X16.  The batch calls and the probes of the client never throw, and a
    failure is one error counted, except in [getInfo].  On a connected
    client: [mget] whose promise is rejected, or one of whose texts does
    not parse, returns one [null] per key (also for the keys whose texts
    did parse) and counts one error; [mset] counts one error when the
    pipeline is rejected, and also when a payload does not serialize, in
    which case nothing was sent and no time has passed; [exists] and
    [clear] count one error when rejected, [exists] answering false;
    [getInfo] returns [null] when rejected and leaves the statistics as
    they are. *)
Theorem client_failures_are_counted_except_by_getInfo (e : env) :
  unavailable (this e) = false ->
  (forall keys r,
     (Spec.rejected r \/
      exists results err,
        JS.result r = JS.Resolved results /\
        parse_results (value := value) results = JS.Throw err) ->
     exists e',
       mget (value := value) keys r e
         = (JS.Normal (List.map (fun _ => None) keys), e') /\
       errors (stats (this e')) = errors (stats (this e)) + 1) /\
  (forall (items : list (string * value * option Z)) r,
     Spec.rejected r ->
     exists e',
       mset items r e = (JS.Normal tt, e') /\
       errors (stats (this e')) = errors (stats (this e)) + 1) /\
  (forall (items : list (string * value * option Z)) r err,
     queue items = JS.Throw err ->
     exists e',
       mset items r e = (JS.Normal tt, e') /\
       errors (stats (this e')) = errors (stats (this e)) + 1 /\
       rt e' = rt e) /\
  (forall key r,
     Spec.rejected r ->
     exists e',
       exists_ key r e = (JS.Normal false, e') /\
       errors (stats (this e')) = errors (stats (this e)) + 1) /\
  (forall r,
     Spec.rejected r ->
     exists e',
       clear r e = (JS.Normal tt, e') /\
       errors (stats (this e')) = errors (stats (this e)) + 1) /\
  (forall r,
     Spec.rejected r ->
     exists e',
       getInfo r e = (JS.Normal None, e') /\
       stats (this e') = stats (this e)) /\
  (forall keys items rm rp ri,
     (exists v e', mget (value := value) keys rm e = (JS.Normal v, e')) /\
     (exists e', mset (value := value) items rp e = (JS.Normal tt, e')) /\
     (exists v e', getInfo ri e = (JS.Normal v, e'))).
Proof.
  intros Hav. destruct e as [r0 s]. cbn [this] in Hav.
  split.
  { intros keys r Hf. unfold mget, nulls. client_run. rewrite Hav.
    destruct Hf as [[err Herr] | (results & err & Hres & Hparse)].
    - rewrite Herr. eexists. split; reflexivity.
    - rewrite Hres, Hparse. eexists. split; reflexivity. }
  split.
  { intros items r [err Herr]. unfold mset. client_run. rewrite Hav, Herr.
    destruct (queue items); eexists; split; reflexivity. }
  split.
  { intros items r err Hq. unfold mset. client_run. rewrite Hav, Hq.
    eexists. repeat split. }
  split.
  { intros key r [err Herr]. unfold exists_. client_run. rewrite Hav, Herr.
    eexists. split; reflexivity. }
  split.
  { intros r [err Herr]. unfold clear. client_run. rewrite Hav, Herr.
    eexists. split; reflexivity. }
  split.
  { intros r [err Herr]. unfold getInfo. client_run. rewrite Hav, Herr.
    eexists. split; reflexivity. }
  intros keys items rm rp ri. split; [ apply client_mget_returns | ].
  split; [ | apply client_getInfo_returns ].
  destruct (client_mset_returns items rp (mkEnv r0 s)) as ([] & e' & Hm). eauto.
Qed.

(** What a call or an event makes of the statistics. *)
Lemma perform_statistics (c : call (value := value)) (e : env) :
  (accounted (stats (this e)) ->
   accounted (stats (this (snd (perform c e))))) /\
  (avgResponseTime (stats (this e)) = None ->
   avgResponseTime (stats (this (snd (perform c e)))) = None).
Proof.
  destruct e as [r0 [rd ic [rq hi mi er hr av] ra mx tm]].
  unfold accounted. cbv beta iota delta [this stats requests hits misses errors avgResponseTime].
  destruct c; cbv beta iota delta [perform]; unfold ignore.
  - unfold get. client_run. destruct (unavailable _); client_run;
      [ view; split; auto | ].
    destruct r as [lat [[text |] | err]]; client_run; cbv beta iota delta [JS.latency JS.result];
      [ destruct (JSON_parse text) as [v | err'] | | ]; view;
      (split; [ intros; lia | intros ->; reflexivity ]).
  - unfold set, set_begin, set_resume. client_run.
    destruct (unavailable _); client_run; [ view; split; auto | ].
    destruct (JSON_stringify data) as [text | err]; client_run;
      [ destruct r as [lat [[] | err']]; client_run; cbv beta iota delta [JS.latency JS.result] | ];
      view; (split; [ intros; lia | intros ->; reflexivity ]).
  - unfold delete. client_run. destruct (unavailable _); client_run;
      [ view; split; auto | ].
    destruct r as [lat [[] | err']]; client_run; view;
      (split; [ intros; lia | auto ]).
  - unfold exists_. client_run. destruct (unavailable _); client_run;
      [ view; split; auto | ].
    destruct r as [lat [n | err']]; client_run; view;
      (split; [ intros; lia | auto ]).
  - unfold mget. client_run. destruct (unavailable _); client_run;
      [ view; split; auto | ].
    destruct r as [lat [results | err']]; client_run; cbv beta iota delta [JS.latency JS.result];
      [ destruct (parse_results results) as [vs | err] | ]; view;
      (split; [ intros; lia | auto ]).
  - unfold mset. client_run. destruct (unavailable _); client_run;
      [ view; split; auto | ].
    destruct (queue items) as [cmds | err]; client_run;
      [ destruct r as [lat [[] | err']]; client_run | ]; view;
      (split; [ intros; lia | auto ]).
  - unfold clear. client_run. destruct (unavailable _); client_run;
      [ view; split; auto | ].
    destruct r as [lat [[] | err']]; client_run; view;
      (split; [ intros; lia | auto ]).
  - unfold getInfo. client_run. destruct (unavailable _); client_run;
      [ view; split; auto | ].
    destruct r as [lat [info | err']]; client_run; view; (split; auto).
  - view. split; auto.
  - unfold destroy. client_run. cbv beta iota delta [reconnectTimer redis].
    destruct tm as [h |]; client_run; cbv beta iota delta [redis];
      (destruct rd; client_run; view; (split; auto)).
  - destruct ev; cbv beta iota delta [dispatch].
    + view. split; auto.
    + view. split; auto.
    + rewrite Backoff.on_error_eq, Backoff.scheduleReconnect_eq. cbv beta iota delta [snd].
      destruct (_ <=? _); view; (split; [ intros; lia | auto ]).
    + view. split; auto.
    + view. split; auto.
    + rewrite Backoff.fire_eq. cbv beta iota delta [snd rt].
      destruct (JS.findTimer h r0) as [t |]; [ | view; split; auto ].
      destruct (JS.action t); view; (split; auto).
Qed.

Lemma run_statistics (cs : list (call (value := value))) : forall (e : env),
  (accounted (stats (this e)) -> accounted (stats (this (run_calls cs e)))) /\
  (avgResponseTime (stats (this e)) = None ->
   avgResponseTime (stats (this (run_calls cs e))) = None).
Proof.
  induction cs as [| c rest IH]; intros e; [ split; auto | ].
  cbn [run_calls]. pose proof (perform_statistics c e) as [Ha Hn].
  destruct (perform c e) as [[u | err] e1]; cbn [snd] in *.
  - destruct (IH e1) as [Ha1 Hn1]. split; auto.
  - split; auto.
Qed.

(** X17.  Every request of the client is accounted for.  Through any run
    of calls ([get], [set], [delete], [exists], [mget], [mset], [clear],
    [getInfo], [getStats], [destroy]) and connection events, with any
    replies: the counters stay non-negative, [hits + misses] never
    exceeds [requests], and [requests] never exceeds
    [hits + misses + errors]: a request is a hit or a miss unless the
    call failed, and a call that failed was counted as an error. *)
Theorem every_request_is_a_hit_a_miss_or_an_error
  (cs : list (call (value := value))) (e : env) :
  accounted (stats (this e)) ->
  let st := stats (this (run_calls cs e)) in
  0 <= hits st /\ 0 <= misses st /\ 0 <= errors st /\
  hits st + misses st <= requests st <= hits st + misses st + errors st.
Proof.
  intros Hacc. cbv zeta.
  destruct (run_statistics cs e) as [Hrun _].
  specialize (Hrun Hacc). unfold accounted in Hrun. exact Hrun.
Qed.

(** X18.  A [set] before the first [get] spoils the average response
    time for good.  [updateAvgResponseTime] divides by [requests], which
    only [get] counts: when a connected client with no request counted
    completes a [set], [avgResponseTime] is the result of a division by
    zero, not a finite number; and from then on it stays so, through every
    run of calls and events. *)
Theorem set_before_the_first_get_spoils_avgResponseTime
  (e : env) key (data : value) ttl r text (cs : list (call (value := value))) :
  unavailable (this e) = false ->
  requests (stats (this e)) = 0 ->
  JSON_stringify data = JS.Normal text ->
  JS.result r = JS.Resolved tt ->
  exists e',
    set key data ttl r e = (JS.Normal tt, e') /\
    avgResponseTime (stats (this e')) = None /\
    avgResponseTime (stats (this (run_calls cs e'))) = None.
Proof.
  intros Hav Hreq Hser Hres.
  assert (Hset : exists e',
             set key data ttl r e = (JS.Normal tt, e') /\
             avgResponseTime (stats (this e')) = None).
  { destruct e as [r0 [rd ic [rq hi mi er hr av] ra mx tm]].
    cbn [this stats requests] in *. subst rq.
    unfold set, set_begin, set_resume. client_run.
    rewrite Hav, Hser. client_run. rewrite Hres. client_run.
    eexists. split; [ reflexivity | ]. cbn. destruct av; reflexivity. }
  destruct Hset as (e' & Hset & Hnone).
  exists e'. split; [ exact Hset | ]. split; [ exact Hnone | ].
  destruct (run_statistics cs e') as [_ Hrun]. exact (Hrun Hnone).
Qed.

End WithValue.

Lemma unavailable_client_answers_nothing_witness :
  get (value := string) "user:42"%string
      (JS.mkReply 20 (JS.Resolved (Some "Ann"%string)))
      (mkEnv (JS.boot 0) constructor)
    = (JS.Normal None, mkEnv (JS.boot 0) constructor).
Proof.
  apply (unavailable_client_answers_nothing
           (mkEnv (JS.boot 0) constructor) "user:42"%string "Ann"%string 5
           [] [] (JS.mkReply 20 (JS.Resolved (Some "Ann"%string)))
           Fixture.done Fixture.done (JS.mkReply 0 (JS.Resolved 1))
           (JS.mkReply 0 (JS.Resolved [])) Fixture.done Fixture.done
           (JS.mkReply 0 (JS.Resolved EmptyString))).
  reflexivity.
Defined.

Lemma client_failures_are_counted_except_by_getInfo_witness :
  exists e',
    mget (value := string) ["a"%string; "b"%string]
         (JS.mkReply 3 (JS.Resolved [Some "1"%string; Some "{"%string]))
         connected_client
      = (JS.Normal [None; None], e') /\
    errors (stats (this e')) = 1.
Proof.
  destruct (client_failures_are_counted_except_by_getInfo (value := string)
              connected_client) as (Hmget & _).
  - reflexivity.
  - apply (Hmget ["a"%string; "b"%string]
                 (JS.mkReply 3 (JS.Resolved [Some "1"%string; Some "{"%string]))).
    right. exists [Some "1"%string; Some "{"%string], "SyntaxError"%string.
    split; reflexivity.
Defined.

Lemma every_request_is_a_hit_a_miss_or_an_error_witness :
  let st := stats (this (run_calls (value := string)
                           [CallGet "a"%string Fixture.timeout;
                            CallGet "a"%string Fixture.absent;
                            Happens Error]
                           connected_client)) in
  0 <= hits st /\ 0 <= misses st /\ 0 <= errors st /\
  hits st + misses st <= requests st <= hits st + misses st + errors st.
Proof.
  apply (every_request_is_a_hit_a_miss_or_an_error (value := string)
           [CallGet "a"%string Fixture.timeout;
            CallGet "a"%string Fixture.absent;
            Happens Error]
           connected_client).
  unfold accounted. simpl. lia.
Defined.

Lemma set_before_the_first_get_spoils_avgResponseTime_witness :
  exists e',
    set "user:42"%string "Ann"%string 5 Fixture.done connected_client
      = (JS.Normal tt, e') /\
    avgResponseTime (stats (this e')) = None /\
    avgResponseTime
      (stats (this (run_calls (value := string)
                      [CallGet "user:42"%string Fixture.absent] e'))) = None.
Proof.
  apply (set_before_the_first_get_spoils_avgResponseTime
           connected_client "user:42"%string "Ann"%string 5 Fixture.done
           "Ann"%string [CallGet "user:42"%string Fixture.absent]).
  - reflexivity.
  - reflexivity.
  - reflexivity.
  - reflexivity.
Defined.

End Client.

(** *** [getInfo]: reading the text of [INFO] *)

Module Info.
Import RedisCacheManager.
Import RedisSpec.
Import ClientSpec.

Unset Implicit Arguments.

Local Open Scope string_scope.

Import JSString.

Lemma plain_cons c s :
  plain (String c s) = true <-> c <> CR /\ c <> LF /\ c <> COLON /\ plain s = true.
Proof.
  cbn [plain].
  rewrite !andb_true_iff, !negb_true_iff.
  rewrite <- !not_true_iff_false, !Ascii.eqb_eq. tauto.
Qed.

Lemma prefix_nil s : String.prefix EmptyString s = true.
Proof. destruct s; reflexivity. Qed.

Lemma prefix_head a p c s :
  c <> a -> String.prefix (String a p) (String c s) = false.
Proof.
  intros Hne. cbn [String.prefix].
  destruct (Ascii.ascii_dec a c); [ congruence | reflexivity ].
Qed.

Lemma append_snoc (cur : string) c a :
  (cur ++ String c EmptyString) ++ a = cur ++ String c a.
Proof.
  induction cur as [| d cur IH]; cbn [String.append]; [ reflexivity | ].
  rewrite IH. reflexivity.
Qed.

Lemma append_empty (s : string) : s ++ EmptyString = s.
Proof. induction s as [| c s IH]; cbn; [ | rewrite IH ]; reflexivity. Qed.

(** Scanning a piece that holds none of the first characters of the
    separators. *)
Lemma split_from_plain a p (a0 : string) : forall cur rest,
  plain a0 = true -> (a = CR \/ a = COLON) ->
  JSString.split_from (String a p) (a0 ++ rest) O cur
    = JSString.split_from (String a p) rest O (cur ++ a0).
Proof.
  induction a0 as [| c s IH]; intros cur rest Hp Ha.
  - cbn [String.append]. rewrite append_empty. reflexivity.
  - apply plain_cons in Hp as (Hcr & Hlf & Hco & Hs).
    cbn [String.append JSString.split_from].
    rewrite prefix_head by (destruct Ha; congruence).
    rewrite IH by assumption. rewrite append_snoc. reflexivity.
Qed.

Lemma split_from_end a p (a0 : string) cur :
  plain a0 = true -> (a = CR \/ a = COLON) ->
  JSString.split_from (String a p) a0 O cur = [cur ++ a0].
Proof.
  intros Hp Ha. rewrite <- (append_empty a0) at 1.
  rewrite split_from_plain by assumption. reflexivity.
Qed.

(** A field cut at its colon. *)
Lemma split_field key value :
  plain key = true -> plain value = true ->
  JSString.split JSString.colon (key ++ JSString.colon ++ value) = [key; value].
Proof.
  intros Hk Hv. unfold JSString.split, JSString.colon.
  rewrite split_from_plain by auto.
  cbn [String.append JSString.split_from String.prefix String.length Nat.pred].
  destruct (Ascii.ascii_dec COLON COLON); [ | congruence ].
  rewrite prefix_nil, split_from_end by auto. reflexivity.
Qed.

Lemma includes_field key value :
  JSString.includes JSString.colon (key ++ JSString.colon ++ value) = true.
Proof.
  induction key as [| c key IH]; cbn [String.append JSString.includes].
  - unfold JSString.colon. cbn [String.append JSString.includes String.prefix].
    destruct (Ascii.ascii_dec _ _); [ | congruence ].
    rewrite prefix_nil. reflexivity.
  - rewrite IH. apply orb_true_r.
Qed.

Lemma includes_plain text :
  plain text = true -> JSString.includes JSString.colon text = false.
Proof.
  induction text as [| c s IH]; intros Hp; [ reflexivity | ].
  apply plain_cons in Hp as (_ & _ & Hco & Hs).
  cbn [JSString.includes]. rewrite (IH Hs).
  unfold JSString.colon. rewrite prefix_head by congruence. reflexivity.
Qed.

(** What the loop of [getInfo] makes of a well-formed line. *)
Lemma info_line_entry infoObj l :
  well_formed_entry l = true ->
  info_line infoObj (entry_text l)
    = match l with
      | Field key value => assign key value infoObj
      | Other _ => infoObj
      end.
Proof.
  destruct l as [key value | text]; cbn [well_formed_entry entry_text]; intros Hw.
  - apply andb_true_iff in Hw as [Hw Hproto].
    apply andb_true_iff in Hw as [Hk Hv].
    unfold info_line. rewrite includes_field, split_field by assumption.
    reflexivity.
  - unfold info_line. rewrite includes_plain by exact Hw. reflexivity.
Qed.

Lemma plain_entry l : well_formed_entry l = true ->
  exists a b, entry_text l = a ++ b /\ plain a = true /\
              (b = EmptyString \/ exists v, b = String COLON v /\ plain v = true).
Proof.
  destruct l as [key value | text]; cbn [well_formed_entry entry_text]; intros Hw.
  - apply andb_true_iff in Hw as [Hw _]. apply andb_true_iff in Hw as [Hk Hv].
    exists key, (JSString.colon ++ value). split; [ reflexivity | ].
    split; [ exact Hk | ]. right. exists value. split; [ reflexivity | exact Hv ].
  - exists text, EmptyString. rewrite append_empty. auto.
Qed.

(** Scanning a well-formed line for the end of line. *)
Lemma split_from_entry l : forall cur rest,
  well_formed_entry l = true ->
  JSString.split_from JSString.CRLF (entry_text l ++ rest) O cur
    = JSString.split_from JSString.CRLF rest O (cur ++ entry_text l).
Proof.
  intros cur rest Hw. destruct (plain_entry l Hw) as (a & b & -> & Ha & Hb).
  unfold JSString.CRLF.
  assert (Happ : forall x y z : string, (x ++ y) ++ z = x ++ y ++ z).
  { induction x as [| c x IH]; intros y z; cbn; [ | rewrite IH ]; reflexivity. }
  rewrite Happ, split_from_plain by auto.
  destruct Hb as [-> | (v & -> & Hv)].
  - cbn [String.append]. rewrite append_empty. reflexivity.
  - cbn [String.append JSString.split_from].
    rewrite prefix_head by discriminate.
    rewrite split_from_plain by auto.
    rewrite append_snoc, <- Happ. reflexivity.
Qed.

Lemma split_lines (ls : list info_entry) :
  forallb well_formed_entry ls = true ->
  JSString.split JSString.CRLF (info_text ls)
    = match ls with
      | [] => [EmptyString]
      | _ => List.map entry_text ls
      end.
Proof.
  unfold JSString.split, info_text.
  assert (Hgen : forall ls cur l,
             forallb well_formed_entry (l :: ls) = true ->
             JSString.split_from JSString.CRLF
               (JSString.join JSString.CRLF (List.map entry_text (l :: ls))) O cur
               = (cur ++ entry_text l) :: List.map entry_text ls).
  { induction ls0 as [| l' ls0 IH]; intros cur l Hall;
      cbn [forallb] in Hall; apply andb_true_iff in Hall as [Hl Hrest].
    - cbn [List.map JSString.join].
      rewrite <- (append_empty (entry_text l)) at 1.
      rewrite split_from_entry by exact Hl. reflexivity.
    - change (JSString.join JSString.CRLF (List.map entry_text (l :: l' :: ls0)))
        with (entry_text l ++ JSString.CRLF
              ++ JSString.join JSString.CRLF (List.map entry_text (l' :: ls0))).
      rewrite split_from_entry by exact Hl.
      unfold JSString.CRLF at 2. cbn [String.append].
      cbn [JSString.split_from].
      assert (Hpre : forall s, String.prefix JSString.CRLF
                                 (String CR (String LF s)) = true).
      { intros s. unfold JSString.CRLF. cbn [String.prefix].
        destruct (Ascii.ascii_dec _ _); [ | congruence ].
        destruct (Ascii.ascii_dec _ _); [ apply prefix_nil | congruence ]. }
      rewrite Hpre. cbn [String.length JSString.CRLF Nat.pred].
      rewrite (IH EmptyString l' Hrest). reflexivity. }
  intros Hall. destruct ls as [| l ls]; [ reflexivity | ].
  rewrite (Hgen ls EmptyString l Hall). reflexivity.
Qed.

Lemma fold_info_lines (ls : list info_entry) : forall infoObj,
  forallb well_formed_entry ls = true ->
  fold_left info_line (List.map entry_text ls) infoObj
    = fold_left (fun obj kv => assign (fst kv) (snd kv) obj) (fields ls) infoObj.
Proof.
  induction ls as [| l ls IH]; intros infoObj Hall; [ reflexivity | ].
  cbn [forallb] in Hall. apply andb_true_iff in Hall as [Hl Hrest].
  cbn [List.map fold_left]. rewrite (info_line_entry infoObj l Hl).
  rewrite (IH _ Hrest). destruct l; reflexivity.
Qed.

Lemma fields_not_proto (ls : list info_entry) :
  forallb well_formed_entry ls = true ->
  forall en, In en (fields ls) -> String.eqb (fst en) "__proto__" = false.
Proof.
  induction ls as [| l ls IH]; intros Hall en Hin; [ contradiction | ].
  cbn [forallb] in Hall. apply andb_true_iff in Hall as [Hl Hrest].
  destruct l as [key value | text]; cbn [fields] in Hin.
  - destruct Hin as [<- | Hin]; [ | exact (IH Hrest en Hin) ].
    cbn [well_formed_entry] in Hl. apply andb_true_iff in Hl as [_ Hp].
    apply negb_true_iff in Hp. exact Hp.
  - exact (IH Hrest en Hin).
Qed.

Lemma is_index_key en :
  is_index en = true -> JSString.array_index (fst en) = Some (key_index en).
Proof.
  unfold is_index, key_index.
  destruct (JSString.array_index (fst en)); [ reflexivity | discriminate ].
Qed.

Lemma named_key en : named en = true -> JSString.array_index (fst en) = None.
Proof.
  unfold named, is_index.
  destruct (JSString.array_index (fst en)); [ discriminate | reflexivity ].
Qed.

(** A new array index goes among the array indices, before the other
    keys. *)
Lemma insert_index_app n en (indexed others : JS.Map string) :
  forallb is_index indexed = true ->
  forallb named others = true ->
  insert_index n en (indexed ++ others)%list = (insert_index n en indexed ++ others)%list.
Proof.
  intros Hi Ho. induction indexed as [| i indexed IH]; cbn [app insert_index].
  - destruct others as [| o others]; [ reflexivity | ].
    cbn [forallb] in Ho. apply andb_true_iff in Ho as [Ho _].
    cbn [insert_index]. rewrite (named_key o Ho). reflexivity.
  - cbn [forallb] in Hi. apply andb_true_iff in Hi as [Hi Hrest].
    rewrite (is_index_key i Hi).
    destruct (n <? key_index i)%N; [ reflexivity | ].
    rewrite (IH Hrest). reflexivity.
Qed.

Lemma insert_index_perm n en (obj : JS.Map string) :
  Permutation (insert_index n en obj) (en :: obj).
Proof.
  induction obj as [| i obj IH]; cbn [insert_index]; [ apply Permutation_refl | ].
  destruct (JSString.array_index (fst i)) as [m |]; [ | apply Permutation_refl ].
  destruct (n <? m)%N; [ apply Permutation_refl | ].
  apply Permutation_trans with (i :: en :: obj).
  - apply perm_skip. exact IH.
  - apply perm_swap.
Qed.

Lemma insert_index_sorted en (indexed : JS.Map string) :
  forallb is_index indexed = true ->
  StronglySorted by_index indexed ->
  StronglySorted by_index (insert_index (key_index en) en indexed).
Proof.
  intros Hi Hs. induction indexed as [| i indexed IH]; cbn [insert_index].
  - constructor; constructor.
  - cbn [forallb] in Hi. apply andb_true_iff in Hi as [Hi Hrest].
    rewrite (is_index_key i Hi).
    apply StronglySorted_inv in Hs as [Hs Hall].
    destruct (key_index en <? key_index i)%N eqn:E.
    + apply N.ltb_lt in E. constructor.
      * constructor; assumption.
      * constructor; [ unfold by_index; lia | ].
        eapply Forall_impl; [ | exact Hall ].
        intros x Hx. unfold by_index in *. lia.
    + apply N.ltb_ge in E. constructor; [ exact (IH Hrest Hs) | ].
      apply (Permutation_Forall (Permutation_sym (insert_index_perm _ en indexed))).
      constructor; [ exact E | exact Hall ].
Qed.

Lemma filter_all {A} (f : A -> bool) (l : list A) :
  forallb f l = true -> filter f l = l.
Proof.
  induction l as [| x l IH]; cbn [forallb filter]; [ reflexivity | ].
  intros Hall. apply andb_true_iff in Hall as [Hx Hl].
  rewrite Hx, (IH Hl). reflexivity.
Qed.

Lemma filter_holds {A} (f : A -> bool) (l : list A) : forallb f (filter f l) = true.
Proof.
  induction l as [| x l IH]; cbn [filter]; [ reflexivity | ].
  destruct (f x) eqn:E; [ cbn [forallb]; rewrite E, IH; reflexivity | exact IH ].
Qed.

Lemma forallb_perm {A} (f : A -> bool) (l l' : list A) :
  Permutation l l' -> forallb f l = true -> forallb f l' = true.
Proof.
  intros Hp Hall. apply forallb_forall. intros x Hx.
  apply (proj1 (forallb_forall f l) Hall). apply (Permutation_in x (Permutation_sym Hp) Hx).
Qed.

(** The loop of [getInfo] over fields with different keys: the array
    indices end up first, in ascending order, and the other fields after
    them, in the order of the text. *)
Lemma fold_assign (l : list (string * string)) : forall done indexed,
  Permutation indexed (filter is_index done) ->
  StronglySorted by_index indexed ->
  NoDup (List.map fst (done ++ l)) ->
  (forall en, In en l -> String.eqb (fst en) "__proto__" = false) ->
  exists indexed',
    fold_left (fun obj kv => assign (fst kv) (snd kv) obj) l
              (indexed ++ filter named done)%list
      = (indexed' ++ filter named (done ++ l))%list /\
    Permutation indexed' (filter is_index (done ++ l)) /\
    StronglySorted by_index indexed'.
Proof.
  induction l as [| [k v] l IH]; intros done indexed Hperm Hsorted Hnd Hproto.
  - exists indexed. rewrite app_nil_r. cbn [fold_left]. auto.
  - assert (Hidx : forallb is_index indexed = true).
    { apply (forallb_perm is_index _ _ (Permutation_sym Hperm)). apply filter_holds. }
    assert (Hnew : ~ In k (List.map fst done)).
    { rewrite map_app in Hnd. cbn [List.map fst] in Hnd.
      apply NoDup_remove_2 in Hnd. intros Hin. apply Hnd, in_or_app. left. exact Hin. }
    assert (Hfresh : ~ In k (JS.map_keys (indexed ++ filter named done)%list)).
    { unfold JS.map_keys. rewrite map_app. intros Hin. apply Hnew.
      apply in_app_or in Hin as [Hin | Hin]; apply in_map_iff in Hin as (en & <- & Hen);
        apply in_map.
      - apply (Permutation_in en Hperm) in Hen. apply filter_In in Hen. tauto.
      - apply filter_In in Hen. tauto. }
    assert (Hdone : (done ++ (k, v) :: l)%list = ((done ++ [(k, v)]) ++ l)%list)
      by (rewrite <- app_assoc; reflexivity).
    rewrite Hdone in Hnd |- *.
    cbn [fold_left fst snd]. unfold assign at 2.
    pose proof (Hproto (k, v) (or_introl eq_refl)) as Hp. cbn [fst] in Hp.
    rewrite Hp, (MapFacts.map_get_notin k _ Hfresh).
    destruct (JSString.array_index k) as [n |] eqn:Ek.
    + assert (Hi : is_index (k, v) = true) by (unfold is_index; cbn [fst]; rewrite Ek; reflexivity).
      assert (Hn : key_index (k, v) = n) by (unfold key_index; cbn [fst]; rewrite Ek; reflexivity).
      rewrite (insert_index_app n (k, v) indexed (filter named done) Hidx (filter_holds named done)).
      assert (Hnamed : filter named (done ++ [(k, v)]) = filter named done).
      { rewrite filter_app. cbn [filter]. unfold named at 2. rewrite Hi. cbn [negb].
        apply app_nil_r. }
      rewrite <- Hnamed.
      apply (IH (done ++ [(k, v)])%list (insert_index n (k, v) indexed)).
      * rewrite filter_app. cbn [filter]. rewrite Hi.
        apply Permutation_trans with ((k, v) :: indexed); [ apply insert_index_perm | ].
        apply Permutation_trans with ((k, v) :: filter is_index done);
          [ apply perm_skip; exact Hperm | apply Permutation_cons_append ].
      * rewrite <- Hn. apply insert_index_sorted; assumption.
      * exact Hnd.
      * intros en Hen. apply Hproto. right. exact Hen.
    + assert (Hi : is_index (k, v) = false) by (unfold is_index; cbn [fst]; rewrite Ek; reflexivity).
      rewrite (MapFacts.map_set_new k v _ Hfresh).
      assert (Hnamed : filter named (done ++ [(k, v)]) = (filter named done ++ [(k, v)])%list).
      { rewrite filter_app. cbn [filter]. unfold named at 2. rewrite Hi. reflexivity. }
      rewrite <- app_assoc, <- Hnamed.
      apply (IH (done ++ [(k, v)])%list indexed).
      * rewrite filter_app. cbn [filter]. rewrite Hi, app_nil_r. exact Hperm.
      * exact Hsorted.
      * exact Hnd.
      * intros en Hen. apply Hproto. right. exact Hen.
Qed.

(** X19.  [getInfo] reads the fields of the [INFO] text.  When a
    connected client receives a text made of lines separated by CR LF,
    each line either a field [key:value] or a line without a colon (a
    section title, an empty line), with distinct keys none of which is
    [__proto__], [getInfo] returns the object whose properties are the
    fields, keys and values as they stand; the other lines are skipped,
    and the statistics are left as they are.  The object enumerates its
    properties as JavaScript objects do: first the fields whose keys are
    array indices (as [0], [2] or [10]), in ascending numeric order, then
    the other fields in the order of the text.  With no array index among
    the keys, that is the order of the text. *)
Theorem getInfo_reads_the_fields (e : env) (ls : list info_entry) lat :
  unavailable (this e) = false ->
  forallb well_formed_entry ls = true ->
  NoDup (List.map fst (fields ls)) ->
  exists obj indexed e',
    getInfo (JS.mkReply lat (JS.Resolved (info_text ls))) e
      = (JS.Normal (Some obj), e') /\
    stats (this e') = stats (this e) /\
    obj = (indexed ++ filter named (fields ls))%list /\
    Permutation indexed (filter is_index (fields ls)) /\
    StronglySorted by_index indexed /\
    (forallb named (fields ls) = true -> obj = fields ls).
Proof.
  intros Hav Hall Hnd.
  destruct (fold_assign (fields ls) [] [] (Permutation_refl _)
              (SSorted_nil _) Hnd (fields_not_proto ls Hall))
    as (indexed & Hfold & Hperm & Hsorted).
  cbn [app filter] in Hfold, Hperm.
  assert (Hobj : fold_left info_line
                   (JSString.split JSString.CRLF (info_text ls)) []
                 = (indexed ++ filter named (fields ls))%list).
  { rewrite (split_lines ls Hall).
    destruct ls as [| l ls]; [ | rewrite (fold_info_lines (l :: ls) [] Hall); exact Hfold ].
    cbn [fields] in Hperm. apply Permutation_sym, Permutation_nil in Hperm.
    subst indexed. reflexivity. }
  destruct e as [r0 s]. cbn [this] in Hav.
  unfold getInfo. Client.client_run. rewrite Hav.
  cbv beta iota delta [JS.latency JS.result]. rewrite Hobj.
  eexists. exists indexed. eexists.
  split; [ reflexivity | ]. split; [ reflexivity | ]. split; [ reflexivity | ].
  split; [ exact Hperm | ]. split; [ exact Hsorted | ].
  intros Hnamed.
  assert (Hnone : filter is_index (fields ls) = []).
  { clear - Hnamed. induction (fields ls) as [| en l IH]; [ reflexivity | ].
    cbn [forallb] in Hnamed. apply andb_true_iff in Hnamed as [Hen Hl].
    cbn [filter]. unfold named in Hen. apply negb_true_iff in Hen. rewrite Hen.
    exact (IH Hl). }
  rewrite Hnone in Hperm. apply Permutation_sym, Permutation_nil in Hperm.
  subst indexed. cbn [app]. apply filter_all. exact Hnamed.
Qed.

(** A value with a colon in it is cut short, and a later field of the
    same key replaces the value in place. *)
Example getInfo_cuts_at_the_second_colon :
  fst (getInfo (JS.mkReply 0 (JS.Resolved
         (JSString.join JSString.CRLF
            ["# Server"; "bind:::1"; "port:6379"; "bind:127.0.0.1"; EmptyString])))
         connected_client)
    = JS.Normal (Some [("bind", "127.0.0.1"); ("port", "6379")]).
Proof. vm_compute. reflexivity. Qed.

(** Keys that are array indices come first, whatever their place in the
    text; [007] and [4294967295] are no array indices. *)
Example getInfo_puts_array_indices_first :
  fst (getInfo (JS.mkReply 0 (JS.Resolved
         (JSString.join JSString.CRLF
            ["b:x"; "10:y"; "007:u"; "2:z"; "4294967295:w"; "0:v"])))
         connected_client)
    = JS.Normal (Some [("0", "v"); ("2", "z"); ("10", "y"); ("b", "x");
                       ("007", "u"); ("4294967295", "w")]).
Proof. vm_compute. reflexivity. Qed.

Lemma getInfo_reads_the_fields_witness :
  (exists e',
     getInfo (JS.mkReply 0 (JS.Resolved
                (info_text [Other "# Server"; Field "redis_version" "7.2.4";
                            Field "tcp_port" "6379"; Other EmptyString])))
             connected_client
       = (JS.Normal (Some [("redis_version", "7.2.4"); ("tcp_port", "6379")]), e') /\
     stats (this e') = stats (this connected_client)) /\
  (exists e',
     getInfo (JS.mkReply 0 (JS.Resolved
                (info_text [Field "b" "x"; Field "10" "y"; Field "2" "z"])))
             connected_client
       = (JS.Normal (Some [("2", "z"); ("10", "y"); ("b", "x")]), e')).
Proof.
  split.
  - destruct (getInfo_reads_the_fields connected_client
                [Other "# Server"; Field "redis_version" "7.2.4";
                 Field "tcp_port" "6379"; Other EmptyString] 0%N)
      as (obj & indexed & e' & Hget & Hstats & _ & _ & _ & Htext).
    + reflexivity.
    + reflexivity.
    + apply MemoryTier.distinct_NoDup. reflexivity.
    + exists e'. rewrite Hget, (Htext eq_refl). split; [ reflexivity | exact Hstats ].
  - destruct (getInfo_reads_the_fields connected_client
                [Field "b" "x"; Field "10" "y"; Field "2" "z"] 0%N)
      as (obj & indexed & e' & Hget & _).
    + reflexivity.
    + reflexivity.
    + apply MemoryTier.distinct_NoDup. reflexivity.
    + exists e'. rewrite Hget. f_equal.
      assert (Hval : fst (getInfo (JS.mkReply 0 (JS.Resolved
                            (info_text [Field "b" "x"; Field "10" "y"; Field "2" "z"])))
                            connected_client)
                     = JS.Normal (Some [("2", "z"); ("10", "y"); ("b", "x")]))
        by (vm_compute; reflexivity).
      rewrite Hget in Hval. exact Hval.
Defined.

End Info.

(** *** [CacheManager]: reading and evicting *)

Module Manager.
Import CacheManager.

Unset Implicit Arguments.

Ltac manager_run :=
  cbv beta iota delta
    [JS.bind JS.ret JS.gets JS.modify Date_now upd set_memoryCache set_stats
     set_total set_memoryCacheStats incr_requests incr_hits incr_misses
     incr_evictionCount rt this memoryCache config stats cleanupTimer].

Section WithValue.
Context {value : Type}.

(** The loop of [evictLeastRecentlyUsed] counts what it deletes and
    touches nothing else. *)
Lemma evict_each_counts keys : forall (e : env (value := value)),
  evict_each keys e
    = (JS.Normal tt,
       set_memoryCacheStats
         (fun ms => mkMemory (size ms) (memoryHitRate ms) (memoryMissRate ms)
                             (evictionCount ms + Z.of_nat (List.length keys)))
         (set_memoryCache (JS.delete_all keys) e)).
Proof.
  induction keys as [| key rest IH]; intros e.
  - destruct e as [r [m cfg [[sz mh mm ec] rs tot] ct]].
    cbn [evict_each List.length]. manager_run. cbn [JS.delete_all fold_left].
    cbv beta iota delta [memoryCacheStats redisCacheStats total size
                         memoryHitRate memoryMissRate evictionCount].
    replace (ec + Z.of_nat 0) with ec by lia. reflexivity.
  - cbn [evict_each]. unfold delete. js_run. rewrite IH.
    destruct e as [r [m cfg [[sz mh mm ec] rs tot] ct]]. manager_run.
    cbv beta iota delta [memoryCacheStats redisCacheStats total size
                         memoryHitRate memoryMissRate evictionCount].
    cbn [JS.delete_all fold_left List.length].
    replace (ec + 1 + Z.of_nat (List.length rest))
      with (ec + Z.of_nat (S (List.length rest))) by lia.
    reflexivity.
Qed.

(** X20.  The eviction pass of [CacheManager] deletes the fifth of the
    entries that was accessed longest ago.  On a map with distinct keys,
    [evictLeastRecentlyUsed] deletes [ceil(n * 0.2)] of the [n] entries
    (one entry already when [n] is 1), every deleted entry has a
    [lastAccessed] no later than every entry that is kept, the entries
    kept are as they were, [evictionCount] goes up by the number deleted,
    and the request counters are not touched. *)
Theorem eviction_pass_drops_the_oldest_fifth (e : env (value := value)) :
  NoDup (JS.map_keys (memoryCache (this e))) ->
  exists e',
    evictLeastRecentlyUsed e = (JS.Normal tt, e') /\
    let before := memoryCache (this e) in
    let after := memoryCache (this e') in
    let evicted := Nat.div (List.length before + 4) 5 in
    (List.length after + evicted = List.length before)%nat /\
    (forall en en',
       In en before -> ~ In en after -> In en' after ->
       lastAccessed (snd en) <= lastAccessed (snd en')) /\
    (forall en, In en after -> In en before) /\
    evictionCount (memoryCacheStats (stats (this e')))
      = evictionCount (memoryCacheStats (stats (this e))) + Z.of_nat evicted /\
    total (stats (this e')) = total (stats (this e)).
Proof.
  intros Hnd.
  pose proof (OlderManager.manager_evicts_oldest_fifth e Hnd) as Hold.
  cbv zeta in Hold.
  set (f := fun en : string * CacheItem (value := value) => lastAccessed (snd en)).
  set (m := memoryCache (this e)) in *.
  set (n := Nat.div (List.length (JS.sort_by f m) + 4) 5).
  set (keys := List.map fst (firstn n (JS.sort_by f m))).
  assert (Hrun : evictLeastRecentlyUsed e = evict_each keys e).
  { unfold evictLeastRecentlyUsed. js_run. reflexivity. }
  rewrite Hrun, evict_each_counts in *. eexists. split; [ reflexivity | ].
  cbv zeta. cbn [snd] in Hold.
  change (memoryCache (this (set_memoryCacheStats _ (set_memoryCache _ e))))
    with (JS.delete_all keys m) in *.
  destruct Hold as [Hlen Hage].
  split; [ exact Hlen | ]. split; [ exact Hage | ].
  split.
  { intros en Hen. apply MapFacts.delete_all_in in Hen. tauto. }
  assert (Hn : (n <= List.length (JS.sort_by f m))%nat).
  { unfold n. pose proof (Nat.div_mod_eq (List.length (JS.sort_by f m) + 4) 5).
    pose proof (Nat.mod_upper_bound (List.length (JS.sort_by f m) + 4) 5).
    destruct (List.length (JS.sort_by f m)); [ reflexivity | lia ]. }
  assert (Hk : List.length keys = Nat.div (List.length m + 4) 5).
  { unfold keys. rewrite length_map, length_firstn, Nat.min_l by exact Hn.
    unfold n. rewrite SortFacts.sort_by_length. reflexivity. }
  split.
  - destruct e as [r [m0 cfg [[sz mh mm ec] rs tot] ct]]. manager_run.
    cbv beta iota delta [memoryCacheStats evictionCount].
    rewrite Hk. reflexivity.
  - destruct e as [r [m0 cfg [ms rs tot] ct]]. reflexivity.
Qed.

(** X21.  [CacheManager.get] skips an expired entry and never deletes.
    For a key that has an entry, [get] returns the data while
    [now - timestamp <= ttl] (the TTL in milliseconds, the bound
    included) and [null] afterwards; either way it counts one request,
    and a hit or a miss; and the keys of the map are the same afterwards:
    an expired entry stays in the map, unchanged, for the sweep or the
    eviction pass to delete. *)
Theorem manager_get_skips_but_never_deletes (e : env (value := value)) key item :
  JS.map_get key (memoryCache (this e)) = Some item ->
  exists e',
    get key e
      = (JS.Normal (if ttl item <? JS.clock (rt e) - timestamp item
                    then None else Some (data item)), e') /\
    JS.map_keys (memoryCache (this e')) = JS.map_keys (memoryCache (this e)) /\
    requests (total (stats (this e'))) = requests (total (stats (this e))) + 1 /\
    (if ttl item <? JS.clock (rt e) - timestamp item
     then memoryCache (this e') = memoryCache (this e) /\
          misses (total (stats (this e'))) = misses (total (stats (this e))) + 1 /\
          hits (total (stats (this e'))) = hits (total (stats (this e)))
     else JS.map_get key (memoryCache (this e'))
            = Some (mkItem (data item) (timestamp item) (ttl item)
                           (accessCount item + 1) (JS.clock (rt e))) /\
          hits (total (stats (this e'))) = hits (total (stats (this e))) + 1 /\
          misses (total (stats (this e'))) = misses (total (stats (this e)))).
Proof.
  intros Hg. destruct e as [r [m cfg [ms rs [rq hi mi hr]] ct]].
  cbn [this memoryCache rt stats total requests hits misses] in *.
  unfold get, isExpired. manager_run. rewrite Hg. manager_run.
  destruct (ttl item <? JS.clock r - timestamp item).
  - cbv beta iota delta [negb]. manager_run. eexists. repeat split.
  - cbv beta iota delta [negb]. unfold updateAccessStats, calculateHitRate.
    manager_run.
    cbv beta iota delta [total requests memoryCacheStats].
    assert (Hin : In key (JS.map_keys m))
      by (eapply MapFacts.map_get_some_key; exact Hg).
    destruct (rq + 1 =? 0); eexists;
      (split; [ reflexivity | ]);
      (split; [ apply MapFacts.map_set_keys_old; exact Hin | ]);
      (split; [ reflexivity | ]);
      (split; [ apply MapFacts.map_get_set_same | split; reflexivity ]).
Qed.

End WithValue.

Lemma eviction_pass_drops_the_oldest_fifth_witness :
  exists e',
    evictLeastRecentlyUsed Fixture.older = (JS.Normal tt, e') /\
    JS.map_keys (memoryCache (this e'))
      = ["a"%string; "c"%string; "e"%string; "f"%string] /\
    evictionCount (memoryCacheStats (stats (this e'))) = 2.
Proof.
  destruct (eviction_pass_drops_the_oldest_fifth Fixture.older)
    as (e' & Hrun & _ & _ & _ & Hcount & _).
  - apply MemoryTier.distinct_NoDup. reflexivity.
  - exists e'. split; [ exact Hrun | ]. split; [ | exact Hcount ].
    assert (He : e' = snd (evictLeastRecentlyUsed Fixture.older))
      by (rewrite Hrun; reflexivity).
    rewrite He. vm_compute. reflexivity.
Defined.

Lemma manager_get_skips_but_never_deletes_witness :
  exists e',
    get "d"%string Fixture.older = (JS.Normal (Some "4"%string), e') /\
    JS.map_keys (memoryCache (this e')) = JS.map_keys (memoryCache (this Fixture.older)).
Proof.
  destruct (manager_get_skips_but_never_deletes Fixture.older "d"%string
              (mkItem "4"%string 40000 60000 0 40000))
    as (e' & Hget & Hkeys & _).
  - reflexivity.
  - exists e'. split; [ exact Hget | exact Hkeys ].
Defined.

End Manager.

(** *** The hook [useModelCache], a caller of the facade *)

Module Hooks.
Import EnhancedCacheManager.
Import Spec.
Import FacadeSpec.

Module U := UseModelCache.

Unset Implicit Arguments.

Ltac hook_run :=
  cbv beta iota delta
    [JS.bind JS.ret JS.gets JS.modify JS.throw JS.try_catch JS.zoom
     U.on_cache U.setCacheStatus U.new_Date U.await U.fetch
     U.cacheManager U.cacheStatus U.network U.ok U.status U.json
     U.loading U.error U.lastUpdated
     JS.latency JS.result Date_now].

Section WithModel.
Context {model : Type} `{Json (list model)}.

(** The first part of [getCachedModels], when the cache has nothing
    live under the key and no remote tier. *)
Lemma getCachedModels_miss (e : U.env (model := model)) rg rf rs :
  remoteActive (this (U.cacheManager e)) = false ->
  live (U.cacheManager e) U.cacheKey = None ->
  exists c1,
    get U.cacheKey rg (U.cacheManager e) = (JS.Normal None, c1) /\
    memoryCache (this c1) = memoryCache (this (U.cacheManager e)) /\
    same_setup (U.cacheManager e) c1 /\
    U.getCachedModels rg rf rs e
      = JS.try_catch
          (models <- U.fetchModels rf ;;
           U.on_cache (set U.cacheKey models (Some 300) rs) ;;;
           now <- U.new_Date ;;
           U.setCacheStatus
             (fun prev => U.mkStatus false (U.error prev) (Some now)) ;;;
           JS.ret models)
          (fun errorMessage =>
             U.setCacheStatus
               (fun prev => U.mkStatus false (Some errorMessage)
                                       (U.lastUpdated prev)) ;;;
             JS.throw errorMessage)
          (U.mkEnv c1 (U.mkStatus true None (U.lastUpdated (U.cacheStatus e)))
                   (U.network e)).
Proof.
  intros Ha Hl.
  destruct (Reads.miss (U.cacheManager e) U.cacheKey rg Hl Ha)
    as (c1 & Hget & Hm & Hs & _).
  exists c1. split; [ exact Hget | ]. split; [ exact Hm | ]. split; [ exact Hs | ].
  destruct e as [c st net]. cbn [U.cacheManager U.cacheStatus U.network] in *.
  unfold U.getCachedModels.
  cbv beta iota delta [JS.try_catch JS.bind JS.modify U.setCacheStatus
                       U.on_cache JS.zoom U.cacheManager U.cacheStatus U.network].
  rewrite Hget. reflexivity.
Qed.

(** [fetchModels] when the service answers with a list. *)
Lemma fetchModels_ok (c : env (value := list model)) st net lat code lat2 em ms :
  U.fetchModels
    (JS.mkReply lat
       (JS.Resolved
          (U.mkResponse true code
             (JS.mkReply lat2 (JS.Resolved (U.mkBody true em (Some ms)))))))
    (U.mkEnv c st net)
  = (JS.Normal ms,
     U.mkEnv (set_rt (JS.advance lat2) (set_rt (JS.advance lat) c)) st
             (net ++ ["/api/models"%string])).
Proof. reflexivity. Qed.

(** The entry that [getCachedModels] writes is live for 300 seconds. *)
Lemma cached_models_live (c : env (value := list model)) ms rs d :
  memory_only_in_order c ->
  enableMemoryCache (config (this c)) = true ->
  Z.of_N d <= 300000 ->
  exists c',
    set U.cacheKey ms (Some 300) rs c = (JS.Normal tt, c') /\
    JS.clock (rt c') = JS.clock (rt c) /\
    remoteActive (this c') = false /\
    live (set_rt (JS.advance d) c') U.cacheKey
      = Some (mkItem ms (JS.clock (rt c)) 300 0 (JS.clock (rt c))).
Proof.
  intros (Ha & Hwf & Hlim & _) Hen Hd.
  destruct (Writes.set_memory_only c U.cacheKey ms (Some 300) Ha) as [_ Hs].
  eexists. split; [ apply Hs | ]. split; [ reflexivity | ].
  split; [ exact Ha | ].
  unfold live.
  match goal with
  | |- context [ config (this (set_rt _ (set_memoryCache _ c))) ] =>
      change (config (this (set_rt (JS.advance d)
                (set_memoryCache
                   (fun _ => memory_after_set c U.cacheKey ms (Some 300)) c))))
        with (config (this c))
  end.
  rewrite Hen.
  change (memoryCache (this (set_rt (JS.advance d)
            (set_memoryCache
               (fun _ => memory_after_set c U.cacheKey ms (Some 300)) c))))
    with (memory_after_set c U.cacheKey ms (Some 300)).
  rewrite (MemoryTier.written_survives U.cacheKey ms (Some 300) Hen Hwf Hlim).
  unfold written, effective_ttl. cbn [ttl timestamp].
  change (JS.clock (rt (set_rt (JS.advance d)
            (set_memoryCache
               (fun _ => memory_after_set c U.cacheKey ms (Some 300)) c))))
    with (JS.clock (rt c) + Z.of_N d).
  destruct (300 * 1000 <? JS.clock (rt c) + Z.of_N d - JS.clock (rt c)) eqn:E;
    [ | reflexivity ].
  apply Z.ltb_lt in E. lia.
Qed.

(** X22.  The models are fetched once and then served from the cache
    for five minutes.  From a cache with no remote tier whose memory tier
    is enabled and in order and holds nothing live under [models:all]:
    when [/api/models] answers with a list of models, [getCachedModels]
    returns the list (also an empty one), has made one request, and leaves
    [cacheStatus] not loading, without error, and updated at the time of
    the answer.  A call of [getCachedModels] up to 300000 ms later returns
    the same list and makes no request, whatever the service would
    answer. *)
Theorem models_are_fetched_once_in_five_minutes
  (e : U.env (model := model)) rg rs lat code lat2 em ms d rg' rf' rs' :
  memory_only_in_order (U.cacheManager e) ->
  enableMemoryCache (config (this (U.cacheManager e))) = true ->
  live (U.cacheManager e) U.cacheKey = None ->
  Z.of_N d <= 300000 ->
  exists e1 e2,
    U.getCachedModels rg
      (JS.mkReply lat
         (JS.Resolved
            (U.mkResponse true code
               (JS.mkReply lat2 (JS.Resolved (U.mkBody true em (Some ms)))))))
      rs e = (JS.Normal ms, e1) /\
    U.network e1 = U.network e ++ ["/api/models"%string] /\
    U.cacheStatus e1
      = U.mkStatus false None
          (Some (JS.clock (rt (U.cacheManager e)) + Z.of_N lat + Z.of_N lat2)) /\
    U.getCachedModels rg' rf' rs' (U.later d e1) = (JS.Normal ms, e2) /\
    U.network e2 = U.network e1.
Proof.
  intros Hio Hen Hl Hd.
  pose proof Hio as (Ha & _).
  destruct (getCachedModels_miss e rg
              (JS.mkReply lat
                 (JS.Resolved
                    (U.mkResponse true code
                       (JS.mkReply lat2 (JS.Resolved (U.mkBody true em (Some ms)))))))
              rs Ha Hl) as (c1 & Hget & Hm1 & Hs1 & Hcall).
  rewrite Hcall. clear Hcall.
  assert (Hio1 : memory_only_in_order c1).
  { pose proof (Reachable.get_in_order (U.cacheManager e) U.cacheKey rg Hio) as H1.
    rewrite Hget in H1. exact H1. }
  set (c2 := set_rt (JS.advance lat2) (set_rt (JS.advance lat) c1)).
  assert (Hio2 : memory_only_in_order c2).
  { apply Reachable.elapse_in_order. apply Reachable.elapse_in_order. exact Hio1. }
  assert (Hen2 : enableMemoryCache (config (this c2)) = true).
  { destruct Hs1 as (_ & _ & Hcfg & _).
    change (config (this c2)) with (config (this c1)). rewrite Hcfg. exact Hen. }
  destruct (cached_models_live c2 ms rs d Hio2 Hen2 Hd)
    as (c3 & Hset & Hclock & Ha3 & Hlive).
  assert (Hnow : JS.clock (rt c3)
                 = JS.clock (rt (U.cacheManager e)) + Z.of_N lat + Z.of_N lat2).
  { rewrite Hclock. destruct Hs1 as (Hrt & _).
    change (JS.clock (rt c2)) with (JS.clock (rt c1) + Z.of_N lat + Z.of_N lat2).
    rewrite Hrt. reflexivity. }
  assert (Hfirst :
    JS.try_catch
      (models <- U.fetchModels
                   (JS.mkReply lat
                      (JS.Resolved
                         (U.mkResponse true code
                            (JS.mkReply lat2
                               (JS.Resolved (U.mkBody true em (Some ms))))))) ;;
       U.on_cache (set U.cacheKey models (Some 300) rs) ;;;
       now <- U.new_Date ;;
       U.setCacheStatus (fun prev => U.mkStatus false (U.error prev) (Some now)) ;;;
       JS.ret models)
      (fun errorMessage =>
         U.setCacheStatus
           (fun prev => U.mkStatus false (Some errorMessage) (U.lastUpdated prev)) ;;;
         JS.throw errorMessage)
      (U.mkEnv c1 (U.mkStatus true None (U.lastUpdated (U.cacheStatus e)))
               (U.network e))
    = (JS.Normal ms,
       U.mkEnv c3 (U.mkStatus false None (Some (JS.clock (rt c3))))
               (U.network e ++ ["/api/models"%string]))).
  { unfold JS.try_catch, JS.bind. rewrite fetchModels_ok. fold c2.
    unfold U.on_cache, JS.zoom. cbn [U.cacheManager]. rewrite Hset.
    reflexivity. }
  rewrite Hfirst. rewrite Hnow.
  set (e1 := U.mkEnv c3
               (U.mkStatus false None
                  (Some (JS.clock (rt (U.cacheManager e)) + Z.of_N lat + Z.of_N lat2)))
               (U.network e ++ ["/api/models"%string])).
  destruct (Reads.hit (set_rt (JS.advance d) c3) U.cacheKey rg'
              (mkItem ms (JS.clock (rt c2)) 300 0 (JS.clock (rt c2))) Hlive)
    as (c4 & Hget2 & _).
  exists e1. eexists. split; [ reflexivity | ].
  split; [ reflexivity | ]. split; [ reflexivity | ].
  split.
  - unfold U.getCachedModels, U.later, e1.
    cbv beta iota delta [JS.try_catch JS.bind JS.modify U.setCacheStatus
                         U.on_cache JS.zoom U.cacheManager U.cacheStatus U.network].
    rewrite Hget2. cbn [data]. reflexivity.
  - reflexivity.
Qed.

(** What [fetchModels] does, whatever the service answers: one request,
    and nothing but time passing in the cache. *)
Lemma fetchModels_effect (c : env (value := list model)) st net rf :
  exists out c',
    U.fetchModels rf (U.mkEnv c st net)
      = (out, U.mkEnv c' st (net ++ ["/api/models"%string])) /\
    memoryCache (this c') = memoryCache (this c) /\
    config (this c') = config (this c) /\
    remoteActive (this c') = remoteActive (this c) /\
    JS.clock (rt c) <= JS.clock (rt c').
Proof.
  destruct rf as [lat [[ok code [lat2 [[su em dt] | err2]]] | err]];
    unfold U.fetchModels; hook_run; cbn [U.ok U.json JS.latency JS.result];
    try (destruct ok; cbv beta iota delta [negb]; hook_run);
    try (destruct su; [ destruct dt | destruct em as [[| ch msg] |] ]);
    eexists; eexists; (split; [ reflexivity | ]);
    destruct c as [[clk nx pd] ri s]; cbn; repeat split; lia.
Qed.

(** X23.  [refreshModelCache] always asks the service, and a failure
    leaves nothing cached.  With no remote tier, whatever the cache held:
    the call makes exactly one request to [/api/models].  When that fails
    (the request is rejected, the status is not ok, the body does not
    parse or says [success: false]), the call throws the error,
    [cacheStatus.error] is its message with [loading] false, and the
    cache holds nothing under [models:all], so that the next
    [getCachedModels] asks again. *)
Theorem refreshModelCache_always_asks_the_service
  (e : U.env (model := model)) rd rg rf rs :
  remoteActive (this (U.cacheManager e)) = false ->
  exists out e',
    U.refreshModelCache rd rg rf rs e = (out, e') /\
    U.network e' = U.network e ++ ["/api/models"%string] /\
    match out with
    | JS.Normal ms =>
        U.cacheStatus e'
          = U.mkStatus false None (Some (JS.clock (rt (U.cacheManager e'))))
    | JS.Throw message =>
        U.cacheStatus e' = U.mkStatus false (Some message) None /\
        reads (U.cacheManager e') U.cacheKey = None
    end.
Proof.
  intros Ha. destruct e as [c st net].
  cbn [U.cacheManager U.cacheStatus U.network] in *.
  destruct (Writes.delete_then_get_is_a_miss_state c U.cacheKey rd Ha)
    as (c0 & Hdel & Ha0 & Hl0).
  destruct (Reads.miss c0 U.cacheKey rg Hl0 Ha0) as (c1 & Hget & Hm1 & Hs1 & _).
  assert (Hl1 : live c1 U.cacheKey = None).
  { destruct Hs1 as (Hrt & _ & Hcfg & _). unfold live in *.
    rewrite Hcfg, Hrt, Hm1. exact Hl0. }
  assert (Ha1 : remoteActive (this c1) = false).
  { destruct Hs1 as (_ & _ & _ & Hrc & Hbt & _).
    unfold remoteActive in *. rewrite Hrc, Hbt. exact Ha0. }
  destruct (fetchModels_effect c1 (U.mkStatus true None None) net rf)
    as (out & c2 & Hfetch & Hm2 & Hcfg2 & Ha2 & Hclk).
  rewrite Ha1 in Ha2.
  unfold U.refreshModelCache, U.invalidateModelCache, U.getCachedModels.
  cbv beta iota delta [JS.try_catch JS.bind JS.modify U.setCacheStatus
                       U.on_cache JS.zoom U.cacheManager U.cacheStatus U.network
                       U.loading U.error U.lastUpdated].
  rewrite Hdel. cbv beta iota. rewrite Hget. cbv beta iota. rewrite Hfetch.
  destruct out as [ms | message].
  - destruct (Writes.set_memory_only c2 U.cacheKey ms (Some 300) Ha2) as [_ Hset].
    rewrite (Hset rs). hook_run. eexists. eexists.
    split; [ reflexivity | ]. split; reflexivity.
  - hook_run. eexists. eexists. split; [ reflexivity | ].
    split; [ reflexivity | ]. split; [ reflexivity | ].
    unfold reads, live. cbn [U.cacheManager].
    rewrite Hcfg2, Hm2.
    unfold live in Hl1.
    destruct (enableMemoryCache (config (this c1))); [ | reflexivity ].
    destruct (JS.map_get U.cacheKey (memoryCache (this c1))) as [item |];
      [ | reflexivity ].
    destruct (ttl item * 1000 <? JS.clock (rt c1) - timestamp item) eqn:E;
      [ | discriminate ].
    apply Z.ltb_lt in E.
    destruct (ttl item * 1000 <? JS.clock (rt c2) - timestamp item) eqn:E2;
      [ reflexivity | ].
    apply Z.ltb_ge in E2. lia.
Qed.

End WithModel.

Lemma models_are_fetched_once_in_five_minutes_witness :
  exists e1 e2,
    U.getCachedModels Fixture.absent Fixture.two_models Fixture.done Fixture.hook
      = (JS.Normal ["gpt-4o"%string; "qwen-max"%string], e1) /\
    U.network e1 = ["/api/models"%string] /\
    U.cacheStatus e1 = U.mkStatus false None (Some 125) /\
    U.getCachedModels Fixture.absent Fixture.unavailable_service Fixture.done
      (U.later 300000 e1)
      = (JS.Normal ["gpt-4o"%string; "qwen-max"%string], e2) /\
    U.network e2 = U.network e1.
Proof.
  apply (models_are_fetched_once_in_five_minutes Fixture.hook Fixture.absent
           Fixture.done 120%N 200 5%N None ["gpt-4o"%string; "qwen-max"%string]
           300000%N Fixture.absent Fixture.unavailable_service Fixture.done).
  - apply (Reachable.create_in_order 0 defaultConfig).
  - reflexivity.
  - reflexivity.
  - simpl. lia.
Defined.

Lemma refreshModelCache_always_asks_the_service_witness :
  exists e',
    U.refreshModelCache Fixture.done Fixture.absent Fixture.unavailable_service
      Fixture.done Fixture.hook
      = (JS.Throw "HTTP error! status: 503"%string, e') /\
    U.network e' = ["/api/models"%string] /\
    U.cacheStatus e'
      = U.mkStatus false (Some "HTTP error! status: 503"%string) None.
Proof.
  destruct (refreshModelCache_always_asks_the_service Fixture.hook Fixture.done
              Fixture.absent Fixture.unavailable_service Fixture.done)
    as (out & e' & Hrun & Hnet & Hout).
  - reflexivity.
  - assert (Hval : U.refreshModelCache Fixture.done Fixture.absent
                     Fixture.unavailable_service Fixture.done Fixture.hook
                   = (JS.Throw "HTTP error! status: 503"%string,
                      snd (U.refreshModelCache Fixture.done Fixture.absent
                             Fixture.unavailable_service Fixture.done Fixture.hook)))
      by (vm_compute; reflexivity).
    rewrite Hval in Hrun. injection Hrun as <- <-.
    eexists. split; [ exact Hval | ]. split; [ exact Hnet | ].
    exact (proj1 Hout).
Defined.

End Hooks.
(** *** The error handler *)

Module Handler.
Import ErrorTypes.
Import ErrorHandler.
Import HandlerSpec.

Unset Implicit Arguments.

Lemma prefix_app (p q s : string) :
  String.prefix (p ++ q) s = true -> String.prefix p s = true.
Proof.
  revert s. induction p as [| c p IH]; intros s.
  - destruct s; reflexivity.
  - destruct s as [| d s]; cbn [String.append String.prefix]; [ discriminate | ].
    destruct (Ascii.ascii_dec c d); [ apply IH | discriminate ].
Qed.

(** A text that holds a needle holds the beginning of the needle. *)
Lemma includes_app (p q s : string) :
  JSString.includes (p ++ q) s = true -> JSString.includes p s = true.
Proof.
  induction s as [| d s IH]; cbn [JSString.includes].
  - rewrite !orb_false_r. apply prefix_app.
  - intros Hi. apply orb_true_iff in Hi as [Hp | Hr]; apply orb_true_iff.
    + left. apply (prefix_app p q). exact Hp.
    + right. apply IH. exact Hr.
Qed.

(** Membership in a list that is written out. *)
Ltac member := solve [ cbn [In]; repeat (first [ left; reflexivity | right ]) ].

Section WithLowerCase.
Variable toLowerCase : string -> string.

(** X24.  [mapErrorToCode] never answers [DUPLICATE_ASSISTANT_NAME].
    Whatever the name and the message of the error, and whatever
    [toLowerCase] makes of them, the code is one of the 28 others that the
    function returns.  A message that holds "duplicate assistant" holds
    "duplicate", which is tested first: such an error gets
    [DUPLICATE_RECORD] or one of the seven codes tested before it, and the
    last test of the function cannot succeed. *)
Theorem mapErrorToCode_never_gives_duplicate_assistant_name (name message : string) :
  In (mapErrorToCode toLowerCase name message) mapped_codes /\
  mapErrorToCode toLowerCase name message <> DUPLICATE_ASSISTANT_NAME /\
  (JSString.includes "duplicate assistant" (toLowerCase message) = true ->
   JSString.includes "duplicate" (toLowerCase message) = true /\
   In (mapErrorToCode toLowerCase name message)
      [NETWORK_ERROR; TIMEOUT_ERROR; CONNECTION_REFUSED; DNS_RESOLUTION_FAILED;
       DATABASE_CONNECTION_ERROR; DATABASE_QUERY_FAILED; RECORD_NOT_FOUND;
       DUPLICATE_RECORD]).
Proof.
  assert (Hdup : JSString.includes "duplicate assistant" (toLowerCase message) = true ->
                 JSString.includes "duplicate" (toLowerCase message) = true).
  { apply (includes_app "duplicate" " assistant"). }
  unfold mapErrorToCode, mapped_codes. cbv zeta.
  repeat match goal with
         | |- context [ if ?c then _ else _ ] => destruct c eqn:?
         end;
    try (exfalso; discriminate (Hdup eq_refl));
    (split; [ member | ]);
    (split; [ discriminate | ]);
    intros Hd;
    first [ discriminate Hd
          | discriminate (Hdup Hd)
          | split; [ first [ reflexivity | exact (Hdup Hd) ] | member ] ].
Qed.

End WithLowerCase.

(** Two codes with the same text are the same code: the maps of the
    handler, keyed by the texts, keep the codes apart. *)
Lemma code_name_injective (a b : ErrorCode) : code_name a = code_name b -> a = b.
Proof.
  intros H.
  assert (Hb : code_eqb a b = true) by (unfold code_eqb; rewrite H; apply String.eqb_refl).
  clear H. destruct a; destruct b; first [ reflexivity | vm_compute in Hb; discriminate Hb ].
Qed.

Lemma code_eqb_refl (c : ErrorCode) : code_eqb c c = true.
Proof. unfold code_eqb. apply String.eqb_refl. Qed.

Lemma code_eqb_neq (a b : ErrorCode) : a <> b -> code_eqb a b = false.
Proof.
  intros Hne. unfold code_eqb. apply String.eqb_neq. intros H.
  apply Hne, code_name_injective, H.
Qed.

Lemma occurrences_nil (c : ErrorCode) : occurrences c [] = 0.
Proof. reflexivity. Qed.

Lemma occurrences_snoc_same (c : ErrorCode) (codes : list ErrorCode) :
  occurrences c (codes ++ [c]) = occurrences c codes + 1.
Proof.
  unfold occurrences. rewrite filter_app, length_app. cbn [filter].
  rewrite code_eqb_refl. cbn [List.length]. lia.
Qed.

Lemma occurrences_snoc_other (c d : ErrorCode) (codes : list ErrorCode) :
  c <> d -> occurrences c (codes ++ [d]) = occurrences c codes.
Proof.
  intros Hne. unfold occurrences. rewrite filter_app, length_app. cbn [filter].
  rewrite (code_eqb_neq c d Hne). cbn [List.length]. lia.
Qed.

Lemma occurrences_notin (c : ErrorCode) (codes : list ErrorCode) :
  ~ In c codes -> occurrences c codes = 0.
Proof.
  unfold occurrences. induction codes as [| d codes IH]; intros Hn; [ reflexivity | ].
  cbn [filter]. rewrite code_eqb_neq.
  - apply IH. intros Hin. apply Hn. right. exact Hin.
  - intros ->. apply Hn. left. reflexivity.
Qed.

(** The sum that [getErrorStats] takes. *)
Lemma sum_from (counts : list Z) (a : Z) :
  fold_left (fun sum count => sum + count) counts a
  = a + fold_left (fun sum count => sum + count) counts 0.
Proof.
  revert a. induction counts as [| n counts IH]; intros a; cbn [fold_left].
  - lia.
  - rewrite (IH (a + n)), (IH (0 + n)). lia.
Qed.

Lemma sum_map_set (k : string) (v : Z) (m : JS.Map Z) :
  fold_left (fun sum count => sum + count) (List.map snd (JS.map_set k v m)) 0
  = fold_left (fun sum count => sum + count) (List.map snd m) 0
    - match JS.map_get k m with Some n => n | None => 0 end + v.
Proof.
  induction m as [| [k' v'] rest IH]; cbn [JS.map_set JS.map_get].
  - cbn. lia.
  - destruct (String.eqb k' k) eqn:E; cbn [List.map snd fold_left].
    + rewrite (sum_from _ (0 + v)), (sum_from _ (0 + v')). lia.
    + rewrite (sum_from _ (0 + v')), IH.
      rewrite (sum_from (List.map snd rest) (0 + v')). lia.
Qed.

(** [forEach] into a fresh object copies a map. *)
Lemma fold_set_copy (m acc : JS.Map Z) :
  NoDup (JS.map_keys (acc ++ m)) ->
  fold_left (fun obj en => JS.map_set (fst en) (snd en) obj) m acc = (acc ++ m)%list.
Proof.
  revert acc. induction m as [| [k v] rest IH]; intros acc Hnd; cbn [fold_left].
  - rewrite app_nil_r. reflexivity.
  - cbn [fst snd].
    assert (Hk : ~ In k (JS.map_keys acc)).
    { unfold JS.map_keys in *. rewrite map_app in Hnd. cbn [List.map fst] in Hnd.
      apply NoDup_remove_2 in Hnd. intros Hin. apply Hnd, in_or_app. left. exact Hin. }
    rewrite (MapFacts.map_set_new k v acc Hk).
    rewrite IH; rewrite <- app_assoc; [ reflexivity | exact Hnd ].
Qed.

Section WithHandler.
Variable toLowerCase : string -> string.
Variables ErrorContext Details : Type.

Abbreviation env := (ErrorHandler.env ErrorContext Details).
Abbreviation Error := (ErrorHandler.Error ErrorContext Details).
Abbreviation step := (ErrorHandler.step ErrorContext Details).

Ltac handler_run :=
  cbv beta iota zeta delta
    [JS.bind JS.ret JS.gets JS.modify JS.throw eval
     handleError normalizeError updateErrorStats notify perform
     clearErrorStats setErrorLogger setErrorNotifier fst snd
     ErrorHandler.this ErrorHandler.now ErrorHandler.shown
     errorLogger errorNotifier errorCounts lastErrorTime].

Lemma code_normalized (error : Error) (context : option ErrorContext) (e : env) :
  code (normalized toLowerCase error context e) = code_of toLowerCase error.
Proof. destruct error; reflexivity. Qed.

(** What [handleError] leaves of the instance. *)
Lemma handleError_this (error : Error) (context : option ErrorContext) (e : env) :
  ErrorHandler.this (snd (handleError toLowerCase error context e))
  = if logged toLowerCase error context e
    then mk (errorLogger (ErrorHandler.this e)) (errorNotifier (ErrorHandler.this e))
            (JS.map_set (code_name (code_of toLowerCase error))
                        (count_in (code_of toLowerCase error)
                                  (errorCounts (ErrorHandler.this e)) + 1)
                        (errorCounts (ErrorHandler.this e)))
            (JS.map_set (code_name (code_of toLowerCase error))
                        (timestamp (normalized toLowerCase error context e))
                        (lastErrorTime (ErrorHandler.this e)))
    else ErrorHandler.this e.
Proof.
  rewrite <- (code_normalized error context e).
  unfold logged, count_in.
  destruct e as [t0 [lg nt cs ts] sh].
  set (e := mkEnv t0 (mk lg nt cs ts) sh).
  assert (Hn : normalizeError toLowerCase error context e
               = (JS.Normal (normalized toLowerCase error context e), e))
    by (destruct error; reflexivity).
  unfold handleError. unfold JS.bind at 1. rewrite Hn.
  set (a := normalized toLowerCase error context e).
  subst e. handler_run.
  destruct (JS.result (lg a context)) as [u | reason]; [ | reflexivity ].
  destruct (negb (isUserInputError a)); [ | reflexivity ].
  destruct nt as [[|] | f]; try reflexivity.
  destruct (f (getUserFriendlyMessage a) (code a) (severity a)); reflexivity.
Qed.


(** [handleError] with a [ToastErrorNotifier] in place, in one piece. *)
Lemma handleError_toast (error : Error) (context : option ErrorContext) (e : env)
      (toast : bool) :
  errorNotifier (ErrorHandler.this e) = ToastErrorNotifier toast ->
  let a := normalized toLowerCase error context e in
  let r := errorLogger (ErrorHandler.this e) a context in
  handleError toLowerCase error context e
  = match JS.result r with
    | JS.Resolved _ =>
        (JS.Normal (response_of a),
         mkEnv (ErrorHandler.now e + Z.of_N (JS.latency r))
               (mk (errorLogger (ErrorHandler.this e)) (errorNotifier (ErrorHandler.this e))
                   (JS.map_set (code_name (code a))
                               (count_in (code a) (errorCounts (ErrorHandler.this e)) + 1)
                               (errorCounts (ErrorHandler.this e)))
                   (JS.map_set (code_name (code a)) (timestamp a)
                               (lastErrorTime (ErrorHandler.this e))))
               (ErrorHandler.shown e
                ++ (if toast && negb (isUserInputError a) then [toast_for a] else [])))
    | JS.Rejected reason =>
        (JS.Throw reason,
         mkEnv (ErrorHandler.now e + Z.of_N (JS.latency r)) (ErrorHandler.this e)
               (ErrorHandler.shown e))
    end.
Proof.
  intros Hnt a r. subst r a.
  destruct e as [t0 [lg nt cs ts] sh]. cbn [ErrorHandler.this errorNotifier] in Hnt.
  subst nt.
  set (e := mkEnv t0 (mk lg (ToastErrorNotifier toast) cs ts) sh).
  assert (Hn : normalizeError toLowerCase error context e
               = (JS.Normal (normalized toLowerCase error context e), e))
    by (destruct error; reflexivity).
  unfold handleError. unfold JS.bind at 1. rewrite Hn.
  set (a := normalized toLowerCase error context e).
  subst e. unfold count_in, toast_for. handler_run.
  destruct (JS.result (lg a context)) as [u | reason]; [ | reflexivity ].
  destruct (isUserInputError a); cbn [negb andb].
  - rewrite andb_false_r, app_nil_r. reflexivity.
  - destruct toast; cbn [andb]; rewrite ?app_nil_r; reflexivity.
Qed.

(** X25.  [handleError] with a [ToastErrorNotifier] in place.  The clock
    moves on by the time the logger takes.  When the logger resolves, the
    call returns the response of the normalized error; the count of its
    code goes up by one and its time stamp is stored as the last time of
    the code, the counts and times of the other codes stay; and one toast
    is shown for it, unless the toast function was never injected or the
    error is a user input error.  When the logger rejects, the call throws
    the reason, and the error is neither counted nor shown. *)
Theorem handleError_counts_and_shows_what_was_logged
        (error : Error) (context : option ErrorContext) (e : env) (toast : bool) :
  errorNotifier (ErrorHandler.this e) = ToastErrorNotifier toast ->
  let a := normalized toLowerCase error context e in
  let r := errorLogger (ErrorHandler.this e) a context in
  let e' := snd (handleError toLowerCase error context e) in
  ErrorHandler.now e' = ErrorHandler.now e + Z.of_N (JS.latency r) /\
  match JS.result r with
  | JS.Resolved _ =>
      fst (handleError toLowerCase error context e) = JS.Normal (response_of a) /\
      r_code (response_of a) = code_of toLowerCase error /\
      count_in (code a) (errorCounts (ErrorHandler.this e'))
      = count_in (code a) (errorCounts (ErrorHandler.this e)) + 1 /\
      JS.map_get (code_name (code a)) (lastErrorTime (ErrorHandler.this e'))
      = Some (timestamp a) /\
      (forall c, c <> code a ->
         count_in c (errorCounts (ErrorHandler.this e'))
         = count_in c (errorCounts (ErrorHandler.this e)) /\
         JS.map_get (code_name c) (lastErrorTime (ErrorHandler.this e'))
         = JS.map_get (code_name c) (lastErrorTime (ErrorHandler.this e))) /\
      ErrorHandler.shown e'
      = (ErrorHandler.shown e
         ++ (if toast && negb (isUserInputError a) then [toast_for a] else []))%list
  | JS.Rejected reason =>
      fst (handleError toLowerCase error context e) = JS.Throw reason /\
      ErrorHandler.this e' = ErrorHandler.this e /\
      ErrorHandler.shown e' = ErrorHandler.shown e
  end.
Proof.
  intros Hnt a r e'.
  pose proof (handleError_this error context e) as Hthis.
  pose proof (handleError_toast error context e toast Hnt) as Hrun.
  cbv zeta in Hrun. fold a in Hrun. fold r in Hrun.
  fold e' in Hthis. unfold logged in Hthis. fold a in Hthis. fold r in Hthis.
  rewrite <- (code_normalized error context e) in Hthis. fold a in Hthis.
  assert (He : e' = snd (handleError toLowerCase error context e)) by reflexivity.
  destruct (JS.result r) as [u | reason]; rewrite Hrun in He |- *; cbn [fst snd] in He |- *.
  - split; [ rewrite He; reflexivity | ].
    split; [ reflexivity | ].
    split; [ apply code_normalized | ].
    assert (Hshown : ErrorHandler.shown e'
                     = (ErrorHandler.shown e
                        ++ (if toast && negb (isUserInputError a)
                            then [toast_for a] else []))%list)
      by (rewrite He; reflexivity).
    rewrite Hthis. cbn [errorCounts lastErrorTime].
    split; [ unfold count_in at 1; rewrite MapFacts.map_get_set_same; reflexivity | ].
    split; [ apply MapFacts.map_get_set_same | ].
    split; [ | exact Hshown ].
    intros c Hc.
    assert (Hk : code_name c <> code_name (code a))
      by (intros H; apply Hc, code_name_injective, H).
    split.
    + unfold count_in at 1. rewrite (MapFacts.map_get_set_other _ _ Hk). reflexivity.
    + apply MapFacts.map_get_set_other. exact Hk.
  - split; [ rewrite He; reflexivity | ].
    split; [ reflexivity | ]. split; [ exact Hthis | rewrite He; reflexivity ].
Qed.

Lemma filed_clear (e : env) (codes : list ErrorCode) :
  errorCounts (ErrorHandler.this e) = [] ->
  lastErrorTime (ErrorHandler.this e) = [] ->
  filed e [].
Proof.
  intros Hc Ht. unfold filed, count_in. rewrite Hc, Ht.
  split; [ constructor | ]. split; [ reflexivity | ].
  split; intros c; reflexivity.
Qed.

Lemma filed_handle (error : Error) (context : option ErrorContext) (e : env)
      (codes : list ErrorCode) :
  filed e codes ->
  filed (snd (handleError toLowerCase error context e))
        (if logged toLowerCase error context e
         then codes ++ [code_of toLowerCase error] else codes).
Proof.
  intros (Hnd & Hsum & Hcount & Htime). unfold filed.
  rewrite (handleError_this error context e).
  destruct (logged toLowerCase error context e); [ | repeat split; assumption ].
  cbn [errorCounts lastErrorTime].
  set (c0 := code_of toLowerCase error) in *.
  split; [ apply MapFacts.map_set_NoDup, Hnd | ].
  split.
  { rewrite sum_map_set, Hsum. fold (count_in c0 (errorCounts (ErrorHandler.this e))).
    rewrite length_app. cbn [List.length]. lia. }
  split.
  - intros c. destruct (String.eqb (code_name c) (code_name c0)) eqn:E.
    + apply String.eqb_eq, code_name_injective in E. subst c.
      unfold count_in at 1. rewrite MapFacts.map_get_set_same.
      rewrite occurrences_snoc_same, Hcount. reflexivity.
    + apply String.eqb_neq in E.
      unfold count_in at 1. rewrite (MapFacts.map_get_set_other _ _ E).
      fold (count_in c (errorCounts (ErrorHandler.this e))).
      rewrite occurrences_snoc_other by (intros ->; apply E; reflexivity).
      apply Hcount.
  - intros c Hn.
    assert (Hc : c <> c0) by (intros ->; apply Hn, in_or_app; right; left; reflexivity).
    rewrite MapFacts.map_get_set_other by (intros H; apply Hc, code_name_injective, H).
    apply Htime. intros Hin. apply Hn, in_or_app. left. exact Hin.
Qed.

Lemma filed_run (steps : list step) (e : env) (codes : list ErrorCode) :
  filed e codes ->
  filed (run toLowerCase steps e) (tally toLowerCase steps e codes).
Proof.
  revert e codes. induction steps as [| s rest IH]; intros e codes Hf; [ exact Hf | ].
  cbn [run tally]. apply IH.
  destruct s as [error context | | logger | notifier | d].
  - assert (Hs : snd (perform toLowerCase (Handle error context) e)
                 = snd (handleError toLowerCase error context e)).
    { cbn [perform]. unfold JS.bind.
      destruct (handleError toLowerCase error context e) as [[r | reason] e'];
        reflexivity. }
    rewrite Hs. apply filed_handle, Hf.
  - apply (filed_clear _ []); reflexivity.
  - exact Hf.
  - exact Hf.
  - exact Hf.
Qed.

(** X26.  The statistics of a handler that starts without any, after any
    steps: errors handled, by a logger that resolves or rejects and a
    notifier of any kind, clearing, other loggers and notifiers, time
    passing.  [getErrorStats] returns as [totalErrors] the number of errors
    that were logged since the statistics were last cleared, and as
    [errorsByCode] the counts themselves, where every code has the number
    of times it was logged; [isErrorRateHigh] is false for a code that was
    not logged since, whatever the threshold (also 0 or below) and the
    window, and for a code that was logged less often than the
    threshold. *)
Theorem statistics_count_the_errors_logged_since_the_last_clear
        (steps : list step) (e : env) :
  errorCounts (ErrorHandler.this e) = [] ->
  lastErrorTime (ErrorHandler.this e) = [] ->
  let e' := run toLowerCase steps e in
  let codes := tally toLowerCase steps e [] in
  (exists stats,
      getErrorStats e' = (JS.Normal stats, e') /\
      totalErrors stats = Z.of_nat (List.length codes) /\
      errorsByCode stats = errorCounts (ErrorHandler.this e') /\
      forall c, count_in c (errorsByCode stats) = occurrences c codes) /\
  (forall c threshold timeWindowMs,
      ~ In c codes \/ occurrences c codes < threshold ->
      isErrorRateHigh c threshold timeWindowMs e' = (JS.Normal false, e')).
Proof.
  intros Hc Ht e' codes.
  destruct (filed_run steps e [] (filed_clear e [] Hc Ht)) as (Hnd & Hsum & Hcount & Htime).
  fold e' in Hnd, Hsum, Hcount, Htime. fold codes in Hsum, Hcount, Htime.
  split.
  - eexists. split; [ reflexivity | ]. cbn [totalErrors errorsByCode].
    split; [ exact Hsum | ].
    assert (Hcopy : fold_left (fun obj en => JS.map_set (fst en) (snd en) obj)
                              (errorCounts (ErrorHandler.this e')) []
                    = errorCounts (ErrorHandler.this e'))
      by (apply (fold_set_copy _ []); exact Hnd).
    unfold JS.gets, JS.bind, JS.ret. cbn [fst snd errorsByCode]. 
    split; [ exact Hcopy | ].
    intros c. rewrite Hcopy. apply Hcount.
  - intros c threshold timeWindowMs Hless.
    unfold isErrorRateHigh, JS.bind, JS.gets, JS.ret.
    fold (count_in c (errorCounts (ErrorHandler.this e'))). rewrite (Hcount c).
    destruct (JS.map_get (code_name c) (lastErrorTime (ErrorHandler.this e'))) eqn:El;
      [ | reflexivity ].
    destruct Hless as [Hn | Hlt].
    + rewrite (Htime c Hn) in El. discriminate El.
    + replace (threshold <=? occurrences c codes) with false
        by (symmetry; apply Z.leb_gt; exact Hlt).
      reflexivity.
Qed.

End WithHandler.

Lemma handleError_counts_and_shows_what_was_logged_witness :
  errorNotifier (ErrorHandler.this Fixture.handler) = ToastErrorNotifier true /\
  fst (handleError Fixture.lower (AnError "TypeError" "Network request failed") None
                   Fixture.handler)
  = JS.Normal (response_of
                 (new_AppError 0 NETWORK_ERROR "Network request failed"
                               (mkOptions None None None None))) /\
  count_in NETWORK_ERROR
           (errorCounts
              (ErrorHandler.this
                 (snd (handleError Fixture.lower
                                   (AnError "TypeError" "Network request failed") None
                                   Fixture.handler)))) = 1 /\
  List.length
    (ErrorHandler.shown
       (snd (handleError Fixture.lower
                         (AnError "TypeError" "Network request failed") None
                         Fixture.handler))) = 1%nat.
Proof.
  split; [ reflexivity | ].
  destruct (handleError_counts_and_shows_what_was_logged
              Fixture.lower string string
              (AnError "TypeError" "Network request failed") None Fixture.handler true
              eq_refl) as (_ & Hout & _ & Hcount & _ & _ & Hshown).
  split; [ exact Hout | ].
  split; [ exact Hcount | ].
  rewrite Hshown. reflexivity.
Defined.

Lemma statistics_count_the_errors_logged_since_the_last_clear_witness :
  exists stats,
    getErrorStats (run Fixture.lower Fixture.handled Fixture.handler)
    = (JS.Normal stats, run Fixture.lower Fixture.handled Fixture.handler) /\
    totalErrors stats = 2 /\
    count_in TIMEOUT_ERROR (errorsByCode stats) = 2 /\
    isErrorRateHigh NETWORK_ERROR 0 60000
                    (run Fixture.lower Fixture.handled Fixture.handler)
    = (JS.Normal false, run Fixture.lower Fixture.handled Fixture.handler).
Proof.
  destruct (statistics_count_the_errors_logged_since_the_last_clear
              Fixture.lower string string Fixture.handled Fixture.handler
              eq_refl eq_refl) as ((stats & Hs & Ht & _ & Hc) & Hh).
  assert (Hcodes : tally Fixture.lower Fixture.handled Fixture.handler []
                   = [TIMEOUT_ERROR; TIMEOUT_ERROR]) by (vm_compute; reflexivity).
  rewrite Hcodes in Ht, Hc, Hh.
  exists stats. split; [ exact Hs | ].
  split; [ exact Ht | ].
  split; [ exact (Hc TIMEOUT_ERROR) | ].
  apply Hh. left. cbn [In]. intros [H | [H | []]]; discriminate H.
Defined.

End Handler.
